(** * Verification of the video-forwarding pipeline

    A shallow embedding of the runtime engine of [auto_upload_tiktok]:
    the SQLite repositories, the discovery loop ([AccountMonitor]), the
    processing pipeline ([VideoProcessor]), the account manager and the
    bootstrapper of [cmd/main.go].

    Conventions of the embedding.
    - Go's [(value, error)] returns are the type [result]; an [error] is
      the text of [err.Error()].
    - All persistent state is the record [World]: the two SQLite tables
      as lists of rows in rowid order, the wall clock read by
      [time.Now()], the schedule of storage failures met by the next
      statements sent to the database, the counter behind
      [uuid.NewString()], and a ghost trace of the statements and remote
      calls performed.
    - Code that threads the store is written in the state-and-error
      monad [M].
    - The remote collaborators (source listing, extractor, sink HTTP
      endpoints) are the fields of the record [Services].
    - [sort.Slice] is the class [SortSlice]: any permutation sorted by
      the comparison; insertion sort is an instance.
    - The buffered channels used as semaphores and the goroutines around
      [processVideo] are an interleaving semantics of their own, module
      [admission]. *)

From Stdlib Require Import String Ascii List ZArith Lia Bool Arith.
From Stdlib Require Import Permutation Sorted DecimalString DecimalPos.
Import ListNotations.

Local Open Scope string_scope.
Local Open Scope Z_scope.

(** Go's [==] and [!=] on strings. *)
Notation "a == b" := (String.eqb a b) (at level 70, no associativity).
Notation "a != b" := (negb (String.eqb a b)) (at level 70, no associativity).

(** ** Machine integers and time *)

(** Go's [int] and [int64] on a 64-bit platform: two's complement
    wrap-around written out over [Z]. *)
Definition int64 (z : Z) : Z := (z + 2 ^ 63) mod 2 ^ 64 - 2 ^ 63.

Module time.
(** An instant, in nanoseconds since Go's zero [time.Time]
    (1 January of year 1, 00:00 UTC). *)
Definition Time := Z.
(** [time.Duration] is an [int64] count of nanoseconds. *)
Definition Duration := Z.

Definition Second : Duration := 1000000000.
Definition Minute : Duration := 60 * Second.
Definition Hour : Duration := 60 * Minute.

(** [time.Duration(n) * unit], with the [int64] overflow of Go. *)
Definition scale (n : Z) (unit : Duration) : Duration := int64 (int64 n * unit).

Definition IsZero (t : Time) : bool := t =? 0.
Definition Before (t u : Time) : bool := t <? u.
Definition After (t u : Time) : bool := u <? t.
Definition Add (t : Time) (d : Duration) : Time := t + d.
End time.

(** ** Results *)

Inductive result (A : Type) : Type :=
| Ok (a : A)
| Err (e : string).
Arguments Ok {A} a.
Arguments Err {A} e.

Definition is_ok {A} (r : result A) : bool :=
  match r with Ok _ => true | Err _ => false end.

(** ** package domain *)

Module domain.

Definition VideoStatus := string.
Definition VideoStatusPending : VideoStatus := "pending".
Definition VideoStatusDownloading : VideoStatus := "downloading".
Definition VideoStatusDownloaded : VideoStatus := "downloaded".
Definition VideoStatusUploading : VideoStatus := "uploading".
Definition VideoStatusCompleted : VideoStatus := "completed".
Definition VideoStatusFailed : VideoStatus := "failed".

Module Account.
Record t := mk {
  ID : string;
  YouTubeChannelID : string;
  TikTokAccountID : string;
  TikTokAccessToken : string;
  TikTokRefreshToken : string;
  TikTokTokenExpiresAt : option time.Time;
  LastCheckedAt : time.Time;
  LastVideoID : string;
  IsActive : bool;
  CreatedAt : time.Time;
  UpdatedAt : time.Time
}.

Definition with_ID x a := mk x (YouTubeChannelID a) (TikTokAccountID a)
  (TikTokAccessToken a) (TikTokRefreshToken a) (TikTokTokenExpiresAt a)
  (LastCheckedAt a) (LastVideoID a) (IsActive a) (CreatedAt a) (UpdatedAt a).
Definition with_YouTubeChannelID x a := mk (ID a) x (TikTokAccountID a)
  (TikTokAccessToken a) (TikTokRefreshToken a) (TikTokTokenExpiresAt a)
  (LastCheckedAt a) (LastVideoID a) (IsActive a) (CreatedAt a) (UpdatedAt a).
Definition with_TikTokAccountID x a := mk (ID a) (YouTubeChannelID a) x
  (TikTokAccessToken a) (TikTokRefreshToken a) (TikTokTokenExpiresAt a)
  (LastCheckedAt a) (LastVideoID a) (IsActive a) (CreatedAt a) (UpdatedAt a).
Definition with_TikTokAccessToken x a := mk (ID a) (YouTubeChannelID a)
  (TikTokAccountID a) x (TikTokRefreshToken a) (TikTokTokenExpiresAt a)
  (LastCheckedAt a) (LastVideoID a) (IsActive a) (CreatedAt a) (UpdatedAt a).
Definition with_TikTokRefreshToken x a := mk (ID a) (YouTubeChannelID a)
  (TikTokAccountID a) (TikTokAccessToken a) x (TikTokTokenExpiresAt a)
  (LastCheckedAt a) (LastVideoID a) (IsActive a) (CreatedAt a) (UpdatedAt a).
Definition with_TikTokTokenExpiresAt x a := mk (ID a) (YouTubeChannelID a)
  (TikTokAccountID a) (TikTokAccessToken a) (TikTokRefreshToken a) x
  (LastCheckedAt a) (LastVideoID a) (IsActive a) (CreatedAt a) (UpdatedAt a).
Definition with_LastCheckedAt x a := mk (ID a) (YouTubeChannelID a)
  (TikTokAccountID a) (TikTokAccessToken a) (TikTokRefreshToken a)
  (TikTokTokenExpiresAt a) x (LastVideoID a) (IsActive a) (CreatedAt a)
  (UpdatedAt a).
Definition with_LastVideoID x a := mk (ID a) (YouTubeChannelID a)
  (TikTokAccountID a) (TikTokAccessToken a) (TikTokRefreshToken a)
  (TikTokTokenExpiresAt a) (LastCheckedAt a) x (IsActive a) (CreatedAt a)
  (UpdatedAt a).
Definition with_IsActive x a := mk (ID a) (YouTubeChannelID a)
  (TikTokAccountID a) (TikTokAccessToken a) (TikTokRefreshToken a)
  (TikTokTokenExpiresAt a) (LastCheckedAt a) (LastVideoID a) x (CreatedAt a)
  (UpdatedAt a).
Definition with_CreatedAt x a := mk (ID a) (YouTubeChannelID a)
  (TikTokAccountID a) (TikTokAccessToken a) (TikTokRefreshToken a)
  (TikTokTokenExpiresAt a) (LastCheckedAt a) (LastVideoID a) (IsActive a) x
  (UpdatedAt a).
Definition with_UpdatedAt x a := mk (ID a) (YouTubeChannelID a)
  (TikTokAccountID a) (TikTokAccessToken a) (TikTokRefreshToken a)
  (TikTokTokenExpiresAt a) (LastCheckedAt a) (LastVideoID a) (IsActive a)
  (CreatedAt a) x.
End Account.

Module Video.
Record t := mk {
  ID : string;
  YouTubeVideoID : string;
  AccountID : string;
  Title : string;
  Description : string;
  ThumbnailURL : string;
  VideoURL : string;
  LocalFilePath : string;
  Status : VideoStatus;
  ErrorMessage : string;
  TikTokVideoID : string;
  CreatedAt : time.Time;
  UpdatedAt : time.Time;
  PublishedAt : time.Time
}.

Definition with_ID x v := mk x (YouTubeVideoID v) (AccountID v) (Title v)
  (Description v) (ThumbnailURL v) (VideoURL v) (LocalFilePath v) (Status v)
  (ErrorMessage v) (TikTokVideoID v) (CreatedAt v) (UpdatedAt v) (PublishedAt v).
Definition with_AccountID x v := mk (ID v) (YouTubeVideoID v) x (Title v)
  (Description v) (ThumbnailURL v) (VideoURL v) (LocalFilePath v) (Status v)
  (ErrorMessage v) (TikTokVideoID v) (CreatedAt v) (UpdatedAt v) (PublishedAt v).
Definition with_LocalFilePath x v := mk (ID v) (YouTubeVideoID v) (AccountID v)
  (Title v) (Description v) (ThumbnailURL v) (VideoURL v) x (Status v)
  (ErrorMessage v) (TikTokVideoID v) (CreatedAt v) (UpdatedAt v) (PublishedAt v).
Definition with_Status x v := mk (ID v) (YouTubeVideoID v) (AccountID v)
  (Title v) (Description v) (ThumbnailURL v) (VideoURL v) (LocalFilePath v) x
  (ErrorMessage v) (TikTokVideoID v) (CreatedAt v) (UpdatedAt v) (PublishedAt v).
Definition with_ErrorMessage x v := mk (ID v) (YouTubeVideoID v) (AccountID v)
  (Title v) (Description v) (ThumbnailURL v) (VideoURL v) (LocalFilePath v)
  (Status v) x (TikTokVideoID v) (CreatedAt v) (UpdatedAt v) (PublishedAt v).
Definition with_TikTokVideoID x v := mk (ID v) (YouTubeVideoID v) (AccountID v)
  (Title v) (Description v) (ThumbnailURL v) (VideoURL v) (LocalFilePath v)
  (Status v) (ErrorMessage v) x (CreatedAt v) (UpdatedAt v) (PublishedAt v).
Definition with_CreatedAt x v := mk (ID v) (YouTubeVideoID v) (AccountID v)
  (Title v) (Description v) (ThumbnailURL v) (VideoURL v) (LocalFilePath v)
  (Status v) (ErrorMessage v) (TikTokVideoID v) x (UpdatedAt v) (PublishedAt v).
Definition with_UpdatedAt x v := mk (ID v) (YouTubeVideoID v) (AccountID v)
  (Title v) (Description v) (ThumbnailURL v) (VideoURL v) (LocalFilePath v)
  (Status v) (ErrorMessage v) (TikTokVideoID v) (CreatedAt v) x (PublishedAt v).
End Video.

End domain.
Import domain.

(** The success path [pending -> downloading -> downloaded -> uploading ->
    completed] of the spec, as a rank; [failed] and unknown texts are off
    the path. *)
Definition success_rank (s : VideoStatus) : option nat :=
  if s == VideoStatusPending then Some 0%nat
  else if s == VideoStatusDownloading then Some 1%nat
  else if s == VideoStatusDownloaded then Some 2%nat
  else if s == VideoStatusUploading then Some 3%nat
  else if s == VideoStatusCompleted then Some 4%nat
  else None.

(** [regresses old new]: both statuses are on the success path and [new]
    is strictly earlier than [old]. *)
Definition regresses (old new : VideoStatus) : bool :=
  match success_rank old, success_rank new with
  | Some a, Some b => (b <? a)%nat
  | _, _ => false
  end.

(** ** The world: store, clock, failures, ghost trace *)

Inductive Event : Type :=
| EvVideoLookup (youtubeID : string) (ok : bool)
| EvVideoSave (id youtubeID : string) (status : VideoStatus) (ok : bool)
| EvStatus (id : string) (status : VideoStatus)
| EvFilePath (id : string) (path : string)
| EvTikTokID (id : string) (tiktokID : string)
| EvLastChecked (id lastVideoID : string) (checkedAt : time.Time)
| EvAccountSave (id : string) (ok : bool)
| EvList (channelID : string)
| EvDownload (youtubeID : string)
| EvVerify (accessToken : string)
| EvRefresh (refreshToken : string)
| EvUpload (accessToken openID videoPath : string).

Record World := mkWorld {
  accounts : list Account.t;   (* table accounts, rowid order *)
  videos : list Video.t;       (* table videos, rowid order *)
  faults : list bool;          (* true: the next statement fails *)
  now : time.Time;             (* the reading of time.Now() *)
  uuids : nat;                 (* state of uuid.NewString() *)
  trace : list Event           (* ghost: what has been performed *)
}.

Definition set_accounts x w :=
  mkWorld x (videos w) (faults w) (now w) (uuids w) (trace w).
Definition set_videos x w :=
  mkWorld (accounts w) x (faults w) (now w) (uuids w) (trace w).
Definition set_faults x w :=
  mkWorld (accounts w) (videos w) x (now w) (uuids w) (trace w).
Definition set_uuids x w :=
  mkWorld (accounts w) (videos w) (faults w) (now w) x (trace w).
Definition set_trace x w :=
  mkWorld (accounts w) (videos w) (faults w) (now w) (uuids w) x.

(** ** The state-and-error monad *)

Definition M (A : Type) : Type := World -> result A * World.

Definition ret {A} (a : A) : M A := fun w => (Ok a, w).
Definition fail {A} (e : string) : M A := fun w => (Err e, w).
Definition bind {A B} (m : M A) (k : A -> M B) : M B :=
  fun w => match m w with
           | (Ok a, w') => k a w'
           | (Err e, w') => (Err e, w')
           end.
(** [attempt m] runs [m] and hands its [(value, err)] pair to the caller,
    as Go does when the caller inspects [err] itself. *)
Definition attempt {A} (m : M A) : M (result A) :=
  fun w => let (r, w') := m w in (Ok r, w').
(** [fmt.Errorf(prefix + ": %w", err)] on the error path. *)
Definition wrap {A} (prefix : string) (m : M A) : M A :=
  fun w => match m w with
           | (Ok a, w') => (Ok a, w')
           | (Err e, w') => (Err (prefix ++ ": " ++ e), w')
           end.
Definition lift {A} (r : result A) : M A := fun w => (r, w).

Declare Scope go_scope.
Delimit Scope go_scope with go.
Notation "x <- m ;; k" := (bind m (fun x => k))
  (at level 61, m at next level, right associativity) : go_scope.
Notation "m ;;; k" := (bind m (fun _ => k))
  (at level 61, right associativity) : go_scope.
Local Open Scope go_scope.

Definition emit (e : Event) : M unit :=
  fun w => (Ok tt, set_trace (trace w ++ [e]) w).
Definition time_Now : M time.Time := fun w => (Ok (now w), w).

(** [uuid.NewString()]: a fresh text per call. *)
Definition uuid_NewString : M string :=
  fun w => (Ok ("uuid-" ++ NilEmpty.string_of_uint (Nat.to_uint (uuids w))),
            set_uuids (S (uuids w)) w).

(** [db.Exec] / [db.QueryRow] reaching the database: the next entry of
    the failure schedule decides whether the statement is run at all. *)
Definition statement : M unit :=
  fun w => match faults w with
           | true :: fs => (Err "sqlite: statement failed", set_faults fs w)
           | false :: fs => (Ok tt, set_faults fs w)
           | [] => (Ok tt, w)
           end.

Definition get : M World := fun w => (Ok w, w).
Definition modify (f : World -> World) : M unit := fun w => (Ok tt, f w).

(** [ORDER BY key ASC]: rows with equal keys stay in rowid order. *)
Fixpoint insert_by {A} (key : A -> Z) (x : A) (l : list A) : list A :=
  match l with
  | [] => [x]
  | y :: l' => if key x <? key y then x :: y :: l' else y :: insert_by key x l'
  end.
Definition order_by {A} (key : A -> Z) (l : list A) : list A :=
  fold_left (fun acc x => insert_by key x acc) l [].

(** [LIMIT n]; a negative limit is no limit in SQLite. *)
Definition limit_rows {A} (n : Z) (l : list A) : list A :=
  if n <? 0 then l else firstn (Z.to_nat n) l.

(** ** package sqlite: the repositories *)

Module sqlite.

(** *** videos *)

Definition has_video (id : string) (rows : list Video.t) : bool :=
  existsb (fun r => Video.ID r == id) rows.

(** [youtube_video_id TEXT NOT NULL UNIQUE], against the other rows. *)
Definition youtube_video_id_taken (v : Video.t) (rows : list Video.t) : bool :=
  existsb (fun r => (Video.ID r != Video.ID v)
                    && (Video.YouTubeVideoID r == Video.YouTubeVideoID v)) rows.

Definition has_account (id : string) (rows : list Account.t) : bool :=
  existsb (fun r => Account.ID r == id) rows.

(** [INSERT ... ON CONFLICT(id) DO UPDATE SET ...]: every column but
    [id] and [created_at] is taken from the new values. *)
Definition upsert_video (v : Video.t) (rows : list Video.t) : list Video.t :=
  if has_video (Video.ID v) rows
  then map (fun r => if Video.ID r == Video.ID v
                     then Video.with_CreatedAt (Video.CreatedAt r) v else r) rows
  else rows ++ [v].

Definition exec_upsert_video (v : Video.t) : M unit :=
  statement ;;;
  w <- get ;;
  if negb (has_account (Video.AccountID v) (accounts w))
  then fail "FOREIGN KEY constraint failed"
  else if youtube_video_id_taken v (videos w)
  then fail "UNIQUE constraint failed: videos.youtube_video_id"
  else modify (set_videos (upsert_video v (videos w))).

Definition update_videos (id : string) (f : Video.t -> Video.t)
    (rows : list Video.t) : list Video.t :=
  map (fun r => if Video.ID r == id then f r else r) rows.

Module VideoRepository.

Definition GetByYouTubeID (youtubeID : string) : M (option Video.t) :=
  r <- attempt statement ;;
  match r with
  | Err e => emit (EvVideoLookup youtubeID false) ;;; fail e
  | Ok _ =>
      emit (EvVideoLookup youtubeID true) ;;;
      w <- get ;;
      ret (find (fun r => Video.YouTubeVideoID r == youtubeID) (videos w))
  end.

Definition GetPendingVideos (limit : Z) : M (list Video.t) :=
  statement ;;;
  w <- get ;;
  ret (limit_rows limit
         (order_by Video.CreatedAt
            (filter (fun r => Video.Status r == VideoStatusPending) (videos w)))).

Definition CountPending : M Z :=
  statement ;;;
  w <- get ;;
  ret (Z.of_nat (length (filter (fun r => Video.Status r == VideoStatusPending)
                                (videos w)))).

(** [Save] also fills in the caller's struct; the filled struct is
    the value returned on success. *)
Definition Save (video : Video.t) : M Video.t :=
  now <- time_Now ;;
  video <- (if Video.ID video == ""
            then id <- uuid_NewString ;;
                 ret (Video.with_CreatedAt now (Video.with_ID id video))
            else ret video) ;;
  let video := if Video.Status video == ""
               then Video.with_Status VideoStatusPending video else video in
  let video := Video.with_UpdatedAt now video in
  r <- attempt (exec_upsert_video video) ;;
  match r with
  | Err e => emit (EvVideoSave (Video.ID video) (Video.YouTubeVideoID video)
                         (Video.Status video) false) ;;; fail e
  | Ok _ => emit (EvVideoSave (Video.ID video) (Video.YouTubeVideoID video)
                        (Video.Status video) true) ;;; ret video
  end.

Definition UpdateStatus (id : string) (status : VideoStatus) (errorMsg : string)
  : M unit :=
  now <- time_Now ;;
  statement ;;;
  w <- get ;;
  if has_video id (videos w)
  then modify (set_videos (update_videos id
                 (fun r => Video.with_UpdatedAt now
                             (Video.with_ErrorMessage errorMsg
                                (Video.with_Status status r))) (videos w))) ;;;
       emit (EvStatus id status)
  else ret tt.

Definition UpdateFilePath (id : string) (filePath : string) : M unit :=
  now <- time_Now ;;
  statement ;;;
  w <- get ;;
  if has_video id (videos w)
  then modify (set_videos (update_videos id
                 (fun r => Video.with_UpdatedAt now
                             (Video.with_LocalFilePath filePath r)) (videos w))) ;;;
       emit (EvFilePath id filePath)
  else ret tt.

Definition UpdateTikTokID (id : string) (tiktokID : string) : M unit :=
  now <- time_Now ;;
  statement ;;;
  w <- get ;;
  if has_video id (videos w)
  then modify (set_videos (update_videos id
                 (fun r => Video.with_UpdatedAt now
                             (Video.with_TikTokVideoID tiktokID r)) (videos w))) ;;;
       emit (EvTikTokID id tiktokID)
  else ret tt.

End VideoRepository.

(** *** accounts *)

Definition youtube_channel_id_taken (a : Account.t) (rows : list Account.t) : bool :=
  existsb (fun r => (Account.ID r != Account.ID a)
                    && (Account.YouTubeChannelID r == Account.YouTubeChannelID a)) rows.

Definition tiktok_account_id_taken (a : Account.t) (rows : list Account.t) : bool :=
  existsb (fun r => (Account.ID r != Account.ID a)
                    && (Account.TikTokAccountID r == Account.TikTokAccountID a)) rows.

Definition upsert_account (a : Account.t) (rows : list Account.t) : list Account.t :=
  if has_account (Account.ID a) rows
  then map (fun r => if Account.ID r == Account.ID a
                     then Account.with_CreatedAt (Account.CreatedAt r) a else r) rows
  else rows ++ [a].

Definition exec_upsert_account (a : Account.t) : M unit :=
  statement ;;;
  w <- get ;;
  if youtube_channel_id_taken a (accounts w)
  then fail "UNIQUE constraint failed: accounts.youtube_channel_id"
  else if tiktok_account_id_taken a (accounts w)
  then fail "UNIQUE constraint failed: accounts.tiktok_account_id"
  else modify (set_accounts (upsert_account a (accounts w))).

Definition update_accounts (id : string) (f : Account.t -> Account.t)
    (rows : list Account.t) : list Account.t :=
  map (fun r => if Account.ID r == id then f r else r) rows.

Module AccountRepository.

Definition GetAll : M (list Account.t) :=
  statement ;;;
  w <- get ;;
  ret (order_by Account.CreatedAt (accounts w)).

Definition GetAllActive : M (list Account.t) :=
  statement ;;;
  w <- get ;;
  ret (order_by Account.CreatedAt (filter Account.IsActive (accounts w))).

Definition GetByID (id : string) : M (option Account.t) :=
  statement ;;;
  w <- get ;;
  ret (find (fun r => Account.ID r == id) (accounts w)).

Definition GetByYouTubeChannelID (channelID : string) : M (option Account.t) :=
  statement ;;;
  w <- get ;;
  ret (find (fun r => Account.YouTubeChannelID r == channelID) (accounts w)).

Definition GetByTikTokAccountID (tiktokID : string) : M (option Account.t) :=
  statement ;;;
  w <- get ;;
  ret (find (fun r => Account.TikTokAccountID r == tiktokID) (accounts w)).

Definition GetByYouTubeAndTikTok (youtubeChannelID tiktokAccountID : string)
  : M (option Account.t) :=
  statement ;;;
  w <- get ;;
  ret (find (fun r => (Account.YouTubeChannelID r == youtubeChannelID)
                      && (Account.TikTokAccountID r == tiktokAccountID))
            (accounts w)).

Definition UpdateLastChecked (id lastVideoID : string) (checkedAt : time.Time)
  : M unit :=
  now <- time_Now ;;
  statement ;;;
  w <- get ;;
  if has_account id (accounts w)
  then modify (set_accounts (update_accounts id
                 (fun r => Account.with_UpdatedAt now
                             (Account.with_LastCheckedAt checkedAt
                                (Account.with_LastVideoID lastVideoID r)))
                 (accounts w))) ;;;
       emit (EvLastChecked id lastVideoID checkedAt)
  else ret tt.

Definition Save (account : Account.t) : M Account.t :=
  now <- time_Now ;;
  account <- (if Account.ID account == ""
              then id <- uuid_NewString ;;
                   ret (Account.with_CreatedAt now (Account.with_ID id account))
              else ret account) ;;
  let account := Account.with_UpdatedAt now account in
  r <- attempt (exec_upsert_account account) ;;
  match r with
  | Err e => emit (EvAccountSave (Account.ID account) false) ;;; fail e
  | Ok _ => emit (EvAccountSave (Account.ID account) true) ;;; ret account
  end.

(** [DELETE FROM accounts WHERE id = ?].  Table [videos] declares
    [FOREIGN KEY(account_id) REFERENCES accounts(id) ON DELETE CASCADE]
    and [configurePragmas] turns foreign keys on: the videos of a
    deleted account go with it. *)
Definition Delete (id : string) : M unit :=
  statement ;;;
  w <- get ;;
  if has_account id (accounts w)
  then modify (fun w =>
         set_videos (filter (fun v => Video.AccountID v != id) (videos w))
           (set_accounts (filter (fun r => Account.ID r != id) (accounts w)) w))
  else ret tt.

End AccountRepository.

End sqlite.

(** ** package config *)

Module config.

Record AccountBootstrap := mkAccountBootstrap {
  YouTubeChannelID : string;
  TikTokAccountID : string;
  TikTokAccessToken : string;
  IsActive : option bool          (* *bool *)
}.

Record Config := mkConfig {
  TikTokAPIKey : string;
  TikTokRedirectURI : string;
  TikTokEnableWeb : bool;
  CronSchedule : string;
  MaxConcurrentDownloads : Z;
  MaxConcurrentUploads : Z;
  WorkerPoolSize : Z;
  BootstrapAccounts : list AccountBootstrap
}.

End config.

(** ** net/url: [url.QueryEscape] *)

Module url.

Definition unreserved (c : ascii) : bool :=
  let n := nat_of_ascii c in
  ((48 <=? n) && (n <=? 57) || (65 <=? n) && (n <=? 90)
   || (97 <=? n) && (n <=? 122)
   || (n =? 45) || (n =? 95) || (n =? 46) || (n =? 126))%nat.

Definition upperhex (n : nat) : ascii :=
  match String.get n "0123456789ABCDEF" with
  | Some c => c
  | None => "0"%char
  end.

Fixpoint QueryEscape (s : string) : string :=
  match s with
  | EmptyString => EmptyString
  | String c s' =>
      if unreserved c then String c (QueryEscape s')
      else if (nat_of_ascii c =? 32)%nat then String "+"%char (QueryEscape s')
      else String "%"%char
             (String (upperhex (nat_of_ascii c / 16))
                (String (upperhex (nat_of_ascii c mod 16)) (QueryEscape s')))
  end.

End url.

(** [strconv]-style rendering of an integer for [%d]. *)
Definition itoa (z : Z) : string := NilZero.string_of_int (Z.to_int z).

(** [contains s t]: the text [t] occurs in [s]. *)
Definition contains (s t : string) : Prop :=
  exists pre post, s = pre ++ t ++ post.

(** ** The remote collaborators *)

Record DownloadOptions := mkDownloadOptions {
  opt_VideoID : string;
  opt_Format : string;
  opt_Quality : string
}.

(** [TokenResponse.Data] of package tiktok. *)
Record TokenData := mkTokenData {
  AccessToken : string;
  TokenType : string;
  ExpiresIn : Z;
  RefreshToken : string;
  Scope : string;
  OpenID : string
}.

(** The decoded body of the publish endpoint:
    [{data:{video_id}, error:{code, message}}]. *)
Record PublishResult := mkPublishResult {
  Data_VideoID : string;
  Error_Code : string;
  Error_Message : string
}.

Record HTTPResponse := mkHTTPResponse {
  StatusCode : Z;
  BodyPreview : string;                (* previewBody(bodyBytes) *)
  BodyJSON : option PublishResult      (* None: json.Unmarshal fails *)
}.

Record Services := mkServices {
  (* youtube.Service.GetLatestVideos(channelID, maxResults) *)
  youtube_GetLatestVideos : string -> Z -> result (list Video.t);
  (* downloader.Service.DownloadVideo(ctx, opts): the file path *)
  downloader_DownloadVideo : DownloadOptions -> result string;
  (* GET {base}/user/info/?access_token=...: the status code *)
  http_user_info : string -> result Z;
  (* tiktok.Service.RefreshAccessToken(refreshToken) *)
  tiktok_RefreshAccessToken : string -> result TokenData;
  (* os.Stat(path): the file size *)
  os_Stat : string -> result Z;
  (* tiktok.Service.initializeUpload(token, openID, size): (url, id) *)
  tiktok_initializeUpload : string -> string -> Z -> result (string * string);
  (* tiktok.Service.uploadVideoFile(uploadURL, path) *)
  tiktok_uploadVideoFile : string -> string -> result unit;
  (* POST to the publish path: token, open_id, upload_id, title,
     description, privacy_level *)
  http_publish : string -> string -> string -> string -> string -> string
                 -> result HTTPResponse
}.

(** ** package tiktok *)

Module tiktok.

Record UploadRequest := mkUploadRequest {
  AccessToken : string;
  OpenID : string;
  VideoPath : string;
  Title : string;
  Description : string;
  PrivacyLevel : string
}.

Section Service.
Variable svc : Services.

Definition VerifyAccessToken (accessToken : string) : result bool :=
  match http_user_info svc accessToken with
  | Err e => Err e
  | Ok status => Ok (status =? 200)
  end.

Definition publishVideo
    (accessToken openID uploadID title description privacyLevel : string)
  : result string :=
  let privacyLevel :=
    if privacyLevel == "" then "PUBLIC_TO_EVERYONE" else privacyLevel in
  match http_publish svc accessToken openID uploadID title description
                     privacyLevel with
  | Err e => Err e
  | Ok resp =>
      if negb (StatusCode resp =? 200)
      then Err ("publish failed with status " ++ itoa (StatusCode resp)
                ++ ": " ++ BodyPreview resp)
      else match BodyJSON resp with
           | None => Err ("failed to decode publish response; body="
                          ++ BodyPreview resp)
           | Some result =>
               if Error_Code result != ""
               then Err ("TikTok API error: " ++ Error_Code result ++ " - "
                         ++ Error_Message result)
               else Ok (Data_VideoID result)
           end
  end.

Definition UploadVideo (req : UploadRequest) : result string :=
  if AccessToken req == "" then Err "access token is required"
  else if OpenID req == "" then Err "open_id is required for upload"
  else if VideoPath req == "" then Err "video path is required for upload"
  else
    match os_Stat svc (VideoPath req) with
    | Err e => Err ("failed to stat video file: " ++ e)
    | Ok size =>
        match tiktok_initializeUpload svc (AccessToken req) (OpenID req) size with
        | Err e => Err ("failed to initialize upload: " ++ e)
        | Ok (uploadURL, uploadID) =>
            match tiktok_uploadVideoFile svc uploadURL (VideoPath req) with
            | Err e => Err ("failed to upload video file: " ++ e)
            | Ok _ =>
                match publishVideo (AccessToken req) (OpenID req) uploadID
                        (Title req) (Description req) (PrivacyLevel req) with
                | Err e => Err ("failed to publish video: " ++ e)
                | Ok videoID => Ok videoID
                end
            end
        end
    end.

End Service.

End tiktok.

(** ** sort.Slice *)

(** [sort.Slice(s, func(i, j) bool { return key(s[i]).After(key(s[j])) })]:
    Go promises a permutation of the slice in which no later element is
    strictly newer than an earlier one; it does not promise stability. *)
Class SortSlice := {
  sort_Slice_desc : forall {A : Type}, (A -> time.Time) -> list A -> list A;
  sort_Slice_perm : forall A (key : A -> time.Time) (l : list A),
      Permutation l (sort_Slice_desc key l);
  sort_Slice_sorted : forall A (key : A -> time.Time) (l : list A),
      StronglySorted (fun a b => time.After (key b) (key a) = false)
                     (sort_Slice_desc key l)
}.

(** The insertion sort Go runs on slices of at most 12 elements. *)
Fixpoint insert_desc {A} (key : A -> time.Time) (x : A) (l : list A) : list A :=
  match l with
  | [] => [x]
  | y :: l' => if time.After (key x) (key y) then x :: y :: l'
               else y :: insert_desc key x l'
  end.
Definition insertion_sort_desc {A} (key : A -> time.Time) (l : list A) : list A :=
  fold_left (fun acc x => insert_desc key x acc) l [].

(** ** package usecase *)

Module usecase.

Import sqlite.

(** *** AccountManager *)

Module AccountManager.

Definition CreateAccountMapping
    (youtubeChannelID tiktokAccountID tiktokAccessToken : string)
  : M Account.t :=
  if youtubeChannelID == "" then fail "youtube channel ID is required"
  else if tiktokAccountID == "" then fail "tiktok account ID is required"
  else if tiktokAccessToken == "" then fail "tiktok access token is required"
  else
    existing <- wrap "failed to check existing mapping"
      (AccountRepository.GetByYouTubeAndTikTok youtubeChannelID tiktokAccountID) ;;
    match existing with
    | Some _ => fail ("mapping already exists for YouTube channel "
                      ++ youtubeChannelID ++ " and TikTok account "
                      ++ tiktokAccountID)
    | None =>
    existingByYouTube <- wrap "failed to check YouTube channel mapping"
      (AccountRepository.GetByYouTubeChannelID youtubeChannelID) ;;
    match existingByYouTube with
    | Some other => fail ("YouTube channel " ++ youtubeChannelID
                          ++ " is already mapped to TikTok account "
                          ++ Account.TikTokAccountID other)
    | None =>
    existingByTikTok <- wrap "failed to check TikTok account mapping"
      (AccountRepository.GetByTikTokAccountID tiktokAccountID) ;;
    match existingByTikTok with
    | Some other => fail ("TikTok account " ++ tiktokAccountID
                          ++ " is already mapped to YouTube channel "
                          ++ Account.YouTubeChannelID other)
    | None =>
    created <- time_Now ;;
    updated <- time_Now ;;
    let account := Account.mk "" youtubeChannelID tiktokAccountID
                     tiktokAccessToken "" None 0 "" true created updated in
    wrap "failed to save account mapping" (AccountRepository.Save account)
    end end end.

Definition UpdateAccountMapping
    (accountID youtubeChannelID tiktokAccountID tiktokAccessToken : string)
    (isActive : option bool)
  : M Account.t :=
  account <- wrap "failed to get account" (AccountRepository.GetByID accountID) ;;
  match account with
  | None => fail ("account not found: " ++ accountID)
  | Some account =>
      let account := if youtubeChannelID != ""
        then Account.with_YouTubeChannelID youtubeChannelID account else account in
      let account := if tiktokAccountID != ""
        then Account.with_TikTokAccountID tiktokAccountID account else account in
      let account := if tiktokAccessToken != ""
        then Account.with_TikTokAccessToken tiktokAccessToken account else account in
      let account := match isActive with
        | Some b => Account.with_IsActive b account
        | None => account
        end in
      now <- time_Now ;;
      let account := Account.with_UpdatedAt now account in
      wrap "failed to update account mapping" (AccountRepository.Save account)
  end.

Definition DeactivateAccountMapping (accountID : string) : M unit :=
  account <- wrap "failed to get account" (AccountRepository.GetByID accountID) ;;
  match account with
  | None => fail ("account not found: " ++ accountID)
  | Some account =>
      let account := Account.with_IsActive false account in
      now <- time_Now ;;
      let account := Account.with_UpdatedAt now account in
      AccountRepository.Save account ;;; ret tt
  end.

Definition GetAccountMapping (accountID : string) : M (option Account.t) :=
  AccountRepository.GetByID accountID.

Definition GetAllAccountMappings : M (list Account.t) :=
  AccountRepository.GetAll.

Definition GetActiveAccountMappings : M (list Account.t) :=
  AccountRepository.GetAllActive.

Definition DeleteAccountMapping (accountID : string) : M unit :=
  account <- wrap "failed to get account" (AccountRepository.GetByID accountID) ;;
  match account with
  | None => fail ("account not found: " ++ accountID)
  | Some _ => AccountRepository.Delete accountID
  end.

Definition ActivateAccountMapping (accountID : string) : M unit :=
  account <- wrap "failed to get account" (AccountRepository.GetByID accountID) ;;
  match account with
  | None => fail ("account not found: " ++ accountID)
  | Some account =>
      let account := Account.with_IsActive true account in
      now <- time_Now ;;
      let account := Account.with_UpdatedAt now account in
      AccountRepository.Save account ;;; ret tt
  end.

(** [expiresIn] is the [*int] of the Go code: [None] is [nil]. *)
Definition UpdateAccountTokens
    (accountID accessToken refreshToken : string) (expiresIn : option Z)
  : M Account.t :=
  account <- wrap "failed to get account" (AccountRepository.GetByID accountID) ;;
  match account with
  | None => fail ("account not found: " ++ accountID)
  | Some account =>
      let account := if accessToken != ""
        then Account.with_TikTokAccessToken accessToken account else account in
      let account := if refreshToken != ""
        then Account.with_TikTokRefreshToken refreshToken account else account in
      account <- match expiresIn with
                 | Some n =>
                     if 0 <? n
                     then now <- time_Now ;;
                          ret (Account.with_TikTokTokenExpiresAt
                                 (Some (time.Add now (time.scale n time.Second)))
                                 account)
                     else ret account
                 | None => ret account
                 end ;;
      now <- time_Now ;;
      let account := Account.with_UpdatedAt now account in
      wrap "failed to update account tokens" (AccountRepository.Save account)
  end.

End AccountManager.

(** *** VideoProcessor *)

Module VideoProcessor.

Record t := mk {
  config : config.Config;
  services : Services
}.

Definition promptManualAuthorization (p : t) (accountID : string) : string :=
  let scopes := "user.info.basic,video.upload,video.publish" in
  let state := "12345" in
  "https://www.tiktok.com/v2/auth/authorize?client_key="
    ++ url.QueryEscape (config.TikTokAPIKey (config p))
    ++ "&scope=" ++ url.QueryEscape scopes
    ++ "&response_type=code&redirect_uri="
    ++ url.QueryEscape (config.TikTokRedirectURI (config p))
    ++ "&state=" ++ url.QueryEscape state.

(** The struct [video] is updated in place by the Go code; the
    updated struct is the value returned. *)
Definition downloadVideo (p : t) (video : Video.t) : M Video.t :=
  VideoRepository.UpdateStatus (Video.ID video) VideoStatusDownloading "" ;;;
  let opts := mkDownloadOptions (Video.YouTubeVideoID video) "mp4" "720p" in
  emit (EvDownload (Video.YouTubeVideoID video)) ;;;
  filePath <- wrap "download failed"
                (lift (downloader_DownloadVideo (services p) opts)) ;;
  VideoRepository.UpdateFilePath (Video.ID video) filePath ;;;
  let video := Video.with_LocalFilePath filePath video in
  VideoRepository.UpdateStatus (Video.ID video) VideoStatusDownloaded "" ;;;
  ret video.

(** Lines 209-260 of [uploadVideo]: the credential check.  It yields
    the account the upload goes on with. *)
Definition validateToken (p : t) (account : Account.t) : M Account.t :=
  if negb (config.TikTokEnableWeb (config p)) then
    if Account.TikTokAccessToken account == "" then
      let authorizeURL := promptManualAuthorization p (Account.ID account) in
      fail ("TikTok access token not configured for account "
            ++ Account.ID account ++ ". Re-authorize via " ++ authorizeURL
            ++ " and exchange the returned code for a token")
    else
      emit (EvVerify (Account.TikTokAccessToken account)) ;;;
      isValid <- wrap "failed to verify access token"
        (lift (tiktok.VerifyAccessToken (services p)
                 (Account.TikTokAccessToken account))) ;;
      if negb isValid then
        if Account.TikTokRefreshToken account != "" then
          emit (EvRefresh (Account.TikTokRefreshToken account)) ;;;
          r <- attempt (lift (tiktok_RefreshAccessToken (services p)
                                (Account.TikTokRefreshToken account))) ;;
          match r with
          | Err e =>
              fail ("TikTok access token is invalid and refresh failed for account "
                    ++ Account.ID account ++ ": " ++ e
                    ++ ". Please update the token")
          | Ok tokenResp =>
              let account :=
                Account.with_TikTokAccessToken (AccessToken tokenResp) account in
              let account :=
                if RefreshToken tokenResp != ""
                then Account.with_TikTokRefreshToken (RefreshToken tokenResp) account
                else account in
              now <- time_Now ;;
              let account :=
                if 0 <? ExpiresIn tokenResp
                then Account.with_TikTokTokenExpiresAt
                       (Some (time.Add now
                                (time.scale (ExpiresIn tokenResp) time.Second)))
                       account
                else account in
              wrap "failed to save refreshed token" (AccountRepository.Save account)
          end
        else
          let authorizeURL := promptManualAuthorization p (Account.ID account) in
          fail ("TikTok access token is invalid or expired for account "
                ++ Account.ID account
                ++ " and no refresh token available. Re-authorize via "
                ++ authorizeURL
                ++ " and exchange the returned code for a new token")
      else ret account
  else ret account.

(** Lines 262-297 of [uploadVideo]: the upload itself. *)
Definition performUpload (p : t) (account : Account.t) (video : Video.t)
  : M Video.t :=
  VideoRepository.UpdateStatus (Video.ID video) VideoStatusUploading "" ;;;
  let uploadReq := tiktok.mkUploadRequest
                     (Account.TikTokAccessToken account)
                     (Account.TikTokAccountID account)
                     (Video.LocalFilePath video)
                     (Video.Title video)
                     (Video.Description video)
                     "PUBLIC_TO_EVERYONE" in
  emit (EvUpload (tiktok.AccessToken uploadReq) (tiktok.OpenID uploadReq)
                 (tiktok.VideoPath uploadReq)) ;;;
  tiktokVideoID <- wrap "upload failed"
                     (lift (tiktok.UploadVideo (services p) uploadReq)) ;;
  VideoRepository.UpdateTikTokID (Video.ID video) tiktokVideoID ;;;
  ret video.

Definition uploadVideo (p : t) (video : Video.t) : M Video.t :=
  account <- wrap "failed to get account mapping"
               (AccountRepository.GetByID (Video.AccountID video)) ;;
  match account with
  | None => fail ("account mapping not found for video " ++ Video.ID video
                  ++ " (account ID: " ++ Video.AccountID video ++ ")")
  | Some account =>
      if Account.TikTokAccountID account == ""
      then fail ("TikTok account ID not configured for account "
                 ++ Account.ID account)
      else
        account <- validateToken p account ;;
        performUpload p account video
  end.

Definition processVideo (p : t) (video : Video.t) : M unit :=
  r <- attempt (downloadVideo p video) ;;
  match r with
  | Err e =>
      attempt (VideoRepository.UpdateStatus (Video.ID video) VideoStatusFailed e) ;;;
      fail e
  | Ok video =>
      r <- attempt (uploadVideo p video) ;;
      match r with
      | Err e =>
          attempt (VideoRepository.UpdateStatus (Video.ID video)
                     VideoStatusFailed e) ;;;
          fail e
      | Ok video =>
          VideoRepository.UpdateStatus (Video.ID video) VideoStatusCompleted ""
      end
  end.

Definition ProcessVideo (p : t) (video : Video.t) : M unit :=
  processVideo p video.

Definition batchSize (p : t) : Z :=
  let batchSize := int64 (config.MaxConcurrentDownloads (config p)
                          + config.MaxConcurrentUploads (config p)) in
  if batchSize <=? 0 then
    let batchSize := config.WorkerPoolSize (config p) in
    if batchSize <=? 0 then 1 else batchSize
  else batchSize.

(** One batch: the goroutines of a batch are run one after the other,
    in the order of the slice; what is collected is [errChan]. *)
Fixpoint processBatch (p : t) (videos : list Video.t) : M (list string) :=
  match videos with
  | [] => ret []
  | v :: rest =>
      r <- attempt (processVideo p v) ;;
      errors <- processBatch p rest ;;
      match r with
      | Err e => ret (("failed to process video " ++ Video.ID v ++ ": " ++ e)
                      :: errors)
      | Ok _ => ret errors
      end
  end.

(** Why the [for] loop of [ProcessPendingVideos] was left. *)
Inductive LoopExit : Type :=
| ExitContext            (* ctx.Err() != nil *)
| ExitListError (e : string)   (* GetPendingVideos failed *)
| ExitEmpty              (* len(videos) == 0 *)
| ExitProcessingErrors (errors : list string).

(** [ctx n] tells whether the context is done at the [n]-th evaluation
    of [ctx.Err()].  [None]: the loop is still running when the fuel
    is spent. *)
Fixpoint drainLoop (p : t) (ctx : nat -> bool) (fuel poll : nat) (w : World)
  : option (LoopExit * World) :=
  match fuel with
  | O => None
  | S fuel' =>
      if ctx poll then Some (ExitContext, w)
      else
        match VideoRepository.GetPendingVideos (batchSize p) w with
        | (Err e, w1) => Some (ExitListError e, w1)
        | (Ok [], w1) => Some (ExitEmpty, w1)
        | (Ok videos, w1) =>
            match processBatch p videos w1 with
            | (Err e, w2) => Some (ExitProcessingErrors [e], w2)
            | (Ok [], w2) => drainLoop p ctx fuel' (S poll) w2
            | (Ok errors, w2) => Some (ExitProcessingErrors errors, w2)
            end
        end
  end.

Definition exit_error (x : LoopExit) : result unit :=
  match x with
  | ExitContext => Err "context canceled"
  | ExitListError e => Err ("failed to get pending videos: " ++ e)
  | ExitEmpty => Ok tt
  | ExitProcessingErrors errors =>
      Err ("processing errors: [" ++ String.concat " " errors ++ "]")
  end.

Definition ProcessPendingVideos (p : t) (ctx : nat -> bool) (fuel : nat)
    (w : World) : option (result unit * World) :=
  match drainLoop p ctx fuel 0 w with
  | None => None
  | Some (x, w') => Some (exit_error x, w')
  end.

End VideoProcessor.

(** *** AccountMonitor *)

Module AccountMonitor.

Record t := mk {
  config : config.Config;
  services : Services;
  videoProcessor : option VideoProcessor.t
}.

Definition limiterSize (cfg : config.Config) : Z :=
  if config.WorkerPoolSize cfg <=? 0 then 1 else config.WorkerPoolSize cfg.

(** The first loop of [monitorAccount]: dedup and bootstrap filter.
    It yields [newVideos] and the storage errors met. *)
Fixpoint scanVideos (account : Account.t) (bootstrapCutoff : time.Time)
    (videos : list Video.t) : M (list Video.t * list string) :=
  match videos with
  | [] => ret ([], [])
  | video :: rest =>
      r <- attempt (VideoRepository.GetByYouTubeID (Video.YouTubeVideoID video)) ;;
      match r with
      | Err e =>
          acc <- scanVideos account bootstrapCutoff rest ;;
          ret (fst acc, e :: snd acc)
      | Ok (Some _) => scanVideos account bootstrapCutoff rest
      | Ok None =>
          if negb (time.IsZero bootstrapCutoff)
             && time.Before (Video.PublishedAt video) bootstrapCutoff
          then scanVideos account bootstrapCutoff rest
          else
            let video := Video.with_AccountID (Account.ID account) video in
            acc <- scanVideos account bootstrapCutoff rest ;;
            ret (video :: fst acc, snd acc)
      end
  end.

(** The second loop: save; it yields [persistedVideos] and the
    storage errors met. *)
Fixpoint saveVideos (newVideos : list Video.t) : M (list Video.t * list string) :=
  match newVideos with
  | [] => ret ([], [])
  | video :: rest =>
      r <- attempt (VideoRepository.Save video) ;;
      acc <- saveVideos rest ;;
      match r with
      | Err e => ret (fst acc, e :: snd acc)
      | Ok video => ret (video :: fst acc, snd acc)
      end
  end.

(** [monitorAccount] returns the videos it hands to
    [launchImmediateProcessing]. *)
Definition monitorAccount `{SortSlice} (m : t) (account : Account.t)
  : M (list Video.t) :=
  let scanSince := Account.LastCheckedAt account in
  bootstrapCutoff <- (if time.IsZero scanSince
                      then now <- time_Now ;;
                           ret (time.Add now (-24 * time.Hour))
                      else ret 0) ;;
  emit (EvList (Account.YouTubeChannelID account)) ;;;
  videos <- wrap ("failed to get latest videos for YouTube channel "
                  ++ Account.YouTubeChannelID account ++ " (TikTok account "
                  ++ Account.TikTokAccountID account ++ ")")
              (lift (youtube_GetLatestVideos (services m)
                       (Account.YouTubeChannelID account) 50)) ;;
  scanned <- scanVideos account bootstrapCutoff videos ;;
  let newVideos := fst scanned in
  let newVideos := if (1 <? length newVideos)%nat
                   then sort_Slice_desc Video.PublishedAt newVideos
                   else newVideos in
  saved <- saveVideos newVideos ;;
  let persistedVideos := fst saved in
  let storageErrors := (snd scanned ++ snd saved)%list in
  let lastVideoID := match persistedVideos with
                     | v :: _ => Video.YouTubeVideoID v
                     | [] => Account.LastVideoID account
                     end in
  if (0 <? length storageErrors)%nat
  then fail ("storage errors occurred while processing account "
             ++ Account.ID account)
  else
    now <- time_Now ;;
    wrap "failed to update last checked"
      (AccountRepository.UpdateLastChecked (Account.ID account) lastVideoID now) ;;;
    match videoProcessor m with
    | Some _ => ret persistedVideos
    | None => ret []
    end.

(** The goroutines of [MonitorAllAccounts], run one after the other in
    the order of the slice; what is collected is [errChan]. *)
Fixpoint monitorAccounts `{SortSlice} (m : t) (accounts : list Account.t)
  : M (list string) :=
  match accounts with
  | [] => ret []
  | acc :: rest =>
      r <- attempt (monitorAccount m acc) ;;
      errors <- monitorAccounts m rest ;;
      match r with
      | Err e => ret (("failed to monitor account " ++ Account.ID acc ++ ": " ++ e)
                      :: errors)
      | Ok _ => ret errors
      end
  end.

Definition MonitorAllAccounts `{SortSlice} (m : t) : M unit :=
  accounts <- wrap "failed to get active accounts" AccountRepository.GetAllActive ;;
  match accounts with
  | [] => ret tt
  | _ =>
      errors <- monitorAccounts m accounts ;;
      if (0 <? length errors)%nat
      then fail ("monitoring errors: [" ++ String.concat " " errors ++ "]")
      else ret tt
  end.

End AccountMonitor.

End usecase.

(** ** package main: the bootstrapper *)

Module main.

Import sqlite usecase.

Definition PLACEHOLDER : string := "PLACEHOLDER_TOKEN_UPDATE_VIA_EXCHANGE_CODE_API".

(** Lines 161-182: the entry matches no stored job. *)
Definition bootstrapCreate (acc : config.AccountBootstrap) : M unit :=
  let token := config.TikTokAccessToken acc in
  let token := if token == "" then PLACEHOLDER else token in
  r <- attempt (AccountManager.CreateAccountMapping
                  (config.YouTubeChannelID acc)
                  (config.TikTokAccountID acc) token) ;;
  match r with
  | Err _ => ret tt
  | Ok account =>
      match config.IsActive acc with
      | Some false =>
          attempt (AccountManager.DeactivateAccountMapping
                     (Account.ID account)) ;;; ret tt
      | _ => ret tt
      end
  end.

(** Lines 184-231: the entry matches the stored job [existing]. *)
Definition bootstrapUpdate (acc : config.AccountBootstrap) (existing : Account.t)
  : M unit :=
  let changeYouTube :=
    (config.YouTubeChannelID acc != "")
    && (config.YouTubeChannelID acc != Account.YouTubeChannelID existing) in
  let youtubeID := if changeYouTube then config.YouTubeChannelID acc else "" in
  let changeTikTok :=
    (config.TikTokAccountID acc != "")
    && (config.TikTokAccountID acc != Account.TikTokAccountID existing) in
  let tiktokID := if changeTikTok then config.TikTokAccountID acc else "" in
  (* the token comes from the configuration only when none is stored;
     in the two other branches the code only logs *)
  let changeToken :=
    (config.TikTokAccessToken acc != "")
    && (config.TikTokAccessToken acc != Account.TikTokAccessToken existing)
    && (Account.TikTokAccessToken existing == "") in
  let token := if changeToken then config.TikTokAccessToken acc else "" in
  let changeActive :=
    match config.IsActive acc with
    | Some b => negb (Bool.eqb (Account.IsActive existing) b)
    | None => false
    end in
  let activePtr := if changeActive then config.IsActive acc else None in
  let needsUpdate := changeYouTube || changeTikTok || changeToken
                     || changeActive in
  if needsUpdate
  then attempt (AccountManager.UpdateAccountMapping (Account.ID existing)
                  youtubeID tiktokID token activePtr) ;;; ret tt
  else ret tt.

(** The body of the [for] loop of [bootstrapAccounts]; every error is
    logged and the loop goes on, so the body never fails. *)
Definition bootstrapAccount (acc : config.AccountBootstrap) : M unit :=
  if (config.YouTubeChannelID acc == "") || (config.TikTokAccountID acc == "")
  then ret tt
  else
    r <- (if config.TikTokAccountID acc != ""
          then attempt (AccountRepository.GetByTikTokAccountID
                          (config.TikTokAccountID acc))
          else ret (Ok None)) ;;
    match r with
    | Err _ => ret tt
    | Ok existing =>
    r <- (match existing with
          | None => if config.YouTubeChannelID acc != ""
                    then attempt (AccountRepository.GetByYouTubeChannelID
                                    (config.YouTubeChannelID acc))
                    else ret (Ok existing)
          | Some _ => ret (Ok existing)
          end) ;;
    match r with
    | Err _ => ret tt
    | Ok None => bootstrapCreate acc
    | Ok (Some existing) => bootstrapUpdate acc existing
    end end.

Fixpoint bootstrapAccounts (accs : list config.AccountBootstrap) : M unit :=
  match accs with
  | [] => ret tt
  | acc :: rest => bootstrapAccount acc ;;; bootstrapAccounts rest
  end.

End main.

(** ** The admission channels

    The buffered channels used as semaphores and the goroutines that
    send to and receive from them, as an interleaving semantics driven by
    a schedule.  A
    goroutine is the list of its channel operations; [Begin] and [End_]
    are ghost marks around its call of [processVideo]. *)

Module admission.

Inductive Chan : Type :=
| WorkerPool            (* VideoProcessor.workerPool *)
| DownloadSem           (* VideoProcessor.downloadSem *)
| UploadSem             (* VideoProcessor.uploadSem *)
| ProcessingLimiter.    (* AccountMonitor.processingLimiter *)

Definition Chan_eqb (a b : Chan) : bool :=
  match a, b with
  | WorkerPool, WorkerPool | DownloadSem, DownloadSem
  | UploadSem, UploadSem | ProcessingLimiter, ProcessingLimiter => true
  | _, _ => false
  end.

(** [make(chan struct{}, n)] in [NewVideoProcessor] and
    [NewAccountMonitor]. *)
Definition capacity (cfg : config.Config) (c : Chan) : Z :=
  match c with
  | WorkerPool => config.WorkerPoolSize cfg
  | DownloadSem => config.MaxConcurrentDownloads cfg
  | UploadSem => config.MaxConcurrentUploads cfg
  | ProcessingLimiter => usecase.AccountMonitor.limiterSize cfg
  end.

Inductive Instr : Type :=
| Send (c : Chan)         (* c <- struct{}{} *)
| Recv (c : Chan)         (* <-c *)
| TryRecv (c : Chan)      (* select { case <-c: default: } *)
| SendOrDone (c : Chan)   (* select { case c <- struct{}{}: case <-ctx.Done(): return } *)
| WithTimeout (d : time.Duration)   (* context.WithTimeout(baseCtx, d) *)
| Begin
| End_.

(** How far a call of [processVideo] gets before it returns. *)
Inductive Path : Type :=
| BeforeDownload     (* the first UpdateStatus fails *)
| DownloadOnly       (* returns after downloadVideo, or inside the credential check *)
| DownloadAndUpload. (* reaches the upload semaphore *)

Definition processVideo_code (path : Path) : list Instr :=
  match path with
  | BeforeDownload => []
  | DownloadOnly => [Send DownloadSem; Recv DownloadSem]
  | DownloadAndUpload =>
      [Send DownloadSem; Recv DownloadSem; Send UploadSem; Recv UploadSem]
  end.

Inductive Kind : Type :=
| Batch        (* the goroutine of ProcessPendingVideos *)
| Immediate.   (* the goroutine of launchImmediateProcessing *)

Definition goroutine (k : Kind) (path : Path) : list Instr :=
  match k with
  | Batch =>
      [Send WorkerPool; Begin] ++ processVideo_code path
        ++ [End_; Recv WorkerPool]
  | Immediate =>
      [SendOrDone ProcessingLimiter; WithTimeout (30 * time.Minute); Begin]
        ++ processVideo_code path ++ [End_; TryRecv ProcessingLimiter]
  end%list.

Record Thread := mkThread {
  kind : Kind;
  code : list Instr;              (* what is left to run *)
  held : list Chan;               (* ghost: the slots it has sent and not yet received *)
  running : bool;                 (* ghost: inside processVideo *)
  timeout : option time.Duration  (* the deadline of its context *)
}.

Definition spawn (k : Kind) (path : Path) : Thread :=
  mkThread k (goroutine k path) [] false None.

Fixpoint remove_one (c : Chan) (l : list Chan) : list Chan :=
  match l with
  | [] => []
  | x :: l' => if Chan_eqb x c then l' else x :: remove_one c l'
  end.

Fixpoint count (c : Chan) (l : list Chan) : nat :=
  match l with
  | [] => 0
  | x :: l' => (if Chan_eqb x c then 1 else 0) + count c l'
  end%nat.

(** The effect of the next operation on the goroutine itself, once the
    operation goes through. *)
Definition advance (t : Thread) : Thread :=
  match code t with
  | [] => t
  | i :: rest =>
      match i with
      | Send c | SendOrDone c =>
          mkThread (kind t) rest (c :: held t) (running t) (timeout t)
      | Recv c | TryRecv c =>
          mkThread (kind t) rest (remove_one c (held t)) (running t) (timeout t)
      | WithTimeout d =>
          mkThread (kind t) rest (held t) (running t) (Some d)
      | Begin => mkThread (kind t) rest (held t) true (timeout t)
      | End_ => mkThread (kind t) rest (held t) false (timeout t)
      end
  end.

Fixpoint advance_n (n : nat) (t : Thread) : Thread :=
  match n with
  | O => t
  | S n' => advance_n n' (advance t)
  end.

Record State := mkState {
  chans : Chan -> nat;       (* len(c) *)
  threads : list Thread;
  ctxDone : bool             (* baseCtx is cancelled *)
}.

Definition initial : State := mkState (fun _ => O) [] false.

Definition incr (c : Chan) (f : Chan -> nat) : Chan -> nat :=
  fun x => if Chan_eqb x c then S (f x) else f x.
Definition decr (c : Chan) (f : Chan -> nat) : Chan -> nat :=
  fun x => if Chan_eqb x c then Nat.pred (f x) else f x.

(** What the scheduler may do next. *)
Inductive Action : Type :=
| Spawn (k : Kind) (path : Path)   (* go func(...) {...}(video) *)
| Cancel                           (* baseCtx is cancelled *)
| Run (i : nat)     (* goroutine i performs its next operation *)
| Skip (i : nat).   (* goroutine i takes the other case of its select:
                       <-ctx.Done(), or default *)

Fixpoint replace_nth (i : nat) (x : Thread) (l : list Thread) : list Thread :=
  match l, i with
  | [], _ => []
  | _ :: l', O => x :: l'
  | y :: l', S i' => y :: replace_nth i' x l'
  end.

(** One action; [None] when the goroutine is blocked or the case of the
    select is not ready.  A send goes through when the buffer has room,
    a receive when it holds an element; [default] is taken only when no
    element is there. *)
Definition exec (cfg : config.Config) (a : Action) (s : State) : option State :=
  match a with
  | Spawn k path =>
      Some (mkState (chans s) (threads s ++ [spawn k path]) (ctxDone s))
  | Cancel => Some (mkState (chans s) (threads s) true)
  | Run i =>
      match nth_error (threads s) i with
      | None => None
      | Some t =>
          match code t with
          | [] => None
          | Send c :: _ | SendOrDone c :: _ =>
              if Z.of_nat (chans s c) <? capacity cfg c
              then Some (mkState (incr c (chans s))
                           (replace_nth i (advance t) (threads s)) (ctxDone s))
              else None
          | Recv c :: _ | TryRecv c :: _ =>
              if (0 <? chans s c)%nat
              then Some (mkState (decr c (chans s))
                           (replace_nth i (advance t) (threads s)) (ctxDone s))
              else None
          | WithTimeout _ :: _ | Begin :: _ | End_ :: _ =>
              Some (mkState (chans s) (replace_nth i (advance t) (threads s))
                      (ctxDone s))
          end
      end
  | Skip i =>
      match nth_error (threads s) i with
      | None => None
      | Some t =>
          match code t with
          | SendOrDone c :: _ =>
              if ctxDone s
              then Some (mkState (chans s)
                           (replace_nth i
                              (mkThread (kind t) [] (held t) (running t) (timeout t))
                              (threads s))
                           (ctxDone s))
              else None
          | TryRecv c :: rest =>
              if (chans s c =? 0)%nat
              then Some (mkState (chans s)
                           (replace_nth i
                              (mkThread (kind t) rest (held t) (running t) (timeout t))
                              (threads s))
                           (ctxDone s))
              else None
          | _ => None
          end
      end
  end.

Fixpoint run (cfg : config.Config) (sched : list Action) (s : State)
  : option State :=
  match sched with
  | [] => Some s
  | a :: sched' =>
      match exec cfg a s with
      | Some s' => run cfg sched' s'
      | None => None
      end
  end.

(** The states the program can be in. *)
Definition reachable (cfg : config.Config) (s : State) : Prop :=
  exists sched, run cfg sched initial = Some s.

(** The goroutines of a kind that are inside [processVideo]. *)
Definition in_flight (k : option Kind) (s : State) : nat :=
  length (filter (fun t => running t
                           && match k, kind t with
                              | None, _ => true
                              | Some Batch, Batch => true
                              | Some Immediate, Immediate => true
                              | _, _ => false
                              end) (threads s)).

(** The slots of a channel the goroutines hold. *)
Definition holders (c : Chan) (s : State) : nat :=
  list_sum (map (fun t => count c (held t)) (threads s)).

(** A goroutine is a spawned one advanced some steps, or one that left
    at [<-ctx.Done()] before it got a slot. *)
Definition valid (t : Thread) : Prop :=
  (exists k path n, (n <= 9)%nat /\ t = advance_n n (spawn k path))
  \/ t = mkThread Immediate [] [] false None.

(** The length of every channel is the number of slots the goroutines
    hold, every goroutine is at a position of its program, and no
    channel holds more than its capacity. *)
Definition Inv (cfg : config.Config) (s : State) : Prop :=
  (forall c, chans s c = holders c s)
  /\ Forall valid (threads s)
  /\ (forall c, Z.of_nat (chans s c) <= Z.max 0 (capacity cfg c)).

End admission.

(** ** Auxiliary notions used in the statements *)

(** The text [uuid.NewString()] returns next. *)
Definition next_uuid (w : World) : string :=
  "uuid-" ++ NilEmpty.string_of_uint (Nat.to_uint (uuids w)).

(** The struct after the first lines of [AccountRepository.Save]. *)
Definition stamp_account (w : World) (a : Account.t) : Account.t :=
  Account.with_UpdatedAt (now w)
    (if Account.ID a == ""
     then Account.with_CreatedAt (now w) (Account.with_ID (next_uuid w) a)
     else a).

(** The struct after the first lines of [VideoRepository.Save]. *)
Definition stamp_video (w : World) (v : Video.t) : Video.t :=
  let v := if Video.ID v == ""
           then Video.with_CreatedAt (now w) (Video.with_ID (next_uuid w) v)
           else v in
  let v := if Video.Status v == ""
           then Video.with_Status VideoStatusPending v else v in
  Video.with_UpdatedAt (now w) v.

(** The row of an account, of a video. *)
Definition account_row (id : string) (w : World) : option Account.t :=
  find (fun r => Account.ID r == id) (accounts w).
Definition video_row (id : string) (w : World) : option Video.t :=
  find (fun r => Video.ID r == id) (videos w).
(** The dedup lookup, on the table. *)
Definition video_by_youtube_id (youtubeID : string) (w : World) : option Video.t :=
  find (fun r => Video.YouTubeVideoID r == youtubeID) (videos w).

(** The schedule holds no failure: every statement reaches the store. *)
Definition no_faults (w : World) : Prop := faults w = [].

(** The constraints of the schema on table [accounts]: the primary key
    and the two UNIQUE columns. *)
Definition accounts_unique (rows : list Account.t) : Prop :=
  forall r1 r2, In r1 rows -> In r2 rows ->
    (Account.ID r1 = Account.ID r2
     \/ Account.YouTubeChannelID r1 = Account.YouTubeChannelID r2
     \/ Account.TikTokAccountID r1 = Account.TikTokAccountID r2) ->
    r1 = r2.

(** ** Concrete stores used to run the code *)

Module Fx.

(** 2025-01-01T00:00:00Z, in nanoseconds since Go's zero instant. *)
Definition clock : time.Time := 63871286400 * time.Second.

Definition account1 : Account.t :=
  Account.mk "acc-1" "UCabc" "ttk123" "T0" "R0" None 0 "" true
    (clock - time.Hour) (clock - time.Hour).

Definition video (id youtubeID : string) (status : VideoStatus)
    (publishedAt : time.Time) : Video.t :=
  Video.mk id youtubeID "acc-1" "title" "description" "" "" "" status "" ""
    (clock - time.Hour) (clock - time.Hour) publishedAt.

Definition store (accs : list Account.t) (vids : list Video.t) : World :=
  mkWorld accs vids [] clock 0 [].

(** One account, no video. *)
Definition world1 : World := store [account1] [].

(** One account and a video that has been forwarded. *)
Definition completed1 : Video.t :=
  Video.mk "vid-1" "yt-1" "acc-1" "title" "description" "" ""
    "/downloads/yt-1.mp4" VideoStatusCompleted "" "7301"
    (clock - time.Hour) (clock - time.Minute) (clock - 2 * time.Hour).
Definition world2 : World := store [account1] [completed1].

End Fx.

Module Fx1.
(** The struct of the forwarded video of [Fx.world2], as a discovery
    pass builds it: status [pending], nothing downloaded or uploaded. *)
Definition incoming : Video.t :=
  Video.mk "vid-1" "yt-1" "acc-1" "title" "description" "" "" ""
    VideoStatusPending "" "" (Fx.clock - time.Hour) (Fx.clock - time.Hour)
    (Fx.clock - 2 * time.Hour).
End Fx1.

(** The job a bootstrap entry matches: the one with its TikTok account
    id, or else the one with its YouTube channel id. *)
Definition matching_account (acc : config.AccountBootstrap) (w : World)
  : option Account.t :=
  match find (fun r => Account.TikTokAccountID r == config.TikTokAccountID acc)
             (accounts w) with
  | Some a => Some a
  | None => find (fun r => Account.YouTubeChannelID r == config.YouTubeChannelID acc)
                 (accounts w)
  end.

Module Fx9.
(** A job whose access token is empty while a refresh token is stored. *)
Definition account_without_access_token : Account.t :=
  Account.mk "acc-1" "UCabc" "ttk123" "" "R0" None 0 "" true
    (Fx.clock - time.Hour) (Fx.clock - time.Hour).
Definition world : World := Fx.store [account_without_access_token] [].
(** The entry of the configuration file for that job, with a token. *)
Definition entry : config.AccountBootstrap :=
  config.mkAccountBootstrap "UCabc" "ttk123" "T0" None.
(** An entry for a job that is not stored, without a token. *)
Definition entry_without_token : config.AccountBootstrap :=
  config.mkAccountBootstrap "UCnew" "ttk999" "" None.
End Fx9.

(** ** The history of the status column *)

(** The statuses written to the rows with a given id, oldest first, read
    off the ghost trace: the writes of [UpdateStatus] and of an accepted
    [Save]. *)
Definition status_event (id : string) (e : Event) : list VideoStatus :=
  match e with
  | EvStatus i s => if i == id then [s] else []
  | EvVideoSave i _ s true => if i == id then [s] else []
  | _ => []
  end.
Definition status_history (id : string) (tr : list Event) : list VideoStatus :=
  flat_map (status_event id) tr.

(** [F] is what a run of writes with statuses [ss] makes of a row: the
    keys stay, the status is the last one written. *)
Definition writes (ss : list VideoStatus) (F : Video.t -> Video.t) : Prop :=
  forall r, Video.ID (F r) = Video.ID r
            /\ Video.YouTubeVideoID (F r) = Video.YouTubeVideoID r
            /\ Video.Status (F r) = last ss (Video.Status r).

(** From [w] to [w'] the rows with id [id] went through [F], the statuses
    [ss] were written to them in this order, and no other row of table
    [videos] changed. *)
Definition evolves (id : string) (ss : list VideoStatus) (F : Video.t -> Video.t)
    (w w' : World) : Prop :=
  now w' = now w
  /\ videos w' = sqlite.update_videos id F (videos w)
  /\ writes ss F
  /\ forall id', status_history id' (trace w')
                 = (status_history id' (trace w)
                    ++ (if (id' == id) && sqlite.has_video id (videos w)
                        then ss else []))%list.

(** The rows whose status is [pending]. *)
Definition is_pending (r : Video.t) : bool := Video.Status r == VideoStatusPending.
Definition pending_count (w : World) : nat :=
  length (filter is_pending (videos w)).

(** A status column history that went through [downloaded], later
    through [uploading], and ends with [completed]. *)
Definition forwarded_history (h : list VideoStatus) : Prop :=
  exists h1 h2 h3,
    h = (h1 ++ VideoStatusDownloaded :: h2 ++ VideoStatusUploading :: h3
         ++ [VideoStatusCompleted])%list.

(** Every row in state [completed] has such a history. *)
Definition completed_rows_forwarded (w : World) : Prop :=
  forall row, In row (videos w) -> Video.Status row = VideoStatusCompleted ->
              forwarded_history (status_history (Video.ID row) (trace w)).

(** An event that is no write to the status column. *)
Definition quiet_event (e : Event) : Prop := forall i, status_event i e = [].

(** ** Remote collaborators used to run the code *)

Module Fx5.

(** Every remote call succeeds; the sink answers the publish request
    with the body [body]. *)
Definition services (body : PublishResult) : Services :=
  mkServices
    (fun _ _ => Ok [])
    (fun opts => Ok ("/downloads/" ++ opt_VideoID opts ++ ".mp4"))
    (fun _ => Ok 200)
    (fun _ => Err "refresh_token is invalid")
    (fun _ => Ok 1048576)
    (fun _ _ _ => Ok ("https://upload.example/u/1", "upload-1"))
    (fun _ _ => Ok tt)
    (fun _ _ _ _ _ _ => Ok (mkHTTPResponse 200 "" (Some body))).

Definition cfg : config.Config :=
  config.mkConfig "client-key" "https://example.com/callback" false "*/5 * * * *"
    3 2 10 [].

(** The sink returns the id ["7301"]. *)
Definition processor : usecase.VideoProcessor.t :=
  usecase.VideoProcessor.mk cfg (services (mkPublishResult "7301" "" "")).

(** The sink answers 200 with [{"data":{}}]: no error code, no id. *)
Definition processor_empty_id : usecase.VideoProcessor.t :=
  usecase.VideoProcessor.mk cfg (services (mkPublishResult "" "" "")).

(** One account, one pending video, as discovery leaves them. *)
Definition pending1 : Video.t :=
  Fx.video "vid-1" "yt-1" VideoStatusPending (Fx.clock - 2 * time.Hour).
Definition world : World := Fx.store [Fx.account1] [pending1].

End Fx5.

Module Fx6.

(** The extractor fails; everything else answers. *)
Definition services : Services :=
  mkServices
    (fun _ _ => Ok [])
    (fun _ => Err "yt-dlp: exit status 1")
    (fun _ => Ok 200)
    (fun _ => Err "refresh_token is invalid")
    (fun _ => Ok 1048576)
    (fun _ _ _ => Ok ("https://upload.example/u/1", "upload-1"))
    (fun _ _ => Ok tt)
    (fun _ _ _ _ _ _ => Ok (mkHTTPResponse 200 "" (Some (mkPublishResult "7301" "" "")))).

(** One download and no upload at a time: batches of one. *)
Definition cfg : config.Config :=
  config.mkConfig "client-key" "https://example.com/callback" false "*/5 * * * *"
    1 0 10 [].

(** No limit configured for downloads and uploads. *)
Definition cfg_zero : config.Config :=
  config.mkConfig "client-key" "https://example.com/callback" false "*/5 * * * *"
    0 0 10 [].

Definition processor : usecase.VideoProcessor.t :=
  usecase.VideoProcessor.mk cfg services.

(** Two pending videos. *)
Definition pending2 : Video.t :=
  Fx.video "vid-2" "yt-2" VideoStatusPending (Fx.clock - time.Hour).
Definition world : World := Fx.store [Fx.account1] [Fx5.pending1; pending2].

(** A context that is never cancelled. *)
Definition background : nat -> bool := fun _ => false.

End Fx6.

(** The world after an [UPDATE videos ... WHERE id = ?] that goes
    through: the rows with the id go through [F] and the event is
    logged, when there is such a row. *)
Definition after_update (id : string) (F : Video.t -> Video.t) (e : Event)
    (w : World) : World :=
  if sqlite.has_video id (videos w)
  then set_trace (trace w ++ [e]) (set_videos (sqlite.update_videos id F (videos w)) w)
  else w.

(** The world after an accepted upsert of an account. *)
Definition after_account_save (a : Account.t) (w : World) : World :=
  set_trace (trace w ++ [EvAccountSave (Account.ID a) true])
    (set_accounts (sqlite.upsert_account a (accounts w)) w).

(** [substringb t s]: the text [t] occurs in [s], decided. *)
Fixpoint substringb (t s : string) : bool :=
  String.prefix t s
  || match s with
     | EmptyString => false
     | String _ s' => substringb t s'
     end.

Module Fx8.

(** A job as the bootstrapper creates it without a token. *)
Definition placeholder_account : Account.t :=
  Account.mk "acc-1" "UCabc" "ttk123" "PLACEHOLDER_TOKEN_UPDATE_VIA_EXCHANGE_CODE_API"
    "" None 0 "" true (Fx.clock - time.Hour) (Fx.clock - time.Hour).
Definition world_placeholder : World := Fx.store [placeholder_account] [Fx5.pending1].

(** A job without access token. *)
Definition empty_account : Account.t :=
  Account.mk "acc-1" "UCabc" "ttk123" "" "" None 0 "" true
    (Fx.clock - time.Hour) (Fx.clock - time.Hour).
Definition world_empty : World := Fx.store [empty_account] [Fx5.pending1].

(** The user-info endpoint cannot be reached. *)
Definition services_unreachable : Services :=
  mkServices
    (fun _ _ => Ok [])
    (fun opts => Ok ("/downloads/" ++ opt_VideoID opts ++ ".mp4"))
    (fun _ => Err "Get https://open.tiktokapis.com/v2/user/info/: i/o timeout")
    (fun _ => Err "refresh_token is invalid")
    (fun _ => Ok 1048576)
    (fun _ _ _ => Ok ("https://upload.example/u/1", "upload-1"))
    (fun _ _ => Ok tt)
    (fun _ _ _ _ _ _ => Ok (mkHTTPResponse 200 "" (Some (mkPublishResult "7301" "" "")))).

(** The user-info endpoint answers 401. *)
Definition services_rejecting : Services :=
  mkServices
    (fun _ _ => Ok [])
    (fun opts => Ok ("/downloads/" ++ opt_VideoID opts ++ ".mp4"))
    (fun _ => Ok 401)
    (fun _ => Err "refresh_token is invalid")
    (fun _ => Ok 1048576)
    (fun _ _ _ => Ok ("https://upload.example/u/1", "upload-1"))
    (fun _ _ => Ok tt)
    (fun _ _ _ _ _ _ => Ok (mkHTTPResponse 200 "" (Some (mkPublishResult "7301" "" "")))).

Definition processor_unreachable : usecase.VideoProcessor.t :=
  usecase.VideoProcessor.mk Fx5.cfg services_unreachable.
Definition processor_rejecting : usecase.VideoProcessor.t :=
  usecase.VideoProcessor.mk Fx5.cfg services_rejecting.

(** Web upload enabled. *)
Definition cfg_web : config.Config :=
  config.mkConfig "client-key" "https://example.com/callback" true "*/5 * * * *"
    3 2 10 [].
Definition processor_web : usecase.VideoProcessor.t :=
  usecase.VideoProcessor.mk cfg_web services_rejecting.

(** The video of [Fx5.world] once downloaded. *)
Definition downloaded1 : Video.t :=
  Video.with_LocalFilePath "/downloads/yt-1.mp4" Fx5.pending1.

End Fx8.

Module Fx2.

(** Scenario 3 of the spec: the stored tokens are ["T0"] and ["R0"], the
    verification rejects ["T0"], the refresh of ["R0"] answers
    [{access="T1", refresh="R1", expires_in=7200}]. *)
Definition services (refresh : string) : Services :=
  mkServices
    (fun _ _ => Ok [])
    (fun opts => Ok ("/downloads/" ++ opt_VideoID opts ++ ".mp4"))
    (fun tok => if tok == "T1" then Ok 200 else Ok 401)
    (fun rt => if rt == "R0"
               then Ok (mkTokenData "T1" "Bearer" 7200 refresh
                          "user.info.basic,video.upload" "ttk123")
               else Err "refresh_token is invalid")
    (fun _ => Ok 1048576)
    (fun _ _ _ => Ok ("https://upload.example/u/1", "upload-1"))
    (fun _ _ => Ok tt)
    (fun _ _ _ _ _ _ => Ok (mkHTTPResponse 200 "" (Some (mkPublishResult "7301" "" "")))).

Definition processor : usecase.VideoProcessor.t :=
  usecase.VideoProcessor.mk Fx5.cfg (services "R1").

Definition world : World := Fx.store [Fx.account1] [Fx5.pending1].

End Fx2.

(** ** What a discovery pass did, read off the trace *)

Definition failed_event (e : Event) : bool :=
  match e with
  | EvVideoLookup _ false => true
  | EvVideoSave _ _ _ false => true
  | _ => false
  end.

(** The source item ids looked up, in order, and the outcome of each
    lookup. *)
Definition lookup_ids (t : list Event) : list string :=
  flat_map (fun e => match e with EvVideoLookup y _ => [y] | _ => [] end) t.
Definition lookup_oks (t : list Event) : list bool :=
  flat_map (fun e => match e with EvVideoLookup _ ok => [ok] | _ => [] end) t.
(** The source item ids sent to [Save], in order. *)
Definition save_ids (t : list Event) : list string :=
  flat_map (fun e => match e with EvVideoSave _ y _ _ => [y] | _ => [] end) t.
(** The updates of [last_checked_at] / [last_video_id]. *)
Definition last_checked_updates (t : list Event) : list Event :=
  filter (fun e => match e with EvLastChecked _ _ _ => true | _ => false end) t.

(** The cutoff of a pass: [now - 24h] on the first run of a job, the
    zero instant (no cutoff) afterwards. *)
Definition bootstrap_cutoff (account : Account.t) (w : World) : time.Time :=
  if time.IsZero (Account.LastCheckedAt account)
  then time.Add (now w) (-24 * time.Hour) else 0.

(** An item is new when the store has no row with its source id. *)
Definition absent (rows : list Video.t) (v : Video.t) : bool :=
  match find (fun r => Video.YouTubeVideoID r == Video.YouTubeVideoID v) rows with
  | Some _ => false
  | None => true
  end.

(** An item is too old when a cutoff is set and it was published before. *)
Definition too_old (cutoff : time.Time) (v : Video.t) : bool :=
  negb (time.IsZero cutoff) && time.Before (Video.PublishedAt v) cutoff.

(** The items a pass accepts, given the outcome of each lookup: those
    whose lookup answered, that are new, and that are not too old. *)
Fixpoint accepted_videos (rows : list Video.t) (cutoff : time.Time)
    (videos : list Video.t) (oks : list bool) : list Video.t :=
  match videos, oks with
  | v :: videos', ok :: oks' =>
      if ok && absent rows v && negb (too_old cutoff v)
      then v :: accepted_videos rows cutoff videos' oks'
      else accepted_videos rows cutoff videos' oks'
  | _, _ => []
  end.

Definition lookup_events (videos : list Video.t) (oks : list bool) : list Event :=
  map (fun vo => EvVideoLookup (Video.YouTubeVideoID (fst vo)) (snd vo))
      (combine videos oks).

Module Fx3.

(** An item as the listing of the source returns it. *)
Definition item (youtubeID : string) (publishedAt : time.Time) : Video.t :=
  Video.mk youtubeID youtubeID "" "title" "description" "" "" ""
    VideoStatusPending "" "" Fx.clock Fx.clock publishedAt.

(** Scenario 1 of the spec: three items, published one hour, thirty-six
    hours and twelve hours ago. *)
Definition listing : list Video.t :=
  [ item "id_now-1h" (Fx.clock - time.Hour);
    item "id_now-36h" (Fx.clock - 36 * time.Hour);
    item "id_now-12h" (Fx.clock - 12 * time.Hour) ].

Definition services : Services :=
  mkServices
    (fun _ _ => Ok listing)
    (fun opts => Ok ("/downloads/" ++ opt_VideoID opts ++ ".mp4"))
    (fun _ => Ok 200)
    (fun _ => Err "refresh_token is invalid")
    (fun _ => Ok 1048576)
    (fun _ _ _ => Ok ("https://upload.example/u/1", "upload-1"))
    (fun _ _ => Ok tt)
    (fun _ _ _ _ _ _ => Ok (mkHTTPResponse 200 "" (Some (mkPublishResult "7301" "" "")))).

Definition monitor : usecase.AccountMonitor.t :=
  usecase.AccountMonitor.mk Fx5.cfg services None.

(** The store of scenario 1: the job has never been checked. *)
Definition world : World := Fx.world1.

(** The same store when the second statement sent to it fails. *)
Definition world_failing : World := set_faults [false; true] Fx.world1.

(** The job after a first pass, and a store that already holds the
    newest item. *)
Definition account_checked : Account.t :=
  Account.with_LastCheckedAt (Fx.clock - time.Hour) Fx.account1.
Definition world_checked : World :=
  Fx.store [account_checked]
    [Fx.video "id_now-1h" "id_now-1h" VideoStatusPending (Fx.clock - time.Hour)].

End Fx3.

Module Fx7.

(** A worker pool of one slot. *)
Definition cfg : config.Config :=
  config.mkConfig "client-key" "https://example.com/callback" false "*/5 * * * *"
    3 2 1 [].

(** A batch goroutine enters [processVideo]; then a goroutine of
    [launchImmediateProcessing] does. *)
Definition schedule : list admission.Action :=
  [ admission.Spawn admission.Batch admission.DownloadAndUpload;
    admission.Spawn admission.Immediate admission.DownloadAndUpload;
    admission.Run 0; admission.Run 0;
    admission.Run 1; admission.Run 1; admission.Run 1 ].

(** A scheduler that ticks every second and a pool of four slots: five
    discovered items, four of which are admitted. *)
Definition cfg_every_second : config.Config :=
  config.mkConfig "client-key" "https://example.com/callback" false "* * * * * *"
    3 2 4 [].
Definition schedule_five : list admission.Action :=
  [ admission.Spawn admission.Immediate admission.DownloadAndUpload;
    admission.Spawn admission.Immediate admission.DownloadOnly;
    admission.Spawn admission.Immediate admission.BeforeDownload;
    admission.Spawn admission.Immediate admission.DownloadAndUpload;
    admission.Spawn admission.Immediate admission.DownloadAndUpload;
    admission.Run 0; admission.Run 1; admission.Run 2; admission.Run 3;
    admission.Run 0; admission.Run 1; admission.Run 2; admission.Run 3;
    admission.Run 0; admission.Run 1; admission.Run 2; admission.Run 3 ].
(** The state that schedule leads to. *)
Definition admitted : admission.State :=
  match admission.run cfg_every_second schedule_five admission.initial with
  | Some s => s
  | None => admission.initial
  end.

End Fx7.


(** ** The constraints of the schema *)

(** Two rows of table [accounts] the schema lets live together: the
    primary key and the two UNIQUE columns differ. *)
Definition distinct_accounts (a b : Account.t) : Prop :=
  Account.ID a <> Account.ID b
  /\ Account.YouTubeChannelID a <> Account.YouTubeChannelID b
  /\ Account.TikTokAccountID a <> Account.TikTokAccountID b.

(** The same for table [videos]. *)
Definition distinct_videos (a b : Video.t) : Prop :=
  Video.ID a <> Video.ID b /\ Video.YouTubeVideoID a <> Video.YouTubeVideoID b.

(** The store meets its schema: keys and UNIQUE columns hold no value
    twice, and every video belongs to a stored account. *)
Definition store_ok (w : World) : Prop :=
  ForallOrdPairs distinct_accounts (accounts w)
  /\ ForallOrdPairs distinct_videos (videos w)
  /\ forall v, In v (videos w) ->
               sqlite.has_account (Video.AccountID v) (accounts w) = true.

(** A computation keeps a property of the store, whatever it returns. *)
Definition preserves {A} (P : World -> Prop) (m : M A) : Prop :=
  forall w r w', P w -> m w = (r, w') -> P w'.

(** A property of the store that every method of the two repositories
    keeps, and that the bookkeeping of the model does not touch. *)
Class RepoInvariant (P : World -> Prop) : Prop := {
  inv_emit : forall e, preserves P (emit e);
  inv_uuid : preserves P uuid_NewString;
  inv_statement : preserves P statement;
  inv_account_GetAll : preserves P sqlite.AccountRepository.GetAll;
  inv_account_GetAllActive : preserves P sqlite.AccountRepository.GetAllActive;
  inv_account_GetByID : forall id, preserves P (sqlite.AccountRepository.GetByID id);
  inv_account_GetByYouTubeChannelID :
    forall id, preserves P (sqlite.AccountRepository.GetByYouTubeChannelID id);
  inv_account_GetByTikTokAccountID :
    forall id, preserves P (sqlite.AccountRepository.GetByTikTokAccountID id);
  inv_account_GetByYouTubeAndTikTok :
    forall y t, preserves P (sqlite.AccountRepository.GetByYouTubeAndTikTok y t);
  inv_account_UpdateLastChecked :
    forall id v t, preserves P (sqlite.AccountRepository.UpdateLastChecked id v t);
  inv_account_Save : forall a, preserves P (sqlite.AccountRepository.Save a);
  inv_account_Delete : forall id, preserves P (sqlite.AccountRepository.Delete id);
  inv_video_GetByYouTubeID :
    forall id, preserves P (sqlite.VideoRepository.GetByYouTubeID id);
  inv_video_GetPendingVideos :
    forall n, preserves P (sqlite.VideoRepository.GetPendingVideos n);
  inv_video_CountPending : preserves P sqlite.VideoRepository.CountPending;
  inv_video_Save : forall v, preserves P (sqlite.VideoRepository.Save v);
  inv_video_UpdateStatus :
    forall id s m, preserves P (sqlite.VideoRepository.UpdateStatus id s m);
  inv_video_UpdateFilePath :
    forall id p, preserves P (sqlite.VideoRepository.UpdateFilePath id p);
  inv_video_UpdateTikTokID :
    forall id t, preserves P (sqlite.VideoRepository.UpdateTikTokID id t)
}.

(** The channels whose listing was asked for, in order, read off the
    trace. *)
Definition listed_channels (t : list Event) : list string :=
  flat_map (fun e => match e with EvList ch => [ch] | _ => [] end) t.

(** From [w] to [w'] nothing was listed, and the rows of the other
    jobs are as they were. *)
Definition quiet_pass (id : string) (w w' : World) : Prop :=
  (exists t, trace w' = (trace w ++ t)%list /\ listed_channels t = [])
  /\ forall id', id' <> id -> account_row id' w' = account_row id' w.


(** ** Goroutines that can move *)

(** The next operation of the goroutine goes through in the state. *)
Definition ready (cfg : config.Config) (s : admission.State) (t : admission.Thread)
  : bool :=
  match admission.code t with
  | [] => false
  | admission.Send c :: _ | admission.SendOrDone c :: _ =>
      Z.of_nat (admission.chans s c) <? admission.capacity cfg c
  | admission.Recv c :: _ | admission.TryRecv c :: _ =>
      (0 <? admission.chans s c)%nat
  | _ => true
  end.

(** The goroutine has returned. *)
Definition finished (t : admission.Thread) : Prop := admission.code t = [].

(** The action lets a goroutine perform its next operation. *)
Definition is_Run (a : admission.Action) : Prop := exists i, a = admission.Run i.

(** How far a goroutine gets when the download semaphore never has
    room: to the end when [processVideo] returns before the download,
    to the send on the semaphore otherwise. *)
Definition stuck_bound (k : admission.Kind) (path : admission.Path) : nat :=
  match path with
  | admission.BeforeDownload => length (admission.goroutine k path)
  | _ => match k with admission.Batch => 2 | admission.Immediate => 3 end
  end.

(** The goroutine that left at [<-ctx.Done()]. *)
Definition gave_up : admission.Thread :=
  admission.mkThread admission.Immediate [] [] false None.

Definition before_download (t : admission.Thread) : Prop :=
  t = gave_up
  \/ exists k path n,
       (n <= stuck_bound k path)%nat
       /\ t = admission.advance_n n (admission.spawn k path).

(** A configuration without a download slot, and a batch goroutine run
    up to its send on the download semaphore. *)
Module Fx11.

Definition cfg : config.Config :=
  config.mkConfig "client-key" "https://example.com/callback" false "*/5 * * * *"
    0 2 4 [].

Definition schedule : list admission.Action :=
  [ admission.Spawn admission.Batch admission.DownloadOnly;
    admission.Run 0; admission.Run 0 ].

Definition blocked : admission.State :=
  match admission.run cfg schedule admission.initial with
  | Some s => s
  | None => admission.initial
  end.

End Fx11.

(** ** Library functions of the HTTP layer *)

Module strings.

(** [strings.HasPrefix]. *)
Definition HasPrefix (s prefix : string) : bool := String.prefix prefix s.

(** [strings.TrimPrefix]: [s] without the leading [prefix], or [s]
    itself when it does not start with it. *)
Definition TrimPrefix (s prefix : string) : string :=
  if HasPrefix s prefix
  then String.substring (String.length prefix)
         (String.length s - String.length prefix) s
  else s.

(** [strings.Split(s, sep)] for a separator of one byte, the only use
    in the code ([strings.Split(path, "/")]): the pieces between the
    separators, one more than there are separators. *)
Fixpoint Split (s : string) (sep : ascii) : list string :=
  match s with
  | EmptyString => [EmptyString]
  | String c s' =>
      if Ascii.eqb c sep then EmptyString :: Split s' sep
      else match Split s' sep with
           | piece :: rest => String c piece :: rest
           | [] => [String c EmptyString]
           end
  end.

End strings.

(** The text holds no byte [sep]. *)
Fixpoint free_of (sep : ascii) (s : string) : bool :=
  match s with
  | EmptyString => true
  | String c s' => negb (Ascii.eqb c sep) && free_of sep s'
  end.

Module strconv.

Definition digit (c : ascii) : option Z :=
  let n := nat_of_ascii c in
  if ((48 <=? n) && (n <=? 57))%nat then Some (Z.of_nat n - 48) else None.

Fixpoint digits (acc : Z) (s : string) : option Z :=
  match s with
  | EmptyString => Some acc
  | String c s' =>
      match digit c with
      | Some d => digits (acc * 10 + d) s'
      | None => None
      end
  end.

(** [strconv.Atoi] on a 64-bit platform; [None] is [err != nil]: an
    empty text, a sign alone, a byte that is not a decimal digit, or a
    value outside [int64]. *)
Definition Atoi (s : string) : option Z :=
  match s with
  | EmptyString => None
  | String c s' =>
      let neg := Ascii.eqb c "-" in
      let body := if Ascii.eqb c "-" || Ascii.eqb c "+" then s' else s in
      match body with
      | EmptyString => None
      | _ =>
          match digits 0 body with
          | None => None
          | Some n =>
              let v := if neg then - n else n in
              if (v <? - 2 ^ 63) || (2 ^ 63 - 1 <? v) then None else Some v
          end
      end
  end.

End strconv.

(** ** package httpapi *)

Module httpapi.

Import sqlite usecase.

Definition MethodGet : string := "GET".
Definition MethodPost : string := "POST".
Definition MethodPatch : string := "PATCH".
Definition MethodDelete : string := "DELETE".

Definition StatusOK : Z := 200.
Definition StatusCreated : Z := 201.
Definition StatusFound : Z := 302.
Definition StatusBadRequest : Z := 400.
Definition StatusNotFound : Z := 404.
Definition StatusMethodNotAllowed : Z := 405.
Definition StatusInternalServerError : Z := 500.

(** The payload of [createAccount]. *)
Record createPayload := mkCreatePayload {
  create_YouTubeChannelID : string;
  create_TikTokAccountID : string;
  create_TikTokToken : string
}.

(** The payload of [updateAccount]; [None] is a nil pointer. *)
Record updatePayload := mkUpdatePayload {
  update_YouTubeChannelID : option string;
  update_TikTokAccountID : option string;
  update_TikTokToken : option string;
  update_IsActive : option bool
}.

(** The payload of [handleExchangeCode]. *)
Record exchangePayload := mkExchangePayload {
  exchange_Code : string;
  exchange_RedirectURI : string;
  exchange_AccountID : string;
  exchange_TikTokUserID : string
}.

(** What a handler reads of [*http.Request].  The three [Body] fields
    are what [json.NewDecoder(r.Body).Decode] gives for the payload of
    the handler, [None] when it returns an error. *)
Record Request := mkRequest {
  Method : string;
  Path : string;                       (* r.URL.Path *)
  Query : string -> string;            (* r.URL.Query().Get *)
  BodyCreate : option createPayload;
  BodyUpdate : option updatePayload;
  BodyExchange : option exchangePayload
}.

Record accountResponse := mkAccountResponse {
  ar_ID : string;
  ar_YouTubeChannelID : string;
  ar_TikTokAccountID : string;
  ar_LastCheckedAt : option time.Time;
  ar_LastVideoID : string;
  ar_IsActive : bool;
  ar_CreatedAt : time.Time;
  ar_UpdatedAt : time.Time
}.

Record videoResponse := mkVideoResponse {
  vr_ID : string;
  vr_YouTubeVideoID : string;
  vr_AccountID : string;
  vr_Status : string;
  vr_ErrorMessage : string;
  vr_CreatedAt : time.Time;
  vr_UpdatedAt : time.Time;
  vr_PublishedAt : option time.Time
}.

(** What is written to the [http.ResponseWriter]. *)
Inductive Body : Type :=
| Text (message : string)                     (* http.Error *)
| JSONError (message : string)                (* {"error": message} *)
| JSONStatus (status : string)                (* {"status": status} *)
| JSONAccount (account : accountResponse)
| JSONAccounts (accounts : list accountResponse)
| JSONPending (pending_videos : list videoResponse) (count : Z)
| JSONMetrics (pending : Z)
| JSONExchange (account : accountResponse) (expires_in : Z)
    (token_type scope : string) (has_refresh_token : bool)
    (warning : option string)
| Redirect (url : string)                     (* http.Redirect *)
| CallbackPage (success : bool) (message accountID : string).

Record Response := mkResponse {
  status : Z;
  body : Body
}.

Definition respondJSON (status : Z) (payload : Body) : Response :=
  mkResponse status payload.

Definition respondError (status : Z) (message : string) : Response :=
  respondJSON status (JSONError message).

Definition methodNotAllowed : Response :=
  mkResponse StatusMethodNotAllowed (Text "Method Not Allowed").

(** [http.NotFound]. *)
Definition NotFound : Response :=
  mkResponse StatusNotFound (Text "404 page not found").

(** [renderCallbackPage] answers 200 whatever it shows. *)
Definition renderCallbackPage (success : bool) (message accountID : string)
  : Response :=
  mkResponse StatusOK (CallbackPage success message accountID).

Definition toAccountResponse (account : Account.t) : accountResponse :=
  mkAccountResponse (Account.ID account) (Account.YouTubeChannelID account)
    (Account.TikTokAccountID account)
    (if negb (time.IsZero (Account.LastCheckedAt account))
     then Some (Account.LastCheckedAt account) else None)
    (Account.LastVideoID account) (Account.IsActive account)
    (Account.CreatedAt account) (Account.UpdatedAt account).

Definition toVideoResponse (video : Video.t) : videoResponse :=
  mkVideoResponse (Video.ID video) (Video.YouTubeVideoID video)
    (Video.AccountID video) (Video.Status video) (Video.ErrorMessage video)
    (Video.CreatedAt video) (Video.UpdatedAt video)
    (if negb (time.IsZero (Video.PublishedAt video))
     then Some (Video.PublishedAt video) else None).

(** The fields of [Server] the handlers read: the port of the
    configuration, the client key, and the token endpoint behind
    [tiktokService.ExchangeCodeForToken(code, redirectURI)]. *)
Record Server := mkServer {
  ServerPort : string;
  TikTokAPIKey : string;
  ExchangeCodeForToken : string -> string -> result TokenData
}.

Definition handleHealth (r : Request) : M Response :=
  if Method r != MethodGet then ret methodNotAllowed
  else ret (respondJSON StatusOK (JSONStatus "ok")).

Definition listAccounts : M Response :=
  accounts <- attempt AccountManager.GetAllAccountMappings ;;
  match accounts with
  | Err e => ret (respondError StatusInternalServerError e)
  | Ok accounts =>
      ret (respondJSON StatusOK (JSONAccounts (map toAccountResponse accounts)))
  end.

Definition createAccount (r : Request) : M Response :=
  match BodyCreate r with
  | None => ret (respondError StatusBadRequest "invalid request body")
  | Some payload =>
      account <- attempt (AccountManager.CreateAccountMapping
                            (create_YouTubeChannelID payload)
                            (create_TikTokAccountID payload)
                            (create_TikTokToken payload)) ;;
      match account with
      | Err e => ret (respondError StatusBadRequest e)
      | Ok account =>
          ret (respondJSON StatusCreated (JSONAccount (toAccountResponse account)))
      end
  end.

Definition handleAccounts (r : Request) : M Response :=
  if Method r == MethodGet then listAccounts
  else if Method r == MethodPost then createAccount r
  else ret methodNotAllowed.

Definition updateAccount (r : Request) (id : string) : M Response :=
  match BodyUpdate r with
  | None => ret (respondError StatusBadRequest "invalid request body")
  | Some payload =>
      account <- attempt (AccountManager.GetAccountMapping id) ;;
      match account with
      | Err e => ret (respondError StatusBadRequest e)
      | Ok None => ret NotFound
      | Ok (Some _) =>
          let youtubeID := match update_YouTubeChannelID payload with
                           | Some v => v | None => "" end in
          let tiktokID := match update_TikTokAccountID payload with
                          | Some v => v | None => "" end in
          let token := match update_TikTokToken payload with
                       | Some v => v | None => "" end in
          updated <- attempt (AccountManager.UpdateAccountMapping id youtubeID
                                tiktokID token (update_IsActive payload)) ;;
          match updated with
          | Err e => ret (respondError StatusBadRequest e)
          | Ok updated =>
              ret (respondJSON StatusOK (JSONAccount (toAccountResponse updated)))
          end
      end
  end.

Definition deleteAccount (id : string) : M Response :=
  r <- attempt (AccountManager.DeleteAccountMapping id) ;;
  match r with
  | Err e => ret (respondError StatusBadRequest e)
  | Ok _ => ret (respondJSON StatusOK (JSONStatus "deleted"))
  end.

Definition handleAccountActions (r : Request) : M Response :=
  let path := strings.TrimPrefix (Path r) "/api/accounts/" in
  if path == "" then ret NotFound
  else
    let parts := strings.Split path "/" in
    let id := hd "" parts in
    if (length parts =? 1)%nat then
      if Method r == MethodPatch then updateAccount r id
      else if Method r == MethodDelete then deleteAccount id
      else ret methodNotAllowed
    else
      let action := nth 1 parts "" in
      if (length parts =? 2)%nat && (Method r == MethodPost)
         && (action == "activate")
      then
        e <- attempt (AccountManager.ActivateAccountMapping id) ;;
        match e with
        | Err e => ret (respondError StatusBadRequest e)
        | Ok _ => ret (respondJSON StatusOK (JSONStatus "activated"))
        end
      else if (length parts =? 2)%nat && (Method r == MethodPost)
              && (action == "deactivate")
      then
        e <- attempt (AccountManager.DeactivateAccountMapping id) ;;
        match e with
        | Err e => ret (respondError StatusBadRequest e)
        | Ok _ => ret (respondJSON StatusOK (JSONStatus "deactivated"))
        end
      else ret NotFound.

(** The [limit] of [handlePendingVideos]. *)
Definition pendingLimit (r : Request) : Z :=
  let v := Query r "limit" in
  if v != "" then
    match strconv.Atoi v with
    | Some parsed =>
        if 0 <? parsed then (if 100 <? parsed then 100 else parsed) else 20
    | None => 20
    end
  else 20.

Definition handlePendingVideos (r : Request) : M Response :=
  if Method r != MethodGet then ret methodNotAllowed
  else
    let limit := pendingLimit r in
    videos <- attempt (VideoRepository.GetPendingVideos limit) ;;
    match videos with
    | Err e => ret (respondError StatusInternalServerError e)
    | Ok videos =>
        let resp := map toVideoResponse videos in
        ret (respondJSON StatusOK (JSONPending resp (Z.of_nat (length resp))))
    end.

Definition handleVideoMetrics (r : Request) : M Response :=
  if Method r != MethodGet then ret methodNotAllowed
  else
    count <- attempt VideoRepository.CountPending ;;
    match count with
    | Err e => ret (respondError StatusInternalServerError e)
    | Ok count => ret (respondJSON StatusOK (JSONMetrics count))
    end.

(** The first account of the list whose sink account is [userID]. *)
Definition findByTikTokUserID (userID : string) (accounts : list Account.t)
  : option Account.t :=
  find (fun acc => Account.TikTokAccountID acc == userID) accounts.

Definition updateTokens (s : Server) (account : Account.t) (tokenResp : TokenData)
  : M Response :=
  let expiresIn := ExpiresIn tokenResp in
  let refreshToken := RefreshToken tokenResp in
  updated <- attempt (AccountManager.UpdateAccountTokens (Account.ID account)
                        (AccessToken tokenResp) refreshToken (Some expiresIn)) ;;
  match updated with
  | Err e =>
      ret (respondError StatusInternalServerError ("failed to update tokens: " ++ e))
  | Ok updated =>
      ret (respondJSON StatusOK
             (JSONExchange (toAccountResponse updated) (ExpiresIn tokenResp)
                (TokenType tokenResp) (Scope tokenResp) (refreshToken != "")
                (if refreshToken == ""
                 then Some "No refresh token received. Token will need manual update when expired."
                 else None)))
  end.

Definition handleExchangeCode (s : Server) (r : Request) : M Response :=
  if Method r != MethodPost then ret methodNotAllowed
  else
    match BodyExchange r with
    | None => ret (respondError StatusBadRequest "invalid request body")
    | Some payload =>
        if exchange_Code payload == ""
        then ret (respondError StatusBadRequest "code is required")
        else if exchange_RedirectURI payload == ""
        then ret (respondError StatusBadRequest "redirect_uri is required")
        else
          match ExchangeCodeForToken s (exchange_Code payload)
                  (exchange_RedirectURI payload) with
          | Err e =>
              ret (respondError StatusBadRequest ("failed to exchange code: " ++ e))
          | Ok tokenResp =>
              if exchange_AccountID payload != "" then
                account <- attempt (AccountManager.GetAccountMapping
                                      (exchange_AccountID payload)) ;;
                match account with
                | Err e =>
                    ret (respondError StatusBadRequest
                           ("failed to get account: " ++ e))
                | Ok None => ret (respondError StatusNotFound "account not found")
                | Ok (Some account) => updateTokens s account tokenResp
                end
              else if exchange_TikTokUserID payload != "" then
                accounts <- attempt AccountManager.GetAllAccountMappings ;;
                match accounts with
                | Err e =>
                    ret (respondError StatusInternalServerError
                           ("failed to get accounts: " ++ e))
                | Ok accounts =>
                    match findByTikTokUserID (exchange_TikTokUserID payload)
                            accounts with
                    | None =>
                        ret (respondError StatusNotFound
                               "account not found with TikTok user ID")
                    | Some account => updateTokens s account tokenResp
                    end
                end
              else ret (respondError StatusBadRequest
                          "either account_id or tiktok_user_id is required")
          end
    end.

(** The redirect URI of the OAuth flow of one job. *)
Definition callbackURI (s : Server) (accountID : string) : string :=
  "http://localhost:" ++ ServerPort s ++ "/api/tiktok/callback?account_id="
  ++ accountID.

Definition handleAuthorize (s : Server) (r : Request) : M Response :=
  if Method r != MethodGet then ret methodNotAllowed
  else
    let path := strings.TrimPrefix (Path r) "/api/tiktok/authorize/" in
    if path == ""
    then ret (respondError StatusBadRequest "account_id is required in path")
    else
      let accountID := path in
      account <- attempt (AccountManager.GetAccountMapping accountID) ;;
      match account with
      | Err e =>
          ret (respondError StatusBadRequest ("failed to get account: " ++ e))
      | Ok None => ret (respondError StatusNotFound "account not found")
      | Ok (Some _) =>
          let redirectURI := callbackURI s accountID in
          let authURL :=
            "https://www.tiktok.com/v2/auth/authorize/?client_key="
            ++ TikTokAPIKey s
            ++ "&scope=user.info.basic,video.upload&response_type=code&redirect_uri="
            ++ url.QueryEscape redirectURI ++ "&state=" ++ accountID in
          ret (mkResponse StatusFound (Redirect authURL))
      end.

Definition handleCallback (s : Server) (r : Request) : M Response :=
  if Method r != MethodGet then ret methodNotAllowed
  else
    let code := Query r "code" in
    let accountID := Query r "account_id" in
    let errorParam := Query r "error" in
    if errorParam != "" then
      let errorDesc := Query r "error_description" in
      ret (renderCallbackPage false ("Authorization failed: " ++ errorDesc)
             accountID)
    else if code == ""
    then ret (respondError StatusBadRequest "authorization code is missing")
    else if accountID == ""
    then ret (respondError StatusBadRequest "account_id is missing")
    else
      account <- attempt (AccountManager.GetAccountMapping accountID) ;;
      match account with
      | Err e =>
          ret (renderCallbackPage false ("Failed to get account: " ++ e) accountID)
      | Ok None => ret (renderCallbackPage false "Account not found" accountID)
      | Ok (Some _) =>
          let redirectURI := callbackURI s accountID in
          match ExchangeCodeForToken s code redirectURI with
          | Err e =>
              ret (renderCallbackPage false ("Failed to exchange code: " ++ e)
                     accountID)
          | Ok tokenResp =>
              let expiresIn := ExpiresIn tokenResp in
              let refreshToken := RefreshToken tokenResp in
              updated <- attempt (AccountManager.UpdateAccountTokens accountID
                                    (AccessToken tokenResp) refreshToken
                                    (Some expiresIn)) ;;
              match updated with
              | Err e =>
                  ret (renderCallbackPage false ("Failed to update tokens: " ++ e)
                         accountID)
              | Ok _ =>
                  ret (renderCallbackPage true "Token updated successfully!"
                         accountID)
              end
          end
      end.

End httpapi.

(** * Proofs *)

(** ** The store *)

Import sqlite usecase.

Ltac inv H := inversion H; subst; clear H.

(** Splits a conjunction without introducing anything. *)
Ltac splits := repeat match goal with |- _ /\ _ => split end.

(** Unfolds the monad operations in the goal and in a hypothesis. *)
Ltac monad_unfold :=
  unfold bind, ret, fail, attempt, wrap, lift, get, modify, emit, time_Now in *.

Lemma statement_no_faults (w : World) :
  faults w = [] -> statement w = (Ok tt, w).
Proof. intros H. unfold statement. rewrite H. reflexivity. Qed.

Lemma eqb_refl' (s : string) : (s == s) = true.
Proof. apply String.eqb_refl. Qed.

Lemma no_faults_head w fs : no_faults w -> faults w = true :: fs -> False.
Proof.
  unfold no_faults. intros H E. rewrite E in H. discriminate.
Qed.

Lemma no_faults_tail w w' : no_faults w -> faults w' = tl (faults w) -> no_faults w'.
Proof.
  unfold no_faults. intros H E. rewrite E, H. reflexivity.
Qed.

Lemma statement_spec w r w' :
  statement w = (r, w') ->
  w' = set_faults (tl (faults w)) w
  /\ ((exists e fs, r = Err e /\ faults w = true :: fs)
      \/ (r = Ok tt /\ hd false (faults w) = false)).
Proof.
  unfold statement. destruct w as [a v f n u t]; simpl.
  destruct f as [|[|] fs]; simpl; intros H; inv H; split; eauto.
Qed.

(** Every single-row query of the account repository. *)
Lemma account_query_spec (f : Account.t -> bool) w r w' :
  (statement ;;; (x <- get ;; ret (find f (accounts x)))) w = (r, w') ->
  accounts w' = accounts w /\ videos w' = videos w /\ now w' = now w
  /\ trace w' = trace w /\ uuids w' = uuids w
  /\ faults w' = tl (faults w)
  /\ ((exists e fs, r = Err e /\ faults w = true :: fs)
      \/ r = Ok (find f (accounts w))).
Proof.
  monad_unfold.
  destruct (statement w) as [r0 w0] eqn:E. apply statement_spec in E.
  destruct E as [-> [(e & fs & -> & F)|[-> F]]]; intros H; inv H; simpl;
    splits; eauto.
Qed.

Lemma AccountRepository_GetByID_spec id w r w' :
  AccountRepository.GetByID id w = (r, w') ->
  accounts w' = accounts w /\ videos w' = videos w /\ now w' = now w
  /\ trace w' = trace w /\ uuids w' = uuids w
  /\ faults w' = tl (faults w)
  /\ ((exists e fs, r = Err e /\ faults w = true :: fs)
      \/ r = Ok (find (fun x => Account.ID x == id) (accounts w))).
Proof. apply account_query_spec. Qed.

Lemma AccountRepository_GetByTikTokAccountID_spec id w r w' :
  AccountRepository.GetByTikTokAccountID id w = (r, w') ->
  accounts w' = accounts w /\ videos w' = videos w /\ now w' = now w
  /\ trace w' = trace w /\ uuids w' = uuids w
  /\ faults w' = tl (faults w)
  /\ ((exists e fs, r = Err e /\ faults w = true :: fs)
      \/ r = Ok (find (fun x => Account.TikTokAccountID x == id) (accounts w))).
Proof. apply account_query_spec. Qed.

Lemma AccountRepository_GetByYouTubeChannelID_spec id w r w' :
  AccountRepository.GetByYouTubeChannelID id w = (r, w') ->
  accounts w' = accounts w /\ videos w' = videos w /\ now w' = now w
  /\ trace w' = trace w /\ uuids w' = uuids w
  /\ faults w' = tl (faults w)
  /\ ((exists e fs, r = Err e /\ faults w = true :: fs)
      \/ r = Ok (find (fun x => Account.YouTubeChannelID x == id) (accounts w))).
Proof. apply account_query_spec. Qed.

Lemma AccountRepository_GetByYouTubeAndTikTok_spec y t w r w' :
  AccountRepository.GetByYouTubeAndTikTok y t w = (r, w') ->
  accounts w' = accounts w /\ videos w' = videos w /\ now w' = now w
  /\ trace w' = trace w /\ uuids w' = uuids w
  /\ faults w' = tl (faults w)
  /\ ((exists e fs, r = Err e /\ faults w = true :: fs)
      \/ r = Ok (find (fun x => (Account.YouTubeChannelID x == y)
                                && (Account.TikTokAccountID x == t)) (accounts w))).
Proof. apply account_query_spec. Qed.

Lemma AccountRepository_Save_spec a w r w' :
  AccountRepository.Save a w = (r, w') ->
  now w' = now w /\ videos w' = videos w /\ faults w' = tl (faults w)
  /\ uuids w' = (if Account.ID a == "" then S (uuids w) else uuids w)
  /\ ((r = Ok (stamp_account w a)
       /\ accounts w' = upsert_account (stamp_account w a) (accounts w)
       /\ youtube_channel_id_taken (stamp_account w a) (accounts w) = false
       /\ tiktok_account_id_taken (stamp_account w a) (accounts w) = false)
      \/ ((exists e, r = Err e) /\ accounts w' = accounts w
          /\ ((exists fs, faults w = true :: fs)
              \/ youtube_channel_id_taken (stamp_account w a) (accounts w) = true
              \/ tiktok_account_id_taken (stamp_account w a) (accounts w) = true))).
Proof.
  unfold AccountRepository.Save, exec_upsert_account, uuid_NewString, stamp_account,
    next_uuid.
  monad_unfold.
  destruct (Account.ID a == "") eqn:Eid; simpl.
  - destruct (statement (set_uuids (S (uuids w)) w)) as [r0 w0] eqn:E.
    apply statement_spec in E. simpl in E.
    destruct E as [-> [(e & fs & -> & F)|[-> F]]]; simpl.
    + intros H; inv H; simpl. repeat split; auto. right; repeat split; eauto.
    + destruct (youtube_channel_id_taken _ _) eqn:Ey; simpl.
      { intros H; inv H; simpl. repeat split; auto. right; repeat split; eauto. }
      destruct (tiktok_account_id_taken _ _) eqn:Et; simpl.
      { intros H; inv H; simpl. repeat split; auto. right; repeat split; eauto. }
      intros H; inv H; simpl. repeat split; auto.
  - destruct (statement w) as [r0 w0] eqn:E.
    apply statement_spec in E. simpl in E.
    destruct E as [-> [(e & fs & -> & F)|[-> F]]]; simpl.
    + intros H; inv H; simpl. repeat split; auto. right; repeat split; eauto.
    + destruct (youtube_channel_id_taken _ _) eqn:Ey; simpl.
      { intros H; inv H; simpl. repeat split; auto. right; repeat split; eauto. }
      destruct (tiktok_account_id_taken _ _) eqn:Et; simpl.
      { intros H; inv H; simpl. repeat split; auto. right; repeat split; eauto. }
      intros H; inv H; simpl. repeat split; auto.
Qed.

(** ** The management update (C10) *)

Lemma find_account_id id rows r :
  find (fun x => Account.ID x == id) rows = Some r -> Account.ID r = id /\ In r rows.
Proof.
  intros H. apply find_some in H. destruct H as [Hin H].
  apply String.eqb_eq in H. auto.
Qed.

Lemma has_account_find id rows :
  has_account id rows
  = match find (fun x => Account.ID x == id) rows with Some _ => true | None => false end.
Proof.
  unfold has_account. induction rows as [|x rows IH]; simpl; auto.
  destruct (Account.ID x == id); simpl; auto.
Qed.

Lemma find_upsert_account_same a rows :
  find (fun x => Account.ID x == Account.ID a) (upsert_account a rows)
  = Some (match find (fun x => Account.ID x == Account.ID a) rows with
          | Some r => Account.with_CreatedAt (Account.CreatedAt r) a
          | None => a
          end).
Proof.
  unfold upsert_account. rewrite has_account_find.
  destruct (find _ rows) as [r|] eqn:F.
  - induction rows as [|x rows IH]; simpl in *; [discriminate|].
    destruct (Account.ID x == Account.ID a) eqn:E; simpl.
    + inv F. rewrite eqb_refl'. reflexivity.
    + rewrite E. auto.
  - induction rows as [|x rows IH]; simpl in *.
    + rewrite eqb_refl'. reflexivity.
    + destruct (Account.ID x == Account.ID a) eqn:E; [discriminate|]. auto.
Qed.

Lemma find_upsert_account_other a rows id :
  id <> Account.ID a ->
  find (fun x => Account.ID x == id) (upsert_account a rows)
  = find (fun x => Account.ID x == id) rows.
Proof.
  intros Hne. unfold upsert_account.
  assert (Hn : (Account.ID a == id) = false).
  { apply String.eqb_neq. congruence. }
  destruct (has_account (Account.ID a) rows).
  - induction rows as [|x rows IH]; simpl; auto.
    destruct (Account.ID x == Account.ID a) eqn:E; simpl.
    + rewrite Hn. apply String.eqb_eq in E.
      destruct (Account.ID x == id) eqn:E2; auto.
      apply String.eqb_eq in E2. congruence.
    + destruct (Account.ID x == id); auto.
  - induction rows as [|x rows IH]; simpl.
    + rewrite Hn. reflexivity.
    + destruct (Account.ID x == id); auto.
Qed.

Lemma existsb_false_forall {A} (f : A -> bool) l :
  (forall x, In x l -> f x = false) -> existsb f l = false.
Proof.
  induction l as [|x l IH]; simpl; intros H; auto.
  rewrite (H x (or_introl eq_refl)). simpl. apply IH. intros; apply H; auto.
Qed.

(** A struct that keeps the identifiers of its own row passes the two
    UNIQUE checks. *)
Lemma unique_checks_pass rows old a :
  accounts_unique rows -> In old rows ->
  Account.ID a = Account.ID old ->
  Account.YouTubeChannelID a = Account.YouTubeChannelID old ->
  Account.TikTokAccountID a = Account.TikTokAccountID old ->
  youtube_channel_id_taken a rows = false /\ tiktok_account_id_taken a rows = false.
Proof.
  intros U Hin Hid Hy Ht. split; apply existsb_false_forall; intros x Hx;
    apply andb_false_iff.
  - destruct (Account.YouTubeChannelID x == Account.YouTubeChannelID a) eqn:E;
      [left|right; reflexivity].
    apply String.eqb_eq in E. rewrite Hy in E.
    rewrite (U x old Hx Hin (or_intror (or_introl E))).
    rewrite Hid, eqb_refl'. reflexivity.
  - destruct (Account.TikTokAccountID x == Account.TikTokAccountID a) eqn:E;
      [left|right; reflexivity].
    apply String.eqb_eq in E. rewrite Ht in E.
    rewrite (U x old Hx Hin (or_intror (or_intror E))).
    rewrite Hid, eqb_refl'. reflexivity.
Qed.

(** What [UpdateAccountMapping] does to the row of an existing account. *)
Lemma UpdateAccountMapping_spec :
  forall (w : World)
         (accountID youtubeChannelID tiktokAccountID tiktokAccessToken : string)
         (isActive : option bool) (old : Account.t) r w',
    accountID <> "" ->
    account_row accountID w = Some old ->
    AccountManager.UpdateAccountMapping accountID youtubeChannelID tiktokAccountID
      tiktokAccessToken isActive w = (r, w') ->
    exists stored,
      account_row accountID w' = Some stored
      /\ (youtubeChannelID = "" ->
          Account.YouTubeChannelID stored = Account.YouTubeChannelID old)
      /\ (tiktokAccountID = "" ->
          Account.TikTokAccountID stored = Account.TikTokAccountID old)
      /\ (tiktokAccessToken = "" ->
          Account.TikTokAccessToken stored = Account.TikTokAccessToken old)
      /\ (isActive = None -> Account.IsActive stored = Account.IsActive old)
      /\ (Account.TikTokAccessToken old <> "" -> Account.TikTokAccessToken stored <> "")
      /\ (Account.YouTubeChannelID old <> "" -> Account.YouTubeChannelID stored <> "")
      /\ (Account.TikTokAccountID old <> "" -> Account.TikTokAccountID stored <> "")
      /\ (Account.ID stored = Account.ID old
          /\ Account.TikTokRefreshToken stored = Account.TikTokRefreshToken old
          /\ Account.TikTokTokenExpiresAt stored = Account.TikTokTokenExpiresAt old
          /\ Account.LastCheckedAt stored = Account.LastCheckedAt old
          /\ Account.LastVideoID stored = Account.LastVideoID old
          /\ Account.CreatedAt stored = Account.CreatedAt old)
      /\ (forall id, id <> accountID -> account_row id w' = account_row id w)
      /\ (is_ok r = true -> tiktokAccessToken <> "" ->
          Account.TikTokAccessToken stored = tiktokAccessToken)
      /\ (is_ok r = true -> Account.UpdatedAt stored = now w)
      /\ (is_ok r = false -> accounts w' = accounts w)
      /\ (no_faults w -> accounts_unique (accounts w) ->
          youtubeChannelID = "" -> tiktokAccountID = "" -> tiktokAccessToken = "" ->
          isActive = None ->
          r = Ok (Account.with_UpdatedAt (now w) old)
          /\ stored = Account.with_UpdatedAt (now w) old)
      /\ (no_faults w -> accounts_unique (accounts w) ->
          youtubeChannelID = "" -> tiktokAccountID = "" -> is_ok r = true).
Proof.
  intros w accountID yt tt tok act old r w' Hne Hold Hrun.
  unfold account_row in *.
  destruct (find_account_id _ _ _ Hold) as [Hid Hin].
  unfold AccountManager.UpdateAccountMapping in Hrun.
  unfold bind at 1, wrap at 1 in Hrun.
  destruct (AccountRepository.GetByID accountID w) as [r0 w0] eqn:G.
  apply AccountRepository_GetByID_spec in G.
  destruct G as (Ga & Gv & Gn & Gt & Gu & Gf & Gr).
  destruct Gr as [(e & fs & -> & F)| ->].
  - (* the lookup fails *)
    inv Hrun. exists old. rewrite Ga.
    splits; auto; try discriminate;
      intros NF; exfalso; eapply no_faults_head; eauto.
  - rewrite Hold in Hrun. unfold bind, time_Now, wrap in Hrun.
    match type of Hrun with
    | context [AccountRepository.Save ?a ?x] =>
        remember a as upd eqn:Hupd;
        destruct (AccountRepository.Save upd x) as [r1 w1] eqn:S
    end.
    apply AccountRepository_Save_spec in S.
    destruct S as (Sn & Sv & Sf & Su & S).
    assert (Hfacts :
      Account.ID upd = accountID
      /\ Account.YouTubeChannelID upd
         = (if yt == "" then Account.YouTubeChannelID old else yt)
      /\ Account.TikTokAccountID upd
         = (if tt == "" then Account.TikTokAccountID old else tt)
      /\ Account.TikTokAccessToken upd
         = (if tok == "" then Account.TikTokAccessToken old else tok)
      /\ Account.IsActive upd
         = match act with Some b => b | None => Account.IsActive old end
      /\ Account.TikTokRefreshToken upd = Account.TikTokRefreshToken old
      /\ Account.TikTokTokenExpiresAt upd = Account.TikTokTokenExpiresAt old
      /\ Account.LastCheckedAt upd = Account.LastCheckedAt old
      /\ Account.LastVideoID upd = Account.LastVideoID old
      /\ Account.CreatedAt upd = Account.CreatedAt old
      /\ Account.UpdatedAt upd = now w).
    { subst upd. rewrite Gn. destruct act; destruct (tok == ""); destruct (tt == "");
        destruct (yt == ""); simpl; splits; auto. }
    clear Hupd.
    destruct Hfacts as (Hupd_id & Uy & Ut & Uk & Ua & Ur & Ue & Uc & Uv & Ucr & Uu).
    assert (Hstamp : stamp_account w0 upd = Account.with_UpdatedAt (now w) upd).
    { unfold stamp_account. rewrite Hupd_id, Gn.
      apply String.eqb_neq in Hne. rewrite Hne. reflexivity. }
    rewrite Hstamp in S.
    destruct S as [(-> & Sa & Sy & St)|((e & ->) & Sa & Sc)].
    + (* the upsert goes through *)
      inv Hrun. rewrite Sa, Ga.
      pose proof (find_upsert_account_same
                    (Account.with_UpdatedAt (now w) upd) (accounts w)) as Hf.
      simpl in Hf. rewrite Hupd_id, Hold in Hf.
      eexists. split; [exact Hf|].
      simpl. splits.
      * intros ->. rewrite Uy. reflexivity.
      * intros ->. rewrite Ut. reflexivity.
      * intros ->. rewrite Uk. reflexivity.
      * intros ->. rewrite Ua. reflexivity.
      * rewrite Uk. destruct (tok == "") eqn:E; auto.
        apply String.eqb_neq in E. auto.
      * rewrite Uy. destruct (yt == "") eqn:E; auto.
        apply String.eqb_neq in E. auto.
      * rewrite Ut. destruct (tt == "") eqn:E; auto.
        apply String.eqb_neq in E. auto.
      * congruence.
      * assumption.
      * assumption.
      * assumption.
      * assumption.
      * reflexivity.
      * intros id Hid'. apply find_upsert_account_other. simpl. congruence.
      * intros _ Hk. rewrite Uk. apply String.eqb_neq in Hk. rewrite Hk. reflexivity.
      * reflexivity.
      * discriminate.
      * intros _ _ -> -> -> ->. simpl in *.
        assert (E : Account.with_UpdatedAt (now w) upd
                    = Account.with_UpdatedAt (now w) old).
        { destruct upd, old; unfold Account.with_UpdatedAt; simpl in *; congruence. }
        rewrite E. split; [reflexivity|].
        destruct old; reflexivity.
      * reflexivity.
    + (* the upsert is refused *)
      inv Hrun. rewrite Sa, Ga. exists old. split; [assumption|].
      assert (Hno : no_faults w -> accounts_unique (accounts w) ->
                    yt = "" -> tt = "" -> False).
      { intros NF U -> ->. simpl in *.
        destruct Sc as [[fs F]|Sc].
        * eapply no_faults_head; [|exact F]. eapply no_faults_tail; eauto.
        * rewrite Ga in Sc.
          destruct (unique_checks_pass (accounts w) old
                      (Account.with_UpdatedAt (now w) upd) U Hin) as [P1 P2];
            simpl; auto.
          destruct Sc as [Sc|Sc]; congruence. }
      splits; auto; try discriminate.
      all: intros; exfalso; apply Hno; auto.
Qed.

(** C10.  [AccountManager.UpdateAccountMapping] on an existing account:
    a parameter passed as the empty string leaves the stored YouTube
    channel id, TikTok account id or access token as it was, a nil
    [isActive] leaves the active flag as it was, so a stored token or id
    is never cleared; the columns for which there is no parameter are
    never touched and the other rows are left alone; a non-empty token
    is stored by a call that succeeds; a call that fails changes nothing;
    a call that succeeds sets [updated_at] to the current time; and the
    call whose parameters are all empty succeeds, when no statement fails
    on a table that meets its UNIQUE constraints, changing [updated_at]
    only. *)
Theorem C10_update_keeps_fields_of_empty_parameters :
  forall (w : World)
         (accountID youtubeChannelID tiktokAccountID tiktokAccessToken : string)
         (isActive : option bool) (old : Account.t) r w',
    accountID <> "" ->
    account_row accountID w = Some old ->
    AccountManager.UpdateAccountMapping accountID youtubeChannelID tiktokAccountID
      tiktokAccessToken isActive w = (r, w') ->
    exists stored,
      account_row accountID w' = Some stored
      /\ (youtubeChannelID = "" ->
          Account.YouTubeChannelID stored = Account.YouTubeChannelID old)
      /\ (tiktokAccountID = "" ->
          Account.TikTokAccountID stored = Account.TikTokAccountID old)
      /\ (tiktokAccessToken = "" ->
          Account.TikTokAccessToken stored = Account.TikTokAccessToken old)
      /\ (isActive = None -> Account.IsActive stored = Account.IsActive old)
      /\ (Account.TikTokAccessToken old <> "" -> Account.TikTokAccessToken stored <> "")
      /\ (Account.YouTubeChannelID old <> "" -> Account.YouTubeChannelID stored <> "")
      /\ (Account.TikTokAccountID old <> "" -> Account.TikTokAccountID stored <> "")
      /\ (Account.ID stored = Account.ID old
          /\ Account.TikTokRefreshToken stored = Account.TikTokRefreshToken old
          /\ Account.TikTokTokenExpiresAt stored = Account.TikTokTokenExpiresAt old
          /\ Account.LastCheckedAt stored = Account.LastCheckedAt old
          /\ Account.LastVideoID stored = Account.LastVideoID old
          /\ Account.CreatedAt stored = Account.CreatedAt old)
      /\ (forall id, id <> accountID -> account_row id w' = account_row id w)
      /\ (is_ok r = true -> tiktokAccessToken <> "" ->
          Account.TikTokAccessToken stored = tiktokAccessToken)
      /\ (is_ok r = true -> Account.UpdatedAt stored = now w)
      /\ (is_ok r = false -> accounts w' = accounts w)
      /\ (no_faults w -> accounts_unique (accounts w) ->
          youtubeChannelID = "" -> tiktokAccountID = "" -> tiktokAccessToken = "" ->
          isActive = None ->
          r = Ok (Account.with_UpdatedAt (now w) old)
          /\ stored = Account.with_UpdatedAt (now w) old).
Proof.
  intros w accountID yt tt tok act old r w' Hne Hold Hrun.
  destruct (UpdateAccountMapping_spec w accountID yt tt tok act old r w' Hne Hold Hrun)
    as (stored & H1 & H2 & H3 & H4 & H5 & H6 & H7 & H8 & H9 & H10 & H11 & H12
        & H13 & H14 & _).
  exists stored. splits; try assumption; apply H9.
Qed.

(** The theorem at the store [Fx.world1]: the update with empty
    parameters leaves the stored token ["T0"] and changes [updated_at]. *)
Lemma C10_update_keeps_fields_witness :
  exists stored,
    account_row "acc-1"
      (snd (AccountManager.UpdateAccountMapping "acc-1" "" "" "" None Fx.world1))
    = Some stored
    /\ Account.TikTokAccessToken stored = "T0"
    /\ stored = Account.with_UpdatedAt Fx.clock Fx.account1.
Proof.
  destruct (C10_update_keeps_fields_of_empty_parameters
              Fx.world1 "acc-1" "" "" "" None Fx.account1
              (fst (AccountManager.UpdateAccountMapping "acc-1" "" "" "" None Fx.world1))
              (snd (AccountManager.UpdateAccountMapping "acc-1" "" "" "" None Fx.world1)))
    as (stored & Hrow & _ & _ & Htok & _ & _ & _ & _ & _ & _ & _ & _ & _ & Hall).
  - discriminate.
  - reflexivity.
  - reflexivity.
  - exists stored. split; [exact Hrow|]. split; [apply Htok; reflexivity|].
    apply Hall; try reflexivity.
    intros r1 r2 [<-|[]] [<-|[]] _. reflexivity.
Defined.

(** ** The upsert of a video (C1) *)

Lemma VideoRepository_Save_spec v w r w' :
  VideoRepository.Save v w = (r, w') ->
  now w' = now w /\ accounts w' = accounts w /\ faults w' = tl (faults w)
  /\ ((r = Ok (stamp_video w v)
       /\ videos w' = upsert_video (stamp_video w v) (videos w)
       /\ trace w' = (trace w ++ [EvVideoSave (Video.ID (stamp_video w v))
                                    (Video.YouTubeVideoID v)
                                    (Video.Status (stamp_video w v)) true])%list
       /\ hd false (faults w) = false
       /\ has_account (Video.AccountID v) (accounts w) = true
       /\ youtube_video_id_taken (stamp_video w v) (videos w) = false)
      \/ ((exists e, r = Err e) /\ videos w' = videos w
          /\ trace w' = (trace w ++ [EvVideoSave (Video.ID (stamp_video w v))
                                       (Video.YouTubeVideoID v)
                                       (Video.Status (stamp_video w v)) false])%list
          /\ ((exists fs, faults w = true :: fs)
              \/ has_account (Video.AccountID v) (accounts w) = false
              \/ youtube_video_id_taken (stamp_video w v) (videos w) = true))).
Proof.
  unfold VideoRepository.Save, exec_upsert_video, uuid_NewString, stamp_video, next_uuid.
  monad_unfold.
  destruct (Video.ID v == "") eqn:Eid; simpl;
    destruct (Video.Status v == "") eqn:Est; simpl.
  all: match goal with
       | |- context [statement ?x] =>
           destruct (statement x) as [r0 w0] eqn:E; apply statement_spec in E;
           simpl in E; destruct E as [-> [(e & fs & -> & F)|[-> F]]]; simpl
       end.
  all: try (intros H; inv H; simpl; splits; auto; right; splits; eauto; fail).
  all: destruct (has_account (Video.AccountID v) (accounts w)) eqn:FK; simpl.
  all: try (intros H; inv H; simpl; splits; auto; right; splits; eauto; fail).
  all: destruct (youtube_video_id_taken _ _) eqn:Ey; simpl.
  all: try (intros H; inv H; simpl; splits; auto; right; splits; eauto; fail).
  all: intros H; inv H; simpl; splits; auto; left; splits; auto.
Qed.

Lemma has_video_find id rows :
  has_video id rows
  = match find (fun x => Video.ID x == id) rows with Some _ => true | None => false end.
Proof.
  unfold has_video. induction rows as [|x rows IH]; simpl; auto.
  destruct (Video.ID x == id); simpl; auto.
Qed.

Lemma find_upsert_video_same a rows :
  find (fun x => Video.ID x == Video.ID a) (upsert_video a rows)
  = Some (match find (fun x => Video.ID x == Video.ID a) rows with
          | Some r => Video.with_CreatedAt (Video.CreatedAt r) a
          | None => a
          end).
Proof.
  unfold upsert_video. rewrite has_video_find.
  destruct (find _ rows) as [r|] eqn:F.
  - induction rows as [|x rows IH]; simpl in *; [discriminate|].
    destruct (Video.ID x == Video.ID a) eqn:E; simpl.
    + inv F. rewrite eqb_refl'. reflexivity.
    + rewrite E. auto.
  - induction rows as [|x rows IH]; simpl in *.
    + rewrite eqb_refl'. reflexivity.
    + destruct (Video.ID x == Video.ID a) eqn:E; [discriminate|]. auto.
Qed.

(** When the UNIQUE check on [youtube_video_id] passes, the dedup lookup
    finds the row of the upsert. *)
Lemma find_upsert_video_by_youtube_id a rows :
  youtube_video_id_taken a rows = false ->
  find (fun x => Video.YouTubeVideoID x == Video.YouTubeVideoID a) (upsert_video a rows)
  = find (fun x => Video.ID x == Video.ID a) (upsert_video a rows).
Proof.
  unfold upsert_video, youtube_video_id_taken, has_video. intros T.
  destruct (existsb (fun r => Video.ID r == Video.ID a) rows) eqn:Hv.
  - clear Hv. induction rows as [|x rows IH]; simpl in *; auto.
    apply orb_false_iff in T. destruct T as [T1 T2].
    destruct (Video.ID x == Video.ID a) eqn:E; simpl in *.
    + rewrite !eqb_refl'. reflexivity.
    + rewrite T1, E. auto.
  - induction rows as [|x rows IH]; simpl in *.
    + rewrite !eqb_refl'. reflexivity.
    + apply orb_false_iff in T. destruct T as [T1 T2].
      apply orb_false_iff in Hv. destruct Hv as [E Hv].
      rewrite E in *. simpl in T1. rewrite T1. auto.
Qed.

Lemma stamp_video_keys w v :
  Video.ID v <> "" ->
  Video.ID (stamp_video w v) = Video.ID v
  /\ Video.YouTubeVideoID (stamp_video w v) = Video.YouTubeVideoID v
  /\ Video.Status (stamp_video w v)
     = (if Video.Status v == "" then VideoStatusPending else Video.Status v)
  /\ Video.UpdatedAt (stamp_video w v) = now w.
Proof.
  intros Hne. apply String.eqb_neq in Hne. unfold stamp_video. rewrite Hne.
  destruct (Video.Status v == ""); simpl; auto.
Qed.

Lemma youtube_video_id_taken_keys a b rows :
  Video.ID a = Video.ID b -> Video.YouTubeVideoID a = Video.YouTubeVideoID b ->
  youtube_video_id_taken a rows = youtube_video_id_taken b rows.
Proof.
  intros E1 E2. unfold youtube_video_id_taken. rewrite E1, E2. reflexivity.
Qed.

(** C1, as amended.  [VideoRepository.Save] of a struct whose id is
    already stored: when the store accepts the statement, every column
    but [id] and [created_at] is overwritten with the incoming value, the
    status included; the stored status becomes the incoming status
    ([pending] when the incoming one is empty), whatever the stored one
    was, and the dedup lookup then observes that row.  When the store
    refuses the statement, the table is unchanged.  The statement is
    accepted when it does not fail, the account exists and no other row
    has the same YouTube id. *)
Theorem C1_upsert_overwrites_status :
  forall (w : World) (v old : Video.t) r w',
    Video.ID v <> "" ->
    video_row (Video.ID v) w = Some old ->
    VideoRepository.Save v w = (r, w') ->
    (is_ok r = false -> videos w' = videos w)
    /\ (is_ok r = true ->
        exists new,
          video_row (Video.ID v) w' = Some new
          /\ video_by_youtube_id (Video.YouTubeVideoID v) w' = Some new
          /\ Video.Status new
             = (if Video.Status v == "" then VideoStatusPending else Video.Status v)
          /\ Video.YouTubeVideoID new = Video.YouTubeVideoID v
          /\ Video.AccountID new = Video.AccountID v
          /\ Video.Title new = Video.Title v
          /\ Video.Description new = Video.Description v
          /\ Video.ThumbnailURL new = Video.ThumbnailURL v
          /\ Video.VideoURL new = Video.VideoURL v
          /\ Video.LocalFilePath new = Video.LocalFilePath v
          /\ Video.ErrorMessage new = Video.ErrorMessage v
          /\ Video.TikTokVideoID new = Video.TikTokVideoID v
          /\ Video.PublishedAt new = Video.PublishedAt v
          /\ Video.UpdatedAt new = now w
          /\ Video.CreatedAt new = Video.CreatedAt old
          /\ Video.ID new = Video.ID old)
    /\ (hd false (faults w) = false ->
        has_account (Video.AccountID v) (accounts w) = true ->
        youtube_video_id_taken v (videos w) = false ->
        is_ok r = true).
Proof.
  intros w v old r w' Hne Hold Hrun. unfold video_row, video_by_youtube_id in *.
  apply VideoRepository_Save_spec in Hrun.
  destruct Hrun as (Hn & Ha & Hf & H).
  destruct (stamp_video_keys w v Hne) as (Kid & Ky & Ks & Ku).
  assert (Hoid : Video.ID old = Video.ID v).
  { apply find_some in Hold. destruct Hold as [_ E]. apply String.eqb_eq in E. auto. }
  destruct H as [(-> & Hv & Ht & Hh & Hfk & Hy)|((e & ->) & Hv & Ht & Hc)].
  - splits; try (intros; reflexivity); try discriminate.
    intros _. rewrite Hv.
    pose proof (find_upsert_video_same (stamp_video w v) (videos w)) as F.
    pose proof (find_upsert_video_by_youtube_id (stamp_video w v) (videos w) Hy) as G.
    rewrite Kid in F, G. rewrite Ky in G. rewrite Hold in F. rewrite F in G.
    eexists. split; [exact F|]. split; [exact G|].
    unfold stamp_video in *. apply String.eqb_neq in Hne. rewrite Hne in *.
    destruct (Video.Status v == ""); simpl; splits; auto.
  - splits; try discriminate; auto.
    intros Hh Hfk Hy. exfalso.
    rewrite (youtube_video_id_taken_keys (stamp_video w v) v (videos w) Kid Ky) in Hc.
    destruct Hc as [[fs F]|[F|F]]; try congruence.
    rewrite F in Hh. discriminate.
Qed.

(** The theorem at [Fx.world2]: the completed video is saved again with
    status [pending]; the dedup lookup then observes [pending]. *)
Lemma C1_upsert_overwrites_status_witness :
  exists new,
    video_by_youtube_id "yt-1" (snd (VideoRepository.Save Fx1.incoming Fx.world2))
    = Some new
    /\ Video.Status new = VideoStatusPending.
Proof.
  destruct (C1_upsert_overwrites_status Fx.world2 Fx1.incoming Fx.completed1
              (fst (VideoRepository.Save Fx1.incoming Fx.world2))
              (snd (VideoRepository.Save Fx1.incoming Fx.world2)))
    as (_ & H & _).
  - discriminate.
  - reflexivity.
  - reflexivity.
  - destruct (H eq_refl) as (new & _ & Hd & Hs & _).
    exists new. split; [exact Hd|exact Hs].
Defined.

(** C1 as stated fails: an upsert on an existing id takes a [completed]
    row back to [pending], and a second dedup lookup observes the
    regression. *)
Lemma C1_counterexample_status_regresses :
  ~ (forall (w : World) (v : Video.t) r w' first second,
        video_by_youtube_id (Video.YouTubeVideoID v) w = Some first ->
        Video.ID first = Video.ID v ->
        VideoRepository.Save v w = (r, w') ->
        video_by_youtube_id (Video.YouTubeVideoID v) w' = Some second ->
        regresses (Video.Status first) (Video.Status second) = false).
Proof.
  intros H.
  specialize (H Fx.world2 Fx1.incoming _ _ Fx.completed1
                (Video.with_UpdatedAt Fx.clock Fx1.incoming)
                eq_refl eq_refl eq_refl eq_refl).
  vm_compute in H. discriminate H.
Qed.

(** ** The bootstrapper (C9) *)

Lemma account_row_of_member rows a :
  accounts_unique rows -> In a rows ->
  find (fun r => Account.ID r == Account.ID a) rows = Some a.
Proof.
  intros U Hin.
  destruct (find (fun r => Account.ID r == Account.ID a) rows) as [x|] eqn:F.
  - destruct (find_account_id _ _ _ F) as [Hid Hx].
    rewrite (U x a Hx Hin (or_introl Hid)). reflexivity.
  - exfalso. pose proof (find_none _ _ F a Hin) as H. simpl in H.
    rewrite eqb_refl' in H. discriminate.
Qed.

Lemma matching_account_member acc w a :
  matching_account acc w = Some a -> In a (accounts w).
Proof.
  unfold matching_account.
  destruct (find _ (accounts w)) as [x|] eqn:F; intros H.
  - inv H. apply find_some in F. tauto.
  - apply find_some in H. tauto.
Qed.

(** What [DeactivateAccountMapping] leaves of the row of an account. *)
Lemma DeactivateAccountMapping_spec id w old r w' :
  id <> "" ->
  account_row id w = Some old ->
  AccountManager.DeactivateAccountMapping id w = (r, w') ->
  exists stored,
    account_row id w' = Some stored
    /\ Account.TikTokAccessToken stored = Account.TikTokAccessToken old
    /\ Account.YouTubeChannelID stored = Account.YouTubeChannelID old
    /\ Account.TikTokAccountID stored = Account.TikTokAccountID old.
Proof.
  intros Hne Hold Hrun. unfold account_row in *.
  destruct (find_account_id _ _ _ Hold) as [Hid Hin].
  unfold AccountManager.DeactivateAccountMapping in Hrun.
  unfold bind at 1, wrap at 1 in Hrun.
  destruct (AccountRepository.GetByID id w) as [r0 w0] eqn:G.
  apply AccountRepository_GetByID_spec in G.
  destruct G as (Ga & Gv & Gn & Gt & Gu & Gf & Gr).
  destruct Gr as [(e & fs & -> & F)| ->].
  - inv Hrun. exists old. rewrite Ga. auto.
  - rewrite Hold in Hrun. unfold bind, time_Now, ret in Hrun.
    match type of Hrun with
    | context [AccountRepository.Save ?a ?x] =>
        destruct (AccountRepository.Save a x) as [r1 w1] eqn:S
    end.
    apply AccountRepository_Save_spec in S.
    destruct S as (Sn & Sv & Sf & Su & S).
    assert (Hstamp : forall a, Account.ID a = id ->
                               stamp_account w0 a = Account.with_UpdatedAt (now w0) a).
    { intros a Ha. unfold stamp_account. rewrite Ha.
      apply String.eqb_neq in Hne. rewrite Hne. reflexivity. }
    rewrite Hstamp in S by (simpl; exact Hid).
    destruct S as [(-> & Sa & Sy & St)|((e & ->) & Sa & Sc)].
    + inv Hrun. rewrite Sa, Ga.
      match goal with
      | |- context [upsert_account ?a _] =>
          pose proof (find_upsert_account_same a (accounts w)) as Hf
      end.
      simpl in Hf. rewrite Hold in Hf.
      eexists. split; [exact Hf|]. simpl. auto.
    + inv Hrun. rewrite Sa, Ga. exists old. auto.
Qed.

Lemma find_none_conj {A} (f g : A -> bool) l :
  find g l = None -> find (fun x => f x && g x) l = None.
Proof.
  induction l as [|x l IH]; simpl; auto.
  destruct (g x); [discriminate|]. rewrite andb_false_r. auto.
Qed.

Lemma not_taken_when_absent a rows :
  find (fun r => Account.TikTokAccountID r == Account.TikTokAccountID a) rows = None ->
  find (fun r => Account.YouTubeChannelID r == Account.YouTubeChannelID a) rows = None ->
  youtube_channel_id_taken a rows = false /\ tiktok_account_id_taken a rows = false.
Proof.
  intros Ft Fy. split; apply existsb_false_forall; intros x Hx.
  - pose proof (find_none _ _ Fy x Hx) as H. simpl in H. rewrite H.
    apply andb_false_r.
  - pose proof (find_none _ _ Ft x Hx) as H. simpl in H. rewrite H.
    apply andb_false_r.
Qed.

(** [CreateAccountMapping] for a pair of ids nobody has, when no
    statement fails. *)
Lemma CreateAccountMapping_ok w youtubeID tiktokID token :
  no_faults w ->
  youtubeID <> "" -> tiktokID <> "" -> token <> "" ->
  find (fun r => Account.TikTokAccountID r == tiktokID) (accounts w) = None ->
  find (fun r => Account.YouTubeChannelID r == youtubeID) (accounts w) = None ->
  exists w',
    AccountManager.CreateAccountMapping youtubeID tiktokID token w
    = (Ok (Account.mk (next_uuid w) youtubeID tiktokID token "" None 0 "" true
             (now w) (now w)), w')
    /\ accounts w'
       = upsert_account (Account.mk (next_uuid w) youtubeID tiktokID token "" None 0
                           "" true (now w) (now w)) (accounts w)
    /\ no_faults w'.
Proof.
  unfold no_faults. intros NF Hy Ht Hk Ft Fy.
  apply String.eqb_neq in Hy, Ht, Hk.
  unfold AccountManager.CreateAccountMapping.
  rewrite Hy, Ht, Hk.
  unfold AccountRepository.GetByYouTubeAndTikTok, AccountRepository.GetByYouTubeChannelID,
    AccountRepository.GetByTikTokAccountID, AccountRepository.Save, exec_upsert_account,
    uuid_NewString.
  monad_unfold.
  repeat (first [ rewrite (statement_no_faults w NF)
                | rewrite (find_none_conj _ _ _ Ft)
                | rewrite Fy | rewrite Ft ]; cbv beta iota).
  rewrite eqb_refl'. cbv beta iota.
  rewrite statement_no_faults by (simpl; exact NF). cbv beta iota.
  simpl accounts.
  match goal with
  | |- context [youtube_channel_id_taken ?a ?rows] =>
      destruct (not_taken_when_absent a rows) as [P1 P2]; [exact Ft|exact Fy|];
      rewrite P1; cbv beta iota; rewrite P2
  end.
  simpl. eexists. split; [reflexivity|]. simpl. split; [reflexivity|exact NF].
Qed.

(** The update path of the bootstrapper, on the row it matched. *)
Lemma bootstrapUpdate_spec acc existing w r w' :
  accounts_unique (accounts w) -> In existing (accounts w) ->
  Account.ID existing <> "" ->
  main.bootstrapUpdate acc existing w = (r, w') ->
  r = Ok tt
  /\ exists stored,
      account_row (Account.ID existing) w' = Some stored
      /\ (Account.TikTokAccessToken existing <> "" ->
          Account.TikTokAccessToken stored = Account.TikTokAccessToken existing)
      /\ (Account.TikTokAccessToken stored <> Account.TikTokAccessToken existing ->
          Account.TikTokAccessToken existing = ""
          /\ Account.TikTokAccessToken stored = config.TikTokAccessToken acc)
      /\ Account.TikTokRefreshToken stored = Account.TikTokRefreshToken existing
      /\ (no_faults w ->
          config.YouTubeChannelID acc = Account.YouTubeChannelID existing ->
          config.TikTokAccountID acc = Account.TikTokAccountID existing ->
          Account.TikTokAccessToken existing = "" ->
          config.TikTokAccessToken acc <> "" ->
          Account.TikTokAccessToken stored = config.TikTokAccessToken acc).
Proof.
  intros U Hin Hne Hrun.
  pose proof (account_row_of_member _ _ U Hin) as Hrow.
  unfold main.bootstrapUpdate in Hrun.
  set (changeYouTube := (config.YouTubeChannelID acc != "")
         && (config.YouTubeChannelID acc != Account.YouTubeChannelID existing)) in *.
  set (changeTikTok := (config.TikTokAccountID acc != "")
         && (config.TikTokAccountID acc != Account.TikTokAccountID existing)) in *.
  set (changeToken := (config.TikTokAccessToken acc != "")
         && (config.TikTokAccessToken acc != Account.TikTokAccessToken existing)
         && (Account.TikTokAccessToken existing == "")) in *.
  set (changeActive := match config.IsActive acc with
                       | Some b => negb (Bool.eqb (Account.IsActive existing) b)
                       | None => false
                       end) in *.
  assert (Htok : changeToken = true ->
                 Account.TikTokAccessToken existing = ""
                 /\ config.TikTokAccessToken acc <> "").
  { unfold changeToken. intros H. apply andb_true_iff in H. destruct H as [H H3].
    apply andb_true_iff in H. destruct H as [H1 H2].
    apply String.eqb_eq in H3. apply negb_true_iff, String.eqb_neq in H1. auto. }
  assert (Htok' : Account.TikTokAccessToken existing = "" ->
                  config.TikTokAccessToken acc <> "" -> changeToken = true).
  { unfold changeToken. intros H1 H2. rewrite H1, eqb_refl'.
    apply String.eqb_neq in H2. rewrite H2. reflexivity. }
  destruct (changeYouTube || changeTikTok || changeToken || changeActive) eqn:Need.
  - (* UpdateAccountMapping is called *)
    unfold bind, attempt, ret in Hrun.
    match type of Hrun with
    | context [AccountManager.UpdateAccountMapping ?i ?y ?t ?k ?a ?x] =>
        destruct (AccountManager.UpdateAccountMapping i y t k a x) as [r1 w1] eqn:E;
        pose proof (UpdateAccountMapping_spec x i y t k a existing r1 w1 Hne Hrow E)
          as (stored & S1 & S2 & S3 & S4 & S5 & S6 & S7 & S8 & S9 & S10 & S11 & S12
              & S13 & S14 & S15)
    end.
    inv Hrun. split; [reflexivity|]. exists stored. split; [exact S1|].
    destruct S9 as (_ & Sref & _).
    assert (Hkeep : changeToken = false ->
                    Account.TikTokAccessToken stored
                    = Account.TikTokAccessToken existing).
    { intros C. apply S4. rewrite C. reflexivity. }
    assert (Hset : changeToken = true -> is_ok r1 = true ->
                   Account.TikTokAccessToken stored = config.TikTokAccessToken acc).
    { intros C Hok. rewrite C in S11. apply S11; auto. apply Htok; auto. }
    splits.
    + intros Hk. apply Hkeep. destruct changeToken; auto.
      destruct (Htok eq_refl); contradiction.
    + intros Hd. destruct changeToken eqn:C; [|exfalso; auto].
      destruct (Htok eq_refl) as [He Hc]. split; [exact He|].
      destruct r1 as [a|e]; [apply Hset; reflexivity|].
      exfalso. apply Hd. unfold account_row in *. rewrite (S13 eq_refl) in S1.
      rewrite Hrow in S1. inv S1. reflexivity.
    + exact Sref.
    + intros NF Hy Ht He Hc. apply Hset; [auto|].
      apply S15; auto.
      * unfold changeYouTube. rewrite Hy, eqb_refl'. simpl.
        rewrite andb_false_r. reflexivity.
      * unfold changeTikTok. rewrite Ht, eqb_refl'. simpl.
        rewrite andb_false_r. reflexivity.
  - (* nothing to update *)
    inv Hrun. split; [reflexivity|]. exists existing. split; [exact Hrow|].
    splits; auto.
    + intros Hd. exfalso. auto.
    + intros NF Hy Ht He Hc. exfalso.
      rewrite (Htok' He Hc) in Need.
      rewrite orb_true_r in Need. simpl in Need. discriminate.
Qed.

Lemma next_uuid_not_empty w : next_uuid w <> "".
Proof. unfold next_uuid. discriminate. Qed.

(** The create path of the bootstrapper for an entry without a token. *)
Lemma bootstrapCreate_spec acc w r w' :
  no_faults w ->
  config.YouTubeChannelID acc <> "" -> config.TikTokAccountID acc <> "" ->
  config.TikTokAccessToken acc = "" ->
  find (fun r => Account.TikTokAccountID r == config.TikTokAccountID acc)
       (accounts w) = None ->
  find (fun r => Account.YouTubeChannelID r == config.YouTubeChannelID acc)
       (accounts w) = None ->
  main.bootstrapCreate acc w = (r, w') ->
  exists stored,
    account_row (next_uuid w) w' = Some stored
    /\ Account.TikTokAccessToken stored = main.PLACEHOLDER
    /\ Account.YouTubeChannelID stored = config.YouTubeChannelID acc
    /\ Account.TikTokAccountID stored = config.TikTokAccountID acc.
Proof.
  intros NF Hy Ht Hk Ft Fy Hrun.
  unfold main.bootstrapCreate in Hrun. rewrite Hk in Hrun. simpl in Hrun.
  destruct (CreateAccountMapping_ok w _ _ main.PLACEHOLDER NF Hy Ht
              ltac:(discriminate) Ft Fy) as (w1 & C & Ca & Cf).
  unfold bind at 1, attempt at 1 in Hrun. rewrite C in Hrun.
  assert (Hrow : exists stored,
             account_row (next_uuid w) w1 = Some stored
             /\ Account.TikTokAccessToken stored = main.PLACEHOLDER
             /\ Account.YouTubeChannelID stored = config.YouTubeChannelID acc
             /\ Account.TikTokAccountID stored = config.TikTokAccountID acc).
  { unfold account_row. rewrite Ca.
    match goal with
    | |- context [upsert_account ?a _] =>
        pose proof (find_upsert_account_same a (accounts w)) as Hf
    end.
    simpl in Hf. eexists. split; [exact Hf|].
    destruct (find (fun x => Account.ID x == next_uuid w) (accounts w));
      simpl; auto. }
  destruct (config.IsActive acc) as [[|]|].
  - inv Hrun. exact Hrow.
  - destruct Hrow as (stored & R & Rk & Ry & Rt).
    simpl in Hrun. unfold bind, attempt, ret in Hrun.
    destruct (AccountManager.DeactivateAccountMapping (next_uuid w) w1)
      as [r2 w2] eqn:D.
    destruct (DeactivateAccountMapping_spec _ _ _ _ _ (next_uuid_not_empty w) R D)
      as (stored' & R' & Rk' & Ry' & Rt').
    inv Hrun. exists stored'. splits; congruence.
  - inv Hrun. exact Hrow.
Qed.

(** C9, as amended.  An entry of the bootstrap configuration with both
    ids.  If it matches a stored job: the stored access token is never
    overwritten when it is not empty, with or without a refresh token;
    it changes only if it was empty, and then to the token of the
    configuration; and it is overwritten whenever it is empty, the
    configuration has a token and the update is accepted, also when a
    refresh token is stored; the refresh token is never touched.  If it
    matches no job and has no token, a row with the placeholder token
    is inserted (when no statement fails).  The body of the loop never
    returns an error. *)
Theorem C9_bootstrap_token_policy :
  forall (w : World) (acc : config.AccountBootstrap) r w',
    config.YouTubeChannelID acc <> "" ->
    config.TikTokAccountID acc <> "" ->
    accounts_unique (accounts w) ->
    (forall a, In a (accounts w) -> Account.ID a <> "") ->
    main.bootstrapAccount acc w = (r, w') ->
    r = Ok tt
    /\ match matching_account acc w with
       | Some existing =>
           exists stored,
             account_row (Account.ID existing) w' = Some stored
             /\ (Account.TikTokAccessToken existing <> "" ->
                 Account.TikTokAccessToken stored
                 = Account.TikTokAccessToken existing)
             /\ (Account.TikTokAccessToken stored
                 <> Account.TikTokAccessToken existing ->
                 Account.TikTokAccessToken existing = ""
                 /\ Account.TikTokAccessToken stored = config.TikTokAccessToken acc)
             /\ Account.TikTokRefreshToken stored
                = Account.TikTokRefreshToken existing
             /\ (no_faults w ->
                 config.YouTubeChannelID acc = Account.YouTubeChannelID existing ->
                 config.TikTokAccountID acc = Account.TikTokAccountID existing ->
                 Account.TikTokAccessToken existing = "" ->
                 config.TikTokAccessToken acc <> "" ->
                 Account.TikTokAccessToken stored = config.TikTokAccessToken acc)
       | None =>
           no_faults w -> config.TikTokAccessToken acc = "" ->
           exists stored,
             account_row (next_uuid w) w' = Some stored
             /\ Account.TikTokAccessToken stored = main.PLACEHOLDER
             /\ Account.YouTubeChannelID stored = config.YouTubeChannelID acc
             /\ Account.TikTokAccountID stored = config.TikTokAccountID acc
       end.
Proof.
  intros w acc r w' Hy Ht U Hids Hrun.
  unfold main.bootstrapAccount in Hrun.
  assert (Ey : (config.YouTubeChannelID acc == "") = false)
    by (apply String.eqb_neq; exact Hy).
  assert (Et : (config.TikTokAccountID acc == "") = false)
    by (apply String.eqb_neq; exact Ht).
  rewrite Ey, Et in Hrun. simpl in Hrun.
  (* a job left untouched meets the statement about a matched job *)
  assert (Hsame : forall existing w1,
             In existing (accounts w) -> accounts w1 = accounts w ->
             (exists fs, faults w = true :: fs) ->
             exists stored,
               account_row (Account.ID existing) w1 = Some stored
               /\ (Account.TikTokAccessToken existing <> "" ->
                   Account.TikTokAccessToken stored
                   = Account.TikTokAccessToken existing)
               /\ (Account.TikTokAccessToken stored
                   <> Account.TikTokAccessToken existing ->
                   Account.TikTokAccessToken existing = ""
                   /\ Account.TikTokAccessToken stored
                      = config.TikTokAccessToken acc)
               /\ Account.TikTokRefreshToken stored
                  = Account.TikTokRefreshToken existing
               /\ (no_faults w ->
                   config.YouTubeChannelID acc = Account.YouTubeChannelID existing ->
                   config.TikTokAccountID acc = Account.TikTokAccountID existing ->
                   Account.TikTokAccessToken existing = "" ->
                   config.TikTokAccessToken acc <> "" ->
                   Account.TikTokAccessToken stored
                   = config.TikTokAccessToken acc)).
  { intros existing w1 Hin Ha [fs F]. exists existing.
    unfold account_row. rewrite Ha. split; [apply account_row_of_member; auto|].
    splits; auto.
    - intros Hd; exfalso; auto.
    - intros NF. exfalso. eapply no_faults_head; eauto. }
  unfold bind at 1, attempt at 1 in Hrun.
  destruct (AccountRepository.GetByTikTokAccountID (config.TikTokAccountID acc) w)
    as [r1 w1] eqn:G1.
  apply AccountRepository_GetByTikTokAccountID_spec in G1.
  destruct G1 as (Ga1 & _ & _ & _ & Gu1 & Gf1 & G1).
  unfold matching_account.
  destruct G1 as [(e & fs & -> & F)| ->].
  - (* the first lookup fails: the entry is skipped *)
    inv Hrun. split; [reflexivity|].
    destruct (find (fun r => Account.TikTokAccountID r
                              == config.TikTokAccountID acc) (accounts w))
      as [a|] eqn:F1.
    + apply Hsame; eauto. apply find_some in F1. tauto.
    + destruct (find (fun r => Account.YouTubeChannelID r
                                == config.YouTubeChannelID acc) (accounts w))
        as [a|] eqn:F2.
      * apply Hsame; eauto. apply find_some in F2. tauto.
      * intros NF. exfalso. eapply no_faults_head; eauto.
  - destruct (find (fun r => Account.TikTokAccountID r
                                == config.TikTokAccountID acc) (accounts w))
      as [a|] eqn:F1; cbv beta iota in Hrun.
    + (* matched by TikTok account id *)
      simpl in Hrun. unfold bind at 1, ret at 1 in Hrun.
      assert (Hin : In a (accounts w)) by (apply find_some in F1; tauto).
      apply bootstrapUpdate_spec in Hrun; auto; try (rewrite Ga1; auto).
      destruct Hrun as (-> & stored & S1 & S2 & S3 & S4 & S5).
      split; [reflexivity|]. exists stored. splits; auto.
      intros NF. apply S5. eapply no_faults_tail; eauto.
    + unfold bind at 1, attempt at 1 in Hrun.
      destruct (AccountRepository.GetByYouTubeChannelID
                  (config.YouTubeChannelID acc) w1) as [r2 w2] eqn:G2.
      apply AccountRepository_GetByYouTubeChannelID_spec in G2.
      destruct G2 as (Ga2 & _ & Gn2 & _ & Gu2 & Gf2 & G2).
      rewrite Ga1 in G2.
      destruct G2 as [(e & fs & -> & F)| ->].
      * (* the second lookup fails: the entry is skipped *)
        inv Hrun. split; [reflexivity|].
        assert (NF' : no_faults w -> False).
        { intros NF. eapply no_faults_head; [|exact F].
          eapply no_faults_tail; eauto. }
        destruct (find (fun r => Account.YouTubeChannelID r
                                  == config.YouTubeChannelID acc) (accounts w))
          as [a|] eqn:F2.
        -- assert (Hin : In a (accounts w)) by (apply find_some in F2; tauto).
           exists a. unfold account_row. rewrite Ga2, Ga1.
           split; [apply account_row_of_member; auto|].
           splits; auto.
           ++ intros Hd; exfalso; auto.
           ++ intros NF; exfalso; auto.
        -- intros NF; exfalso; auto.
      * destruct (find (fun r => Account.YouTubeChannelID r
                                    == config.YouTubeChannelID acc) (accounts w))
          as [a|] eqn:F2; cbv beta iota in Hrun.
        -- (* matched by YouTube channel id *)
           assert (Hin : In a (accounts w)) by (apply find_some in F2; tauto).
           apply bootstrapUpdate_spec in Hrun; auto;
             try (rewrite Ga2, Ga1; auto).
           destruct Hrun as (-> & stored & S1 & S2 & S3 & S4 & S5).
           split; [reflexivity|]. exists stored. splits; auto.
           intros NF. apply S5.
           eapply no_faults_tail; [|exact Gf2]. eapply no_faults_tail; eauto.
        -- (* no job matches *)
           split.
           { unfold main.bootstrapCreate in Hrun. unfold bind, attempt, ret in Hrun.
             destruct (AccountManager.CreateAccountMapping _ _ _ w2) as [[a|e] w3].
             - destruct (config.IsActive acc) as [[|]|]; try (inv Hrun; reflexivity).
               destruct (AccountManager.DeactivateAccountMapping _ w3).
               inv Hrun. reflexivity.
             - inv Hrun. reflexivity. }
           intros NF Hk.
           assert (NF2 : no_faults w2).
           { eapply no_faults_tail; [|exact Gf2]. eapply no_faults_tail; eauto. }
           assert (Eu : next_uuid w = next_uuid w2).
           { unfold next_uuid. rewrite Gu2, Gu1. reflexivity. }
           rewrite Eu.
           eapply bootstrapCreate_spec; eauto; rewrite Ga2, Ga1; assumption.
Qed.

(** The theorem at [Fx9.world]: the job has no access token and the
    refresh token ["R0"]; the entry of the configuration carries ["T0"];
    after the bootstrap the stored access token is ["T0"]. *)
Lemma C9_bootstrap_token_policy_witness :
  exists stored,
    account_row "acc-1" (snd (main.bootstrapAccount Fx9.entry Fx9.world)) = Some stored
    /\ Account.TikTokAccessToken stored = "T0"
    /\ Account.TikTokRefreshToken stored = "R0".
Proof.
  destruct (C9_bootstrap_token_policy Fx9.world Fx9.entry
              (fst (main.bootstrapAccount Fx9.entry Fx9.world))
              (snd (main.bootstrapAccount Fx9.entry Fx9.world)))
    as (_ & stored & Hrow & _ & _ & Href & Hset).
  - discriminate.
  - discriminate.
  - intros r1 r2 [<-|[]] [<-|[]] _. reflexivity.
  - intros a [<-|[]]. discriminate.
  - reflexivity.
  - exists stored. split; [exact Hrow|]. split; [|exact Href].
    apply Hset; try reflexivity. discriminate.
Defined.

(** C9 as stated fails: a stored refresh token does not keep the
    access token of the configuration out when the stored access token
    is empty. *)
Lemma C9_counterexample_overwritten_despite_refresh_token :
  ~ (forall (w : World) (acc : config.AccountBootstrap) existing r w' stored,
        matching_account acc w = Some existing ->
        Account.TikTokRefreshToken existing <> "" ->
        main.bootstrapAccount acc w = (r, w') ->
        account_row (Account.ID existing) w' = Some stored ->
        Account.TikTokAccessToken stored = Account.TikTokAccessToken existing).
Proof.
  intros H.
  specialize (H Fx9.world Fx9.entry Fx9.account_without_access_token _ _
                (Account.with_UpdatedAt Fx.clock
                   (Account.with_TikTokAccessToken "T0"
                      Fx9.account_without_access_token))
                eq_refl ltac:(discriminate) eq_refl eq_refl).
  vm_compute in H. discriminate H.
Qed.

(** ** The monad, inverted *)

Lemma bind_inv {A B} (m : M A) (k : A -> M B) w r w' :
  bind m k w = (r, w') ->
  (exists a w1, m w = (Ok a, w1) /\ k a w1 = (r, w'))
  \/ (exists e, m w = (Err e, w') /\ r = Err e).
Proof.
  unfold bind. destruct (m w) as [[a|e] w1]; intros H.
  - left. eauto.
  - inv H. right. eauto.
Qed.

Lemma attempt_inv {A} (m : M A) w r w' :
  attempt m w = (r, w') -> exists r0, m w = (r0, w') /\ r = Ok r0.
Proof.
  unfold attempt. destruct (m w) as [r0 w1]. intros H. inv H. eauto.
Qed.

Lemma wrap_inv {A} (prefix : string) (m : M A) w r w' :
  wrap prefix m w = (r, w') ->
  (exists a, m w = (Ok a, w') /\ r = Ok a)
  \/ (exists e, m w = (Err e, w') /\ r = Err (prefix ++ ": " ++ e)).
Proof.
  unfold wrap. destruct (m w) as [[a|e] w1]; intros H; inv H; eauto.
Qed.

(** ** The writes to table videos *)

Lemma status_history_app id t1 t2 :
  status_history id (t1 ++ t2) = (status_history id t1 ++ status_history id t2)%list.
Proof. unfold status_history. apply flat_map_app. Qed.

Lemma update_videos_id id rows : update_videos id (fun r => r) rows = rows.
Proof.
  unfold update_videos. induction rows as [|x rows IH]; simpl; auto.
  rewrite IH. destruct (Video.ID x == id); reflexivity.
Qed.

Lemma update_videos_compose id F G rows :
  (forall r, Video.ID (F r) = Video.ID r) ->
  update_videos id G (update_videos id F rows)
  = update_videos id (fun r => G (F r)) rows.
Proof.
  intros HF. unfold update_videos. rewrite map_map. apply map_ext. intros r.
  destruct (Video.ID r == id) eqn:E.
  - rewrite HF, E. reflexivity.
  - rewrite E. reflexivity.
Qed.

Lemma has_video_update id' id F rows :
  (forall r, Video.ID (F r) = Video.ID r) ->
  has_video id' (update_videos id F rows) = has_video id' rows.
Proof.
  intros HF. unfold has_video, update_videos.
  induction rows as [|x rows IH]; simpl; auto.
  rewrite IH. destruct (Video.ID x == id); [rewrite HF|]; reflexivity.
Qed.

Lemma writes_nil : writes [] (fun r => r).
Proof. intros r. simpl. auto. Qed.

Lemma writes_compose s1 s2 F G :
  writes s1 F -> writes s2 G -> writes (s1 ++ s2) (fun r => G (F r)).
Proof.
  intros HF HG r. destruct (HF r) as (F1 & F2 & F3).
  destruct (HG (F r)) as (G1 & G2 & G3).
  splits; try congruence.
  rewrite G3, F3. clear.
  revert s1. induction s2 as [|x s2 IH] using rev_ind; intros s1.
  - rewrite app_nil_r. reflexivity.
  - rewrite app_assoc, !last_last. reflexivity.
Qed.

Lemma evolves_same id w w' :
  now w' = now w -> videos w' = videos w ->
  (forall id', status_history id' (trace w') = status_history id' (trace w)) ->
  evolves id [] (fun r => r) w w'.
Proof.
  intros Hn Hv Ht. unfold evolves. splits; auto.
  - rewrite update_videos_id. exact Hv.
  - apply writes_nil.
  - intros id'. rewrite Ht. destruct (_ && _); rewrite app_nil_r; reflexivity.
Qed.

Lemma evolves_trans id s1 s2 F G w w1 w2 :
  evolves id s1 F w w1 -> evolves id s2 G w1 w2 ->
  evolves id (s1 ++ s2) (fun r => G (F r)) w w2.
Proof.
  intros (N1 & V1 & W1 & H1) (N2 & V2 & W2 & H2). unfold evolves. splits.
  - congruence.
  - rewrite V2, V1. apply update_videos_compose. intros r. apply W1.
  - apply writes_compose; assumption.
  - intros id'. rewrite H2, H1, V1.
    rewrite has_video_update by (intros r; apply W1).
    destruct ((id' == id) && has_video id (videos w));
      rewrite <- ?app_assoc, ?app_nil_r; reflexivity.
Qed.

Lemma update_videos_absent id F rows :
  has_video id rows = false -> update_videos id F rows = rows.
Proof.
  unfold has_video, update_videos. induction rows as [|x rows IH]; simpl; auto.
  intros H. apply orb_false_iff in H. destruct H as [E H].
  rewrite E, IH by exact H. reflexivity.
Qed.

(** One [UPDATE videos SET ... WHERE id = ?] that writes the statuses
    [ss] (one status or none) and logs the event [e]. *)
Lemma update_statement_evolves id (F : time.Time -> Video.t -> Video.t) e ss w r w' :
  (forall tm, writes ss (F tm)) ->
  (forall i, status_event i e = if i == id then ss else []) ->
  (tm <- time_Now ;;
   statement ;;;
   x <- get ;;
   if has_video id (videos x)
   then modify (set_videos (update_videos id (F tm) (videos x))) ;;; emit e
   else ret tt) w = (r, w') ->
  accounts w' = accounts w /\ faults w' = tl (faults w) /\ uuids w' = uuids w
  /\ ((exists err fs, r = Err err /\ faults w = true :: fs
                      /\ evolves id [] (fun r => r) w w')
      \/ (r = Ok tt /\ hd false (faults w) = false
          /\ evolves id ss (F (now w)) w w'
          /\ trace w' = (trace w ++ (if has_video id (videos w) then [e] else []))%list)).
Proof.
  intros HW He. monad_unfold.
  destruct (statement w) as [r0 w0] eqn:E. apply statement_spec in E.
  destruct E as [-> [(err & fs & -> & Hf)|[-> Hf]]]; simpl.
  - intros H; inv H. simpl. splits; auto. left. do 2 eexists. splits; eauto.
    apply evolves_same; reflexivity.
  - destruct (has_video id (videos w)) eqn:Hv; intros H; inv H; simpl;
      splits; auto; right; splits; auto.
    + unfold evolves; simpl. splits; auto.
      intros id'. rewrite status_history_app. simpl. rewrite He, Hv.
      rewrite app_nil_r, andb_true_r. reflexivity.
    + unfold evolves; simpl. splits; auto.
      * rewrite update_videos_absent by exact Hv. reflexivity.
      * intros id'. rewrite Hv, andb_false_r, app_nil_r. reflexivity.
    + rewrite app_nil_r. reflexivity.
Qed.

Lemma UpdateStatus_evolves id s m w r w' :
  VideoRepository.UpdateStatus id s m w = (r, w') ->
  accounts w' = accounts w /\ faults w' = tl (faults w) /\ uuids w' = uuids w
  /\ ((exists err fs, r = Err err /\ faults w = true :: fs
                      /\ evolves id [] (fun r => r) w w')
      \/ (r = Ok tt /\ hd false (faults w) = false
          /\ evolves id [s]
               (fun r => Video.with_UpdatedAt (now w)
                           (Video.with_ErrorMessage m (Video.with_Status s r))) w w'
          /\ trace w' = (trace w ++ (if has_video id (videos w)
                                     then [EvStatus id s] else []))%list)).
Proof.
  apply (update_statement_evolves id
           (fun tm r => Video.with_UpdatedAt tm
                          (Video.with_ErrorMessage m (Video.with_Status s r)))).
  - intros tm r0. simpl. auto.
  - intros i. simpl. rewrite String.eqb_sym. reflexivity.
Qed.

Lemma UpdateFilePath_evolves id path w r w' :
  VideoRepository.UpdateFilePath id path w = (r, w') ->
  accounts w' = accounts w /\ faults w' = tl (faults w) /\ uuids w' = uuids w
  /\ ((exists err fs, r = Err err /\ faults w = true :: fs
                      /\ evolves id [] (fun r => r) w w')
      \/ (r = Ok tt /\ hd false (faults w) = false
          /\ evolves id []
               (fun r => Video.with_UpdatedAt (now w)
                           (Video.with_LocalFilePath path r)) w w'
          /\ trace w' = (trace w ++ (if has_video id (videos w)
                                     then [EvFilePath id path] else []))%list)).
Proof.
  apply (update_statement_evolves id
           (fun tm r => Video.with_UpdatedAt tm (Video.with_LocalFilePath path r))).
  - intros tm r0. simpl. auto.
  - intros i. simpl. destruct (i == id); reflexivity.
Qed.

Lemma UpdateTikTokID_evolves id tiktokID w r w' :
  VideoRepository.UpdateTikTokID id tiktokID w = (r, w') ->
  accounts w' = accounts w /\ faults w' = tl (faults w) /\ uuids w' = uuids w
  /\ ((exists err fs, r = Err err /\ faults w = true :: fs
                      /\ evolves id [] (fun r => r) w w')
      \/ (r = Ok tt /\ hd false (faults w) = false
          /\ evolves id []
               (fun r => Video.with_UpdatedAt (now w)
                           (Video.with_TikTokVideoID tiktokID r)) w w'
          /\ trace w' = (trace w ++ (if has_video id (videos w)
                                     then [EvTikTokID id tiktokID] else []))%list)).
Proof.
  apply (update_statement_evolves id
           (fun tm r => Video.with_UpdatedAt tm (Video.with_TikTokVideoID tiktokID r))).
  - intros tm r0. simpl. auto.
  - intros i. simpl. destruct (i == id); reflexivity.
Qed.

Lemma evolves_quiet id w w' t :
  now w' = now w -> videos w' = videos w ->
  trace w' = (trace w ++ t)%list -> Forall quiet_event t ->
  evolves id [] (fun r => r) w w'.
Proof.
  intros Hn Hv Ht Hq. apply evolves_same; auto.
  intros id'. rewrite Ht, status_history_app.
  assert (E : status_history id' t = []).
  { clear - Hq. unfold status_history.
    induction Hq as [|e t He _ IH]; simpl; auto. rewrite (He id'), IH.
    reflexivity. }
  rewrite E, app_nil_r. reflexivity.
Qed.

Lemma AccountRepository_Save_quiet a w r w' :
  AccountRepository.Save a w = (r, w') ->
  exists e, trace w' = (trace w ++ [e])%list /\ quiet_event e.
Proof.
  unfold AccountRepository.Save, exec_upsert_account, uuid_NewString.
  monad_unfold.
  destruct (Account.ID a == ""); simpl.
  all: match goal with
       | |- context [statement ?x] => destruct (statement x) as [[u|e] w0] eqn:E;
                                      apply statement_spec in E; destruct E as [-> _]
       end; simpl.
  all: repeat match goal with
              | |- context [if ?b then _ else _] => destruct b; simpl
              end.
  all: intros H; inv H; simpl; eexists; split; [reflexivity|intros i; reflexivity].
Qed.

(** The credential check never touches table videos. *)
Lemma validateToken_quiet p account w r w' :
  VideoProcessor.validateToken p account w = (r, w') ->
  now w' = now w /\ videos w' = videos w
  /\ exists t, trace w' = (trace w ++ t)%list /\ Forall quiet_event t.
Proof.
  unfold VideoProcessor.validateToken.
  destruct (negb _).
  2:{ intros H; inv H. splits; auto. exists []. rewrite app_nil_r.
      split; [reflexivity|constructor]. }
  destruct (Account.TikTokAccessToken account == "").
  { intros H; inv H. splits; auto. exists []. rewrite app_nil_r.
      split; [reflexivity|constructor]. }
  intros H. apply bind_inv in H.
  destruct H as [(u & w1 & E1 & H)|(e & E1 & _)]; [|inv E1].
  unfold emit in E1. inv E1.
  apply bind_inv in H.
  destruct H as [(isValid & w2 & E2 & H)|(e & E2 & _)].
  2:{ apply wrap_inv in E2. destruct E2 as [(a & E2 & E)|(e0 & E2 & E)];
        [discriminate|].
      unfold lift in E2. inv E2. simpl. splits; auto.
      eexists. split; [reflexivity|]. repeat constructor. }
  apply wrap_inv in E2. destruct E2 as [(a & E2 & E)|(e0 & E2 & E)]; [|discriminate].
  unfold lift in E2. inv E2. inv E.
  match type of H with (if ?b then _ else _) _ = _ => destruct b end.
  2:{ inv H. simpl. splits; auto. eexists. split; [reflexivity|].
      repeat constructor. }
  destruct (Account.TikTokRefreshToken account != "").
  2:{ inv H. simpl. splits; auto. eexists. split; [reflexivity|].
      repeat constructor. }
  apply bind_inv in H.
  destruct H as [(u & w3 & E3 & H)|(e & E3 & _)]; [|inv E3].
  unfold emit in E3. inv E3. simpl in H.
  apply bind_inv in H.
  destruct H as [(rr & w4 & E4 & H)|(e & E4 & _)].
  2:{ unfold attempt, lift in E4. inv E4. }
  unfold attempt, lift in E4. inv E4.
  destruct (tiktok_RefreshAccessToken _ _) as [tokenResp|e].
  2:{ inv H. simpl. splits; auto. eexists.
      split; [rewrite <- app_assoc; reflexivity|]. repeat constructor. }
  apply bind_inv in H.
  destruct H as [(tm & w5 & E5 & H)|(e & E5 & _)]; [|inv E5].
  unfold time_Now in E5. inv E5.
  apply wrap_inv in H.
  destruct H as [(a' & H & E)|(e0 & H & E)];
    pose proof (AccountRepository_Save_spec _ _ _ _ H) as (Sn & Sv & _);
    apply AccountRepository_Save_quiet in H; destruct H as (ev & Ht & Hq);
    simpl in *; splits; auto;
    exists [EvVerify (Account.TikTokAccessToken account);
            EvRefresh (Account.TikTokRefreshToken account); ev];
    (split; [rewrite Ht, <- !app_assoc; reflexivity|]);
    repeat constructor; assumption.
Qed.

Lemma evolves_emit id e w :
  quiet_event e ->
  evolves id [] (fun r => r) w (set_trace (trace w ++ [e]) w).
Proof.
  intros Hq. apply evolves_quiet with (t := [e]); auto.
Qed.

Lemma downloadVideo_spec p v w r w' :
  VideoProcessor.downloadVideo p v w = (r, w') ->
  exists ss F,
    evolves (Video.ID v) ss F w w'
    /\ match r with
       | Ok v' => ss = [VideoStatusDownloading; VideoStatusDownloaded]
                  /\ Video.ID v' = Video.ID v
                  /\ Video.AccountID v' = Video.AccountID v
       | Err _ => ss = [] \/ ss = [VideoStatusDownloading]
       end.
Proof.
  unfold VideoProcessor.downloadVideo. intros H.
  apply bind_inv in H. destruct H as [(u1 & w1 & E1 & H)|(e & E1 & ->)].
  2:{ apply UpdateStatus_evolves in E1.
      destruct E1 as (_ & _ & _ & [(err & fs & _ & _ & Ev)|(D & _)]); [|discriminate].
      eauto. }
  apply UpdateStatus_evolves in E1.
  destruct E1 as (_ & _ & _ & [(err & fs & D & _)|(_ & _ & Ev1 & _)]); [discriminate|].
  apply bind_inv in H. destruct H as [(u2 & w2 & E2 & H)|(e & E2 & _)]; [|inv E2].
  unfold emit in E2. inv E2.
  pose proof (evolves_emit (Video.ID v) (EvDownload (Video.YouTubeVideoID v)) w1
                ltac:(intros i; reflexivity)) as Ev2.
  pose proof (evolves_trans _ _ _ _ _ _ _ _ Ev1 Ev2) as Ev12. simpl in Ev12.
  apply bind_inv in H. destruct H as [(path & w3 & E3 & H)|(e & E3 & ->)].
  2:{ apply wrap_inv in E3. destruct E3 as [(a & E3 & E)|(e0 & E3 & E)];
        [discriminate|].
      unfold lift in E3. inv E3. eauto. }
  apply wrap_inv in E3. destruct E3 as [(a & E3 & E)|(e0 & E3 & E)]; [|discriminate].
  unfold lift in E3. inv E3. inv E.
  apply bind_inv in H. destruct H as [(u4 & w4 & E4 & H)|(e & E4 & ->)].
  2:{ apply UpdateFilePath_evolves in E4.
      destruct E4 as (_ & _ & _ & [(err & fs & _ & _ & Ev)|(D & _)]); [|discriminate].
      pose proof (evolves_trans _ _ _ _ _ _ _ _ Ev12 Ev) as Ev'. simpl in Ev'.
      eauto. }
  apply UpdateFilePath_evolves in E4.
  destruct E4 as (_ & _ & _ & [(err & fs & D & _)|(_ & _ & Ev4 & _)]); [discriminate|].
  pose proof (evolves_trans _ _ _ _ _ _ _ _ Ev12 Ev4) as Ev14. simpl in Ev14.
  simpl in H.
  apply bind_inv in H. destruct H as [(u5 & w5 & E5 & H)|(e & E5 & ->)].
  2:{ apply UpdateStatus_evolves in E5.
      destruct E5 as (_ & _ & _ & [(err & fs & _ & _ & Ev)|(D & _)]); [|discriminate].
      pose proof (evolves_trans _ _ _ _ _ _ _ _ Ev14 Ev) as Ev'. simpl in Ev'.
      eauto. }
  apply UpdateStatus_evolves in E5.
  destruct E5 as (_ & _ & _ & [(err & fs & D & _)|(_ & _ & Ev5 & _)]); [discriminate|].
  pose proof (evolves_trans _ _ _ _ _ _ _ _ Ev14 Ev5) as Ev15. simpl in Ev15.
  unfold ret in H. inv H. do 2 eexists. split; [exact Ev15|]. simpl. auto.
Qed.

Lemma performUpload_spec p account v w r w' :
  VideoProcessor.performUpload p account v w = (r, w') ->
  exists ss F,
    evolves (Video.ID v) ss F w w'
    /\ match r with
       | Ok v' =>
           ss = [VideoStatusUploading] /\ Video.ID v' = Video.ID v
           /\ exists req vid,
               tiktok.UploadVideo (VideoProcessor.services p) req = Ok vid
               /\ tiktok.AccessToken req = Account.TikTokAccessToken account
               /\ forall row, Video.TikTokVideoID (F row) = vid
       | Err _ => ss = [] \/ ss = [VideoStatusUploading]
       end.
Proof.
  unfold VideoProcessor.performUpload. intros H.
  apply bind_inv in H. destruct H as [(u1 & w1 & E1 & H)|(e & E1 & ->)].
  2:{ apply UpdateStatus_evolves in E1.
      destruct E1 as (_ & _ & _ & [(err & fs & _ & _ & Ev)|(D & _)]); [|discriminate].
      eauto. }
  apply UpdateStatus_evolves in E1.
  destruct E1 as (_ & _ & _ & [(err & fs & D & _)|(_ & _ & Ev1 & _)]); [discriminate|].
  apply bind_inv in H. destruct H as [(u2 & w2 & E2 & H)|(e & E2 & _)]; [|inv E2].
  unfold emit in E2. inv E2.
  match type of H with
  | context [set_trace (trace w1 ++ [?ev]) w1] =>
      pose proof (evolves_emit (Video.ID v) ev w1 ltac:(intros i; reflexivity)) as Ev2
  end.
  pose proof (evolves_trans _ _ _ _ _ _ _ _ Ev1 Ev2) as Ev12. simpl in Ev12.
  apply bind_inv in H. destruct H as [(vid & w3 & E3 & H)|(e & E3 & ->)].
  2:{ apply wrap_inv in E3. destruct E3 as [(a & E3 & E)|(e0 & E3 & E)];
        [discriminate|].
      unfold lift in E3. inv E3. eauto. }
  apply wrap_inv in E3. destruct E3 as [(a & E3 & E)|(e0 & E3 & E)]; [|discriminate].
  unfold lift in E3. inversion E3 as [[Hup Hw]]. subst w3. inv E.
  apply bind_inv in H. destruct H as [(u4 & w4 & E4 & H)|(e & E4 & ->)].
  2:{ apply UpdateTikTokID_evolves in E4.
      destruct E4 as (_ & _ & _ & [(err & fs & _ & _ & Ev)|(D & _)]); [|discriminate].
      pose proof (evolves_trans _ _ _ _ _ _ _ _ Ev12 Ev) as Ev'. simpl in Ev'.
      eauto. }
  apply UpdateTikTokID_evolves in E4.
  destruct E4 as (_ & _ & _ & [(err & fs & D & _)|(_ & _ & Ev4 & _)]); [discriminate|].
  pose proof (evolves_trans _ _ _ _ _ _ _ _ Ev12 Ev4) as Ev14. simpl in Ev14.
  unfold ret in H. inv H. do 2 eexists. split; [exact Ev14|].
  splits; auto. do 2 eexists. splits; [exact Hup|reflexivity|reflexivity].
Qed.

Lemma uploadVideo_spec p v w r w' :
  VideoProcessor.uploadVideo p v w = (r, w') ->
  exists ss F,
    evolves (Video.ID v) ss F w w'
    /\ match r with
       | Ok v' =>
           ss = [VideoStatusUploading] /\ Video.ID v' = Video.ID v
           /\ exists req vid,
               tiktok.UploadVideo (VideoProcessor.services p) req = Ok vid
               /\ forall row, Video.TikTokVideoID (F row) = vid
       | Err _ => ss = [] \/ ss = [VideoStatusUploading]
       end.
Proof.
  unfold VideoProcessor.uploadVideo. intros H.
  apply bind_inv in H. destruct H as [(acc & w1 & E1 & H)|(e & E1 & ->)].
  2:{ apply wrap_inv in E1. destruct E1 as [(a & E1 & E)|(e0 & E1 & E)];
        [discriminate|].
      apply AccountRepository_GetByID_spec in E1.
      destruct E1 as (_ & Gv & Gn & Gt & _).
      do 2 eexists. split; [|left; reflexivity].
      apply evolves_same; auto. intros; rewrite Gt; reflexivity. }
  apply wrap_inv in E1. destruct E1 as [(a & E1 & E)|(e0 & E1 & E)]; [|discriminate].
  inv E. apply AccountRepository_GetByID_spec in E1.
  destruct E1 as (_ & Gv & Gn & Gt & _).
  assert (Ev1 : evolves (Video.ID v) [] (fun r => r) w w1).
  { apply evolves_same; auto. intros; rewrite Gt; reflexivity. }
  match type of H with
  | (match ?x with _ => _ end) _ = _ => destruct x as [account|]
  end.
  2:{ inv H. eauto. }
  destruct (Account.TikTokAccountID account == "").
  { inv H. eauto. }
  apply bind_inv in H. destruct H as [(account' & w2 & E2 & H)|(e & E2 & ->)].
  2:{ apply validateToken_quiet in E2. destruct E2 as (Vn & Vv & t & Vt & Vq).
      pose proof (evolves_quiet (Video.ID v) _ _ _ Vn Vv Vt Vq) as Ev2.
      pose proof (evolves_trans _ _ _ _ _ _ _ _ Ev1 Ev2) as Ev'. simpl in Ev'.
      eauto. }
  apply validateToken_quiet in E2. destruct E2 as (Vn & Vv & t & Vt & Vq).
  pose proof (evolves_quiet (Video.ID v) _ _ _ Vn Vv Vt Vq) as Ev2.
  pose proof (evolves_trans _ _ _ _ _ _ _ _ Ev1 Ev2) as Ev12. simpl in Ev12.
  apply performUpload_spec in H. destruct H as (ss & F & Ev3 & Hr).
  pose proof (evolves_trans _ _ _ _ _ _ _ _ Ev12 Ev3) as Ev13. simpl in Ev13.
  do 2 eexists. split; [exact Ev13|].
  destruct r as [v'|e]; [|exact Hr].
  destruct Hr as (-> & Hid & req & vid & Hup & _ & HF).
  splits; auto. eauto.
Qed.

Lemma processVideo_spec p v w r w' :
  VideoProcessor.processVideo p v w = (r, w') ->
  exists ss F,
    evolves (Video.ID v) ss F w w'
    /\ match r with
       | Ok _ =>
           ss = [VideoStatusDownloading; VideoStatusDownloaded;
                 VideoStatusUploading; VideoStatusCompleted]
           /\ exists req vid,
               tiktok.UploadVideo (VideoProcessor.services p) req = Ok vid
               /\ forall row, Video.TikTokVideoID (F row) = vid
       | Err _ =>
           Forall (fun s => s <> VideoStatusCompleted /\ s <> VideoStatusPending) ss
       end.
Proof.
  unfold VideoProcessor.processVideo. intros H.
  apply bind_inv in H. destruct H as [(rd & w1 & E1 & H)|(e & E1 & _)].
  2:{ apply attempt_inv in E1. destruct E1 as (r0 & _ & D). discriminate. }
  apply attempt_inv in E1. destruct E1 as (r0 & E1 & E). inv E.
  apply downloadVideo_spec in E1. destruct E1 as (ss1 & F1 & Ev1 & Hd).
  destruct r0 as [v1|e1].
  - destruct Hd as (-> & Hid1 & _).
    apply bind_inv in H. destruct H as [(ru & w2 & E2 & H)|(e & E2 & _)].
    2:{ apply attempt_inv in E2. destruct E2 as (r0 & _ & D). discriminate. }
    apply attempt_inv in E2. destruct E2 as (r0 & E2 & E). inv E.
    apply uploadVideo_spec in E2. destruct E2 as (ss2 & F2 & Ev2 & Hu).
    rewrite Hid1 in Ev2.
    pose proof (evolves_trans _ _ _ _ _ _ _ _ Ev1 Ev2) as Ev12.
    destruct r0 as [v2|e2].
    + destruct Hu as (-> & Hid2 & req & vid & Hup & HF). simpl in Ev12.
      rewrite Hid2, Hid1 in H.
      pose proof H as H'. apply UpdateStatus_evolves in H'.
      destruct H' as (_ & _ & _ & [(err & fs & -> & _ & Ev3)|(-> & _ & Ev3 & _)]);
        pose proof (evolves_trans _ _ _ _ _ _ _ _ Ev12 Ev3) as Ev13;
        simpl in Ev13; do 2 eexists; (split; [exact Ev13|]).
      * repeat constructor; discriminate.
      * split; [reflexivity|]. exists req, vid. split; [exact Hup|].
        intros row. simpl. apply HF.
    + apply bind_inv in H. destruct H as [(u & w3 & E3 & H)|(e & E3 & _)].
      2:{ apply attempt_inv in E3. destruct E3 as (r0 & _ & D). discriminate. }
      apply attempt_inv in E3. destruct E3 as (r0 & E3 & _).
      rewrite Hid1 in E3. apply UpdateStatus_evolves in E3.
      unfold fail in H. inv H.
      destruct E3 as (_ & _ & _ & [(err & fs & _ & _ & Ev3)|(_ & _ & Ev3 & _)]);
        pose proof (evolves_trans _ _ _ _ _ _ _ _ Ev12 Ev3) as Ev13;
        do 2 eexists; (split; [exact Ev13|]);
        destruct Hu as [-> | ->]; simpl; repeat constructor; discriminate.
  - apply bind_inv in H. destruct H as [(u & w3 & E3 & H)|(e & E3 & _)].
    2:{ apply attempt_inv in E3. destruct E3 as (r0 & _ & D). discriminate. }
    apply attempt_inv in E3. destruct E3 as (r0 & E3 & _).
    apply UpdateStatus_evolves in E3.
    unfold fail in H. inv H.
    destruct E3 as (_ & _ & _ & [(err & fs & _ & _ & Ev3)|(_ & _ & Ev3 & _)]);
      pose proof (evolves_trans _ _ _ _ _ _ _ _ Ev1 Ev3) as Ev13;
      do 2 eexists; (split; [exact Ev13|]);
      destruct Hd as [-> | ->]; simpl; repeat constructor; discriminate.
Qed.

(** ** Completed items (C5) *)

Lemma last_in {A} (l : list A) d : l <> [] -> In (last l d) l.
Proof.
  induction l as [|x l IH]; [congruence|]. intros _.
  destruct l as [|y l]; [left; reflexivity|].
  right. apply IH. discriminate.
Qed.

Lemma in_update_videos id F rows row' :
  In row' (update_videos id F rows) ->
  exists row, In row rows
              /\ row' = (if Video.ID row == id then F row else row).
Proof.
  unfold update_videos. intros H. apply in_map_iff in H.
  destruct H as (row & <- & Hin). eauto.
Qed.

Lemma has_video_in id rows row :
  In row rows -> Video.ID row = id -> has_video id rows = true.
Proof.
  intros Hin <-. unfold has_video. apply existsb_exists. exists row.
  split; [exact Hin|apply eqb_refl'].
Qed.

(** The invariant survives a run of writes that either writes no status,
    or does not end in [completed], or is the full success path. *)
Lemma completed_rows_forwarded_evolves id ss F w w' :
  completed_rows_forwarded w ->
  evolves id ss F w w' ->
  (ss = [VideoStatusDownloading; VideoStatusDownloaded;
         VideoStatusUploading; VideoStatusCompleted]
   \/ Forall (fun s => s <> VideoStatusCompleted /\ s <> VideoStatusPending) ss) ->
  completed_rows_forwarded w'.
Proof.
  intros Inv (Hn & Hv & HW & Hh) Hss row' Hin' Hc.
  rewrite Hv in Hin'. apply in_update_videos in Hin'.
  destruct Hin' as (row & Hin & ->).
  destruct (Video.ID row == id) eqn:E.
  - apply String.eqb_eq in E.
    destruct (HW row) as (Fid & _ & Fst).
    rewrite Fid, Hh, E, eqb_refl'. rewrite (has_video_in _ _ _ Hin E). simpl.
    destruct Hss as [-> | Hall].
    + exists (status_history id (trace w) ++ [VideoStatusDownloading])%list, [], [].
      rewrite <- !app_assoc. reflexivity.
    + destruct ss as [|s ss'].
      * rewrite app_nil_r. rewrite <- E. apply Inv; auto.
        rewrite <- Hc, Fst. reflexivity.
      * exfalso. rewrite Fst in Hc.
        pose proof (last_in (s :: ss') (Video.Status row) ltac:(discriminate)) as Hl.
        rewrite Forall_forall in Hall. apply Hall in Hl. tauto.
  - rewrite Hh.
    replace (Video.ID row == id) with false. simpl. rewrite app_nil_r.
    apply Inv; auto.
Qed.

Lemma in_upsert_video a rows row' :
  In row' (upsert_video a rows) ->
  (exists c, row' = Video.with_CreatedAt c a) \/ row' = a
  \/ (In row' rows /\ Video.ID row' <> Video.ID a).
Proof.
  unfold upsert_video. destruct (has_video (Video.ID a) rows) eqn:Hv.
  - intros H. apply in_map_iff in H. destruct H as (row & <- & Hin).
    destruct (Video.ID row == Video.ID a) eqn:E.
    + left. eauto.
    + right. right. split; [exact Hin|]. apply String.eqb_neq. exact E.
  - intros H. apply in_app_iff in H. destruct H as [H|[<-|[]]]; auto.
    right. right. split; [exact H|]. intros E.
    rewrite (has_video_in _ _ _ H E) in Hv. discriminate.
Qed.

Lemma VideoRepository_Save_keeps_invariant v w r w' :
  completed_rows_forwarded w ->
  Video.Status v <> VideoStatusCompleted ->
  VideoRepository.Save v w = (r, w') ->
  completed_rows_forwarded w'.
Proof.
  intros Inv Hs Hrun. apply VideoRepository_Save_spec in Hrun.
  destruct Hrun as (_ & _ & _ & H).
  assert (Hs' : Video.Status (stamp_video w v) <> VideoStatusCompleted).
  { unfold stamp_video.
    destruct (Video.ID v == ""); destruct (Video.Status v == "") eqn:E; simpl;
      try rewrite E; simpl; auto; discriminate. }
  destruct H as [(_ & Hv & Ht & _)|(_ & Hv & Ht & _)]; intros row' Hin' Hc;
    rewrite Ht, status_history_app.
  - rewrite Hv in Hin'. apply in_upsert_video in Hin'.
    destruct Hin' as [(c & ->)|[->|(Hin & Hne)]].
    + exfalso. apply Hs'. exact Hc.
    + exfalso. apply Hs'. exact Hc.
    + apply String.eqb_neq in Hne. rewrite String.eqb_sym in Hne.
      unfold status_history at 2. cbn [flat_map status_event]. rewrite Hne.
      simpl. rewrite app_nil_r. apply Inv; auto.
  - unfold status_history at 2. cbn [flat_map status_event].
    rewrite app_nil_r. apply Inv; auto. rewrite <- Hv. exact Hin'.
Qed.

(** C5, as amended.  (1) A table without rows meets the invariant
    "every row in state [completed] has a status history that went
    through [downloaded], later through [uploading], and ends with
    [completed]".  (2) Every run of [processVideo], whatever the
    storage failures, keeps the invariant; when the run returns no error
    the rows of the video are [completed] and their [tiktok_video_id] is
    the id that [tiktok.UploadVideo] returned for this run.  (3) [Save]
    of a struct whose status is not [completed] keeps the invariant.
    Nothing makes the returned id non-empty. *)
Theorem C5_completed_rows_went_through_the_pipeline :
  (forall w, videos w = [] -> completed_rows_forwarded w)
  /\ (forall p v w r w',
        completed_rows_forwarded w ->
        VideoProcessor.processVideo p v w = (r, w') ->
        completed_rows_forwarded w'
        /\ (is_ok r = true ->
            exists req vid,
              tiktok.UploadVideo (VideoProcessor.services p) req = Ok vid
              /\ forall row, In row (videos w') -> Video.ID row = Video.ID v ->
                             Video.Status row = VideoStatusCompleted
                             /\ Video.TikTokVideoID row = vid))
  /\ (forall v w r w',
        completed_rows_forwarded w ->
        Video.Status v <> VideoStatusCompleted ->
        VideoRepository.Save v w = (r, w') ->
        completed_rows_forwarded w').
Proof.
  splits.
  - intros w Hv row Hin. rewrite Hv in Hin. destruct Hin.
  - intros p v w r w' Inv Hrun.
    apply processVideo_spec in Hrun. destruct Hrun as (ss & F & Ev & Hr).
    split.
    + eapply completed_rows_forwarded_evolves; eauto.
      destruct r; [left; tauto|right; exact Hr].
    + intros Hok. destruct r as [u|e]; [|discriminate].
      destruct Hr as (-> & req & vid & Hup & HF).
      exists req, vid. split; [exact Hup|].
      intros row Hin Hid. destruct Ev as (_ & Hv & HW & _).
      rewrite Hv in Hin. apply in_update_videos in Hin.
      destruct Hin as (row0 & Hin0 & ->).
      destruct (Video.ID row0 == Video.ID v) eqn:E.
      * destruct (HW row0) as (_ & _ & Hst). rewrite Hst, HF. auto.
      * apply String.eqb_neq in E. contradiction.
  - intros v w r w'. apply VideoRepository_Save_keeps_invariant.
Qed.

(** The theorem at [Fx5.world], where the sink returns ["7301"]: after
    the run the video is [completed] with that id and the history
    [downloading, downloaded, uploading, completed]. *)
Lemma C5_completed_rows_witness :
  completed_rows_forwarded
    (snd (VideoProcessor.processVideo Fx5.processor Fx5.pending1 Fx5.world))
  /\ exists row,
      video_row "vid-1"
        (snd (VideoProcessor.processVideo Fx5.processor Fx5.pending1 Fx5.world))
      = Some row
      /\ Video.Status row = VideoStatusCompleted
      /\ Video.TikTokVideoID row = "7301".
Proof.
  destruct C5_completed_rows_went_through_the_pipeline as (_ & H & _).
  destruct (H Fx5.processor Fx5.pending1 Fx5.world
              (fst (VideoProcessor.processVideo Fx5.processor Fx5.pending1 Fx5.world))
              (snd (VideoProcessor.processVideo Fx5.processor Fx5.pending1 Fx5.world)))
    as (Hinv & Hid).
  - intros row [<-|[]] Hc. discriminate Hc.
  - apply surjective_pairing.
  - split; [exact Hinv|].
    vm_compute. eexists. split; [reflexivity|]. split; reflexivity.
Defined.

(** C5 as stated fails on the sink id: when the sink answers the publish
    request with status 200, no error code and no [video_id], the run
    completes the item with an empty [tiktok_video_id]. *)
Lemma C5_counterexample_completed_with_empty_sink_id :
  ~ (forall p v w r w',
        (forall row, In row (videos w) -> Video.Status row = VideoStatusCompleted ->
                     Video.TikTokVideoID row <> "") ->
        VideoProcessor.processVideo p v w = (r, w') ->
        forall row, In row (videos w') -> Video.Status row = VideoStatusCompleted ->
                    Video.TikTokVideoID row <> "").
Proof.
  intros H.
  pose (w' := snd (VideoProcessor.processVideo Fx5.processor_empty_id Fx5.pending1
                     Fx5.world)).
  assert (Hrow : exists row, In row (videos w')
                             /\ Video.Status row = VideoStatusCompleted
                             /\ Video.TikTokVideoID row = "").
  { vm_compute. eexists. split; [left; reflexivity|]. split; reflexivity. }
  destruct Hrow as (row & Hin & Hc & He).
  apply (H Fx5.processor_empty_id Fx5.pending1 Fx5.world
           (fst (VideoProcessor.processVideo Fx5.processor_empty_id Fx5.pending1
                   Fx5.world)) w'
           ltac:(intros r0 [<-|[]] Hc0; discriminate Hc0)
           (surjective_pairing _) row Hin Hc He).
Qed.

(** ** The batch drain (C6) *)

Lemma in_firstn {A} (n : nat) (l : list A) x : In x (firstn n l) -> In x l.
Proof.
  intros H. rewrite <- (firstn_skipn n l). apply in_or_app. left. exact H.
Qed.

Lemma pending_count_update_le id F rows :
  (forall r, is_pending (F r) = true -> is_pending r = true) ->
  (length (filter is_pending (update_videos id F rows))
   <= length (filter is_pending rows))%nat.
Proof.
  intros HF. unfold update_videos. induction rows as [|x rows IH]; simpl; auto.
  destruct (Video.ID x == id).
  - destruct (is_pending (F x)) eqn:E.
    + rewrite (HF x E). simpl. lia.
    + destruct (is_pending x); simpl; lia.
  - destruct (is_pending x); simpl; lia.
Qed.

Lemma pending_count_update_lt id F rows row :
  (forall r, is_pending (F r) = false) ->
  In row rows -> Video.ID row = id -> is_pending row = true ->
  (length (filter is_pending (update_videos id F rows))
   < length (filter is_pending rows))%nat.
Proof.
  intros HF Hin Hid Hp. unfold update_videos.
  induction rows as [|x rows IH]; simpl; [destruct Hin|].
  destruct Hin as [->|Hin].
  - rewrite Hid, eqb_refl', HF, Hp. simpl.
    pose proof (pending_count_update_le id F rows) as L. unfold update_videos in L.
    assert (length (filter is_pending
                      (map (fun r => if Video.ID r == id then F r else r) rows))
            <= length (filter is_pending rows))%nat.
    { apply L. intros r E. rewrite HF in E. discriminate. }
    lia.
  - specialize (IH Hin).
    destruct (Video.ID x == id).
    + rewrite HF. destruct (is_pending x); simpl; lia.
    + destruct (is_pending x); simpl; lia.
Qed.

(** A run of writes that never writes [pending] does not add pending
    rows. *)
Lemma pending_count_evolves_le id ss F w w' :
  evolves id ss F w w' ->
  Forall (fun s => s <> VideoStatusPending) ss ->
  (pending_count w' <= pending_count w)%nat.
Proof.
  intros (_ & Hv & HW & _) Hss. unfold pending_count. rewrite Hv.
  apply pending_count_update_le. intros r. unfold is_pending.
  destruct (HW r) as (_ & _ & ->).
  destruct ss as [|s ss']; [auto|].
  pose proof (last_in (s :: ss') (Video.Status r) ltac:(discriminate)) as Hl.
  rewrite Forall_forall in Hss. apply Hss in Hl.
  intros E. apply String.eqb_eq in E. contradiction.
Qed.

(** A run that ends by writing a status other than [pending] takes the
    pending rows of the video out of the pending set. *)
Lemma pending_count_evolves_lt id ss F w w' row :
  evolves id ss F w w' ->
  ss <> [] -> Forall (fun s => s <> VideoStatusPending) ss ->
  In row (videos w) -> Video.ID row = id -> Video.Status row = VideoStatusPending ->
  (pending_count w' < pending_count w)%nat.
Proof.
  intros (_ & Hv & HW & _) Hne Hss Hin Hid Hp. unfold pending_count. rewrite Hv.
  apply pending_count_update_lt with (row := row); auto.
  - intros r. unfold is_pending. destruct (HW r) as (_ & _ & ->).
    pose proof (last_in ss (Video.Status r) Hne) as Hl.
    rewrite Forall_forall in Hss. apply Hss in Hl.
    apply String.eqb_neq. exact Hl.
  - unfold is_pending. rewrite Hp. reflexivity.
Qed.

Lemma processVideo_pending p v w r w' :
  VideoProcessor.processVideo p v w = (r, w') ->
  (pending_count w' <= pending_count w)%nat
  /\ (is_ok r = true ->
      forall row, In row (videos w) -> Video.ID row = Video.ID v ->
                  Video.Status row = VideoStatusPending ->
                  (pending_count w' < pending_count w)%nat).
Proof.
  intros H. apply processVideo_spec in H. destruct H as (ss & F & Ev & Hr).
  assert (Hss : Forall (fun s => s <> VideoStatusPending) ss).
  { destruct r.
    - destruct Hr as (-> & _). repeat constructor; discriminate.
    - eapply Forall_impl; [|exact Hr]. simpl. tauto. }
  split.
  - eapply pending_count_evolves_le; eauto.
  - intros Hok row Hin Hid Hp. destruct r; [|discriminate].
    destruct Hr as (-> & _).
    eapply pending_count_evolves_lt; eauto. discriminate.
Qed.

Lemma processBatch_spec p vs w r w' :
  VideoProcessor.processBatch p vs w = (r, w') ->
  exists errors,
    r = Ok errors
    /\ (pending_count w' <= pending_count w)%nat
    /\ (errors = [] ->
        forall v rest, vs = v :: rest ->
        forall row, In row (videos w) -> Video.ID row = Video.ID v ->
                    Video.Status row = VideoStatusPending ->
                    (pending_count w' < pending_count w)%nat).
Proof.
  revert w r w'. induction vs as [|v vs IH]; intros w r w' H; simpl in H.
  - inv H. exists []. splits; auto. intros _ v rest D. discriminate.
  - apply bind_inv in H. destruct H as [(r1 & w1 & E1 & H)|(e & E1 & _)].
    2:{ apply attempt_inv in E1. destruct E1 as (r0 & _ & D). discriminate. }
    apply attempt_inv in E1. destruct E1 as (r0 & E1 & E). inv E.
    apply processVideo_pending in E1. destruct E1 as (L1 & S1).
    apply bind_inv in H. destruct H as [(errors & w2 & E2 & H)|(e & E2 & ->)].
    2:{ apply IH in E2. destruct E2 as (errs & D & _). discriminate. }
    apply IH in E2. destruct E2 as (errs & E & L2 & _). inv E.
    destruct r0 as [u|e]; unfold ret in H; inv H; eexists; splits; try reflexivity;
      try lia.
    + intros -> v0 rest E row Hin Hid Hp. inv E.
      specialize (S1 eq_refl row Hin Hid Hp). lia.
    + intros D. discriminate.
Qed.

Lemma in_insert_by {A} (key : A -> Z) x l y :
  In y (insert_by key x l) <-> y = x \/ In y l.
Proof.
  induction l as [|z l IH]; simpl.
  - intuition congruence.
  - destruct (key x <? key z); simpl; [intuition congruence|].
    rewrite IH. intuition congruence.
Qed.

Lemma length_insert_by {A} (key : A -> Z) x l :
  length (insert_by key x l) = S (length l).
Proof.
  induction l as [|z l IH]; simpl; auto.
  destruct (key x <? key z); simpl; auto.
Qed.

Lemma order_by_spec {A} (key : A -> Z) l :
  length (order_by key l) = length l /\ forall y, In y (order_by key l) <-> In y l.
Proof.
  unfold order_by.
  assert (G : forall acc,
             length (fold_left (fun acc x => insert_by key x acc) l acc)
             = (length l + length acc)%nat
             /\ forall y, In y (fold_left (fun acc x => insert_by key x acc) l acc)
                          <-> In y l \/ In y acc).
  { induction l as [|x l IH]; intros acc; simpl.
    - split; [reflexivity|]. intuition.
    - destruct (IH (insert_by key x acc)) as [L I]. split.
      + rewrite L, length_insert_by. lia.
      + intros y. rewrite I, in_insert_by. intuition congruence. }
  destruct (G []) as [L I]. split.
  - rewrite L. simpl. lia.
  - intros y. rewrite I. simpl. intuition.
Qed.

Lemma batchSize_positive p : 1 <= VideoProcessor.batchSize p.
Proof.
  unfold VideoProcessor.batchSize.
  destruct (int64 _ <=? 0) eqn:E.
  - destruct (config.WorkerPoolSize _ <=? 0) eqn:E2; [lia|].
    apply Z.leb_gt in E2. lia.
  - apply Z.leb_gt in E. lia.
Qed.

Lemma GetPendingVideos_spec p w r w' :
  VideoRepository.GetPendingVideos (VideoProcessor.batchSize p) w = (r, w') ->
  videos w' = videos w /\ now w' = now w /\ trace w' = trace w
  /\ accounts w' = accounts w
  /\ match r with
     | Ok vs => (forall v, In v vs -> In v (videos w)
                                      /\ Video.Status v = VideoStatusPending)
                /\ (vs = [] -> pending_count w' = O)
     | Err _ => exists fs, faults w = true :: fs
     end.
Proof.
  unfold VideoRepository.GetPendingVideos. monad_unfold.
  destruct (statement w) as [r0 w0] eqn:E. apply statement_spec in E.
  destruct E as [-> [(err & fs & -> & Hf)|[-> Hf]]]; simpl; intros H; inv H; simpl;
    splits; eauto.
  - intros v Hin. unfold limit_rows in Hin.
    assert (Hin' : In v (order_by Video.CreatedAt
                           (filter (fun r => Video.Status r == VideoStatusPending)
                                   (videos w)))).
    { destruct (_ <? 0); [exact Hin|]. eapply in_firstn; eauto. }
    apply order_by_spec in Hin'. apply filter_In in Hin'.
    destruct Hin' as [Hi Hs]. apply String.eqb_eq in Hs. auto.
  - unfold limit_rows, pending_count. simpl.
    pose proof (batchSize_positive p) as Hb.
    destruct (VideoProcessor.batchSize p <? 0) eqn:E; [lia|].
    destruct (order_by_spec Video.CreatedAt
                (filter (fun r => Video.Status r == VideoStatusPending) (videos w)))
      as [L _].
    intros Hnil.
    destruct (order_by _ _) as [|x l] eqn:Eo.
    + simpl in L. symmetry. exact L.
    + exfalso. destruct (Z.to_nat (VideoProcessor.batchSize p)) eqn:En; [lia|].
      simpl in Hnil. discriminate.
Qed.

Lemma drainLoop_terminates p ctx fuel :
  forall poll w, (pending_count w < fuel)%nat ->
                 exists x w', VideoProcessor.drainLoop p ctx fuel poll w = Some (x, w').
Proof.
  induction fuel as [|fuel IH]; intros poll w Hlt; [lia|].
  simpl. destruct (ctx poll); [eauto|].
  destruct (VideoRepository.GetPendingVideos _ w) as [r w1] eqn:G.
  apply GetPendingVideos_spec in G. destruct G as (Gv & _ & _ & _ & Gr).
  destruct r as [vs|e]; [|eauto].
  destruct vs as [|v vs]; [eauto|].
  destruct (VideoProcessor.processBatch p (v :: vs) w1) as [rb w2] eqn:B.
  apply processBatch_spec in B. destruct B as (errors & -> & L & S).
  destruct errors as [|e errors]; [|eauto].
  apply IH.
  destruct Gr as (Gin & _). destruct (Gin v (or_introl eq_refl)) as (Hin & Hp).
  rewrite <- Gv in Hin.
  specialize (S eq_refl v vs eq_refl v Hin eq_refl Hp).
  assert (pending_count w1 = pending_count w)
    by (unfold pending_count; rewrite Gv; reflexivity).
  lia.
Qed.

Lemma drainLoop_exit p ctx fuel :
  forall poll w x w',
    VideoProcessor.drainLoop p ctx fuel poll w = Some (x, w') ->
    match x with
    | VideoProcessor.ExitContext => exists n, ctx n = true
    | VideoProcessor.ExitListError e =>
        exists w1, VideoRepository.GetPendingVideos (VideoProcessor.batchSize p) w1
                   = (Err e, w')
    | VideoProcessor.ExitEmpty => pending_count w' = O
    | VideoProcessor.ExitProcessingErrors errors => errors <> []
    end.
Proof.
  induction fuel as [|fuel IH]; intros poll w x w' H; simpl in H; [discriminate|].
  destruct (ctx poll) eqn:C; [inv H; eauto|].
  destruct (VideoRepository.GetPendingVideos _ w) as [r w1] eqn:G.
  pose proof G as G'. apply GetPendingVideos_spec in G'.
  destruct G' as (_ & _ & _ & _ & Gr).
  destruct r as [vs|e]; [|inv H; eauto].
  destruct vs as [|v vs]; [inv H; apply Gr; reflexivity|].
  destruct (VideoProcessor.processBatch p (v :: vs) w1) as [rb w2] eqn:B.
  apply processBatch_spec in B. destruct B as (errors & -> & _).
  destruct errors as [|e errors]; [eapply IH; eauto|].
  inv H. discriminate.
Qed.

Lemma int64_small z : - 2 ^ 63 <= z < 2 ^ 63 -> int64 z = z.
Proof.
  unfold int64. change (2 ^ 63) with 9223372036854775808.
  change (2 ^ 64) with 18446744073709551616.
  intros H. rewrite Z.mod_small; lia.
Qed.

(** C6, as amended.  [ProcessPendingVideos] reads the pending items in
    batches of [max_concurrent_downloads + max_concurrent_uploads] when
    that sum is positive, of [worker_pool_size] when the sum is not
    positive and the pool size is, and of one otherwise; with fuel above
    the number of pending rows the loop returns; and it is left in one
    of four ways: the context is done, reading the pending list failed,
    the store returned an empty list (then no row is pending and the
    result is nil), or at least one item of the last batch failed.  The
    result is nil only for the empty list. *)
Theorem C6_drain_loop_exits :
  forall (p : VideoProcessor.t) (ctx : nat -> bool),
    (let sum := config.MaxConcurrentDownloads (VideoProcessor.config p)
                + config.MaxConcurrentUploads (VideoProcessor.config p) in
     (0 < sum < 2 ^ 63 -> VideoProcessor.batchSize p = sum)
     /\ (- 2 ^ 63 <= sum <= 0 ->
         VideoProcessor.batchSize p
         = if config.WorkerPoolSize (VideoProcessor.config p) <=? 0 then 1
           else config.WorkerPoolSize (VideoProcessor.config p)))
    /\ (forall w fuel, (pending_count w < fuel)%nat ->
                       exists r w',
                         VideoProcessor.ProcessPendingVideos p ctx fuel w
                         = Some (r, w'))
    /\ (forall w fuel r w',
          VideoProcessor.ProcessPendingVideos p ctx fuel w = Some (r, w') ->
          exists x,
            VideoProcessor.drainLoop p ctx fuel 0 w = Some (x, w')
            /\ r = VideoProcessor.exit_error x
            /\ (r = Ok tt <-> x = VideoProcessor.ExitEmpty)
            /\ match x with
               | VideoProcessor.ExitContext => exists n, ctx n = true
               | VideoProcessor.ExitListError e =>
                   exists w1,
                     VideoRepository.GetPendingVideos (VideoProcessor.batchSize p) w1
                     = (Err e, w')
               | VideoProcessor.ExitEmpty => pending_count w' = O
               | VideoProcessor.ExitProcessingErrors errors => errors <> []
               end).
Proof.
  intros p ctx. split; [|split].
  - intros sum. unfold VideoProcessor.batchSize. fold sum.
    change (2 ^ 63) with 9223372036854775808. split; intros H.
    + rewrite int64_small
        by (change (2 ^ 63) with 9223372036854775808; lia).
      destruct (sum <=? 0) eqn:E; [apply Z.leb_le in E; lia|reflexivity].
    + rewrite int64_small
        by (change (2 ^ 63) with 9223372036854775808; lia).
      destruct (sum <=? 0) eqn:E; [reflexivity|apply Z.leb_gt in E; lia].
  - intros w fuel Hlt. unfold VideoProcessor.ProcessPendingVideos.
    destruct (drainLoop_terminates p ctx fuel 0%nat w Hlt) as (x & w' & ->). eauto.
  - intros w fuel r w' H. unfold VideoProcessor.ProcessPendingVideos in H.
    destruct (VideoProcessor.drainLoop p ctx fuel 0 w) as [[x w1]|] eqn:D;
      [|discriminate].
    inv H. exists x. splits; auto.
    + destruct x; simpl; split; intros E; try discriminate; reflexivity.
    + eapply drainLoop_exit; eauto.
Qed.

(** The theorem at [Fx5.world]: one pending video, every remote call
    succeeds; with fuel 2 the drain returns nil and no row is pending. *)
Lemma C6_drain_loop_exits_witness :
  exists w',
    VideoProcessor.ProcessPendingVideos Fx5.processor Fx6.background 2 Fx5.world
    = Some (Ok tt, w')
    /\ pending_count w' = O.
Proof.
  destruct (C6_drain_loop_exits Fx5.processor Fx6.background) as (_ & Hret & Hwhy).
  destruct (Hret Fx5.world 2%nat) as (r & w' & Hrun).
  - vm_compute. lia.
  - destruct (Hwhy Fx5.world 2%nat r w' Hrun) as (x & Hd & Hr & Hnil & Hx).
    assert (Hr' : r = Ok tt).
    { revert Hrun. vm_compute. intros E. inv E. reflexivity. }
    exists w'. split; [rewrite Hrun, Hr'; reflexivity|].
    apply Hnil in Hr'. subst x. exact Hx.
Defined.

(** C6 as stated fails twice.  The loop is also left when an item of a
    batch fails: with batches of one, two pending videos and a failing
    extractor, the drain returns after the first batch while the context
    is live and a video is still pending.  And the batch size is not the
    sum when the sum is zero. *)
Lemma C6_counterexample_loop_left_on_item_error :
  ~ (forall p ctx fuel w r w',
        VideoProcessor.ProcessPendingVideos p ctx fuel w = Some (r, w') ->
        (exists n, ctx n = true) \/ pending_count w' = O)
  /\ ~ (forall p,
          VideoProcessor.batchSize p
          = config.MaxConcurrentDownloads (VideoProcessor.config p)
            + config.MaxConcurrentUploads (VideoProcessor.config p)).
Proof.
  split.
  - intros H.
    destruct (VideoProcessor.ProcessPendingVideos Fx6.processor Fx6.background 3
                Fx6.world) as [[r w']|] eqn:E; [|vm_compute in E; discriminate].
    destruct (H _ _ _ _ _ _ E) as [[n C]|C].
    + discriminate C.
    + revert E C. vm_compute. intros E. inv E. discriminate.
  - intros H. specialize (H (VideoProcessor.mk Fx6.cfg_zero Fx6.services)).
    vm_compute in H. discriminate H.
Qed.

(** ** Runs without storage failure *)

Lemma after_update_frame id F e w :
  faults (after_update id F e w) = faults w
  /\ accounts (after_update id F e w) = accounts w
  /\ now (after_update id F e w) = now w
  /\ uuids (after_update id F e w) = uuids w
  /\ videos (after_update id F e w) = update_videos id F (videos w)
  /\ trace (after_update id F e w)
     = (trace w ++ (if has_video id (videos w) then [e] else []))%list.
Proof.
  unfold after_update. destruct (has_video id (videos w)) eqn:E; simpl; splits; auto.
  - symmetry. apply update_videos_absent. exact E.
  - rewrite app_nil_r. reflexivity.
Qed.

Lemma update_statement_ok id (F : time.Time -> Video.t -> Video.t) e w :
  no_faults w ->
  (tm <- time_Now ;;
   statement ;;;
   x <- get ;;
   if has_video id (videos x)
   then modify (set_videos (update_videos id (F tm) (videos x))) ;;; emit e
   else ret tt) w = (Ok tt, after_update id (F (now w)) e w).
Proof.
  intros NF. monad_unfold. rewrite (statement_no_faults w NF).
  unfold after_update. destruct (has_video id (videos w)); reflexivity.
Qed.

Lemma UpdateStatus_ok id s m w :
  no_faults w ->
  VideoRepository.UpdateStatus id s m w
  = (Ok tt, after_update id
              (fun r => Video.with_UpdatedAt (now w)
                          (Video.with_ErrorMessage m (Video.with_Status s r)))
              (EvStatus id s) w).
Proof.
  apply (update_statement_ok id
           (fun tm r => Video.with_UpdatedAt tm
                          (Video.with_ErrorMessage m (Video.with_Status s r)))).
Qed.

Lemma UpdateFilePath_ok id path w :
  no_faults w ->
  VideoRepository.UpdateFilePath id path w
  = (Ok tt, after_update id
              (fun r => Video.with_UpdatedAt (now w) (Video.with_LocalFilePath path r))
              (EvFilePath id path) w).
Proof.
  apply (update_statement_ok id
           (fun tm r => Video.with_UpdatedAt tm (Video.with_LocalFilePath path r))).
Qed.

Lemma UpdateTikTokID_ok id tiktokID w :
  no_faults w ->
  VideoRepository.UpdateTikTokID id tiktokID w
  = (Ok tt, after_update id
              (fun r => Video.with_UpdatedAt (now w)
                          (Video.with_TikTokVideoID tiktokID r))
              (EvTikTokID id tiktokID) w).
Proof.
  apply (update_statement_ok id
           (fun tm r => Video.with_UpdatedAt tm (Video.with_TikTokVideoID tiktokID r))).
Qed.

Lemma GetByID_ok id w :
  no_faults w -> AccountRepository.GetByID id w = (Ok (account_row id w), w).
Proof.
  intros NF. unfold AccountRepository.GetByID. monad_unfold.
  rewrite (statement_no_faults w NF). reflexivity.
Qed.

Lemma AccountRepository_Save_ok a w :
  no_faults w -> Account.ID a <> "" ->
  youtube_channel_id_taken a (accounts w) = false ->
  tiktok_account_id_taken a (accounts w) = false ->
  AccountRepository.Save a w
  = (Ok (Account.with_UpdatedAt (now w) a),
     after_account_save (Account.with_UpdatedAt (now w) a) w).
Proof.
  intros NF Hne Hy Ht. apply String.eqb_neq in Hne.
  unfold AccountRepository.Save, exec_upsert_account. monad_unfold.
  rewrite Hne. rewrite (statement_no_faults w NF).
  unfold youtube_channel_id_taken, tiktok_account_id_taken in *. simpl.
  rewrite Hy, Ht. reflexivity.
Qed.

Lemma find_update_videos_same id F rows :
  (forall r, Video.ID (F r) = Video.ID r) ->
  find (fun r => Video.ID r == id) (update_videos id F rows)
  = option_map F (find (fun r => Video.ID r == id) rows).
Proof.
  intros HF. unfold update_videos. induction rows as [|x rows IH]; simpl; auto.
  destruct (Video.ID x == id) eqn:E.
  - rewrite HF, E. reflexivity.
  - rewrite E. exact IH.
Qed.

(** The download stage, when nothing fails. *)
Lemma downloadVideo_ok p v w path :
  no_faults w ->
  downloader_DownloadVideo (VideoProcessor.services p)
    (mkDownloadOptions (Video.YouTubeVideoID v) "mp4" "720p") = Ok path ->
  exists w1,
    VideoProcessor.downloadVideo p v w = (Ok (Video.with_LocalFilePath path v), w1)
    /\ no_faults w1 /\ accounts w1 = accounts w /\ now w1 = now w
    /\ videos w1
       = update_videos (Video.ID v)
           (fun r => Video.with_UpdatedAt (now w)
                       (Video.with_ErrorMessage ""
                          (Video.with_Status VideoStatusDownloaded
                             (Video.with_UpdatedAt (now w)
                                (Video.with_LocalFilePath path
                                   (Video.with_UpdatedAt (now w)
                                      (Video.with_ErrorMessage ""
                                         (Video.with_Status VideoStatusDownloading
                                            r))))))))
           (videos w)
    /\ trace w1
       = (trace w
          ++ (if has_video (Video.ID v) (videos w)
              then [EvStatus (Video.ID v) VideoStatusDownloading] else [])
          ++ [EvDownload (Video.YouTubeVideoID v)]
          ++ (if has_video (Video.ID v) (videos w)
              then [EvFilePath (Video.ID v) path;
                    EvStatus (Video.ID v) VideoStatusDownloaded] else []))%list.
Proof.
  intros NF Hd. unfold VideoProcessor.downloadVideo.
  unfold bind at 1. rewrite (UpdateStatus_ok _ _ _ w NF).
  set (w1 := after_update _ _ _ w).
  destruct (after_update_frame (Video.ID v)
              (fun r => Video.with_UpdatedAt (now w)
                          (Video.with_ErrorMessage ""
                             (Video.with_Status VideoStatusDownloading r)))
              (EvStatus (Video.ID v) VideoStatusDownloading) w)
    as (F1 & A1 & N1 & U1 & V1 & T1). fold w1 in F1, A1, N1, U1, V1, T1.
  unfold bind at 1, emit at 1.
  set (w2 := set_trace _ w1).
  unfold bind at 1, wrap at 1, lift at 1. rewrite Hd.
  assert (NF2 : no_faults w2) by (unfold no_faults; simpl; rewrite F1; exact NF).
  unfold bind at 1. rewrite (UpdateFilePath_ok _ _ w2 NF2).
  set (w3 := after_update _ _ _ w2).
  destruct (after_update_frame (Video.ID v)
              (fun r => Video.with_UpdatedAt (now w2)
                          (Video.with_LocalFilePath path r))
              (EvFilePath (Video.ID v) path) w2)
    as (F3 & A3 & N3 & U3 & V3 & T3). fold w3 in F3, A3, N3, U3, V3, T3.
  assert (NF3 : no_faults w3) by (unfold no_faults; rewrite F3; exact NF2).
  simpl Video.ID. unfold bind at 1. rewrite (UpdateStatus_ok _ _ _ w3 NF3).
  set (w4 := after_update _ _ _ w3).
  destruct (after_update_frame (Video.ID v)
              (fun r => Video.with_UpdatedAt (now w3)
                          (Video.with_ErrorMessage ""
                             (Video.with_Status VideoStatusDownloaded r)))
              (EvStatus (Video.ID v) VideoStatusDownloaded) w3)
    as (F4 & A4 & N4 & U4 & V4 & T4). fold w4 in F4, A4, N4, U4, V4, T4.
  exists w4. unfold ret. split; [reflexivity|].
  assert (Hn3 : now w3 = now w) by (rewrite N3; simpl; exact N1).
  assert (Hn2 : now w2 = now w) by (simpl; exact N1).
  splits.
  - unfold no_faults. rewrite F4. exact NF3.
  - rewrite A4, A3. simpl. exact A1.
  - rewrite N4. exact Hn3.
  - rewrite V4, V3. simpl videos. rewrite V1.
    rewrite !update_videos_compose by (intros r; reflexivity).
    rewrite Hn3, Hn2. reflexivity.
  - rewrite T4, T3. simpl trace. rewrite T1, V3. simpl videos. rewrite V1.
    rewrite !has_video_update by (intros r; reflexivity).
    destruct (has_video (Video.ID v) (videos w)); simpl;
      rewrite <- ?app_assoc; simpl; rewrite ?app_nil_r; reflexivity.
Qed.

(** ** Jobs without usable credentials (C8) *)

Lemma append_assoc (a b c : string) : (a ++ b) ++ c = a ++ (b ++ c).
Proof. induction a as [|x a IH]; simpl; [reflexivity|rewrite IH; reflexivity]. Qed.

Lemma prefix_append t x : String.prefix t (t ++ x) = true.
Proof.
  induction t as [|c t IH]; simpl.
  - destruct x; reflexivity.
  - destruct (Ascii.ascii_dec c c); [exact IH|congruence].
Qed.

Lemma substringb_unfold t s :
  substringb t s
  = String.prefix t s
    || match s with EmptyString => false | String _ s' => substringb t s' end.
Proof. destruct s; reflexivity. Qed.

Lemma contains_substringb s t : contains s t -> substringb t s = true.
Proof.
  intros (pre & post & ->). induction pre as [|c pre IH].
  - rewrite substringb_unfold. simpl String.append. rewrite prefix_append.
    reflexivity.
  - change (String c pre ++ t ++ post) with (String c (pre ++ t ++ post)).
    rewrite substringb_unfold, IH. apply orb_true_r.
Qed.

Lemma url_shape pre a k b s c1 c2 u d st post :
  let url := a ++ k ++ b ++ s ++ (c1 ++ c2) ++ u ++ d ++ st in
  contains (pre ++ url ++ post) (a ++ k)
  /\ contains (pre ++ url ++ post) (c2 ++ u).
Proof.
  unfold contains. split.
  - exists pre, (b ++ s ++ (c1 ++ c2) ++ u ++ d ++ st ++ post).
    rewrite !append_assoc. reflexivity.
  - exists (pre ++ a ++ k ++ b ++ s ++ c1), (d ++ st ++ post).
    rewrite !append_assoc. reflexivity.
Qed.

(** The authorize URL carries the client key and the redirect URI of the
    configuration, query-escaped. *)
Lemma authorize_url_contents p accountID pre post :
  let msg := pre ++ VideoProcessor.promptManualAuthorization p accountID ++ post in
  contains msg ("https://www.tiktok.com/v2/auth/authorize?client_key="
                ++ url.QueryEscape (config.TikTokAPIKey (VideoProcessor.config p)))
  /\ contains msg ("redirect_uri="
                   ++ url.QueryEscape
                        (config.TikTokRedirectURI (VideoProcessor.config p))).
Proof.
  unfold VideoProcessor.promptManualAuthorization. cbv zeta.
  change "&response_type=code&redirect_uri="
    with ("&response_type=code&" ++ "redirect_uri=").
  apply url_shape.
Qed.

(** The credential check of a job that has no token, or whose token is
    rejected while it has no refresh token. *)
Lemma uploadVideo_reauth p v w account :
  no_faults w ->
  config.TikTokEnableWeb (VideoProcessor.config p) = false ->
  account_row (Video.AccountID v) w = Some account ->
  Account.TikTokAccountID account <> "" ->
  (Account.TikTokAccessToken account = ""
   \/ (tiktok.VerifyAccessToken (VideoProcessor.services p)
         (Account.TikTokAccessToken account) = Ok false
       /\ Account.TikTokRefreshToken account = "")) ->
  exists pre post w',
    VideoProcessor.uploadVideo p v w
    = (Err (pre ++ VideoProcessor.promptManualAuthorization p (Account.ID account)
            ++ post), w')
    /\ no_faults w' /\ accounts w' = accounts w /\ videos w' = videos w
    /\ now w' = now w
    /\ (trace w' = trace w
        \/ trace w' = (trace w ++ [EvVerify (Account.TikTokAccessToken account)])%list).
Proof.
  intros NF Hweb Hacc Htt Hcase.
  unfold VideoProcessor.uploadVideo.
  unfold bind at 1, wrap at 1. rewrite (GetByID_ok _ w NF), Hacc.
  apply String.eqb_neq in Htt. rewrite Htt.
  unfold bind at 1. unfold VideoProcessor.validateToken. rewrite Hweb.
  change (negb false) with true. cbv iota.
  destruct (Account.TikTokAccessToken account == "") eqn:Etok.
  - unfold fail.
    exists ("TikTok access token not configured for account "
            ++ Account.ID account ++ ". Re-authorize via "),
           " and exchange the returned code for a token", w.
    split; [rewrite !append_assoc; reflexivity|]. splits; auto.
  - destruct Hcase as [E|[Hver Href]].
    { apply String.eqb_neq in Etok. contradiction. }
    unfold bind at 1, emit at 1.
    unfold bind at 1, wrap at 1, lift at 1. rewrite Hver.
    change (negb false) with true. cbv iota.
    rewrite Href. change ("" != "") with false. cbv iota. unfold fail.
    exists ("TikTok access token is invalid or expired for account "
            ++ Account.ID account
            ++ " and no refresh token available. Re-authorize via "),
           " and exchange the returned code for a new token",
           (set_trace (trace w ++ [EvVerify (Account.TikTokAccessToken account)]) w).
    split; [rewrite !append_assoc; reflexivity|]. simpl. splits; auto.
Qed.

(** C8, as amended.  With web upload disabled and a store that answers,
    a job whose access token is empty -- or whose token, the placeholder
    included, is rejected by the verification while no refresh token is
    stored -- gets, once its video is downloaded, an error that carries
    the authorize URL with the client key and the redirect URI of the
    configuration (query-escaped); no upload is attempted; the item is
    marked [failed] with that message; the accounts table is unchanged. *)
Theorem C8_reauth_needed_without_upload :
  forall (p : VideoProcessor.t) (v row : Video.t) (w : World) (account : Account.t)
         (path : string),
    no_faults w ->
    config.TikTokEnableWeb (VideoProcessor.config p) = false ->
    video_row (Video.ID v) w = Some row ->
    account_row (Video.AccountID v) w = Some account ->
    Account.TikTokAccountID account <> "" ->
    downloader_DownloadVideo (VideoProcessor.services p)
      (mkDownloadOptions (Video.YouTubeVideoID v) "mp4" "720p") = Ok path ->
    (Account.TikTokAccessToken account = ""
     \/ (tiktok.VerifyAccessToken (VideoProcessor.services p)
           (Account.TikTokAccessToken account) = Ok false
         /\ Account.TikTokRefreshToken account = "")) ->
    exists msg w',
      VideoProcessor.processVideo p v w = (Err msg, w')
      /\ contains msg
           ("https://www.tiktok.com/v2/auth/authorize?client_key="
            ++ url.QueryEscape (config.TikTokAPIKey (VideoProcessor.config p)))
      /\ contains msg
           ("redirect_uri="
            ++ url.QueryEscape (config.TikTokRedirectURI (VideoProcessor.config p)))
      /\ (forall a b c, In (EvUpload a b c) (trace w') -> In (EvUpload a b c) (trace w))
      /\ (exists row', video_row (Video.ID v) w' = Some row'
                       /\ Video.Status row' = VideoStatusFailed
                       /\ Video.ErrorMessage row' = msg)
      /\ accounts w' = accounts w.
Proof.
  intros p v row w account path NF Hweb Hrow Hacc Htt Hd Hcase.
  destruct (downloadVideo_ok p v w path NF Hd) as (w1 & D & NF1 & A1 & N1 & V1 & T1).
  assert (Hacc1 : account_row (Video.AccountID (Video.with_LocalFilePath path v)) w1
                  = Some account).
  { unfold account_row in *. rewrite A1. exact Hacc. }
  destruct (uploadVideo_reauth p (Video.with_LocalFilePath path v) w1 account
              NF1 Hweb Hacc1 Htt Hcase)
    as (pre & post & w2 & U & NF2 & A2 & V2 & N2 & T2).
  unfold VideoProcessor.processVideo.
  unfold bind at 1, attempt at 1. rewrite D.
  unfold bind at 1, attempt at 1. rewrite U.
  unfold bind at 1, attempt at 1. simpl Video.ID.
  rewrite (UpdateStatus_ok _ _ _ w2 NF2). unfold fail.
  destruct (after_update_frame (Video.ID v)
              (fun r => Video.with_UpdatedAt (now w2)
                (Video.with_ErrorMessage
                   (pre ++ VideoProcessor.promptManualAuthorization p
                             (Account.ID account) ++ post)
                   (Video.with_Status VideoStatusFailed r)))
              (EvStatus (Video.ID v) VideoStatusFailed) w2)
    as (F3 & A3 & N3 & U3 & V3 & T3).
  do 2 eexists. split; [reflexivity|].
  destruct (authorize_url_contents p (Account.ID account) pre post) as [C1 C2].
  splits.
  - exact C1.
  - exact C2.
  - intros a b c. rewrite T3.
    assert (Ht2 : forall e, In e (trace w2) ->
                            In e (trace w1)
                            \/ e = EvVerify (Account.TikTokAccessToken account)).
    { intros e He. destruct T2 as [T2|T2]; rewrite T2 in He; auto.
      apply in_app_iff in He. destruct He as [He|[He|[]]]; auto. }
    intros Hin. apply in_app_iff in Hin.
    destruct Hin as [Hin|Hin].
    + apply Ht2 in Hin. destruct Hin as [Hin|Hin]; [|discriminate].
      rewrite T1 in Hin.
      repeat (apply in_app_iff in Hin; destruct Hin as [Hin|Hin]); auto;
        destruct (has_video (Video.ID v) (videos w)); simpl in Hin;
        intuition discriminate.
    + destruct (has_video (Video.ID v) (videos w2)); simpl in Hin;
        intuition discriminate.
  - unfold video_row in *. rewrite V3, V2, V1.
    rewrite !find_update_videos_same by (intros r; reflexivity).
    rewrite Hrow. simpl. eexists. split; [reflexivity|]. split; reflexivity.
  - rewrite A3, A2, A1. reflexivity.
Qed.

(** The theorem at [Fx8.world_placeholder]: the job holds the
    placeholder token, the verification answers 401 and no refresh token
    is stored; the run ends with the re-authorization error and the
    client key ["client-key"] is in the message. *)
Lemma C8_reauth_needed_witness :
  exists msg w',
    VideoProcessor.processVideo Fx8.processor_rejecting Fx5.pending1
      Fx8.world_placeholder = (Err msg, w')
    /\ contains msg "https://www.tiktok.com/v2/auth/authorize?client_key=client-key"
    /\ accounts w' = [Fx8.placeholder_account].
Proof.
  destruct (C8_reauth_needed_without_upload Fx8.processor_rejecting Fx5.pending1
              Fx5.pending1 Fx8.world_placeholder Fx8.placeholder_account
              "/downloads/yt-1.mp4")
    as (msg & w' & Hrun & Hkey & _ & _ & _ & Hacc).
  - reflexivity.
  - reflexivity.
  - reflexivity.
  - reflexivity.
  - discriminate.
  - reflexivity.
  - right. split; reflexivity.
  - exists msg, w'. split; [exact Hrun|]. split; [exact Hkey|exact Hacc].
Defined.

(** C8 as stated fails twice.  The placeholder is not recognised: it is
    sent to the verification, and when the endpoint cannot be reached
    the error carries no authorize URL.  And with web upload enabled the
    credential check is skipped, so a job without token reaches the
    upload. *)
Lemma C8_counterexample_placeholder_is_verified :
  ~ (forall p v w account r w',
        no_faults w ->
        account_row (Video.AccountID v) w = Some account ->
        Account.TikTokAccountID account <> "" ->
        Account.TikTokAccessToken account = main.PLACEHOLDER ->
        VideoProcessor.uploadVideo p v w = (r, w') ->
        exists msg, r = Err msg
                    /\ contains msg "https://www.tiktok.com/v2/auth/authorize")
  /\ ~ (forall p v w account r w',
          no_faults w ->
          account_row (Video.AccountID v) w = Some account ->
          Account.TikTokAccountID account <> "" ->
          Account.TikTokAccessToken account = "" ->
          VideoProcessor.uploadVideo p v w = (r, w') ->
          forall a b c, In (EvUpload a b c) (trace w') -> In (EvUpload a b c) (trace w)).
Proof.
  split; intros H.
  - destruct (H Fx8.processor_unreachable Fx8.downloaded1 Fx8.world_placeholder
                Fx8.placeholder_account _ _ eq_refl eq_refl ltac:(discriminate)
                eq_refl (surjective_pairing _)) as (msg & Hr & Hc).
    apply contains_substringb in Hc.
    revert Hr Hc. vm_compute. intros Hr. inv Hr. discriminate.
  - specialize (H Fx8.processor_web Fx8.downloaded1 Fx8.world_empty
                  Fx8.empty_account _ _ eq_refl eq_refl ltac:(discriminate)
                  eq_refl (surjective_pairing _)
                  "" "ttk123" "/downloads/yt-1.mp4").
    apply H. vm_compute. right. left. reflexivity.
Qed.

(** ** The refresh of an invalid token (C2) *)

Lemma scale_seconds n :
  0 <= n <= 9223372036 -> time.scale n time.Second = n * 1000000000.
Proof.
  intros H. unfold time.scale, time.Second.
  rewrite (int64_small n) by (change (2 ^ 63) with 9223372036854775808; lia).
  apply int64_small. change (2 ^ 63) with 9223372036854775808. lia.
Qed.

(** The upload itself, when no statement fails. *)
Lemma performUpload_ok p account v w :
  no_faults w ->
  exists w',
    VideoProcessor.performUpload p account v w
    = (match tiktok.UploadVideo (VideoProcessor.services p)
               (tiktok.mkUploadRequest (Account.TikTokAccessToken account)
                  (Account.TikTokAccountID account) (Video.LocalFilePath v)
                  (Video.Title v) (Video.Description v) "PUBLIC_TO_EVERYONE") with
       | Ok _ => Ok v
       | Err e => Err ("upload failed: " ++ e)
       end, w')
    /\ accounts w' = accounts w
    /\ In (EvUpload (Account.TikTokAccessToken account)
             (Account.TikTokAccountID account) (Video.LocalFilePath v)) (trace w')
    /\ forall e, In e (trace w) -> In e (trace w').
Proof.
  intros NF. unfold VideoProcessor.performUpload.
  unfold bind at 1. rewrite (UpdateStatus_ok _ _ _ w NF).
  set (w1 := after_update _ _ _ w).
  destruct (after_update_frame (Video.ID v)
              (fun r => Video.with_UpdatedAt (now w)
                          (Video.with_ErrorMessage ""
                             (Video.with_Status VideoStatusUploading r)))
              (EvStatus (Video.ID v) VideoStatusUploading) w)
    as (F1 & A1 & N1 & U1 & V1 & T1). fold w1 in F1, A1, N1, U1, V1, T1.
  unfold bind at 1, emit at 1. simpl tiktok.AccessToken. simpl tiktok.OpenID.
  simpl tiktok.VideoPath.
  set (w2 := set_trace _ w1).
  assert (NF2 : no_faults w2) by (unfold no_faults; simpl; rewrite F1; exact NF).
  assert (T2 : forall e, In e (trace w) -> In e (trace w2)).
  { intros e He. simpl. rewrite T1. apply in_or_app. left. apply in_or_app. auto. }
  assert (I2 : In (EvUpload (Account.TikTokAccessToken account)
                     (Account.TikTokAccountID account) (Video.LocalFilePath v))
                  (trace w2)).
  { simpl. apply in_or_app. right. left. reflexivity. }
  unfold bind at 1, wrap at 1, lift at 1.
  destruct (tiktok.UploadVideo _ _) as [vid|e].
  - unfold bind at 1. rewrite (UpdateTikTokID_ok _ _ w2 NF2).
    destruct (after_update_frame (Video.ID v)
                (fun r => Video.with_UpdatedAt (now w2)
                            (Video.with_TikTokVideoID vid r))
                (EvTikTokID (Video.ID v) vid) w2)
      as (F3 & A3 & N3 & U3 & V3 & T3).
    unfold ret. eexists. split; [reflexivity|]. splits.
    + rewrite A3. simpl. exact A1.
    + rewrite T3. apply in_or_app. left. exact I2.
    + intros e He. rewrite T3. apply in_or_app. left. auto.
  - eexists. split; [reflexivity|]. splits; auto.
Qed.

(** C2.  A job whose access token the verification rejects and that has
    a refresh token (web upload disabled, store answering): the refresh
    is attempted.  When it fails, the publish attempt ends with an error,
    nothing is stored and no upload is attempted.  When it succeeds, the
    row of the job holds the new access token; its refresh token is the
    new one when the response carries one and the old one otherwise; its
    expiry is [now + expires_in] in Go's duration arithmetic when
    [expires_in > 0] (exactly [expires_in] seconds later for every
    lifetime below 292 years) and the old one otherwise; and the upload
    goes on with the new access token. *)
Theorem C2_refresh_persists_new_tokens :
  forall (p : VideoProcessor.t) (v : Video.t) (w : World) (account : Account.t)
         r w',
    no_faults w -> accounts_unique (accounts w) ->
    config.TikTokEnableWeb (VideoProcessor.config p) = false ->
    account_row (Video.AccountID v) w = Some account ->
    Video.AccountID v <> "" ->
    Account.TikTokAccountID account <> "" ->
    Account.TikTokAccessToken account <> "" ->
    tiktok.VerifyAccessToken (VideoProcessor.services p)
      (Account.TikTokAccessToken account) = Ok false ->
    Account.TikTokRefreshToken account <> "" ->
    VideoProcessor.uploadVideo p v w = (r, w') ->
    In (EvRefresh (Account.TikTokRefreshToken account)) (trace w')
    /\ match tiktok_RefreshAccessToken (VideoProcessor.services p)
               (Account.TikTokRefreshToken account) with
       | Err e =>
           (exists msg, r = Err msg) /\ accounts w' = accounts w
           /\ forall a b c, In (EvUpload a b c) (trace w') ->
                            In (EvUpload a b c) (trace w)
       | Ok tokenResp =>
           exists stored,
             account_row (Video.AccountID v) w' = Some stored
             /\ Account.TikTokAccessToken stored = AccessToken tokenResp
             /\ Account.TikTokRefreshToken stored
                = (if RefreshToken tokenResp == ""
                   then Account.TikTokRefreshToken account
                   else RefreshToken tokenResp)
             /\ Account.TikTokTokenExpiresAt stored
                = (if 0 <? ExpiresIn tokenResp
                   then Some (time.Add (now w)
                                (time.scale (ExpiresIn tokenResp) time.Second))
                   else Account.TikTokTokenExpiresAt account)
             /\ (0 < ExpiresIn tokenResp <= 9223372036 ->
                 Account.TikTokTokenExpiresAt stored
                 = Some (now w + ExpiresIn tokenResp * 1000000000))
             /\ In (EvUpload (AccessToken tokenResp)
                      (Account.TikTokAccountID account) (Video.LocalFilePath v))
                   (trace w')
             /\ r = match tiktok.UploadVideo (VideoProcessor.services p)
                            (tiktok.mkUploadRequest (AccessToken tokenResp)
                               (Account.TikTokAccountID account)
                               (Video.LocalFilePath v) (Video.Title v)
                               (Video.Description v) "PUBLIC_TO_EVERYONE") with
                    | Ok _ => Ok v
                    | Err e => Err ("upload failed: " ++ e)
                    end
       end.
Proof.
  intros p v w account r w' NF U Hweb Hacc Hvid Htt Htok Hver Href Hrun.
  unfold account_row in Hacc.
  destruct (find_account_id _ _ _ Hacc) as [Hid Hin].
  unfold VideoProcessor.uploadVideo in Hrun.
  unfold bind at 1, wrap at 1 in Hrun.
  rewrite (GetByID_ok _ w NF) in Hrun. unfold account_row in Hrun.
  rewrite Hacc in Hrun.
  apply String.eqb_neq in Htt. rewrite Htt in Hrun.
  unfold bind at 1 in Hrun. unfold VideoProcessor.validateToken in Hrun.
  rewrite Hweb in Hrun. change (negb false) with true in Hrun. cbv iota in Hrun.
  apply String.eqb_neq in Htok. rewrite Htok in Hrun.
  unfold bind at 1, emit at 1 in Hrun.
  unfold bind at 1, wrap at 1, lift at 1 in Hrun. rewrite Hver in Hrun.
  change (negb false) with true in Hrun. cbv iota in Hrun.
  apply String.eqb_neq in Href. rewrite Href in Hrun.
  change (negb false) with true in Hrun. cbv iota in Hrun.
  unfold bind at 1, emit at 1 in Hrun.
  unfold bind at 1, attempt at 1, lift at 1 in Hrun. simpl trace in Hrun.
  destruct (tiktok_RefreshAccessToken (VideoProcessor.services p)
              (Account.TikTokRefreshToken account)) as [tokenResp|e].
  - (* the refresh succeeds *)
    unfold bind at 1, time_Now at 1 in Hrun. unfold wrap at 1 in Hrun.
    match type of Hrun with
    | context [AccountRepository.Save ?a ?x] =>
        remember a as upd eqn:Hupd; remember x as w3 eqn:Hw3
    end.
    assert (NF3 : no_faults w3) by (subst w3; exact NF).
    assert (Hfacts :
      Account.ID upd = Video.AccountID v
      /\ Account.YouTubeChannelID upd = Account.YouTubeChannelID account
      /\ Account.TikTokAccountID upd = Account.TikTokAccountID account
      /\ Account.TikTokAccessToken upd = AccessToken tokenResp
      /\ Account.TikTokRefreshToken upd
         = (if RefreshToken tokenResp == ""
            then Account.TikTokRefreshToken account else RefreshToken tokenResp)
      /\ Account.TikTokTokenExpiresAt upd
         = (if 0 <? ExpiresIn tokenResp
            then Some (time.Add (now w)
                         (time.scale (ExpiresIn tokenResp) time.Second))
            else Account.TikTokTokenExpiresAt account)
      /\ Account.CreatedAt upd = Account.CreatedAt account).
    { subst upd w3. simpl now.
      destruct (RefreshToken tokenResp == ""); destruct (0 <? ExpiresIn tokenResp);
        simpl; splits; auto. }
    clear Hupd.
    destruct Hfacts as (Fid & Fy & Ft & Fk & Fr & Fe & Fc).
    assert (Hne : Account.ID upd <> "") by (rewrite Fid; exact Hvid).
    destruct (unique_checks_pass (accounts w3) account upd) as [P1 P2];
      try (subst w3; simpl; auto; congruence).
    rewrite (AccountRepository_Save_ok upd w3 NF3 Hne P1 P2) in Hrun.
    set (saved := Account.with_UpdatedAt (now w3) upd) in *.
    set (w4 := after_account_save saved w3) in *.
    assert (NF4 : no_faults w4) by (subst w4 w3; exact NF).
    destruct (performUpload_ok p saved v w4 NF4) as (w5 & Hup & A5 & I5 & T5).
    rewrite Hup in Hrun. inversion Hrun as [[Hr Hw]]. subst w5.
    split.
    + apply T5. subst w4 w3. simpl. apply in_or_app. left.
      apply in_or_app. right. left. reflexivity.
    + exists (Account.with_CreatedAt (Account.CreatedAt account) saved).
      splits.
      * unfold account_row. rewrite A5. subst w4. simpl accounts.
        pose proof (find_upsert_account_same saved (accounts w3)) as Hf.
        replace (Account.ID saved) with (Video.AccountID v) in Hf
          by (subst saved; simpl; congruence).
        rewrite Hf. subst w3. simpl accounts. rewrite Hacc. reflexivity.
      * subst saved. simpl. exact Fk.
      * subst saved. simpl. exact Fr.
      * subst saved. simpl. exact Fe.
      * intros Hrange. subst saved. simpl. rewrite Fe.
        replace (0 <? ExpiresIn tokenResp) with true
          by (symmetry; apply Z.ltb_lt; lia).
        rewrite scale_seconds by lia. reflexivity.
      * subst saved. simpl in I5. rewrite Fk, Ft in I5. exact I5.
      * subst saved. simpl. rewrite Fk, Ft. reflexivity.
  - (* the refresh fails *)
    unfold fail in Hrun. inv Hrun. simpl. split.
    + apply in_or_app. right. left. reflexivity.
    + splits; eauto.
      intros a b c Hup.
      repeat (apply in_app_iff in Hup; destruct Hup as [Hup|Hup]); auto;
        simpl in Hup; intuition discriminate.
Qed.

(** The theorem at scenario 3 of the spec: the store ends with the
    access token ["T1"], the refresh token ["R1"] and an expiry 7200
    seconds after now. *)
Lemma C2_refresh_persists_new_tokens_witness :
  exists stored,
    account_row "acc-1"
      (snd (VideoProcessor.uploadVideo Fx2.processor Fx8.downloaded1 Fx2.world))
    = Some stored
    /\ Account.TikTokAccessToken stored = "T1"
    /\ Account.TikTokRefreshToken stored = "R1"
    /\ Account.TikTokTokenExpiresAt stored = Some (Fx.clock + 7200 * time.Second).
Proof.
  destruct (C2_refresh_persists_new_tokens Fx2.processor Fx8.downloaded1 Fx2.world
              Fx.account1
              (fst (VideoProcessor.uploadVideo Fx2.processor Fx8.downloaded1 Fx2.world))
              (snd (VideoProcessor.uploadVideo Fx2.processor Fx8.downloaded1 Fx2.world)))
    as (_ & H).
  - reflexivity.
  - intros r1 r2 [<-|[]] [<-|[]] _. reflexivity.
  - reflexivity.
  - reflexivity.
  - discriminate.
  - discriminate.
  - discriminate.
  - reflexivity.
  - discriminate.
  - apply surjective_pairing.
  - vm_compute in H. destruct H as (stored & H1 & H2 & H3 & H4 & _).
    exists stored. vm_compute. splits; assumption.
Defined.

(** ** sort.Slice: the insertion sort is an instance *)

Lemma insert_desc_perm {A} (key : A -> time.Time) x l :
  Permutation (x :: l) (insert_desc key x l).
Proof.
  induction l as [|y l IH]; simpl; auto.
  destruct (time.After (key x) (key y)); auto.
  eapply perm_trans; [apply perm_swap|]. apply perm_skip. exact IH.
Qed.

Lemma insert_desc_sorted {A} (key : A -> time.Time) x l :
  StronglySorted (fun a b => time.After (key b) (key a) = false) l ->
  StronglySorted (fun a b => time.After (key b) (key a) = false)
                 (insert_desc key x l).
Proof.
  induction 1 as [|y l Hs IH Hy]; simpl; unfold time.After in *.
  - repeat constructor.
  - destruct (key y <? key x) eqn:E.
    + constructor; [constructor; assumption|].
      constructor.
      * apply Z.ltb_ge. apply Z.ltb_lt in E. lia.
      * rewrite Forall_forall in *. intros z Hz. specialize (Hy z Hz).
        apply Z.ltb_ge in Hy. apply Z.ltb_ge. apply Z.ltb_lt in E. lia.
    + constructor; [exact IH|].
      rewrite Forall_forall in *. intros z Hz.
      apply (Permutation_in _ (Permutation_sym (insert_desc_perm key x l))) in Hz.
      destruct Hz as [<-|Hz]; [exact E|auto].
Qed.

Lemma insertion_sort_desc_spec {A} (key : A -> time.Time) l :
  Permutation l (insertion_sort_desc key l)
  /\ StronglySorted (fun a b => time.After (key b) (key a) = false)
                    (insertion_sort_desc key l).
Proof.
  unfold insertion_sort_desc.
  assert (G : forall acc,
             StronglySorted (fun a b => time.After (key b) (key a) = false) acc ->
             Permutation (l ++ acc)
                         (fold_left (fun acc x => insert_desc key x acc) l acc)
             /\ StronglySorted (fun a b => time.After (key b) (key a) = false)
                  (fold_left (fun acc x => insert_desc key x acc) l acc)).
  { induction l as [|x l IH]; intros acc Hs; simpl; [auto|].
    destruct (IH (insert_desc key x acc) (insert_desc_sorted key x acc Hs))
      as [P S].
    split; [|exact S].
    eapply perm_trans; [|exact P].
    eapply perm_trans; [apply Permutation_middle|].
    apply Permutation_app_head. apply insert_desc_perm. }
  destruct (G [] (SSorted_nil _)) as [P S]. rewrite app_nil_r in P. auto.
Qed.

#[export] Instance insertion_SortSlice : SortSlice := {
  sort_Slice_desc := @insertion_sort_desc;
  sort_Slice_perm := fun A key l => proj1 (insertion_sort_desc_spec key l);
  sort_Slice_sorted := fun A key l => proj2 (insertion_sort_desc_spec key l)
}.

(** ** The discovery pass *)

Lemma GetByYouTubeID_spec youtubeID w r w' :
  attempt (VideoRepository.GetByYouTubeID youtubeID) w = (r, w') ->
  videos w' = videos w /\ accounts w' = accounts w /\ now w' = now w
  /\ uuids w' = uuids w /\ faults w' = tl (faults w)
  /\ exists ok r0,
      r = Ok r0
      /\ trace w' = (trace w ++ [EvVideoLookup youtubeID ok])%list
      /\ (no_faults w -> ok = true)
      /\ match r0 with
         | Ok found =>
             ok = true
             /\ found = find (fun x => Video.YouTubeVideoID x == youtubeID) (videos w)
         | Err _ => ok = false
         end.
Proof.
  unfold VideoRepository.GetByYouTubeID. monad_unfold.
  destruct (statement w) as [r0 w0] eqn:E. apply statement_spec in E.
  destruct E as [-> [(err & fs & -> & Hf)|[-> Hf]]]; simpl; intros H; inv H; simpl;
    splits; auto.
  - eexists false, _. splits; [reflexivity|reflexivity| |reflexivity].
    intros NF. exfalso. eapply no_faults_head; eauto.
  - eexists true, _. splits; try reflexivity; simpl; auto.
Qed.

Lemma scanVideos_spec account cutoff vids :
  forall w r w',
    AccountMonitor.scanVideos account cutoff vids w = (r, w') ->
    exists oks errs,
      length oks = length vids
      /\ r = Ok (map (Video.with_AccountID (Account.ID account))
                     (accepted_videos (videos w) cutoff vids oks), errs)
      /\ (errs = [] <-> forallb (fun b => b) oks = true)
      /\ videos w' = videos w /\ accounts w' = accounts w /\ now w' = now w
      /\ uuids w' = uuids w
      /\ trace w' = (trace w ++ lookup_events vids oks)%list
      /\ (no_faults w -> forallb (fun b => b) oks = true /\ no_faults w').
Proof.
  induction vids as [|v vids IH]; intros w r w' H; simpl in H.
  - inv H. exists [], []. simpl. rewrite app_nil_r. splits; auto. tauto.
  - apply bind_inv in H. destruct H as [(r1 & w1 & E1 & H)|(e & E1 & _)];
      apply GetByYouTubeID_spec in E1;
      destruct E1 as (V1 & A1 & N1 & U1 & F1 & ok & r0 & E0 & T1 & NF1 & R1);
      [|discriminate].
    inv E0.
    assert (NFw1 : no_faults w -> no_faults w1).
    { intros NF. eapply no_faults_tail; eauto. }
    destruct r0 as [found|e].
    + destruct R1 as (-> & ->).
      destruct (find (fun x => Video.YouTubeVideoID x == Video.YouTubeVideoID v)
                     (videos w)) as [row|] eqn:Ef.
      * (* present: skipped *)
        apply IH in H.
        destruct H as (oks & errs & L & -> & He & V & A & N & U & T & NF).
        exists (true :: oks), errs. simpl. unfold absent at 1. rewrite Ef. simpl.
        rewrite V1 in *. splits; auto; try congruence;
          try (rewrite T, T1, <- app_assoc; reflexivity);
          try (intros NF0; apply NF; auto).
      * destruct (negb (time.IsZero cutoff) && time.Before (Video.PublishedAt v) cutoff)
          eqn:Eold.
        -- (* too old: skipped *)
           apply IH in H.
           destruct H as (oks & errs & L & -> & He & V & A & N & U & T & NF).
           exists (true :: oks), errs. simpl. unfold absent at 1, too_old at 1.
           rewrite Ef, Eold. simpl.
           rewrite V1 in *. splits; auto; try congruence;
             try (rewrite T, T1, <- app_assoc; reflexivity);
             try (intros NF0; apply NF; auto).
        -- (* accepted *)
           apply bind_inv in H. destruct H as [(acc & w2 & E2 & H)|(e & E2 & ->)].
           2:{ apply IH in E2. destruct E2 as (oks & errs & _ & D & _). discriminate. }
           apply IH in E2.
           destruct E2 as (oks & errs & L & E & He & V & A & N & U & T & NF).
           inv E. unfold ret in H. inv H.
           exists (true :: oks), errs. simpl. unfold absent at 1, too_old at 1.
           rewrite Ef, Eold. simpl.
           rewrite V1 in *. splits; auto; try congruence;
             try (rewrite T, T1, <- app_assoc; reflexivity);
             try (intros NF0; apply NF; auto).
    + (* the lookup failed *)
      subst ok.
      apply bind_inv in H. destruct H as [(acc & w2 & E2 & H)|(e' & E2 & ->)].
      2:{ apply IH in E2. destruct E2 as (oks & errs & _ & D & _). discriminate. }
      apply IH in E2.
      destruct E2 as (oks & errs & L & E & He & V & A & N & U & T & NF).
      inv E. unfold ret in H. inv H.
      exists (false :: oks), (e :: errs). simpl.
      rewrite V1 in *. splits; auto; try congruence;
        try (split; intros D; discriminate);
        try (rewrite T, T1, <- app_assoc; reflexivity);
        try (intros NF0; specialize (NF1 NF0); discriminate).
Qed.

Lemma stamp_video_source w v :
  Video.YouTubeVideoID (stamp_video w v) = Video.YouTubeVideoID v
  /\ Video.PublishedAt (stamp_video w v) = Video.PublishedAt v.
Proof.
  unfold stamp_video.
  destruct (Video.ID v == ""); simpl;
    match goal with |- context [if ?c then _ else _] => destruct c end; simpl; auto.
Qed.

Lemma saveVideos_spec newVideos :
  forall w r w',
    AccountMonitor.saveVideos newVideos w = (r, w') ->
    exists persisted errs t,
      r = Ok (persisted, errs)
      /\ accounts w' = accounts w /\ now w' = now w
      /\ trace w' = (trace w ++ t)%list
      /\ save_ids t = map Video.YouTubeVideoID newVideos
      /\ lookup_ids t = [] /\ lookup_oks t = [] /\ last_checked_updates t = []
      /\ (errs = [] <-> existsb failed_event t = false)
      /\ (errs = [] ->
          map Video.YouTubeVideoID persisted = map Video.YouTubeVideoID newVideos)
      /\ (forall x, In x (videos w') ->
            In x (videos w)
            \/ In (Video.YouTubeVideoID x) (map Video.YouTubeVideoID newVideos)).
Proof.
  induction newVideos as [|v vs IH]; intros w r w' H; simpl in H.
  - inv H. exists [], [], []. simpl. rewrite app_nil_r. splits; auto. tauto.
  - apply bind_inv in H. destruct H as [(r1 & w1 & E1 & H)|(e & E1 & _)].
    2:{ apply attempt_inv in E1. destruct E1 as (r0 & _ & D). discriminate. }
    apply attempt_inv in E1. destruct E1 as (r0 & E1 & E). inv E.
    apply VideoRepository_Save_spec in E1.
    destruct E1 as (N1 & A1 & F1 & S1).
    apply bind_inv in H. destruct H as [(acc & w2 & E2 & H)|(e & E2 & ->)].
    2:{ apply IH in E2. destruct E2 as (p & errs & t & D & _). discriminate. }
    apply IH in E2.
    destruct E2 as (p & errs & t & E & A & N & T & Si & Li & Lo & Lu & He & Hp & Hv).
    inv E. simpl in H.
    destruct S1 as [(-> & V1 & T1 & _)|((e & ->) & V1 & T1 & _)];
      unfold ret in H; inv H.
    + eexists _, _, (_ :: t). splits; [reflexivity| | | | | | | | | |].
      * congruence.
      * congruence.
      * rewrite T, T1, <- app_assoc. reflexivity.
      * simpl. rewrite Si. reflexivity.
      * simpl. exact Li.
      * simpl. exact Lo.
      * simpl. exact Lu.
      * simpl. exact He.
      * intros Hn. cbn [map fst]. rewrite (Hp Hn).
        rewrite (proj1 (stamp_video_source w v)). reflexivity.
      * intros x Hx. destruct (Hv x Hx) as [Hx1|Hx1]; [|right; right; exact Hx1].
        rewrite V1 in Hx1. apply in_upsert_video in Hx1.
        destruct Hx1 as [(c & ->)|[->|[Hx1 _]]]; [right; left|right; left|left; exact Hx1].
        -- symmetry. apply (proj1 (stamp_video_source w v)).
        -- symmetry. apply (proj1 (stamp_video_source w v)).
    + eexists _, _, (_ :: t). splits; [reflexivity| | | | | | | | | |].
      * congruence.
      * congruence.
      * rewrite T, T1, <- app_assoc. reflexivity.
      * simpl. rewrite Si. reflexivity.
      * simpl. exact Li.
      * simpl. exact Lo.
      * simpl. exact Lu.
      * simpl. split; intros D; discriminate.
      * simpl. intros D. discriminate.
      * intros x Hx. destruct (Hv x Hx) as [Hx1|Hx1]; [|right; right; exact Hx1].
        rewrite V1 in Hx1. left. exact Hx1.
Qed.

Lemma find_update_accounts_same id F rows :
  (forall r, Account.ID (F r) = Account.ID r) ->
  find (fun r => Account.ID r == id) (update_accounts id F rows)
  = option_map F (find (fun r => Account.ID r == id) rows).
Proof.
  intros HF. unfold update_accounts.
  induction rows as [|x rows IH]; simpl; auto.
  destruct (Account.ID x == id) eqn:E.
  - rewrite HF, E. reflexivity.
  - rewrite E. exact IH.
Qed.

Lemma UpdateLastChecked_spec id lastVideoID checkedAt w r w' :
  AccountRepository.UpdateLastChecked id lastVideoID checkedAt w = (r, w') ->
  videos w' = videos w /\ now w' = now w
  /\ (((exists e, r = Err e) /\ accounts w' = accounts w /\ trace w' = trace w
       /\ exists fs, faults w = true :: fs)
      \/ (r = Ok tt
          /\ (forall row, account_row id w = Some row ->
               account_row id w'
               = Some (Account.with_UpdatedAt (now w)
                         (Account.with_LastCheckedAt checkedAt
                            (Account.with_LastVideoID lastVideoID row)))
               /\ trace w' = (trace w ++ [EvLastChecked id lastVideoID checkedAt])%list)
          /\ (account_row id w = None -> accounts w' = accounts w /\ trace w' = trace w)
          /\ exists t, trace w' = (trace w ++ t)%list
                       /\ lookup_ids t = [] /\ lookup_oks t = [] /\ save_ids t = []
                       /\ existsb failed_event t = false)).
Proof.
  unfold AccountRepository.UpdateLastChecked. monad_unfold.
  destruct (statement w) as [r0 w0] eqn:E. apply statement_spec in E.
  destruct E as [-> [(err & fs & -> & Hf)|[-> Hf]]]; simpl.
  - intros H. inv H. simpl. splits; auto. left. splits; eauto.
  - unfold account_row. rewrite has_account_find.
    destruct (find (fun x => Account.ID x == id) (accounts w)) as [row|] eqn:Ef;
      simpl; intros H; inv H; simpl; splits; auto; right; splits; auto.
    + intros row0 Hr. inv Hr. split; [|reflexivity].
      rewrite find_update_accounts_same by (intros; reflexivity).
      rewrite Ef. reflexivity.
    + intros D. discriminate.
    + eexists [_]. splits; reflexivity.
    + intros row D. discriminate.
    + exists []. rewrite app_nil_r. splits; reflexivity.
Qed.

(** ** The events of a scan *)

Lemma lookup_events_ids vids : forall oks,
  length oks = length vids ->
  lookup_ids (lookup_events vids oks) = map Video.YouTubeVideoID vids
  /\ lookup_oks (lookup_events vids oks) = oks
  /\ save_ids (lookup_events vids oks) = []
  /\ last_checked_updates (lookup_events vids oks) = []
  /\ existsb failed_event (lookup_events vids oks) = negb (forallb (fun b => b) oks).
Proof.
  unfold lookup_events.
  induction vids as [|v vids IH]; intros [|ok oks] L; simpl in *; try discriminate;
    [splits; reflexivity|].
  injection L as L. destruct (IH oks L) as (I1 & I2 & I3 & I4 & I5).
  rewrite I1, I2, I3, I4, I5. splits; auto. destruct ok; reflexivity.
Qed.

Lemma lookup_ids_app t1 t2 : lookup_ids (t1 ++ t2) = (lookup_ids t1 ++ lookup_ids t2)%list.
Proof. apply flat_map_app. Qed.
Lemma lookup_oks_app t1 t2 : lookup_oks (t1 ++ t2) = (lookup_oks t1 ++ lookup_oks t2)%list.
Proof. apply flat_map_app. Qed.
Lemma save_ids_app t1 t2 : save_ids (t1 ++ t2) = (save_ids t1 ++ save_ids t2)%list.
Proof. apply flat_map_app. Qed.

Lemma sorted_short {A} (R : A -> A -> Prop) (l : list A) :
  (1 <? length l)%nat = false -> StronglySorted R l.
Proof.
  destruct l as [|a [|b l]]; simpl; intros H; try discriminate;
    repeat constructor.
Qed.

(** One pass of [monitorAccount], for any schedule of storage failures. *)
Lemma monitorAccount_spec `{SortSlice} m account vids w r w' :
  youtube_GetLatestVideos (AccountMonitor.services m)
    (Account.YouTubeChannelID account) 50 = Ok vids ->
  AccountMonitor.monitorAccount m account w = (r, w') ->
  exists t oks sorted,
    trace w' = (trace w ++ EvList (Account.YouTubeChannelID account) :: t)%list
    /\ length oks = length vids
    /\ lookup_ids t = map Video.YouTubeVideoID vids
    /\ lookup_oks t = oks
    /\ Permutation (map (Video.with_AccountID (Account.ID account))
                      (accepted_videos (videos w) (bootstrap_cutoff account w) vids oks))
                   sorted
    /\ StronglySorted (fun a b => time.After (Video.PublishedAt b) (Video.PublishedAt a) = false)
                      sorted
    /\ save_ids t = map Video.YouTubeVideoID sorted
    /\ now w' = now w
    /\ (no_faults w -> forallb (fun b => b) oks = true)
    /\ (existsb failed_event t = true ->
        (exists msg, r = Err msg) /\ accounts w' = accounts w
        /\ last_checked_updates t = [])
    /\ (existsb failed_event t = false ->
        ((exists msg, r = Err msg) /\ accounts w' = accounts w
         /\ last_checked_updates t = [])
        \/ ((exists persisted, r = Ok persisted)
            /\ forall row, account_row (Account.ID account) w = Some row ->
                 account_row (Account.ID account) w'
                 = Some (Account.with_UpdatedAt (now w)
                           (Account.with_LastCheckedAt (now w)
                              (Account.with_LastVideoID
                                 match sorted with
                                 | v :: _ => Video.YouTubeVideoID v
                                 | [] => Account.LastVideoID account
                                 end row)))
                 /\ last_checked_updates t
                    = [EvLastChecked (Account.ID account)
                         match sorted with
                         | v :: _ => Video.YouTubeVideoID v
                         | [] => Account.LastVideoID account
                         end (now w)]))
    /\ (forall x, In x (videos w') ->
          In x (videos w) \/ In (Video.YouTubeVideoID x) (save_ids t)).
Proof.
  intros Hlist Hrun. unfold AccountMonitor.monitorAccount in Hrun.
  apply bind_inv in Hrun. destruct Hrun as [(cutoff & w0 & E0 & Hrun)|(e & E0 & _)].
  2:{ destruct (time.IsZero (Account.LastCheckedAt account)); discriminate. }
  assert (cutoff = bootstrap_cutoff account w /\ w0 = w) as [-> ->].
  { unfold bootstrap_cutoff.
    destruct (time.IsZero (Account.LastCheckedAt account)); inv E0; auto. }
  clear E0.
  apply bind_inv in Hrun. destruct Hrun as [(u & w1 & E1 & Hrun)|(e & E1 & _)];
    [|discriminate].
  unfold emit in E1. inv E1.
  apply bind_inv in Hrun. destruct Hrun as [(vids' & w1 & E1 & Hrun)|(e & E1 & _)].
  2:{ unfold wrap, lift in E1. rewrite Hlist in E1. discriminate. }
  unfold wrap, lift in E1. rewrite Hlist in E1. inv E1.
  apply bind_inv in Hrun. destruct Hrun as [(scanned & w1 & E1 & Hrun)|(e & E1 & _)].
  2:{ apply scanVideos_spec in E1. destruct E1 as (? & ? & _ & D & _). discriminate. }
  apply scanVideos_spec in E1.
  destruct E1 as (oks & errs1 & L1 & E & He1 & V1 & A1 & N1 & U1 & T1 & NF1).
  inv E. simpl in *.
  destruct (lookup_events_ids vids' oks L1) as (I1 & I2 & I3 & I4 & I5).
  set (newVideos := map (Video.with_AccountID (Account.ID account))
                        (accepted_videos (videos w) (bootstrap_cutoff account w) vids' oks))
    in *.
  set (sorted := if (1 <? length newVideos)%nat
                 then sort_Slice_desc Video.PublishedAt newVideos
                 else newVideos) in *.
  assert (Hperm : Permutation newVideos sorted).
  { unfold sorted. destruct (1 <? length newVideos)%nat; auto.
    apply sort_Slice_perm. }
  assert (Hsorted : StronglySorted
            (fun a b => time.After (Video.PublishedAt b) (Video.PublishedAt a) = false)
            sorted).
  { unfold sorted. destruct (1 <? length newVideos)%nat eqn:E.
    - apply sort_Slice_sorted.
    - apply sorted_short. exact E. }
  clearbody sorted.
  apply bind_inv in Hrun. destruct Hrun as [(saved & w2 & E2 & Hrun)|(e & E2 & _)].
  2:{ apply saveVideos_spec in E2. destruct E2 as (? & ? & ? & D & _). discriminate. }
  apply saveVideos_spec in E2.
  destruct E2 as (pv & errs2 & t2 & E & A2 & N2 & T2 & S2 & Li2 & Lo2 & Lu2 & He2 & Hp2 & Hv2).
  rewrite V1 in Hv2.
  inv E. simpl in *.
  destruct (0 <? length (errs1 ++ errs2))%nat eqn:Eerr.
  - (* some lookup or save failed *)
    unfold fail in Hrun. inv Hrun.
    exists (lookup_events vids' oks ++ t2)%list, oks, sorted.
    rewrite lookup_ids_app, lookup_oks_app, save_ids_app, Li2, Lo2, I1, I2, I3, S2.
    rewrite !app_nil_r. simpl.
    splits; auto.
    + rewrite T2, T1. simpl. rewrite <- !app_assoc. reflexivity.
    + congruence.
    + intros NF. apply NF1. exact NF.
    + intros _. splits; eauto; [congruence|].
      unfold last_checked_updates in *. rewrite filter_app, I4, Lu2. reflexivity.
    + intros Hno. exfalso.
      rewrite existsb_app, I5 in Hno. apply Bool.orb_false_iff in Hno.
      destruct Hno as [Hn1 Hn2]. apply Bool.negb_false_iff in Hn1.
      apply He1 in Hn1. apply He2 in Hn2. subst. discriminate.
  - (* no storage error so far *)
    assert (errs1 = [] /\ errs2 = []) as [-> ->].
    { destruct errs1; [destruct errs2; [auto|discriminate]|discriminate]. }
    specialize (Hp2 eq_refl).
    assert (Hno1 : forallb (fun b => b) oks = true) by (apply He1; reflexivity).
    assert (Hno2 : existsb failed_event t2 = false) by (apply He2; reflexivity).
    assert (Hhead : match pv with
                    | v :: _ => Video.YouTubeVideoID v
                    | [] => Account.LastVideoID account
                    end
                    = match sorted with
                      | v :: _ => Video.YouTubeVideoID v
                      | [] => Account.LastVideoID account
                      end).
    { destruct pv, sorted; simpl in Hp2; try discriminate; auto. congruence. }
    rewrite Hhead in Hrun. clear Hhead.
    apply bind_inv in Hrun. destruct Hrun as [(nw & w3 & E3 & Hrun)|(e & E3 & _)];
      [|discriminate].
    unfold time_Now in E3. injection E3 as En Ew. subst nw w3.
    apply bind_inv in Hrun. destruct Hrun as [(u & w4 & E4 & Hrun)|(e & E4 & ->)].
    + apply wrap_inv in E4. destruct E4 as [(a & E4 & _)|(e & _ & D)]; [|discriminate].
      apply UpdateLastChecked_spec in E4.
      destruct E4 as (V4 & N4 & [((e & D) & _)|(_ & Hrow & Hnone & t4 & T4 & Li4 & Lo4 & Ls4 & Hf4)]);
        [discriminate|].
      assert (Hw : w' = w4 /\ exists persisted, r = Ok persisted).
      { destruct (AccountMonitor.videoProcessor m); unfold ret in Hrun; inv Hrun; eauto. }
      destruct Hw as [-> Hr]. clear Hrun.
      exists (lookup_events vids' oks ++ t2 ++ t4)%list, oks, sorted.
      rewrite !lookup_ids_app, !lookup_oks_app, !save_ids_app.
      rewrite Li2, Lo2, I1, I2, I3, S2, Li4, Lo4, Ls4.
      rewrite !app_nil_r. simpl.
      splits; auto.
      * rewrite T4, T2, T1. simpl. rewrite <- !app_assoc. reflexivity.
      * congruence.
      * rewrite !existsb_app, I5, Hno1, Hno2, Hf4. discriminate.
      * intros _. right. split; [exact Hr|].
        intros row Hr0.
        assert (Hr2 : account_row (Account.ID account) w2 = Some row).
        { unfold account_row in *. rewrite A2, A1. exact Hr0. }
        destruct (Hrow row Hr2) as [Hr4 T4']. rewrite N2, N1 in *.
        split; [exact Hr4|].
        rewrite T4 in T4'. apply app_inv_head in T4'. subst t4.
        unfold last_checked_updates in *. rewrite !filter_app, I4, Lu2. reflexivity.
      * rewrite V4. exact Hv2.
    + apply wrap_inv in E4. destruct E4 as [(a & _ & D)|(e0 & E4 & _)]; [discriminate|].
      apply UpdateLastChecked_spec in E4.
      destruct E4 as (V4 & N4 & [(_ & A4 & T4 & _)|(D & _)]); [|discriminate].
      exists (lookup_events vids' oks ++ t2)%list, oks, sorted.
      rewrite lookup_ids_app, lookup_oks_app, save_ids_app, Li2, Lo2, I1, I2, I3, S2.
      rewrite !app_nil_r. simpl.
      splits; auto.
      * rewrite T4, T2, T1. simpl. rewrite <- !app_assoc. reflexivity.
      * congruence.
      * rewrite existsb_app, I5, Hno1, Hno2. discriminate.
      * intros _. left. splits; eauto; [congruence|].
        unfold last_checked_updates in *. rewrite filter_app, I4, Lu2. reflexivity.
      * rewrite V4. exact Hv2.
Qed.

(** ** The accepted items *)

Lemma absent_spec rows v :
  absent rows v = true
  <-> find (fun r => Video.YouTubeVideoID r == Video.YouTubeVideoID v) rows = None.
Proof.
  unfold absent. destruct (find _ rows); split; intros H; try discriminate; auto.
Qed.

Lemma accepted_videos_in rows cutoff vids : forall oks v,
  In v (accepted_videos rows cutoff vids oks) ->
  In v vids /\ absent rows v = true /\ too_old cutoff v = false.
Proof.
  induction vids as [|x vids IH]; intros [|ok oks] v H; simpl in H;
    try contradiction.
  destruct (ok && absent rows x && negb (too_old cutoff x)) eqn:E.
  - destruct H as [<-|H].
    + apply Bool.andb_true_iff in E. destruct E as [E E3].
      apply Bool.andb_true_iff in E. destruct E as [_ E2].
      apply Bool.negb_true_iff in E3. simpl. auto.
    + destruct (IH oks v H) as (I1 & I2 & I3). simpl. auto.
  - destruct (IH oks v H) as (I1 & I2 & I3). simpl. auto.
Qed.

Lemma accepted_videos_all_ok rows cutoff vids : forall oks,
  length oks = length vids ->
  forallb (fun b => b) oks = true ->
  accepted_videos rows cutoff vids oks
  = filter (fun v => absent rows v && negb (too_old cutoff v)) vids.
Proof.
  induction vids as [|x vids IH]; intros [|ok oks] L H; simpl in *;
    try discriminate; auto.
  apply Bool.andb_true_iff in H. destruct H as [-> H]. injection L as L.
  simpl. rewrite (IH oks L H). reflexivity.
Qed.

Lemma too_old_no_cutoff v : too_old 0 v = false.
Proof. reflexivity. Qed.

(** The head of a list sorted newest first is a newest element. *)
Lemma newest_first (f : Video.t -> Video.t) accepted s rest :
  (forall v, Video.PublishedAt (f v) = Video.PublishedAt v) ->
  Permutation (map f accepted) (s :: rest) ->
  StronglySorted (fun a b => time.After (Video.PublishedAt b) (Video.PublishedAt a) = false)
                 (s :: rest) ->
  exists newest,
    In newest accepted /\ f newest = s
    /\ forall v, In v accepted ->
         time.After (Video.PublishedAt v) (Video.PublishedAt newest) = false.
Proof.
  intros Hf Hperm Hs.
  assert (Hin : In s (map f accepted)).
  { apply (Permutation_in _ (Permutation_sym Hperm)). left. reflexivity. }
  apply in_map_iff in Hin. destruct Hin as (newest & Hn & Hin).
  exists newest. splits; auto.
  intros v Hv.
  assert (Hv' : In (f v) (s :: rest)).
  { apply (Permutation_in _ Hperm). apply in_map. exact Hv. }
  rewrite <- (Hf v), <- (Hf newest), Hn.
  destruct Hv' as [->|Hv'].
  - unfold time.After. apply Z.ltb_irrefl.
  - inversion Hs as [|? ? _ Hall]; subst.
    rewrite Forall_forall in Hall. apply Hall. exact Hv'.
Qed.

(** * C3: storage errors during a discovery pass *)

(** The listing of scenario 1 when the second lookup fails: the pass
    goes on, both recent items are sent to [Save], the pass ends with an
    error and the row of the job is left as it was. *)
Example monitorAccount_goes_on_after_a_failed_lookup :
  let run := AccountMonitor.monitorAccount Fx3.monitor Fx.account1 Fx3.world_failing in
  fst run = Err "storage errors occurred while processing account acc-1"
  /\ lookup_ids (trace (snd run)) = ["id_now-1h"; "id_now-36h"; "id_now-12h"]
  /\ lookup_oks (trace (snd run)) = [true; false; true]
  /\ save_ids (trace (snd run)) = ["id_now-1h"; "id_now-12h"]
  /\ accounts (snd run) = [Fx.account1].
Proof. vm_compute. splits; reflexivity. Qed.

(** C3.  One pass of [monitorAccount] over a listing, for any schedule
    of storage failures.  Every listed item is looked up, and every item
    accepted on the lookups that answered is sent to [Save], whatever
    failed before.  When a lookup or a save failed, the pass ends with
    an error and table [accounts] is left as it was: no update of
    [last_checked_at] / [last_video_id] is made.  When none failed, the
    update is made, unless its own statement fails: the row of the job
    then has [last_checked_at = now], and its [last_video_id] is the
    source id of the first item saved, which is a newest accepted item,
    or the former one when no item was accepted. *)
Theorem C3_storage_errors_skip_the_update :
  forall (S : SortSlice) (m : AccountMonitor.t) (account : Account.t)
         (vids : list Video.t) (w : World) r w',
    youtube_GetLatestVideos (AccountMonitor.services m)
      (Account.YouTubeChannelID account) 50 = Ok vids ->
    account_row (Account.ID account) w = Some account ->
    AccountMonitor.monitorAccount m account w = (r, w') ->
    exists t,
      trace w' = (trace w ++ EvList (Account.YouTubeChannelID account) :: t)%list
      /\ lookup_ids t = map Video.YouTubeVideoID vids
      /\ Permutation (save_ids t)
           (map Video.YouTubeVideoID
              (accepted_videos (videos w) (bootstrap_cutoff account w) vids
                 (lookup_oks t)))
      /\ (existsb failed_event t = true ->
          (exists msg, r = Err msg) /\ accounts w' = accounts w
          /\ last_checked_updates t = [])
      /\ (existsb failed_event t = false ->
          ((exists msg, r = Err msg) /\ accounts w' = accounts w
           /\ last_checked_updates t = [])
          \/ ((exists persisted, r = Ok persisted)
              /\ exists row',
                  account_row (Account.ID account) w' = Some row'
                  /\ Account.LastCheckedAt row' = now w
                  /\ match save_ids t with
                     | [] => Account.LastVideoID row' = Account.LastVideoID account
                     | y :: _ =>
                         Account.LastVideoID row' = y
                         /\ exists newest,
                             In newest (accepted_videos (videos w)
                                          (bootstrap_cutoff account w) vids
                                          (lookup_oks t))
                             /\ Video.YouTubeVideoID newest = y
                             /\ forall v,
                                 In v (accepted_videos (videos w)
                                         (bootstrap_cutoff account w) vids
                                         (lookup_oks t)) ->
                                 time.After (Video.PublishedAt v)
                                            (Video.PublishedAt newest) = false
                     end)).
Proof.
  intros S m account vids w r w' Hlist Hrow Hrun.
  destruct (monitorAccount_spec m account vids w r w' Hlist Hrun)
    as (t & oks & sorted & T & L & Li & Lo & Hperm & Hsorted & Hs & N & _
        & Hfail & Hok & _).
  exists t. rewrite Lo, Hs. splits; auto.
  - apply Permutation_sym.
    apply (Permutation_map Video.YouTubeVideoID) in Hperm.
    rewrite map_map in Hperm. exact Hperm.
  - intros Hno. destruct (Hok Hno) as [H|(Hr & H)]; [left; exact H|right].
    split; [exact Hr|].
    destruct (H account Hrow) as [Hrow' _].
    eexists. split; [exact Hrow'|]. split; [reflexivity|].
    destruct sorted as [|s rest]; simpl; [reflexivity|].
    split; [reflexivity|].
    destruct (newest_first (Video.with_AccountID (Account.ID account)) _ s rest
                (fun v => eq_refl) Hperm Hsorted) as (newest & Hin & Hn & Hmax).
    exists newest. splits; auto. rewrite <- Hn. reflexivity.
Qed.

(** The theorem at scenario 1 of the spec: the row of the job ends with
    [last_checked_at = now] and [last_video_id = "id_now-1h"]. *)
Lemma C3_storage_errors_skip_the_update_witness :
  exists row',
    account_row "acc-1"
      (snd (AccountMonitor.monitorAccount Fx3.monitor Fx.account1 Fx3.world))
    = Some row'
    /\ Account.LastCheckedAt row' = Fx.clock
    /\ Account.LastVideoID row' = "id_now-1h".
Proof.
  destruct (C3_storage_errors_skip_the_update insertion_SortSlice
              Fx3.monitor Fx.account1 Fx3.listing Fx3.world
              (fst (AccountMonitor.monitorAccount Fx3.monitor Fx.account1 Fx3.world))
              (snd (AccountMonitor.monitorAccount Fx3.monitor Fx.account1 Fx3.world)))
    as (t & T & _ & _ & _ & H).
  - reflexivity.
  - reflexivity.
  - apply surjective_pairing.
  - vm_compute in T. injection T as <-.
    destruct (H eq_refl) as [((msg & D) & _)|(_ & row' & H1 & H2 & H3)].
    + vm_compute in D. discriminate.
    + exists row'. simpl in H3. destruct H3 as [H3 _].
      splits; assumption.
Defined.

(** * C4: the bootstrap cutoff and the deduplication *)

(** A later pass over the listing of scenario 1, the newest item being
    stored already: the stored item is skipped, and the item published
    thirty-six hours ago is saved, no cutoff being applied. *)
Example monitorAccount_later_pass_has_no_cutoff :
  let run := AccountMonitor.monitorAccount Fx3.monitor Fx3.account_checked
               Fx3.world_checked in
  is_ok (fst run) = true
  /\ save_ids (trace (snd run)) = ["id_now-12h"; "id_now-36h"]
  /\ map Video.YouTubeVideoID (videos (snd run))
     = ["id_now-1h"; "id_now-12h"; "id_now-36h"].
Proof. vm_compute. splits; reflexivity. Qed.

(** C4.  One pass of [monitorAccount] over a listing, for any schedule
    of storage failures.  The items sent to [Save] are the accepted
    ones, and a row the pass adds to table [videos] has the source id of
    an accepted item.  An accepted item is a listed item whose source id
    the store does not hold, on every pass.  On the first pass of a job
    ([last_checked_at] unset) no accepted item was published before
    [now - 24h], and when every lookup answered the accepted items are
    exactly the listed ones that are new and not older than that; this
    for a clock that does not read exactly 24 hours after Go's zero
    instant.  On a later pass, when every lookup answered, the accepted
    items are exactly the listed ones that are new, whatever their
    publish instant. *)
Theorem C4_bootstrap_cutoff_and_dedup :
  forall (S : SortSlice) (m : AccountMonitor.t) (account : Account.t)
         (vids : list Video.t) (w : World) r w',
    youtube_GetLatestVideos (AccountMonitor.services m)
      (Account.YouTubeChannelID account) 50 = Ok vids ->
    AccountMonitor.monitorAccount m account w = (r, w') ->
    exists t,
      trace w' = (trace w ++ EvList (Account.YouTubeChannelID account) :: t)%list
      /\ Permutation (save_ids t)
           (map Video.YouTubeVideoID
              (accepted_videos (videos w) (bootstrap_cutoff account w) vids
                 (lookup_oks t)))
      /\ (forall x, In x (videos w') ->
            In x (videos w)
            \/ In (Video.YouTubeVideoID x)
                 (map Video.YouTubeVideoID
                    (accepted_videos (videos w) (bootstrap_cutoff account w) vids
                       (lookup_oks t))))
      /\ (forall v,
            In v (accepted_videos (videos w) (bootstrap_cutoff account w) vids
                    (lookup_oks t)) ->
            In v vids /\ video_by_youtube_id (Video.YouTubeVideoID v) w = None)
      /\ (time.IsZero (Account.LastCheckedAt account) = true ->
          time.IsZero (time.Add (now w) (-24 * time.Hour)) = false ->
          (forall v,
              In v (accepted_videos (videos w) (bootstrap_cutoff account w) vids
                      (lookup_oks t)) ->
              time.Before (Video.PublishedAt v)
                          (time.Add (now w) (-24 * time.Hour)) = false)
          /\ (forallb (fun b => b) (lookup_oks t) = true ->
              accepted_videos (videos w) (bootstrap_cutoff account w) vids
                (lookup_oks t)
              = filter (fun v =>
                          absent (videos w) v
                          && negb (time.Before (Video.PublishedAt v)
                                     (time.Add (now w) (-24 * time.Hour))))
                       vids))
      /\ (time.IsZero (Account.LastCheckedAt account) = false ->
          forallb (fun b => b) (lookup_oks t) = true ->
          accepted_videos (videos w) (bootstrap_cutoff account w) vids (lookup_oks t)
          = filter (absent (videos w)) vids)
      /\ (no_faults w -> forallb (fun b => b) (lookup_oks t) = true).
Proof.
  intros S m account vids w r w' Hlist Hrun.
  destruct (monitorAccount_spec m account vids w r w' Hlist Hrun)
    as (t & oks & sorted & T & L & Li & Lo & Hperm & Hsorted & Hs & N & NF
        & _ & _ & Hframe).
  assert (Hsaved : Permutation (save_ids t)
            (map Video.YouTubeVideoID
               (accepted_videos (videos w) (bootstrap_cutoff account w) vids oks))).
  { rewrite Hs. apply Permutation_sym.
    apply (Permutation_map Video.YouTubeVideoID) in Hperm.
    rewrite map_map in Hperm. exact Hperm. }
  exists t. rewrite Lo. splits; auto.
  - intros x Hx. destruct (Hframe x Hx) as [H|H]; [left; exact H|right].
    apply (Permutation_in _ Hsaved). exact H.
  - intros v Hv. apply accepted_videos_in in Hv. destruct Hv as (H1 & H2 & _).
    split; [exact H1|]. apply absent_spec. exact H2.
  - intros Hfirst Hclock. unfold bootstrap_cutoff. rewrite Hfirst. split.
    + intros v Hv. apply accepted_videos_in in Hv. destruct Hv as (_ & _ & H3).
      unfold too_old in H3. rewrite Hclock in H3. exact H3.
    + intros Hall. rewrite (accepted_videos_all_ok _ _ _ _ L Hall).
      apply filter_ext. intros v. unfold too_old. rewrite Hclock. reflexivity.
  - intros Hlater Hall. unfold bootstrap_cutoff. rewrite Hlater.
    rewrite (accepted_videos_all_ok _ _ _ _ L Hall).
    apply filter_ext. intros v. rewrite too_old_no_cutoff. apply Bool.andb_true_r.
Qed.

(** The theorem at scenario 1 of the spec: the first pass sends to
    [Save] the items published one hour and twelve hours ago, and not
    the one published thirty-six hours ago. *)
Lemma C4_bootstrap_cutoff_and_dedup_witness :
  Permutation
    (save_ids (trace (snd (AccountMonitor.monitorAccount Fx3.monitor Fx.account1
                             Fx3.world))))
    ["id_now-1h"; "id_now-12h"].
Proof.
  destruct (C4_bootstrap_cutoff_and_dedup insertion_SortSlice
              Fx3.monitor Fx.account1 Fx3.listing Fx3.world
              (fst (AccountMonitor.monitorAccount Fx3.monitor Fx.account1 Fx3.world))
              (snd (AccountMonitor.monitorAccount Fx3.monitor Fx.account1 Fx3.world)))
    as (t & T & Hperm & _).
  - reflexivity.
  - apply surjective_pairing.
  - vm_compute in T. injection T as <-.
    vm_compute in Hperm. vm_compute. exact Hperm.
Defined.

(** * C7: the admission of immediate processing *)

Module admission_facts.

Import admission.

Ltac positions k path n Hn :=
  destruct k, path;
  do 10 (try destruct n as [ | n]); try (exfalso; lia); clear Hn.

Ltac facts :=
  repeat match goal with
         | |- _ /\ _ => split
         | |- _ -> _ => intro
         | |- forall _, _ => intro
         | H : _ \/ _ |- _ => destruct H
         | H : _ :: _ = _ :: _ |- _ => inversion H; clear H; subst
         | H : _ = _ |- _ => discriminate H
         end;
  try reflexivity; try lia.

Lemma valid_spawn k path : valid (spawn k path).
Proof. left. exists k, path, O. split; [lia|reflexivity]. Qed.

Lemma valid_advance t : valid t -> valid (advance t).
Proof.
  intros [(k & path & n & Hn & ->) | ->]; [|right; reflexivity].
  left. exists k, path.
  positions k path n Hn;
    first [ exists 0%nat; split; [lia|reflexivity]
          | exists 1%nat; split; [lia|reflexivity]
          | exists 2%nat; split; [lia|reflexivity]
          | exists 3%nat; split; [lia|reflexivity]
          | exists 4%nat; split; [lia|reflexivity]
          | exists 5%nat; split; [lia|reflexivity]
          | exists 6%nat; split; [lia|reflexivity]
          | exists 7%nat; split; [lia|reflexivity]
          | exists 8%nat; split; [lia|reflexivity]
          | exists 9%nat; split; [lia|reflexivity] ].
Qed.

(** What a goroutine holds, by kind and by position. *)
Lemma valid_facts t :
  valid t ->
  (kind t = Immediate ->
     count WorkerPool (held t) = O
     /\ (count ProcessingLimiter (held t) <= 1)%nat
     /\ (running t = true ->
         count ProcessingLimiter (held t) = 1%nat
         /\ timeout t = Some (30 * time.Minute)))
  /\ (kind t = Batch ->
      count ProcessingLimiter (held t) = O
      /\ (running t = true -> count WorkerPool (held t) = 1%nat))
  /\ (forall c rest,
        code t = Recv c :: rest \/ code t = TryRecv c :: rest ->
        count c (held t) = 1%nat)
  /\ (forall c rest,
        code t = SendOrDone c :: rest ->
        mkThread (kind t) [] (held t) (running t) (timeout t)
        = mkThread Immediate [] [] false None).
Proof.
  intros [(k & path & n & Hn & ->) | ->].
  - positions k path n Hn; cbn; facts.
  - cbn. facts.
Qed.


(** ** Lists of goroutines *)

Lemma sum_replace_nth (f : Thread -> nat) l : forall i t x,
  nth_error l i = Some t ->
  (list_sum (map f (replace_nth i x l)) + f t = list_sum (map f l) + f x)%nat.
Proof.
  induction l as [|y l IH]; intros [|i] t x H; simpl in *; try discriminate.
  - inv H. lia.
  - specialize (IH i t x H). lia.
Qed.

Lemma sum_ge_nth (f : Thread -> nat) l : forall i t,
  nth_error l i = Some t -> (f t <= list_sum (map f l))%nat.
Proof.
  induction l as [|y l IH]; intros [|i] t H; simpl in *; try discriminate.
  - inv H. lia.
  - specialize (IH i t H). lia.
Qed.

Lemma Forall_replace_nth (P : Thread -> Prop) l : forall i x,
  Forall P l -> P x -> Forall P (replace_nth i x l).
Proof.
  induction l as [|y l IH]; intros [|i] x Hl Hx; simpl; auto;
    inversion Hl; subst; constructor; auto.
Qed.

Lemma Forall_nth_error (P : Thread -> Prop) l i t :
  Forall P l -> nth_error l i = Some t -> P t.
Proof.
  intros Hl H. rewrite Forall_forall in Hl. apply Hl.
  eapply nth_error_In. exact H.
Qed.

Lemma count_remove_one c c' l :
  count c' (remove_one c l)
  = (if Chan_eqb c c' then Nat.pred (count c' l) else count c' l).
Proof.
  induction l as [|x l IH]; simpl.
  - destruct (Chan_eqb c c'); reflexivity.
  - destruct x, c, c'; simpl in *; try reflexivity; try (rewrite IH; reflexivity).
Qed.

(** ** The invariant of the admission channels *)

Lemma Inv_initial cfg : Inv cfg initial.
Proof.
  split; [|split].
  - intros c. reflexivity.
  - constructor.
  - intros c. simpl. lia.
Qed.

Lemma holders_replace c i t x l done ch :
  nth_error l i = Some t ->
  (holders c (mkState ch (replace_nth i x l) done) + count c (held t)
   = holders c (mkState ch l done) + count c (held x))%nat.
Proof.
  intros H. unfold holders. simpl.
  apply (sum_replace_nth (fun t => count c (held t)) l i t x H).
Qed.

Lemma exec_preserves cfg a s s' :
  Inv cfg s -> exec cfg a s = Some s' -> Inv cfg s'.
Proof.
  intros (Hch & Hval & Hcap) H. destruct s as [ch l done]. simpl in *.
  destruct a as [k path| |i|i]; simpl in H.
  - (* go *)
    inv H. split; [|split]; simpl; auto.
    + intros c. rewrite Hch. unfold holders. simpl.
      rewrite map_app, list_sum_app. simpl. lia.
    + apply Forall_app. split; [exact Hval|].
      constructor; [apply valid_spawn|constructor].
  - (* cancel *)
    inv H. split; [|split]; simpl; auto.
  - (* an operation of goroutine i *)
    destruct (nth_error l i) as [t|] eqn:Hi; [|discriminate].
    pose proof (Forall_nth_error valid l i t Hval Hi) as Ht.
    pose proof (valid_facts t Ht) as (_ & _ & Hrecv & _).
    assert (Hadv : Forall valid (replace_nth i (advance t) l)).
    { apply Forall_replace_nth; [exact Hval|apply valid_advance; exact Ht]. }
    destruct (code t) as [|instr rest] eqn:Hcode; [discriminate|].
    destruct instr as [c|c|c|c|d| |].
    + (* send *)
      destruct (Z.of_nat (ch c) <? capacity cfg c) eqn:Hroom; [|discriminate].
      apply Z.ltb_lt in Hroom. inv H. split; [|split]; simpl; auto.
      * intros c'. pose proof (holders_replace c' i t (advance t) l done ch Hi) as Hh.
        unfold advance in Hh |- *. rewrite Hcode in Hh |- *. simpl in Hh |- *.
        specialize (Hch c'). unfold incr.
        unfold holders in *. simpl in *.
        destruct c, c'; simpl in *; lia.
      * intros c'. specialize (Hcap c'). unfold incr.
        destruct c, c'; simpl in *; lia.
    + (* receive *)
      destruct (0 <? ch c)%nat eqn:Hsome; [|discriminate].
      apply Nat.ltb_lt in Hsome. inv H. split; [|split]; simpl; auto.
      * intros c'. pose proof (holders_replace c' i t (advance t) l done ch Hi) as Hh.
        unfold advance in Hh |- *. rewrite Hcode in Hh |- *. simpl in Hh |- *.
        rewrite count_remove_one in Hh.
        pose proof (Hrecv c rest (or_introl eq_refl)) as Hheld.
        pose proof (Hch c) as Hc. specialize (Hch c'). unfold decr.
        unfold holders in *. simpl in *.
        destruct c, c'; simpl in *; lia.
      * intros c'. specialize (Hcap c'). unfold decr.
        destruct (Chan_eqb c' c); lia.
    + (* receive in a select *)
      destruct (0 <? ch c)%nat eqn:Hsome; [|discriminate].
      apply Nat.ltb_lt in Hsome. inv H. split; [|split]; simpl; auto.
      * intros c'. pose proof (holders_replace c' i t (advance t) l done ch Hi) as Hh.
        unfold advance in Hh |- *. rewrite Hcode in Hh |- *. simpl in Hh |- *.
        rewrite count_remove_one in Hh.
        pose proof (Hrecv c rest (or_intror eq_refl)) as Hheld.
        pose proof (Hch c) as Hc. specialize (Hch c'). unfold decr.
        unfold holders in *. simpl in *.
        destruct c, c'; simpl in *; lia.
      * intros c'. specialize (Hcap c'). unfold decr.
        destruct (Chan_eqb c' c); lia.
    + (* send in a select *)
      destruct (Z.of_nat (ch c) <? capacity cfg c) eqn:Hroom; [|discriminate].
      apply Z.ltb_lt in Hroom. inv H. split; [|split]; simpl; auto.
      * intros c'. pose proof (holders_replace c' i t (advance t) l done ch Hi) as Hh.
        unfold advance in Hh |- *. rewrite Hcode in Hh |- *. simpl in Hh |- *.
        specialize (Hch c'). unfold incr.
        unfold holders in *. simpl in *.
        destruct c, c'; simpl in *; lia.
      * intros c'. specialize (Hcap c'). unfold incr.
        destruct c, c'; simpl in *; lia.
    + inv H. split; [|split]; simpl; auto.
      intros c'. pose proof (holders_replace c' i t (advance t) l done ch Hi) as Hh.
      unfold advance in Hh |- *. rewrite Hcode in Hh |- *. simpl in Hh |- *.
      specialize (Hch c'). unfold holders in *. simpl in *. lia.
    + inv H. split; [|split]; simpl; auto.
      intros c'. pose proof (holders_replace c' i t (advance t) l done ch Hi) as Hh.
      unfold advance in Hh |- *. rewrite Hcode in Hh |- *. simpl in Hh |- *.
      specialize (Hch c'). unfold holders in *. simpl in *. lia.
    + inv H. split; [|split]; simpl; auto.
      intros c'. pose proof (holders_replace c' i t (advance t) l done ch Hi) as Hh.
      unfold advance in Hh |- *. rewrite Hcode in Hh |- *. simpl in Hh |- *.
      specialize (Hch c'). unfold holders in *. simpl in *. lia.
  - (* the other case of a select *)
    destruct (nth_error l i) as [t|] eqn:Hi; [|discriminate].
    pose proof (Forall_nth_error valid l i t Hval Hi) as Ht.
    pose proof (valid_facts t Ht) as (_ & _ & Hrecv & Hdone).
    destruct (code t) as [|instr rest] eqn:Hcode; [discriminate|].
    destruct instr as [c|c|c|c|d| |]; try discriminate.
    + (* default *)
      destruct (ch c =? 0)%nat eqn:Hnone; [|discriminate].
      apply Nat.eqb_eq in Hnone. exfalso.
      pose proof (Hrecv c rest (or_intror eq_refl)) as Hheld.
      pose proof (sum_ge_nth (fun t => count c (held t)) l i t Hi) as Hge.
      specialize (Hch c). unfold holders in Hch. simpl in *. lia.
    + (* <-ctx.Done() *)
      destruct done; [|discriminate]. inv H.
      specialize (Hdone c rest eq_refl).
      split; [|split]; simpl; auto.
      * intros c'.
        pose proof (holders_replace c' i t
                      (mkThread (kind t) [] (held t) (running t) (timeout t))
                      l true ch Hi) as Hh.
        specialize (Hch c'). simpl in *. lia.
      * apply Forall_replace_nth; [exact Hval|]. right. exact Hdone.
Qed.

Lemma run_preserves cfg sched : forall s s',
  Inv cfg s -> run cfg sched s = Some s' -> Inv cfg s'.
Proof.
  induction sched as [|a sched IH]; intros s s' HI H; simpl in H.
  - inv H. exact HI.
  - destruct (exec cfg a s) as [s1|] eqn:E; [|discriminate].
    apply (IH s1 s'); [|exact H]. eapply exec_preserves; eauto.
Qed.

Lemma reachable_Inv cfg s : reachable cfg s -> Inv cfg s.
Proof.
  intros [sched H]. eapply run_preserves; [apply Inv_initial|exact H].
Qed.

(** The goroutines inside [processVideo] hold a slot each. *)
Lemma in_flight_immediate_le l :
  Forall valid l ->
  (length (filter (fun t => running t
                            && match kind t with Immediate => true | Batch => false end) l)
   <= list_sum (map (fun t => count ProcessingLimiter (held t)) l))%nat.
Proof.
  induction 1 as [|t l Ht _ IH]; simpl; [lia|].
  pose proof (valid_facts t Ht) as (Him & _).
  destruct (running t) eqn:Hr; simpl; [|lia].
  destruct (kind t) eqn:Hk; simpl; [lia|].
  destruct (Him eq_refl) as (_ & _ & Hrun). destruct (Hrun eq_refl) as [-> _]. lia.
Qed.

Lemma in_flight_batch_le l :
  Forall valid l ->
  (length (filter (fun t => running t
                            && match kind t with Batch => true | Immediate => false end) l)
   <= list_sum (map (fun t => count WorkerPool (held t)) l))%nat.
Proof.
  induction 1 as [|t l Ht _ IH]; simpl; [lia|].
  pose proof (valid_facts t Ht) as (_ & Hb & _).
  destruct (running t) eqn:Hr; simpl; [|lia].
  destruct (kind t) eqn:Hk; simpl; [|lia].
  destruct (Hb eq_refl) as (_ & Hrun). rewrite (Hrun eq_refl). lia.
Qed.

End admission_facts.

(** Five discovered items and a limiter of four slots: four goroutines
    are inside [processVideo]; the fifth cannot get a slot, and leaves
    only when the base context is cancelled. *)
Example immediate_fifth_task_waits :
  match admission.run Fx7.cfg_every_second Fx7.schedule_five admission.initial with
  | Some s =>
      admission.in_flight (Some admission.Immediate) s = 4%nat
      /\ admission.exec Fx7.cfg_every_second (admission.Run 4) s = None
      /\ admission.exec Fx7.cfg_every_second (admission.Skip 4) s = None
  | None => False
  end.
Proof. vm_compute. splits; reflexivity. Qed.

(** C7 as stated fails: the goroutines of [launchImmediateProcessing]
    do not send to the worker pool of batch draining.  With a pool of one
    slot, a batch goroutine and an immediate one are inside
    [processVideo] together, and the immediate one holds no slot of the
    pool. *)
Lemma C7_counterexample_immediate_task_beside_full_pool :
  ~ (forall cfg sched s,
        admission.run cfg sched admission.initial = Some s ->
        Z.of_nat (admission.in_flight None s)
        <= admission.capacity cfg admission.WorkerPool)
  /\ ~ (forall cfg sched s t,
          admission.run cfg sched admission.initial = Some s ->
          In t (admission.threads s) ->
          admission.kind t = admission.Immediate ->
          admission.running t = true ->
          (0 < admission.count admission.WorkerPool (admission.held t))%nat).
Proof.
  destruct (admission.run Fx7.cfg Fx7.schedule admission.initial) as [s|] eqn:E;
    [|vm_compute in E; discriminate].
  assert (Hs : admission.threads s
               = [ admission.advance_n 2
                     (admission.spawn admission.Batch admission.DownloadAndUpload);
                   admission.advance_n 3
                     (admission.spawn admission.Immediate admission.DownloadAndUpload) ]).
  { vm_compute in E. injection E as <-. reflexivity. }
  split; intros H.
  - specialize (H _ _ _ E). unfold admission.in_flight in H. rewrite Hs in H.
    vm_compute in H. apply H. reflexivity.
  - specialize (H _ _ _ (admission.advance_n 3
                           (admission.spawn admission.Immediate
                              admission.DownloadAndUpload)) E).
    rewrite Hs in H. specialize (H (or_intror (or_introl eq_refl)) eq_refl eq_refl).
    vm_compute in H. lia.
Qed.

(** C7, amended.  In every state the program reaches, for every
    configuration: the goroutines of [launchImmediateProcessing] that are
    inside [processVideo] are at most [limiterSize], the capacity of the
    limiter of [AccountMonitor] (the worker pool size, or 1 when that is
    not positive); each of them holds one slot of that limiter and none
    of the worker pool, and runs under a context whose timeout is 30
    minutes, a constant of the code.  The goroutines of batch draining
    inside [processVideo] are at most the worker pool size and hold no
    slot of the limiter.  What the two kinds share are the download and
    the upload semaphore, which never hold more than their capacity. *)
Theorem C7_immediate_processing_has_its_own_limiter :
  forall (cfg : config.Config) (sched : list admission.Action) (s : admission.State),
    admission.run cfg sched admission.initial = Some s ->
    Z.of_nat (admission.in_flight (Some admission.Immediate) s)
    <= AccountMonitor.limiterSize cfg
    /\ Z.of_nat (admission.in_flight (Some admission.Batch) s)
       <= Z.max 0 (config.WorkerPoolSize cfg)
    /\ Z.of_nat (admission.holders admission.DownloadSem s)
       <= Z.max 0 (config.MaxConcurrentDownloads cfg)
    /\ Z.of_nat (admission.holders admission.UploadSem s)
       <= Z.max 0 (config.MaxConcurrentUploads cfg)
    /\ forall t,
        In t (admission.threads s) ->
        match admission.kind t with
        | admission.Immediate =>
            admission.count admission.WorkerPool (admission.held t) = O
            /\ (admission.running t = true ->
                admission.count admission.ProcessingLimiter (admission.held t) = 1%nat
                /\ admission.timeout t = Some (30 * time.Minute))
        | admission.Batch =>
            admission.count admission.ProcessingLimiter (admission.held t) = O
            /\ (admission.running t = true ->
                admission.count admission.WorkerPool (admission.held t) = 1%nat)
        end.
Proof.
  intros cfg sched s Hrun.
  destruct (admission_facts.reachable_Inv cfg s (ex_intro _ sched Hrun))
    as (Hch & Hval & Hcap).
  splits.
  - pose proof (admission_facts.in_flight_immediate_le _ Hval) as Hle.
    pose proof (Hcap admission.ProcessingLimiter) as Hc.
    rewrite (Hch admission.ProcessingLimiter) in Hc.
    unfold admission.holders in Hc. simpl in Hc.
    unfold admission.in_flight.
    assert (Hpos : 0 < AccountMonitor.limiterSize cfg).
    { unfold AccountMonitor.limiterSize.
      destruct (config.WorkerPoolSize cfg <=? 0) eqn:E; [lia|].
      apply Z.leb_gt in E. exact E. }
    lia.
  - pose proof (admission_facts.in_flight_batch_le _ Hval) as Hle.
    pose proof (Hcap admission.WorkerPool) as Hc.
    rewrite (Hch admission.WorkerPool) in Hc.
    unfold admission.holders in Hc. simpl in Hc.
    unfold admission.in_flight. lia.
  - rewrite <- (Hch admission.DownloadSem). apply (Hcap admission.DownloadSem).
  - rewrite <- (Hch admission.UploadSem). apply (Hcap admission.UploadSem).
  - intros t Hin. rewrite Forall_forall in Hval.
    pose proof (admission_facts.valid_facts t (Hval t Hin)) as (Him & Hb & _).
    destruct (admission.kind t).
    + exact (Hb eq_refl).
    + destruct (Him eq_refl) as (H1 & _ & H2). split; assumption.
Qed.

(** The theorem at five discovered items, a scheduler that ticks every
    second and a pool size of four: at most four immediate goroutines
    are inside [processVideo]. *)
Lemma C7_immediate_processing_has_its_own_limiter_witness :
  Z.of_nat (admission.in_flight (Some admission.Immediate) Fx7.admitted) <= 4.
Proof.
  destruct (C7_immediate_processing_has_its_own_limiter
              Fx7.cfg_every_second Fx7.schedule_five Fx7.admitted)
    as (H & _).
  - vm_compute. reflexivity.
  - exact H.
Defined.

(** * The constraints of the schema are kept *)

(** ** Computations that keep a property of the store *)

Section Preserves.
Context {A B : Type} (P : World -> Prop).

Lemma preserves_ret (a : A) : preserves P (ret a).
Proof. intros w r w' H E. inv E. exact H. Qed.

Lemma preserves_fail (e : string) : preserves P (@fail A e).
Proof. intros w r w' H E. inv E. exact H. Qed.

Lemma preserves_lift (x : result A) : preserves P (lift x).
Proof. intros w r w' H E. inv E. exact H. Qed.

Lemma preserves_time_Now : preserves P time_Now.
Proof. intros w r w' H E. inv E. exact H. Qed.

Lemma preserves_get : preserves P get.
Proof. intros w r w' H E. inv E. exact H. Qed.

Lemma preserves_bind (m : M A) (k : A -> M B) :
  preserves P m -> (forall a, preserves P (k a)) -> preserves P (bind m k).
Proof.
  intros Hm Hk w r w' H E. apply bind_inv in E.
  destruct E as [(a & w1 & E1 & E2)|(e & E1 & _)].
  - eapply Hk; [|exact E2]. eapply Hm; eauto.
  - eapply Hm; eauto.
Qed.

Lemma preserves_attempt (m : M A) : preserves P m -> preserves P (attempt m).
Proof.
  intros Hm w r w' H E. apply attempt_inv in E. destruct E as (r0 & E & _).
  eapply Hm; eauto.
Qed.

Lemma preserves_wrap (prefix : string) (m : M A) :
  preserves P m -> preserves P (wrap prefix m).
Proof.
  intros Hm w r w' H E. apply wrap_inv in E.
  destruct E as [(a & E & _)|(e & E & _)]; eapply Hm; eauto.
Qed.

End Preserves.

(** ** Lists of rows that differ pairwise *)

Lemma FOP_map {A} (R : A -> A -> Prop) (g : A -> A) l :
  (forall a b, In a l -> In b l -> R a b -> R (g a) (g b)) ->
  ForallOrdPairs R l -> ForallOrdPairs R (map g l).
Proof.
  intros Hg H. induction H as [|a l Ha Hl IH]; simpl; constructor.
  - rewrite Forall_forall in *. intros y Hy. apply in_map_iff in Hy.
    destruct Hy as (b & <- & Hb). apply Hg; simpl; auto.
  - apply IH. intros x y Hx Hy. apply Hg; simpl; auto.
Qed.

Lemma FOP_filter {A} (R : A -> A -> Prop) (p : A -> bool) l :
  ForallOrdPairs R l -> ForallOrdPairs R (filter p l).
Proof.
  induction 1 as [|a l Ha Hl IH]; simpl; [constructor|].
  destruct (p a); [|exact IH]. constructor; [|exact IH].
  rewrite Forall_forall in *. intros y Hy. apply filter_In in Hy. apply Ha, Hy.
Qed.

Lemma FOP_snoc {A} (R : A -> A -> Prop) l a :
  ForallOrdPairs R l -> (forall x, In x l -> R x a) -> ForallOrdPairs R (l ++ [a]).
Proof.
  induction 1 as [|b l Hb Hl IH]; simpl; intros Ha.
  - repeat constructor.
  - constructor.
    + rewrite Forall_forall in *. intros y Hy. apply in_app_iff in Hy.
      destruct Hy as [Hy|[<-|[]]]; auto.
    + apply IH. auto.
Qed.

Lemma distinct_accounts_sym a b : distinct_accounts a b -> distinct_accounts b a.
Proof. unfold distinct_accounts. intuition congruence. Qed.

Lemma distinct_videos_sym a b : distinct_videos a b -> distinct_videos b a.
Proof. unfold distinct_videos. intuition congruence. Qed.

(** The constraints as the claims on the account manager use them. *)
Lemma store_ok_accounts_unique w : store_ok w -> accounts_unique (accounts w).
Proof.
  intros (Ha & _) r1 r2 H1 H2 Hk.
  destruct (ForallOrdPairs_In Ha _ _ H1 H2) as [E|[(D1 & D2 & D3)|(D1 & D2 & D3)]];
    [exact E| |]; exfalso; destruct Hk as [K|[K|K]]; congruence.
Qed.

(** ** Table accounts *)

Lemma has_account_in id rows :
  has_account id rows = true <-> exists r, In r rows /\ Account.ID r = id.
Proof.
  unfold has_account. rewrite existsb_exists. split; intros (r & H1 & H2);
    exists r; split; auto; apply String.eqb_eq; auto.
Qed.

Lemma not_taken_youtube a rows r :
  youtube_channel_id_taken a rows = false -> In r rows ->
  Account.ID r <> Account.ID a ->
  Account.YouTubeChannelID r <> Account.YouTubeChannelID a.
Proof.
  unfold youtube_channel_id_taken. intros H Hin Hne E.
  assert (existsb (fun r0 => (Account.ID r0 != Account.ID a)
                             && (Account.YouTubeChannelID r0
                                 == Account.YouTubeChannelID a)) rows = true).
  { apply existsb_exists. exists r. split; [exact Hin|].
    apply andb_true_iff. split.
    - apply negb_true_iff. apply String.eqb_neq. exact Hne.
    - apply String.eqb_eq. exact E. }
  congruence.
Qed.

Lemma not_taken_tiktok a rows r :
  tiktok_account_id_taken a rows = false -> In r rows ->
  Account.ID r <> Account.ID a ->
  Account.TikTokAccountID r <> Account.TikTokAccountID a.
Proof.
  unfold tiktok_account_id_taken. intros H Hin Hne E.
  assert (existsb (fun r0 => (Account.ID r0 != Account.ID a)
                             && (Account.TikTokAccountID r0
                                 == Account.TikTokAccountID a)) rows = true).
  { apply existsb_exists. exists r. split; [exact Hin|].
    apply andb_true_iff. split.
    - apply negb_true_iff. apply String.eqb_neq. exact Hne.
    - apply String.eqb_eq. exact E. }
  congruence.
Qed.

Lemma upsert_account_distinct a rows :
  youtube_channel_id_taken a rows = false ->
  tiktok_account_id_taken a rows = false ->
  ForallOrdPairs distinct_accounts rows ->
  ForallOrdPairs distinct_accounts (upsert_account a rows).
Proof.
  intros Hy Ht H. unfold upsert_account.
  destruct (has_account (Account.ID a) rows) eqn:Hhas.
  - apply FOP_map; [|exact H]. intros x y Hx Hy' (D1 & D2 & D3).
    destruct (String.eqb_spec (Account.ID x) (Account.ID a)) as [Ex|Ex];
      destruct (String.eqb_spec (Account.ID y) (Account.ID a)) as [Ey|Ey].
    + exfalso. congruence.
    + apply distinct_accounts_sym. unfold distinct_accounts; simpl. splits; auto.
      * eapply not_taken_youtube; eauto.
      * eapply not_taken_tiktok; eauto.
    + unfold distinct_accounts; simpl. splits; auto.
      * eapply not_taken_youtube; eauto.
      * eapply not_taken_tiktok; eauto.
    + unfold distinct_accounts. auto.
  - apply FOP_snoc; [exact H|]. intros x Hx.
    assert (Hne : Account.ID x <> Account.ID a).
    { intros E. assert (has_account (Account.ID a) rows = true).
      { apply has_account_in. eauto. }
      congruence. }
    unfold distinct_accounts. splits; auto.
    + eapply not_taken_youtube; eauto.
    + eapply not_taken_tiktok; eauto.
Qed.

Lemma has_account_upsert id a rows :
  has_account id rows = true -> has_account id (upsert_account a rows) = true.
Proof.
  intros H. apply has_account_in in H. destruct H as (r & Hin & Hid).
  apply has_account_in. unfold upsert_account.
  destruct (has_account (Account.ID a) rows).
  - destruct (Account.ID r == Account.ID a) eqn:E.
    + exists (Account.with_CreatedAt (Account.CreatedAt r) a). split.
      * apply in_map_iff. exists r. rewrite E. auto.
      * simpl. apply String.eqb_eq in E. congruence.
    + exists r. split; [|exact Hid]. apply in_map_iff. exists r. rewrite E. auto.
  - exists r. split; [|exact Hid]. apply in_app_iff. auto.
Qed.

Lemma has_account_update id id' f rows :
  (forall r, Account.ID (f r) = Account.ID r) ->
  has_account id (update_accounts id' f rows) = has_account id rows.
Proof.
  intros Hf. unfold has_account, update_accounts.
  induction rows as [|x rows IH]; simpl; auto.
  rewrite IH. destruct (Account.ID x == id'); [rewrite Hf|]; reflexivity.
Qed.

(** ** Table videos *)

Lemma has_video_in' id rows :
  has_video id rows = true <-> exists r, In r rows /\ Video.ID r = id.
Proof.
  unfold has_video. rewrite existsb_exists. split; intros (r & H1 & H2);
    exists r; split; auto; apply String.eqb_eq; auto.
Qed.

Lemma not_taken_video a rows r :
  youtube_video_id_taken a rows = false -> In r rows ->
  Video.ID r <> Video.ID a ->
  Video.YouTubeVideoID r <> Video.YouTubeVideoID a.
Proof.
  unfold youtube_video_id_taken. intros H Hin Hne E.
  assert (existsb (fun r0 => (Video.ID r0 != Video.ID a)
                             && (Video.YouTubeVideoID r0 == Video.YouTubeVideoID a))
            rows = true).
  { apply existsb_exists. exists r. split; [exact Hin|].
    apply andb_true_iff. split.
    - apply negb_true_iff. apply String.eqb_neq. exact Hne.
    - apply String.eqb_eq. exact E. }
  congruence.
Qed.

Lemma upsert_video_distinct a rows :
  youtube_video_id_taken a rows = false ->
  ForallOrdPairs distinct_videos rows ->
  ForallOrdPairs distinct_videos (upsert_video a rows).
Proof.
  intros Hy H. unfold upsert_video.
  destruct (has_video (Video.ID a) rows) eqn:Hhas.
  - apply FOP_map; [|exact H]. intros x y Hx Hy' (D1 & D2).
    destruct (String.eqb_spec (Video.ID x) (Video.ID a)) as [Ex|Ex];
      destruct (String.eqb_spec (Video.ID y) (Video.ID a)) as [Ey|Ey].
    + exfalso. congruence.
    + apply distinct_videos_sym. unfold distinct_videos; simpl. splits; auto.
      eapply not_taken_video; eauto.
    + unfold distinct_videos; simpl. splits; auto.
      eapply not_taken_video; eauto.
    + unfold distinct_videos. auto.
  - apply FOP_snoc; [exact H|]. intros x Hx.
    assert (Hne : Video.ID x <> Video.ID a).
    { intros E. assert (has_video (Video.ID a) rows = true).
      { apply has_video_in'. eauto. }
      congruence. }
    unfold distinct_videos. splits; auto.
    eapply not_taken_video; eauto.
Qed.

Lemma update_videos_store_ok id F w :
  (forall r, Video.ID (F r) = Video.ID r
             /\ Video.YouTubeVideoID (F r) = Video.YouTubeVideoID r
             /\ Video.AccountID (F r) = Video.AccountID r) ->
  store_ok w -> store_ok (set_videos (update_videos id F (videos w)) w).
Proof.
  intros HF (Ha & Hv & Hfk). split; [|split]; simpl; auto.
  - unfold update_videos. apply FOP_map; [|exact Hv].
    intros x y _ _ (D1 & D2). unfold distinct_videos.
    assert (K : forall r,
               Video.ID (if Video.ID r == id then F r else r) = Video.ID r
               /\ Video.YouTubeVideoID (if Video.ID r == id then F r else r)
                  = Video.YouTubeVideoID r).
    { intros r. destruct (Video.ID r == id); [|auto].
      destruct (HF r) as (? & ? & ?). auto. }
    destruct (K x) as [-> ->]. destruct (K y) as [-> ->]. auto.
  - intros v Hin. unfold update_videos in Hin. apply in_map_iff in Hin.
    destruct Hin as (r & <- & Hr). specialize (Hfk r Hr).
    destruct (Video.ID r == id); [|exact Hfk].
    destruct (HF r) as (_ & _ & ->). exact Hfk.
Qed.

(** ** The methods of the repositories keep the constraints *)

Lemma store_ok_frame w w' :
  accounts w' = accounts w -> videos w' = videos w -> store_ok w -> store_ok w'.
Proof. unfold store_ok. intros -> ->. auto. Qed.

(** Runs a method whose first statement is at the head of the goal's
    equation. *)
Ltac run_statement E :=
  monad_unfold;
  match type of E with
  | context [statement ?x] =>
      let r0 := fresh "r0" in
      let w0 := fresh "w0" in
      let S := fresh "S" in
      destruct (statement x) as [r0 w0] eqn:S; apply statement_spec in S;
      destruct S as [-> [(? & ? & -> & ?)|[-> ?]]]; simpl in E
  end.

Lemma store_ok_emit e : preserves store_ok (emit e).
Proof. intros w r w' H E. inv E. exact H. Qed.

Lemma store_ok_uuid : preserves store_ok uuid_NewString.
Proof. intros w r w' H E. inv E. exact H. Qed.

Lemma store_ok_statement : preserves store_ok statement.
Proof.
  intros w r w' H E. apply statement_spec in E. destruct E as [-> _]. exact H.
Qed.

Lemma store_ok_UpdateLastChecked id v t :
  preserves store_ok (AccountRepository.UpdateLastChecked id v t).
Proof.
  intros w r w' H E. unfold AccountRepository.UpdateLastChecked in E.
  run_statement E; [inv E; exact H|].
  destruct (has_account id (accounts w)); inv E; [|exact H].
  destruct H as (Ha & Hv & Hfk). split; [|split]; simpl; auto.
  - unfold update_accounts. apply FOP_map; [|exact Ha].
    intros x y _ _ D. unfold distinct_accounts in *.
    destruct (Account.ID x == id); destruct (Account.ID y == id); simpl; exact D.
  - intros v0 Hin. rewrite has_account_update; auto.
Qed.

Lemma store_ok_account_Save a : preserves store_ok (AccountRepository.Save a).
Proof.
  intros w r w' H E. apply AccountRepository_Save_spec in E.
  destruct E as (_ & V & _ & _ & [(_ & A & Hy & Ht)|(_ & A & _)]).
  - destruct H as (Ha & Hv & Hfk). split; [|split]; rewrite ?A, ?V; auto.
    + apply upsert_account_distinct; auto.
    + intros v Hin. apply has_account_upsert. auto.
  - eapply store_ok_frame; eauto.
Qed.

Lemma has_account_filter id id' rows :
  id <> id' ->
  has_account id (filter (fun r => Account.ID r != id') rows) = has_account id rows.
Proof.
  intros Hne. unfold has_account. induction rows as [|x rows IH]; simpl; auto.
  destruct (String.eqb_spec (Account.ID x) id') as [E|E]; simpl.
  - rewrite IH. destruct (String.eqb_spec (Account.ID x) id) as [E2|E2]; auto.
    exfalso. congruence.
  - rewrite IH. reflexivity.
Qed.

Lemma store_ok_Delete id : preserves store_ok (AccountRepository.Delete id).
Proof.
  intros w r w' H E. unfold AccountRepository.Delete in E.
  run_statement E; [inv E; exact H|].
  destruct (has_account id (accounts w)); inv E; [|exact H].
  destruct H as (Ha & Hv & Hfk). split; [|split]; simpl.
  - apply FOP_filter. exact Ha.
  - apply FOP_filter. exact Hv.
  - intros v Hin. apply filter_In in Hin. destruct Hin as [Hin Hne].
    apply negb_true_iff in Hne. apply String.eqb_neq in Hne.
    rewrite has_account_filter; auto.
Qed.

Lemma store_ok_video_Save v : preserves store_ok (VideoRepository.Save v).
Proof.
  intros w r w' H E. apply VideoRepository_Save_spec in E.
  destruct E as (_ & A & _ & [(_ & V & _ & _ & Hfk' & Hy)|(_ & V & _)]).
  - destruct H as (Ha & Hv & Hfk). split; [|split]; rewrite ?A, ?V; auto.
    + apply upsert_video_distinct; auto.
    + intros x Hin. apply in_upsert_video in Hin.
      assert (Hacc : Video.AccountID (stamp_video w v) = Video.AccountID v).
      { unfold stamp_video. destruct (Video.ID v == ""); simpl;
          match goal with |- context [if ?c then _ else _] => destruct c end;
          reflexivity. }
      destruct Hin as [(c & ->)|[->|[Hin _]]];
        [rewrite <- Hacc in Hfk'; exact Hfk'|rewrite Hacc; exact Hfk'|auto].
  - eapply store_ok_frame; eauto.
Qed.

Lemma store_ok_update_statement id (F : time.Time -> Video.t -> Video.t) e :
  (forall tm r, Video.ID (F tm r) = Video.ID r
                /\ Video.YouTubeVideoID (F tm r) = Video.YouTubeVideoID r
                /\ Video.AccountID (F tm r) = Video.AccountID r) ->
  preserves store_ok
    (tm <- time_Now ;;
     statement ;;;
     x <- get ;;
     if has_video id (videos x)
     then modify (set_videos (update_videos id (F tm) (videos x))) ;;; emit e
     else ret tt).
Proof.
  intros HF w r w' H E.
  run_statement E; [inv E; exact H|].
  destruct (has_video id (videos w)); inv E; [|exact H].
  apply (update_videos_store_ok id (F (now w)) w (HF (now w))) in H.
  exact H.
Qed.

Lemma store_ok_UpdateStatus id s m :
  preserves store_ok (VideoRepository.UpdateStatus id s m).
Proof.
  apply (store_ok_update_statement id
           (fun tm r => Video.with_UpdatedAt tm
                          (Video.with_ErrorMessage m (Video.with_Status s r)))).
  intros tm r. simpl. auto.
Qed.

Lemma store_ok_UpdateFilePath id p :
  preserves store_ok (VideoRepository.UpdateFilePath id p).
Proof.
  apply (store_ok_update_statement id
           (fun tm r => Video.with_UpdatedAt tm (Video.with_LocalFilePath p r))).
  intros tm r. simpl. auto.
Qed.

Lemma store_ok_UpdateTikTokID id t :
  preserves store_ok (VideoRepository.UpdateTikTokID id t).
Proof.
  apply (store_ok_update_statement id
           (fun tm r => Video.with_UpdatedAt tm (Video.with_TikTokVideoID t r))).
  intros tm r. simpl. auto.
Qed.

(** Solves [preserves P m] for code made of the monad operations and of
    leaves known to keep [P]. *)
Ltac preserve_step :=
  match goal with
  | |- preserves _ (bind _ _) => apply preserves_bind; [|intro]
  | |- preserves _ (ret _) => apply preserves_ret
  | |- preserves _ (fail _) => apply preserves_fail
  | |- preserves _ (lift _) => apply preserves_lift
  | |- preserves _ time_Now => apply preserves_time_Now
  | |- preserves _ get => apply preserves_get
  | |- preserves _ (attempt _) => apply preserves_attempt
  | |- preserves _ (wrap _ _) => apply preserves_wrap
  | |- preserves _ (match ?x with _ => _ end) => destruct x
  | |- preserves _ _ => solve [eauto with preserve]
  end.
Ltac preserve := cbv beta zeta; repeat (preserve_step; cbv beta zeta).

Create HintDb preserve.
#[export] Hint Resolve store_ok_emit store_ok_uuid store_ok_statement
  store_ok_UpdateLastChecked store_ok_account_Save store_ok_Delete
  store_ok_video_Save store_ok_UpdateStatus store_ok_UpdateFilePath
  store_ok_UpdateTikTokID : preserve.

#[export] Instance store_ok_RepoInvariant : RepoInvariant store_ok.
Proof.
  constructor; intros;
    try solve [eauto with preserve];
    unfold AccountRepository.GetAll, AccountRepository.GetAllActive,
      AccountRepository.GetByID, AccountRepository.GetByYouTubeChannelID,
      AccountRepository.GetByTikTokAccountID,
      AccountRepository.GetByYouTubeAndTikTok,
      VideoRepository.GetByYouTubeID, VideoRepository.GetPendingVideos,
      VideoRepository.CountPending;
    preserve.
Qed.

(** ** The use cases keep what the repositories keep *)

#[export] Hint Resolve inv_emit inv_uuid inv_statement inv_account_GetAll
  inv_account_GetAllActive inv_account_GetByID inv_account_GetByYouTubeChannelID
  inv_account_GetByTikTokAccountID inv_account_GetByYouTubeAndTikTok
  inv_account_UpdateLastChecked inv_account_Save inv_account_Delete
  inv_video_GetByYouTubeID inv_video_GetPendingVideos inv_video_CountPending
  inv_video_Save inv_video_UpdateStatus inv_video_UpdateFilePath
  inv_video_UpdateTikTokID : preserve.

Section UseCases.
Context (P : World -> Prop) `{RepoInvariant P}.

Lemma keeps_CreateAccountMapping y t k :
  preserves P (AccountManager.CreateAccountMapping y t k).
Proof. unfold AccountManager.CreateAccountMapping. preserve. Qed.

Lemma keeps_UpdateAccountMapping id y t k a :
  preserves P (AccountManager.UpdateAccountMapping id y t k a).
Proof. unfold AccountManager.UpdateAccountMapping. preserve. Qed.

Lemma keeps_DeactivateAccountMapping id :
  preserves P (AccountManager.DeactivateAccountMapping id).
Proof. unfold AccountManager.DeactivateAccountMapping. preserve. Qed.

Lemma keeps_ActivateAccountMapping id :
  preserves P (AccountManager.ActivateAccountMapping id).
Proof. unfold AccountManager.ActivateAccountMapping. preserve. Qed.

Lemma keeps_DeleteAccountMapping id :
  preserves P (AccountManager.DeleteAccountMapping id).
Proof. unfold AccountManager.DeleteAccountMapping. preserve. Qed.

Lemma keeps_UpdateAccountTokens id k rt e :
  preserves P (AccountManager.UpdateAccountTokens id k rt e).
Proof. unfold AccountManager.UpdateAccountTokens. preserve. Qed.

Lemma keeps_downloadVideo p v : preserves P (VideoProcessor.downloadVideo p v).
Proof. unfold VideoProcessor.downloadVideo. preserve. Qed.

Lemma keeps_validateToken p a : preserves P (VideoProcessor.validateToken p a).
Proof. unfold VideoProcessor.validateToken. preserve. Qed.

Lemma keeps_performUpload p a v : preserves P (VideoProcessor.performUpload p a v).
Proof. unfold VideoProcessor.performUpload. preserve. Qed.

Lemma keeps_uploadVideo p v : preserves P (VideoProcessor.uploadVideo p v).
Proof.
  unfold VideoProcessor.uploadVideo.
  pose proof keeps_validateToken. pose proof keeps_performUpload. preserve.
Qed.

Lemma keeps_processVideo p v : preserves P (VideoProcessor.processVideo p v).
Proof.
  unfold VideoProcessor.processVideo.
  pose proof keeps_downloadVideo. pose proof keeps_uploadVideo. preserve.
Qed.

Lemma keeps_scanVideos a c vs : preserves P (AccountMonitor.scanVideos a c vs).
Proof. induction vs as [|v vs IH]; simpl; preserve. Qed.

Lemma keeps_saveVideos vs : preserves P (AccountMonitor.saveVideos vs).
Proof. induction vs as [|v vs IH]; simpl; preserve. Qed.

Lemma keeps_monitorAccount `{SortSlice} m a :
  preserves P (AccountMonitor.monitorAccount m a).
Proof.
  unfold AccountMonitor.monitorAccount.
  pose proof keeps_scanVideos. pose proof keeps_saveVideos. preserve.
Qed.

Lemma keeps_bootstrapAccount acc : preserves P (main.bootstrapAccount acc).
Proof.
  unfold main.bootstrapAccount, main.bootstrapCreate, main.bootstrapUpdate.
  pose proof keeps_CreateAccountMapping. pose proof keeps_UpdateAccountMapping.
  pose proof keeps_DeactivateAccountMapping. preserve.
Qed.

Lemma keeps_bootstrapAccounts accs : preserves P (main.bootstrapAccounts accs).
Proof.
  induction accs as [|a accs IH]; simpl; pose proof keeps_bootstrapAccount;
    preserve.
Qed.

End UseCases.

(** ** A store that answers every statement goes on answering *)

Lemma no_faults_statement : preserves no_faults statement.
Proof.
  intros w r w' H E. rewrite (statement_no_faults w H) in E. inv E. exact H.
Qed.

Ltac no_faults_leaf :=
  let w := fresh "w" in
  let r := fresh "r" in
  let w' := fresh "w'" in
  let NF := fresh "NF" in
  let E := fresh "E" in
  intros w r w' NF E; monad_unfold; unfold uuid_NewString in E;
  repeat match type of E with
         | context [statement ?x] =>
             rewrite (statement_no_faults x NF) in E; simpl in E
         | context [if ?c then _ else _] => destruct c; simpl in E
         end;
  inv E; exact NF.

#[export] Instance no_faults_RepoInvariant : RepoInvariant no_faults.
Proof.
  constructor; intros;
    unfold AccountRepository.GetAll, AccountRepository.GetAllActive,
      AccountRepository.GetByID, AccountRepository.GetByYouTubeChannelID,
      AccountRepository.GetByTikTokAccountID,
      AccountRepository.GetByYouTubeAndTikTok,
      AccountRepository.UpdateLastChecked, AccountRepository.Save,
      AccountRepository.Delete, exec_upsert_account,
      VideoRepository.GetByYouTubeID, VideoRepository.GetPendingVideos,
      VideoRepository.CountPending, VideoRepository.Save, exec_upsert_video,
      VideoRepository.UpdateStatus, VideoRepository.UpdateFilePath,
      VideoRepository.UpdateTikTokID;
    try apply no_faults_statement; no_faults_leaf.
Qed.

(** ** The two headline statements *)

(** X4. The keys and UNIQUE columns of the two tables and the foreign
    key of [videos] hold in the empty store the schema creates, and
    every writing method of the two repositories keeps them, whether it
    succeeds or fails: no method leaves two rows with the same id, two
    jobs with the same channel or the same sink account, two videos
    with the same source id, or a video without its job. *)
Theorem repositories_keep_the_schema_constraints :
  (forall w, accounts w = [] -> videos w = [] -> store_ok w)
  /\ (forall a, preserves store_ok (AccountRepository.Save a))
  /\ (forall id v t, preserves store_ok (AccountRepository.UpdateLastChecked id v t))
  /\ (forall id, preserves store_ok (AccountRepository.Delete id))
  /\ (forall v, preserves store_ok (VideoRepository.Save v))
  /\ (forall id s m, preserves store_ok (VideoRepository.UpdateStatus id s m))
  /\ (forall id p, preserves store_ok (VideoRepository.UpdateFilePath id p))
  /\ (forall id t, preserves store_ok (VideoRepository.UpdateTikTokID id t)).
Proof.
  split.
  { intros w Ha Hv. unfold store_ok. rewrite Ha, Hv.
    splits; try constructor. intros v []. }
  splits; intros.
  - apply store_ok_account_Save.
  - apply store_ok_UpdateLastChecked.
  - apply store_ok_Delete.
  - apply store_ok_video_Save.
  - apply store_ok_UpdateStatus.
  - apply store_ok_UpdateFilePath.
  - apply store_ok_UpdateTikTokID.
Qed.

(** X5. The sequential use cases built on the repositories keep the
    constraints of the schema whatever the remote services answer and
    wherever a statement fails: the pipeline of one video, the pass
    over one job, the bootstrap of the configured jobs and the six
    operations of the account manager.  A store that meets them has at
    most one job per id, per channel and per sink account. *)
Theorem use_cases_keep_the_schema_constraints :
  (forall p v, preserves store_ok (VideoProcessor.processVideo p v))
  /\ (forall (S : SortSlice) m a,
         preserves store_ok (AccountMonitor.monitorAccount m a))
  /\ (forall accs, preserves store_ok (main.bootstrapAccounts accs))
  /\ (forall y t k, preserves store_ok (AccountManager.CreateAccountMapping y t k))
  /\ (forall id y t k a,
         preserves store_ok (AccountManager.UpdateAccountMapping id y t k a))
  /\ (forall id, preserves store_ok (AccountManager.ActivateAccountMapping id))
  /\ (forall id, preserves store_ok (AccountManager.DeactivateAccountMapping id))
  /\ (forall id, preserves store_ok (AccountManager.DeleteAccountMapping id))
  /\ (forall id k rt e,
         preserves store_ok (AccountManager.UpdateAccountTokens id k rt e))
  /\ (forall w, store_ok w -> accounts_unique (accounts w)).
Proof.
  splits; intros.
  - apply keeps_processVideo; typeclasses eauto.
  - apply keeps_monitorAccount; typeclasses eauto.
  - apply keeps_bootstrapAccounts; typeclasses eauto.
  - apply keeps_CreateAccountMapping; typeclasses eauto.
  - apply keeps_UpdateAccountMapping; typeclasses eauto.
  - apply keeps_ActivateAccountMapping; typeclasses eauto.
  - apply keeps_DeactivateAccountMapping; typeclasses eauto.
  - apply keeps_DeleteAccountMapping; typeclasses eauto.
  - apply keeps_UpdateAccountTokens; typeclasses eauto.
  - apply store_ok_accounts_unique; assumption.
Qed.

(** * Further properties of the account manager *)

Lemma stamp_account_keeps w a :
  Account.ID a <> "" ->
  stamp_account w a = Account.with_UpdatedAt (now w) a.
Proof.
  intros H. apply String.eqb_neq in H. unfold stamp_account. rewrite H. reflexivity.
Qed.

(** A write of [AccountRepository.Save] to the row of an existing
    account whose identifiers are the stored ones. *)
Lemma Save_existing_spec a old w r w' :
  Account.ID a <> "" ->
  account_row (Account.ID a) w = Some old ->
  AccountRepository.Save a w = (r, w') ->
  videos w' = videos w /\ now w' = now w
  /\ (forall id, id <> Account.ID a -> account_row id w' = account_row id w)
  /\ ((r = Ok (Account.with_UpdatedAt (now w) a)
       /\ account_row (Account.ID a) w'
          = Some (Account.with_CreatedAt (Account.CreatedAt old)
                    (Account.with_UpdatedAt (now w) a))
       /\ accounts w'
          = map (fun x => if Account.ID x == Account.ID a
                          then Account.with_CreatedAt (Account.CreatedAt x)
                                 (Account.with_UpdatedAt (now w) a)
                          else x) (accounts w))
      \/ ((exists e, r = Err e) /\ accounts w' = accounts w))
  /\ (no_faults w -> accounts_unique (accounts w) ->
      Account.YouTubeChannelID a = Account.YouTubeChannelID old ->
      Account.TikTokAccountID a = Account.TikTokAccountID old ->
      is_ok r = true).
Proof.
  intros Hne Hold Hrun. apply AccountRepository_Save_spec in Hrun.
  destruct Hrun as (N & V & F & U & Hcase).
  rewrite (stamp_account_keeps w a Hne) in Hcase.
  unfold account_row in *.
  destruct (find_account_id _ _ _ Hold) as [Hid Hin].
  splits; auto.
  - intros id Hid'. destruct Hcase as [(_ & A & _)|(_ & A & _)]; rewrite A; auto.
    apply find_upsert_account_other. simpl. exact Hid'.
  - destruct Hcase as [(-> & A & _)|(E & A & _)]; [left|right; auto].
    split; [reflexivity|]. rewrite A. split.
    + pose proof (find_upsert_account_same (Account.with_UpdatedAt (now w) a)
                    (accounts w)) as Hf.
      simpl in Hf. rewrite Hold in Hf. exact Hf.
    + unfold upsert_account. rewrite has_account_find. simpl. rewrite Hold.
      reflexivity.
  - intros NF Huniq Hy Ht.
    destruct Hcase as [(-> & _)|(_ & _ & [(fs & Hf)|Htaken])]; [reflexivity| |].
    + exfalso. eapply no_faults_head; eauto.
    + exfalso.
      destruct (unique_checks_pass (accounts w) old
                  (Account.with_UpdatedAt (now w) a) Huniq Hin
                  (eq_sym Hid) Hy Ht) as [H1 H2].
      destruct Htaken as [H|H]; congruence.
Qed.

(** What [UpdateAccountTokens] stores. *)
Lemma UpdateAccountTokens_spec :
  forall (w : World) (accountID accessToken refreshToken : string)
         (expiresIn : option Z) r w',
    accountID <> "" ->
    AccountManager.UpdateAccountTokens accountID accessToken refreshToken expiresIn w
    = (r, w') ->
    videos w' = videos w
    /\ (forall id, id <> accountID -> account_row id w' = account_row id w)
    /\ (is_ok r = false -> accounts w' = accounts w)
    /\ match account_row accountID w with
       | None =>
           is_ok r = false
           /\ (no_faults w -> r = Err ("account not found: " ++ accountID))
       | Some old =>
           (no_faults w -> accounts_unique (accounts w) -> is_ok r = true)
           /\ (is_ok r = true ->
               exists stored,
                 account_row accountID w' = Some stored
                 /\ r = Ok stored
                 /\ Account.TikTokAccessToken stored
                    = (if accessToken == "" then Account.TikTokAccessToken old
                       else accessToken)
                 /\ Account.TikTokRefreshToken stored
                    = (if refreshToken == "" then Account.TikTokRefreshToken old
                       else refreshToken)
                 /\ Account.TikTokTokenExpiresAt stored
                    = match expiresIn with
                      | Some n =>
                          if 0 <? n
                          then Some (time.Add (now w) (time.scale n time.Second))
                          else Account.TikTokTokenExpiresAt old
                      | None => Account.TikTokTokenExpiresAt old
                      end
                 /\ Account.UpdatedAt stored = now w
                 /\ Account.ID stored = Account.ID old
                 /\ Account.YouTubeChannelID stored = Account.YouTubeChannelID old
                 /\ Account.TikTokAccountID stored = Account.TikTokAccountID old
                 /\ Account.LastCheckedAt stored = Account.LastCheckedAt old
                 /\ Account.LastVideoID stored = Account.LastVideoID old
                 /\ Account.IsActive stored = Account.IsActive old
                 /\ Account.CreatedAt stored = Account.CreatedAt old)
       end.
Proof.
  intros w accountID tok rt exp r w' Hne Hrun.
  unfold AccountManager.UpdateAccountTokens in Hrun.
  apply bind_inv in Hrun. destruct Hrun as [(found & w1 & E1 & Hrun)|(e & E1 & ->)].
  2:{ apply wrap_inv in E1. destruct E1 as [(a & _ & D)|(e0 & E1 & _)]; [discriminate|].
      apply AccountRepository_GetByID_spec in E1.
      destruct E1 as (A & V & _ & _ & _ & _ & [(e1 & fs & _ & Hf)|D]); [|discriminate].
      splits; auto.
      - intros id _. unfold account_row. rewrite A. reflexivity.
      - destruct (account_row accountID w); splits; auto;
          try (intros D; discriminate D);
          intros NF; exfalso; eapply no_faults_head; eauto. }
  apply wrap_inv in E1. destruct E1 as [(a & E1 & Ea)|(e0 & _ & D)]; [|discriminate].
  inv Ea.
  apply AccountRepository_GetByID_spec in E1.
  destruct E1 as (A1 & V1 & N1 & T1 & U1 & F1 & [(e1 & fs & D & _)|Ef]); [discriminate|].
  inv Ef. fold (account_row accountID w) in Hrun |- *.
  assert (Hrow1 : forall id, account_row id w1 = account_row id w).
  { intros id. unfold account_row. rewrite A1. reflexivity. }
  destruct (account_row accountID w) as [old|] eqn:Hold.
  2:{ unfold fail in Hrun. inv Hrun. splits; auto. }
  apply bind_inv in Hrun. destruct Hrun as [(acc & w2 & E2 & Hrun)|(e & E2 & _)].
  2:{ destruct exp as [n|]; [destruct (0 <? n)|]; discriminate. }
  assert (w2 = w1 /\ acc =
            match exp with
            | Some n =>
                if 0 <? n
                then Account.with_TikTokTokenExpiresAt
                       (Some (time.Add (now w) (time.scale n time.Second)))
                       (if rt != ""
                        then Account.with_TikTokRefreshToken rt
                               (if tok != "" then Account.with_TikTokAccessToken tok old
                                else old)
                        else if tok != "" then Account.with_TikTokAccessToken tok old
                             else old)
                else (if rt != ""
                      then Account.with_TikTokRefreshToken rt
                             (if tok != "" then Account.with_TikTokAccessToken tok old
                              else old)
                      else if tok != "" then Account.with_TikTokAccessToken tok old
                           else old)
            | None => (if rt != ""
                       then Account.with_TikTokRefreshToken rt
                              (if tok != "" then Account.with_TikTokAccessToken tok old
                               else old)
                       else if tok != "" then Account.with_TikTokAccessToken tok old
                            else old)
            end) as [-> Hacc].
  { destruct exp as [n|]; [destruct (0 <? n)|]; monad_unfold; inv E2; rewrite ?N1; auto. }
  clear E2.
  apply bind_inv in Hrun. destruct Hrun as [(nw & w3 & E3 & Hrun)|(e & E3 & _)];
    [|discriminate].
  unfold time_Now in E3. injection E3 as En Ew. subst nw w3.
  destruct (find_account_id _ _ _ Hold) as [Hid Hin].
  assert (Hids : Account.ID acc = accountID
                 /\ Account.YouTubeChannelID acc = Account.YouTubeChannelID old
                 /\ Account.TikTokAccountID acc = Account.TikTokAccountID old).
  { rewrite Hacc. destruct exp as [n|]; [destruct (0 <? n)|];
      destruct (rt != ""); destruct (tok != ""); simpl; auto. }
  destruct Hids as (Hi & Hy & Ht).
  assert (Hold1 : account_row (Account.ID (Account.with_UpdatedAt (now w1) acc)) w1
                  = Some old).
  { simpl. rewrite Hi, Hrow1. exact Hold. }
  assert (Hne1 : Account.ID (Account.with_UpdatedAt (now w1) acc) <> "").
  { simpl. rewrite Hi. exact Hne. }
  assert (NFw1 : no_faults w -> no_faults w1).
  { intros NF. eapply no_faults_tail; eauto. }
  apply wrap_inv in Hrun.
  destruct Hrun as [(saved & Hrun & ->)|(e & Hrun & ->)];
    destruct (Save_existing_spec _ old w1 _ w' Hne1 Hold1 Hrun)
      as (V & N & Hothers & Hcase & Hlive);
    simpl in Hothers, Hcase, Hlive; rewrite Hi in *.
  - destruct Hcase as [(E & Hrow' & _)|((e & D) & _)]; [|discriminate]. inv E.
    splits; auto; try congruence.
    + intros id Hd. rewrite (Hothers id Hd). apply Hrow1.
    + intros D. discriminate.
    + intros _. eexists. split; [exact Hrow'|].
      rewrite N1. destruct exp as [n|]; [destruct (0 <? n)|];
        unfold negb; destruct (rt == ""); destruct (tok == ""); simpl;
        splits; try reflexivity.
      all: destruct old; reflexivity.
  - destruct Hcase as [(D & _)|(_ & A)]; [discriminate|].
    splits; auto; try congruence.
    + intros id Hd. rewrite (Hothers id Hd). apply Hrow1.
    + intros NF Hu. rewrite <- A1 in Hu.
      specialize (Hlive (NFw1 NF) Hu Hy Ht). discriminate.
    + intros D. discriminate.
Qed.

(** X1. [UpdateAccountTokens] replaces the access token and the refresh
    token only when the new one is not empty, and the expiry only when
    a positive number of seconds is given (it becomes now + that many
    seconds); the row returned is the row stored, every other column
    of the job but [updated_at] is as before, no other job and no video
    changes.  An unknown id is an error ([account not found: <id>]
    when the store answers), and an error leaves the table as it was. *)
Theorem UpdateAccountTokens_keeps_what_is_not_given :
  forall (w : World) (accountID accessToken refreshToken : string)
         (expiresIn : option Z) r w',
    accountID <> "" ->
    AccountManager.UpdateAccountTokens accountID accessToken refreshToken expiresIn w
    = (r, w') ->
    videos w' = videos w
    /\ (forall id, id <> accountID -> account_row id w' = account_row id w)
    /\ (is_ok r = false -> accounts w' = accounts w)
    /\ match account_row accountID w with
       | None =>
           is_ok r = false
           /\ (no_faults w -> r = Err ("account not found: " ++ accountID))
       | Some old =>
           (no_faults w -> accounts_unique (accounts w) -> is_ok r = true)
           /\ (is_ok r = true ->
               exists stored,
                 account_row accountID w' = Some stored
                 /\ r = Ok stored
                 /\ Account.TikTokAccessToken stored
                    = (if accessToken == "" then Account.TikTokAccessToken old
                       else accessToken)
                 /\ Account.TikTokRefreshToken stored
                    = (if refreshToken == "" then Account.TikTokRefreshToken old
                       else refreshToken)
                 /\ Account.TikTokTokenExpiresAt stored
                    = match expiresIn with
                      | Some n =>
                          if 0 <? n
                          then Some (time.Add (now w) (time.scale n time.Second))
                          else Account.TikTokTokenExpiresAt old
                      | None => Account.TikTokTokenExpiresAt old
                      end
                 /\ Account.UpdatedAt stored = now w
                 /\ Account.ID stored = Account.ID old
                 /\ Account.YouTubeChannelID stored = Account.YouTubeChannelID old
                 /\ Account.TikTokAccountID stored = Account.TikTokAccountID old
                 /\ Account.LastCheckedAt stored = Account.LastCheckedAt old
                 /\ Account.LastVideoID stored = Account.LastVideoID old
                 /\ Account.IsActive stored = Account.IsActive old
                 /\ Account.CreatedAt stored = Account.CreatedAt old)
       end.
Proof. exact UpdateAccountTokens_spec. Qed.

(** ** Deleting a job *)

Lemma find_filter_out {A} (p q : A -> bool) l :
  (forall x, p x = true -> q x = false) -> find p (filter q l) = None.
Proof.
  intros H. induction l as [|x l IH]; simpl; auto.
  destruct (q x) eqn:Q; auto. simpl.
  destruct (p x) eqn:Px; auto. rewrite (H x Px) in Q. discriminate.
Qed.

Lemma find_filter_other {A} (p q : A -> bool) l :
  (forall x, p x = true -> q x = true) -> find p (filter q l) = find p l.
Proof.
  intros H. induction l as [|x l IH]; simpl; auto.
  destruct (q x) eqn:Q; simpl.
  - destruct (p x); auto.
  - destruct (p x) eqn:Px; auto. rewrite (H x Px) in Q. discriminate.
Qed.

(** What [DeleteAccountMapping] removes. *)
Lemma DeleteAccountMapping_spec :
  forall (w : World) (id : string),
    let r := fst (AccountManager.DeleteAccountMapping id w) in
    let w' := snd (AccountManager.DeleteAccountMapping id w) in
    (is_ok r = true ->
       account_row id w <> None
       /\ accounts w' = filter (fun a => Account.ID a != id) (accounts w)
       /\ videos w' = filter (fun v => Video.AccountID v != id) (videos w)
       /\ account_row id w' = None
       /\ (forall v, In v (videos w') -> Video.AccountID v <> id)
       /\ (forall id', id' <> id -> account_row id' w' = account_row id' w)
       /\ (forall v, In v (videos w) -> Video.AccountID v <> id -> In v (videos w')))
    /\ (is_ok r = false -> accounts w' = accounts w /\ videos w' = videos w)
    /\ (account_row id w = None -> is_ok r = false)
    /\ (no_faults w ->
        r = match account_row id w with
            | Some _ => Ok tt
            | None => Err ("account not found: " ++ id)
            end).
Proof.
  intros w id.
  destruct (AccountManager.DeleteAccountMapping id w) as [r w'] eqn:Hrun. simpl.
  unfold AccountManager.DeleteAccountMapping in Hrun.
  apply bind_inv in Hrun. destruct Hrun as [(found & w1 & E1 & Hrun)|(e & E1 & ->)].
  2:{ apply wrap_inv in E1. destruct E1 as [(a & _ & D)|(e0 & E1 & _)]; [discriminate|].
      apply AccountRepository_GetByID_spec in E1.
      destruct E1 as (A & V & _ & _ & _ & _ & [(e1 & fs & _ & Hf)|D]); [|discriminate].
      splits; auto; try (intros D; discriminate D).
      intros NF. exfalso. eapply no_faults_head; eauto. }
  apply wrap_inv in E1. destruct E1 as [(a & E1 & Ea)|(e0 & _ & D)]; [|discriminate].
  inv Ea.
  apply AccountRepository_GetByID_spec in E1.
  destruct E1 as (A1 & V1 & N1 & T1 & U1 & F1 & [(e1 & fs & D & _)|Ef]); [discriminate|].
  inv Ef. fold (account_row id w) in Hrun |- *.
  destruct (account_row id w) as [old|] eqn:Hold.
  2:{ unfold fail in Hrun. inv Hrun. splits; auto; intros D; discriminate D. }
  assert (Hhas : has_account id (accounts w1) = true).
  { rewrite A1, has_account_find. unfold account_row in Hold. rewrite Hold.
    reflexivity. }
  unfold AccountRepository.Delete in Hrun.
  run_statement Hrun.
  - inv Hrun. simpl. splits; auto; try (intros D; discriminate D).
    intros NF. exfalso. apply (no_faults_tail _ _ NF) in F1.
    unfold no_faults in F1. congruence.
  - rewrite Hhas in Hrun. inv Hrun. simpl. rewrite A1, V1.
    splits; auto; try (intros D; discriminate D).
    + intros _. splits; auto.
      * discriminate.
      * unfold account_row. simpl. apply find_filter_out.
        intros x Hx. apply negb_false_iff. exact Hx.
      * intros v Hin. apply filter_In in Hin. destruct Hin as [_ Hne].
        apply negb_true_iff in Hne. apply String.eqb_neq in Hne. exact Hne.
      * intros id' Hne. unfold account_row. simpl. apply find_filter_other.
        intros x Hx. apply String.eqb_eq in Hx. apply negb_true_iff.
        apply String.eqb_neq. congruence.
      * intros v Hin Hne. apply filter_In. split; [exact Hin|].
        apply negb_true_iff. apply String.eqb_neq. exact Hne.
Qed.

(** X2. [DeleteAccountMapping] of a stored job removes its row and,
    through [ON DELETE CASCADE], every video of the job; the other
    jobs and their videos stay.  An unknown id is an error
    ([account not found: <id>] when the store answers) and an error
    leaves both tables as they were. *)
Theorem DeleteAccountMapping_removes_the_job_and_its_videos :
  forall (w : World) (id : string),
    let r := fst (AccountManager.DeleteAccountMapping id w) in
    let w' := snd (AccountManager.DeleteAccountMapping id w) in
    (is_ok r = true ->
       account_row id w <> None
       /\ accounts w' = filter (fun a => Account.ID a != id) (accounts w)
       /\ videos w' = filter (fun v => Video.AccountID v != id) (videos w)
       /\ account_row id w' = None
       /\ (forall v, In v (videos w') -> Video.AccountID v <> id)
       /\ (forall id', id' <> id -> account_row id' w' = account_row id' w)
       /\ (forall v, In v (videos w) -> Video.AccountID v <> id -> In v (videos w')))
    /\ (is_ok r = false -> accounts w' = accounts w /\ videos w' = videos w)
    /\ (account_row id w = None -> is_ok r = false)
    /\ (no_faults w ->
        r = match account_row id w with
            | Some _ => Ok tt
            | None => Err ("account not found: " ++ id)
            end).
Proof. exact DeleteAccountMapping_spec. Qed.

(** ** Switching a job on and off *)

Lemma set_active_spec (b : bool) id w r w' :
  id <> "" ->
  (account <- wrap "failed to get account" (AccountRepository.GetByID id) ;;
   match account with
   | None => fail ("account not found: " ++ id)
   | Some account =>
       let account := Account.with_IsActive b account in
       now <- time_Now ;;
       let account := Account.with_UpdatedAt now account in
       AccountRepository.Save account ;;; ret tt
   end) w = (r, w') ->
  videos w' = videos w
  /\ (forall id', id' <> id -> account_row id' w' = account_row id' w)
  /\ (is_ok r = false -> accounts w' = accounts w)
  /\ (account_row id w = None -> is_ok r = false)
  /\ (is_ok r = true ->
      (exists old,
          account_row id w = Some old
          /\ account_row id w'
             = Some (Account.with_UpdatedAt (now w) (Account.with_IsActive b old)))
      /\ (forall a, In a (accounts w') -> Account.ID a = id -> Account.IsActive a = b)
      /\ (forall a, Account.ID a <> id -> (In a (accounts w') <-> In a (accounts w))))
  /\ (no_faults w -> accounts_unique (accounts w) -> account_row id w <> None ->
      r = Ok tt).
Proof.
  intros Hne Hrun.
  apply bind_inv in Hrun. destruct Hrun as [(found & w1 & E1 & Hrun)|(e & E1 & ->)].
  2:{ apply wrap_inv in E1. destruct E1 as [(a & _ & D)|(e0 & E1 & _)]; [discriminate|].
      apply AccountRepository_GetByID_spec in E1.
      destruct E1 as (A & V & _ & _ & _ & _ & [(e1 & fs & _ & Hf)|D]); [|discriminate].
      splits; auto; try (intros D; discriminate D).
      - intros id' _. unfold account_row. rewrite A. reflexivity.
      - intros NF. exfalso. eapply no_faults_head; eauto. }
  apply wrap_inv in E1. destruct E1 as [(a & E1 & Ea)|(e0 & _ & D)]; [|discriminate].
  inv Ea.
  apply AccountRepository_GetByID_spec in E1.
  destruct E1 as (A1 & V1 & N1 & T1 & U1 & F1 & [(e1 & fs & D & _)|Ef]); [discriminate|].
  inv Ef. fold (account_row id w) in Hrun |- *.
  assert (Hrow1 : forall i, account_row i w1 = account_row i w).
  { intros i. unfold account_row. rewrite A1. reflexivity. }
  destruct (account_row id w) as [old|] eqn:Hold.
  2:{ unfold fail in Hrun. inv Hrun.
      splits; auto; try (intros D; discriminate D). intros _ _ C. congruence. }
  cbv zeta in Hrun.
  apply bind_inv in Hrun. destruct Hrun as [(nw & w2 & E2 & Hrun)|(e & E2 & _)];
    [|discriminate].
  unfold time_Now in E2. injection E2 as En Ew. subst nw w2.
  destruct (find_account_id _ _ _ Hold) as [Hid Hin]. subst id.
  assert (Hne1 : Account.ID (Account.with_UpdatedAt (now w1)
                               (Account.with_IsActive b old)) <> "").
  { simpl. congruence. }
  assert (Hold1 : account_row (Account.ID (Account.with_UpdatedAt (now w1)
                                             (Account.with_IsActive b old))) w1
                  = Some old).
  { simpl. rewrite Hrow1. exact Hold. }
  assert (NFw1 : no_faults w -> no_faults w1).
  { intros NF. eapply no_faults_tail; eauto. }
  apply bind_inv in Hrun.
  destruct Hrun as [(saved & w3 & E3 & Hrun)|(e & E3 & ->)];
    destruct (Save_existing_spec _ old w1 _ _ Hne1 Hold1 E3)
      as (V & N & Hothers & Hcase & Hlive);
    simpl in Hothers, Hcase, Hlive.
  - unfold ret in Hrun. inv Hrun.
    destruct Hcase as [(E & Hrow' & Hall)|((e & D) & _)]; [|discriminate].
    splits; auto; try congruence; try (intros D; discriminate D).
    + intros id' Hd. rewrite (Hothers id' Hd). apply Hrow1.
    + intros _. splits.
      * exists old. split; [reflexivity|]. rewrite Hrow', N1.
        destruct old; reflexivity.
      * intros a Ha Hida. rewrite Hall in Ha. apply in_map_iff in Ha.
        destruct Ha as (x & <- & _).
        destruct (String.eqb_spec (Account.ID x) (Account.ID old)) as [Ex|Ex];
          [reflexivity|].
        exfalso. exact (Ex Hida).
      * intros a Hida. rewrite Hall, <- A1. split.
        -- intros Ha. apply in_map_iff in Ha. destruct Ha as (x & <- & Hx).
           destruct (String.eqb_spec (Account.ID x) (Account.ID old)) as [Ex|Ex];
             [|exact Hx].
           exfalso. apply Hida. reflexivity.
        -- intros Ha. apply in_map_iff. exists a. split; [|exact Ha].
           destruct (String.eqb_spec (Account.ID a) (Account.ID old)) as [Ex|Ex];
             [|reflexivity].
           exfalso. exact (Hida Ex).
  - destruct Hcase as [(D & _)|(_ & A)]; [discriminate|].
    splits; auto; try congruence; try (intros D; discriminate D).
    + intros id' Hd. rewrite (Hothers id' Hd). apply Hrow1.
    + intros NF Hu _. rewrite <- A1 in Hu.
      specialize (Hlive (NFw1 NF) Hu eq_refl eq_refl). discriminate.
Qed.

Lemma GetAllActive_spec w r w' :
  AccountRepository.GetAllActive w = (r, w') ->
  accounts w' = accounts w /\ videos w' = videos w
  /\ (no_faults w -> is_ok r = true)
  /\ forall l, r = Ok l ->
       length l = length (filter Account.IsActive (accounts w))
       /\ forall a, In a l <-> In a (accounts w) /\ Account.IsActive a = true.
Proof.
  unfold AccountRepository.GetAllActive. intros E. run_statement E; inv E; simpl.
  - splits; auto.
    + intros NF. exfalso. eapply no_faults_head; eauto.
    + intros l D. discriminate.
  - splits; auto. intros l El. inv El.
    destruct (order_by_spec Account.CreatedAt
                (filter Account.IsActive (accounts w))) as [L I].
    split; [exact L|]. intros a. rewrite I. apply filter_In.
Qed.

(** X3. After a successful [DeactivateAccountMapping] the job is not in
    the list [GetAllActive] returns, after a successful
    [ActivateAccountMapping] it is; for every other job membership is
    as before.  Neither touches the videos, both fail on an unknown id
    and succeed on a stored one when the store answers and meets its
    UNIQUE constraints, and a failure leaves the table as it was. *)
Theorem activation_decides_what_is_polled :
  forall (w : World) (id : string) (b : bool) (r : result unit) (w' : World),
    id <> "" ->
    (if b then AccountManager.ActivateAccountMapping id w
     else AccountManager.DeactivateAccountMapping id w) = (r, w') ->
    videos w' = videos w
    /\ (is_ok r = false -> accounts w' = accounts w)
    /\ (account_row id w = None -> is_ok r = false)
    /\ (no_faults w -> accounts_unique (accounts w) -> account_row id w <> None ->
        r = Ok tt)
    /\ (is_ok r = true ->
        forall l w2, AccountRepository.GetAllActive w' = (Ok l, w2) ->
          (forall a, In a l -> Account.ID a = id -> b = true)
          /\ (b = true -> exists a, In a l /\ Account.ID a = id)
          /\ (forall a, Account.ID a <> id ->
                (In a l <-> In a (accounts w) /\ Account.IsActive a = true))).
Proof.
  intros w id b r w' Hne Hrun.
  assert (Hspec := set_active_spec b id w r w' Hne).
  destruct b; unfold AccountManager.ActivateAccountMapping,
                AccountManager.DeactivateAccountMapping in Hrun;
    destruct (Hspec Hrun) as (V & _ & Hfail & Hnone & Hs & Hlive);
    (splits; auto; intros Hok l w2 Hl;
     destruct (Hs Hok) as ((old & Hold & Hrow) & Hall & Hrest);
     apply GetAllActive_spec in Hl; destruct Hl as (_ & _ & _ & Hl);
     destruct (Hl l eq_refl) as [_ HI]; splits).
  - intros; reflexivity.
  - intros _. eexists. split.
    + apply HI. unfold account_row in Hrow. apply find_some in Hrow.
      destruct Hrow as [Hin _]. split; [exact Hin|reflexivity].
    + simpl. apply (find_account_id _ _ _ Hold).
  - intros a Hid. rewrite HI, (Hrest a Hid). reflexivity.
  - intros a Ha Hid. apply HI in Ha. destruct Ha as [Ha Hact].
    rewrite (Hall a Ha Hid) in Hact. discriminate.
  - intros D. discriminate.
  - intros a Hid. rewrite HI, (Hrest a Hid). reflexivity.
Qed.

(** ** The theorems at concrete stores *)

(** A new access token for job [acc-1], nothing else given: the refresh
    token [R0] and the missing expiry stay. *)
Lemma UpdateAccountTokens_keeps_what_is_not_given_witness :
  exists stored,
    account_row "acc-1"
      (snd (AccountManager.UpdateAccountTokens "acc-1" "T1" "" None Fx.world1))
    = Some stored
    /\ Account.TikTokAccessToken stored = "T1"
    /\ Account.TikTokRefreshToken stored = "R0"
    /\ Account.TikTokTokenExpiresAt stored = None.
Proof.
  destruct (UpdateAccountTokens_keeps_what_is_not_given Fx.world1 "acc-1" "T1" ""
              None
              (fst (AccountManager.UpdateAccountTokens "acc-1" "T1" "" None Fx.world1))
              (snd (AccountManager.UpdateAccountTokens "acc-1" "T1" "" None Fx.world1)))
    as (_ & _ & _ & H).
  - discriminate.
  - apply surjective_pairing.
  - change (account_row "acc-1" Fx.world1) with (Some Fx.account1) in H.
    destruct H as [_ H]. destruct H as (stored & H1 & _ & H2 & H3 & H4 & _).
    + reflexivity.
    + exists stored. splits; assumption.
Defined.

(** Deactivating job [acc-1] takes it out of the list of active jobs. *)
Lemma activation_decides_what_is_polled_witness :
  existsb (fun a => Account.ID a == "acc-1")
    match fst (AccountRepository.GetAllActive
                 (snd (AccountManager.DeactivateAccountMapping "acc-1" Fx.world1)))
    with
    | Ok l => l
    | Err _ => []
    end = false.
Proof.
  set (run := AccountManager.DeactivateAccountMapping "acc-1" Fx.world1).
  destruct (activation_decides_what_is_polled Fx.world1 "acc-1" false
              (fst run) (snd run)) as (_ & _ & _ & _ & H).
  - discriminate.
  - apply surjective_pairing.
  - destruct (AccountRepository.GetAllActive (snd run)) as [[l|e] w2] eqn:E;
      simpl; [|reflexivity].
    assert (Hok : is_ok (fst run) = true) by (vm_compute; reflexivity).
    destruct (H Hok l w2 eq_refl) as (H1 & _).
    destruct (existsb (fun a => Account.ID a == "acc-1") l) eqn:X; [|reflexivity].
    apply existsb_exists in X. destruct X as (a & Ha & Hid).
    apply String.eqb_eq in Hid. symmetry. exact (H1 a Ha Hid).
Defined.

(** ** How a run of the pipeline ends *)

Lemma in_update_videos_same id F rows row :
  (forall r, Video.ID (F r) = Video.ID r) ->
  In row (update_videos id F rows) -> Video.ID row = id ->
  exists r0, In r0 rows /\ Video.ID r0 = id /\ row = F r0.
Proof.
  intros HF Hin Hid. apply in_update_videos in Hin. destruct Hin as (r0 & Hr0 & ->).
  destruct (String.eqb_spec (Video.ID r0) id) as [E|E].
  - exists r0. auto.
  - exfalso. exact (E Hid).
Qed.

Lemma in_update_videos_other id F rows row :
  (forall r, Video.ID (F r) = Video.ID r) ->
  In row (update_videos id F rows) -> Video.ID row <> id -> In row rows.
Proof.
  intros HF Hin Hid. apply in_update_videos in Hin. destruct Hin as (r0 & Hr0 & ->).
  destruct (String.eqb_spec (Video.ID r0) id) as [E|E]; [|exact Hr0].
  exfalso. apply Hid. rewrite HF. exact E.
Qed.

Lemma GetPendingVideos_in n w vs w2 :
  VideoRepository.GetPendingVideos n w = (Ok vs, w2) ->
  forall x, In x vs -> In x (videos w) /\ Video.Status x = VideoStatusPending.
Proof.
  unfold VideoRepository.GetPendingVideos. intros E. run_statement E; inv E.
  intros x Hin. unfold limit_rows in Hin.
  assert (Hin' : In x (order_by Video.CreatedAt
                         (filter (fun r => Video.Status r == VideoStatusPending)
                                 (videos w)))).
  { destruct (n <? 0); [exact Hin|]. eapply in_firstn; eauto. }
  apply order_by_spec in Hin'. apply filter_In in Hin'.
  destruct Hin' as [Hi Hs]. apply String.eqb_eq in Hs. auto.
Qed.

(** The last write of [processVideo], on a store that answers. *)
Lemma final_status_write id s m w1 r w' :
  no_faults w1 ->
  VideoRepository.UpdateStatus id s m w1 = (r, w') ->
  r = Ok tt /\ no_faults w'
  /\ (forall row, In row (videos w') -> Video.ID row = id ->
                  Video.Status row = s /\ Video.ErrorMessage row = m)
  /\ (forall row, In row (videos w') -> Video.ID row <> id -> In row (videos w1)).
Proof.
  intros NF E. rewrite (UpdateStatus_ok id s m w1 NF) in E. inv E.
  destruct (after_update_frame id
              (fun r => Video.with_UpdatedAt (now w1)
                          (Video.with_ErrorMessage m (Video.with_Status s r)))
              (EvStatus id s) w1) as (F & _ & _ & _ & V & _).
  splits; auto.
  - unfold no_faults. rewrite F. exact NF.
  - intros row Hin Hid. rewrite V in Hin.
    apply in_update_videos_same in Hin; auto.
    destruct Hin as (r0 & _ & _ & ->). simpl. auto.
  - intros row Hin Hid. rewrite V in Hin.
    eapply in_update_videos_other; [|exact Hin|exact Hid]. intros r0. reflexivity.
Qed.

Lemma evolves_other id ss F w w' row :
  evolves id ss F w w' -> In row (videos w') -> Video.ID row <> id ->
  In row (videos w).
Proof.
  intros (_ & V & HW & _) Hin Hid. rewrite V in Hin.
  eapply in_update_videos_other; eauto. intros r. apply HW.
Qed.

(** X6. When the store answers every statement, the pipeline of one
    video never leaves it pending or half-way: if [processVideo]
    returns nil the row of the video is [completed] with an empty error
    message, if it returns an error the row is [failed] and carries the
    text of that error.  The video is then not returned by
    [GetPendingVideos] (so a failed video is not retried), and no row
    of another video is created. *)
Theorem processVideo_ends_completed_or_failed :
  forall (p : VideoProcessor.t) (v : Video.t) (w : World) r w',
    no_faults w ->
    VideoProcessor.processVideo p v w = (r, w') ->
    no_faults w'
    /\ (forall row, In row (videos w') -> Video.ID row = Video.ID v ->
          match r with
          | Ok _ => Video.Status row = VideoStatusCompleted
                    /\ Video.ErrorMessage row = ""
          | Err e => Video.Status row = VideoStatusFailed
                     /\ Video.ErrorMessage row = e
          end)
    /\ (forall row, In row (videos w') -> Video.ID row <> Video.ID v ->
          In row (videos w))
    /\ (forall n vs w2,
          VideoRepository.GetPendingVideos n w' = (Ok vs, w2) ->
          forall x, In x vs -> Video.ID x <> Video.ID v).
Proof.
  intros p v w r w' NF Hrun.
  assert (Core :
    no_faults w'
    /\ (forall row, In row (videos w') -> Video.ID row = Video.ID v ->
          match r with
          | Ok _ => Video.Status row = VideoStatusCompleted
                    /\ Video.ErrorMessage row = ""
          | Err e => Video.Status row = VideoStatusFailed
                     /\ Video.ErrorMessage row = e
          end)
    /\ (forall row, In row (videos w') -> Video.ID row <> Video.ID v ->
          In row (videos w))).
  { unfold VideoProcessor.processVideo in Hrun.
    apply bind_inv in Hrun. destruct Hrun as [(rd & w1 & E1 & Hrun)|(e & E1 & _)].
    2:{ apply attempt_inv in E1. destruct E1 as (r0 & _ & D). discriminate. }
    apply attempt_inv in E1. destruct E1 as (r0 & E1 & E). inv E.
    pose proof (keeps_downloadVideo no_faults p v w r0 w1 NF E1) as NF1.
    apply downloadVideo_spec in E1. destruct E1 as (ss1 & F1 & Ev1 & Hd).
    destruct r0 as [v1|e1].
    - destruct Hd as (_ & Hid1 & _).
      apply bind_inv in Hrun. destruct Hrun as [(ru & w2 & E2 & Hrun)|(e & E2 & _)].
      2:{ apply attempt_inv in E2. destruct E2 as (r0 & _ & D). discriminate. }
      apply attempt_inv in E2. destruct E2 as (r0 & E2 & E). inv E.
      pose proof (keeps_uploadVideo no_faults p v1 w1 r0 w2 NF1 E2) as NF2.
      apply uploadVideo_spec in E2. destruct E2 as (ss2 & F2 & Ev2 & Hu).
      rewrite Hid1 in Ev2.
      destruct r0 as [v2|e2].
      + destruct Hu as (_ & Hid2 & _). rewrite Hid2, Hid1 in Hrun.
        destruct (final_status_write _ _ _ _ _ _ NF2 Hrun) as (-> & NF' & Hrow & Hoth).
        splits; auto. intros row Hin Hne.
        eapply evolves_other; [exact Ev1| |exact Hne].
        eapply evolves_other; [exact Ev2| |exact Hne]. auto.
      + rewrite Hid1 in Hrun.
        apply bind_inv in Hrun. destruct Hrun as [(u & w3 & E3 & Hrun)|(e & E3 & _)].
        2:{ apply attempt_inv in E3. destruct E3 as (r0 & _ & D). discriminate. }
        apply attempt_inv in E3. destruct E3 as (r0 & E3 & _).
        unfold fail in Hrun. inv Hrun.
        destruct (final_status_write _ _ _ _ _ _ NF2 E3) as (_ & NF' & Hrow & Hoth).
        splits; auto. intros row Hin Hne.
        eapply evolves_other; [exact Ev1| |exact Hne].
        eapply evolves_other; [exact Ev2| |exact Hne]. auto.
    - apply bind_inv in Hrun. destruct Hrun as [(u & w3 & E3 & Hrun)|(e & E3 & _)].
      2:{ apply attempt_inv in E3. destruct E3 as (r0 & _ & D). discriminate. }
      apply attempt_inv in E3. destruct E3 as (r0 & E3 & _).
      unfold fail in Hrun. inv Hrun.
      destruct (final_status_write _ _ _ _ _ _ NF1 E3) as (_ & NF' & Hrow & Hoth).
      splits; auto. intros row Hin Hne.
      eapply evolves_other; [exact Ev1| |exact Hne]. auto. }
  destruct Core as (NF' & Hrow & Hoth). splits; auto.
  intros n vs w2 Hp x Hx Hid.
  destruct (GetPendingVideos_in n w' vs w2 Hp x Hx) as [Hin Hs].
  specialize (Hrow x Hin Hid). destruct r; destruct Hrow as [Hst _];
    rewrite Hs in Hst; discriminate.
Qed.

(** ** The queue of pending videos *)

Lemma insert_by_sorted {A} (key : A -> Z) x l :
  StronglySorted (fun a b => key a <= key b) l ->
  StronglySorted (fun a b => key a <= key b) (insert_by key x l).
Proof.
  induction 1 as [|y l Hs IH Hy]; simpl.
  - repeat constructor.
  - destruct (key x <? key y) eqn:E.
    + apply Z.ltb_lt in E. constructor; [constructor; assumption|].
      constructor; [lia|].
      rewrite Forall_forall in *. intros z Hz. specialize (Hy z Hz). lia.
    + apply Z.ltb_ge in E. constructor; [exact IH|].
      rewrite Forall_forall in *. intros z Hz. apply in_insert_by in Hz.
      destruct Hz as [->|Hz]; [exact E|auto].
Qed.

Lemma order_by_sorted {A} (key : A -> Z) l :
  StronglySorted (fun a b => key a <= key b) (order_by key l).
Proof.
  unfold order_by.
  assert (G : forall acc,
             StronglySorted (fun a b => key a <= key b) acc ->
             StronglySorted (fun a b => key a <= key b)
               (fold_left (fun acc x => insert_by key x acc) l acc)).
  { induction l as [|x l IH]; intros acc Hs; simpl; [exact Hs|].
    apply IH. apply insert_by_sorted. exact Hs. }
  apply G. constructor.
Qed.

Lemma sorted_app_inv {A} (R : A -> A -> Prop) l1 l2 :
  StronglySorted R (l1 ++ l2) ->
  StronglySorted R l1 /\ forall x y, In x l1 -> In y l2 -> R x y.
Proof.
  induction l1 as [|a l1 IH]; simpl; intros H.
  - split; [constructor|]. intros x y [].
  - inversion H as [|? ? Hs Ha]; subst. destruct (IH Hs) as [S1 S2]. split.
    + constructor; [exact S1|]. rewrite Forall_forall in *.
      intros z Hz. apply Ha. apply in_or_app. auto.
    + intros x y [<-|Hx] Hy; [|auto]. rewrite Forall_forall in Ha.
      apply Ha. apply in_or_app. auto.
Qed.

Lemma limit_rows_spec {A} (n : Z) (l : list A) :
  exists rest,
    l = (limit_rows n l ++ rest)%list
    /\ length (limit_rows n l)
       = (if n <? 0 then length l else Nat.min (Z.to_nat n) (length l)).
Proof.
  unfold limit_rows. destruct (n <? 0).
  - exists []. rewrite app_nil_r. auto.
  - exists (skipn (Z.to_nat n) l). rewrite firstn_skipn, length_firstn. auto.
Qed.

(** What [GetPendingVideos] returns. *)
Lemma GetPendingVideos_oldest :
  forall (n : Z) (w : World),
    (no_faults w -> is_ok (fst (VideoRepository.GetPendingVideos n w)) = true)
    /\ forall vs,
        fst (VideoRepository.GetPendingVideos n w) = Ok vs ->
        (forall x, In x vs ->
                   In x (videos w) /\ Video.Status x = VideoStatusPending)
        /\ length vs = (if n <? 0 then pending_count w
                        else Nat.min (Z.to_nat n) (pending_count w))
        /\ StronglySorted (fun a b => Video.CreatedAt a <= Video.CreatedAt b) vs
        /\ (forall x y, In x vs -> In y (videos w) ->
                        Video.Status y = VideoStatusPending ->
                        Video.CreatedAt y < Video.CreatedAt x -> In y vs)
        /\ fst (VideoRepository.CountPending w) = Ok (Z.of_nat (pending_count w))
        /\ videos (snd (VideoRepository.GetPendingVideos n w)) = videos w.
Proof.
  intros n w.
  unfold VideoRepository.GetPendingVideos, VideoRepository.CountPending.
  monad_unfold.
  destruct (statement w) as [r0 w0] eqn:S. apply statement_spec in S.
  destruct S as [-> [(e & fs & -> & Hf)|[-> Hf]]]; simpl.
  - split; [intros NF; exfalso; eapply no_faults_head; eauto|].
    intros vs D. discriminate.
  - split; [reflexivity|]. intros vs E. inv E.
    set (L := order_by Video.CreatedAt
                (filter (fun r => Video.Status r == VideoStatusPending) (videos w))).
    destruct (limit_rows_spec n L) as (rest & HL & Hlen).
    pose proof (order_by_sorted Video.CreatedAt
                  (filter (fun r => Video.Status r == VideoStatusPending) (videos w)))
      as Hsorted.
    fold L in Hsorted. rewrite HL in Hsorted.
    apply sorted_app_inv in Hsorted. destruct Hsorted as [S1 S2].
    assert (HinL : forall x, In x L <-> In x (videos w)
                                        /\ Video.Status x = VideoStatusPending).
    { intros x. unfold L. rewrite (proj2 (order_by_spec _ _)), filter_In.
      split; intros [H1 H2]; split; auto; apply String.eqb_eq; auto. }
    splits; auto.
    + intros x Hx. apply HinL. rewrite HL. apply in_or_app. auto.
    + rewrite Hlen. unfold L, pending_count.
      rewrite (proj1 (order_by_spec _ _)). reflexivity.
    + intros x y Hx Hy Hp Hlt.
      assert (HyL : In y L) by (apply HinL; auto).
      rewrite HL in HyL. apply in_app_or in HyL. destruct HyL as [H|H]; [exact H|].
      specialize (S2 x y Hx H). simpl in S2. lia.
Qed.

(** X7. [GetPendingVideos n] returns pending rows of the table only,
    oldest first by [created_at]; it returns [min n count] of them for
    [n >= 0] and all of them for a negative [n] (SQLite reads a
    negative LIMIT as no limit), [count] being what [CountPending]
    returns; every pending row older than a returned one is returned
    too.  It succeeds when the store answers and changes no row. *)
Theorem GetPendingVideos_returns_the_oldest_pending :
  forall (n : Z) (w : World),
    (no_faults w -> is_ok (fst (VideoRepository.GetPendingVideos n w)) = true)
    /\ forall vs,
        fst (VideoRepository.GetPendingVideos n w) = Ok vs ->
        (forall x, In x vs ->
                   In x (videos w) /\ Video.Status x = VideoStatusPending)
        /\ length vs = (if n <? 0 then pending_count w
                        else Nat.min (Z.to_nat n) (pending_count w))
        /\ StronglySorted (fun a b => Video.CreatedAt a <= Video.CreatedAt b) vs
        /\ (forall x y, In x vs -> In y (videos w) ->
                        Video.Status y = VideoStatusPending ->
                        Video.CreatedAt y < Video.CreatedAt x -> In y vs)
        /\ fst (VideoRepository.CountPending w) = Ok (Z.of_nat (pending_count w))
        /\ videos (snd (VideoRepository.GetPendingVideos n w)) = videos w.
Proof. exact GetPendingVideos_oldest. Qed.

(** ** The pipeline at a concrete store *)

(** The pending video [vid-1] of the fixture is not pending after its
    pipeline has run. *)
Lemma processVideo_ends_completed_or_failed_witness :
  existsb (fun x => Video.ID x == "vid-1")
    match fst (VideoRepository.GetPendingVideos 10
                 (snd (VideoProcessor.processVideo Fx5.processor Fx5.pending1
                         Fx5.world)))
    with
    | Ok vs => vs
    | Err _ => []
    end = false.
Proof.
  set (run := VideoProcessor.processVideo Fx5.processor Fx5.pending1 Fx5.world).
  destruct (processVideo_ends_completed_or_failed Fx5.processor Fx5.pending1
              Fx5.world (fst run) (snd run)) as (_ & _ & _ & H).
  - reflexivity.
  - apply surjective_pairing.
  - destruct (VideoRepository.GetPendingVideos 10 (snd run)) as [[vs|e] w2] eqn:E;
      simpl; [|reflexivity].
    destruct (existsb (fun x => Video.ID x == "vid-1") vs) eqn:X; [|reflexivity].
    apply existsb_exists in X. destruct X as (x & Hx & Hid).
    apply String.eqb_eq in Hid. destruct (H 10 vs w2 E x Hx Hid).
Defined.

(** ** Polling every active job *)

Lemma listed_channels_app t1 t2 :
  listed_channels (t1 ++ t2) = (listed_channels t1 ++ listed_channels t2)%list.
Proof. apply flat_map_app. Qed.

Lemma quiet_pass_refl id w : quiet_pass id w w.
Proof. split; [exists []; rewrite app_nil_r; auto|auto]. Qed.

Lemma quiet_pass_trans id w1 w2 w3 :
  quiet_pass id w1 w2 -> quiet_pass id w2 w3 -> quiet_pass id w1 w3.
Proof.
  intros [(t1 & T1 & L1) A1] [(t2 & T2 & L2) A2]. split.
  - exists (t1 ++ t2)%list. rewrite T2, T1, app_assoc, listed_channels_app, L1, L2.
    auto.
  - intros id' Hne. rewrite (A2 id' Hne). auto.
Qed.

Lemma quiet_pass_event id w e :
  listed_channels [e] = [] -> quiet_pass id w (set_trace (trace w ++ [e]) w).
Proof. intros H. split; [exists [e]; auto|auto]. Qed.

Lemma quiet_pass_frame id w w' :
  trace w' = trace w -> accounts w' = accounts w -> quiet_pass id w w'.
Proof.
  intros T A. split.
  - exists []. rewrite app_nil_r. auto.
  - intros id' _. unfold account_row. rewrite A. reflexivity.
Qed.

Lemma scanVideos_quiet id account cutoff vids w r w' :
  AccountMonitor.scanVideos account cutoff vids w = (r, w') -> quiet_pass id w w'.
Proof.
  intros E. apply scanVideos_spec in E.
  destruct E as (oks & errs & _ & _ & _ & _ & A & _ & _ & T & _). split.
  - exists (lookup_events vids oks). split; [exact T|].
    unfold lookup_events, listed_channels.
    induction (combine vids oks) as [|x l IH]; simpl; auto.
  - intros id' _. unfold account_row. rewrite A. reflexivity.
Qed.

Lemma saveVideos_quiet id vs : forall w r w',
  AccountMonitor.saveVideos vs w = (r, w') -> quiet_pass id w w'.
Proof.
  induction vs as [|v vs IH]; intros w r w' E; simpl in E.
  - inv E. apply quiet_pass_refl.
  - apply bind_inv in E. destruct E as [(r1 & w1 & E1 & E)|(e & E1 & _)].
    2:{ apply attempt_inv in E1. destruct E1 as (r0 & _ & D). discriminate. }
    apply attempt_inv in E1. destruct E1 as (r0 & E1 & _).
    apply VideoRepository_Save_spec in E1.
    destruct E1 as (_ & A1 & _ & S1).
    assert (Q1 : quiet_pass id w w1).
    { split.
      - destruct S1 as [(_ & _ & T & _)|(_ & _ & T & _)]; eexists; split;
          try exact T; reflexivity.
      - intros id' _. unfold account_row. rewrite A1. reflexivity. }
    apply bind_inv in E. destruct E as [(acc & w2 & E2 & E)|(e & E2 & _)].
    + apply IH in E2. destruct r1; unfold ret in E; inv E;
        eapply quiet_pass_trans; eauto.
    + apply IH in E2. eapply quiet_pass_trans; eauto.
Qed.

Lemma UpdateLastChecked_quiet id v t w r w' :
  AccountRepository.UpdateLastChecked id v t w = (r, w') -> quiet_pass id w w'.
Proof.
  unfold AccountRepository.UpdateLastChecked. intros E.
  run_statement E; [inv E; apply quiet_pass_frame; reflexivity|].
  destruct (has_account id (accounts w)); inv E;
    [|apply quiet_pass_frame; reflexivity].
  split.
  - eexists [_]. split; reflexivity.
  - intros id' Hne. unfold account_row, update_accounts. simpl.
    induction (accounts w) as [|x l IH]; simpl; auto.
    destruct (String.eqb_spec (Account.ID x) id) as [E|E]; simpl.
    + subst id. destruct (String.eqb_spec (Account.ID x) id'); [congruence|].
      exact IH.
    + destruct (Account.ID x == id'); auto.
Qed.

(** One pass lists the channel of its job once, first, and leaves the
    rows of the other jobs alone. *)
Lemma monitorAccount_lists_once `{SortSlice} m account w r w' :
  AccountMonitor.monitorAccount m account w = (r, w') ->
  quiet_pass (Account.ID account)
    (set_trace (trace w ++ [EvList (Account.YouTubeChannelID account)]) w) w'.
Proof.
  intros Hrun. unfold AccountMonitor.monitorAccount in Hrun.
  apply bind_inv in Hrun. destruct Hrun as [(cutoff & w0 & E0 & Hrun)|(e & E0 & _)].
  2:{ destruct (time.IsZero (Account.LastCheckedAt account)); discriminate. }
  assert (w0 = w) as ->.
  { destruct (time.IsZero (Account.LastCheckedAt account)); inv E0; auto. }
  clear E0.
  apply bind_inv in Hrun. destruct Hrun as [(u & w1 & E1 & Hrun)|(e & E1 & _)];
    [|discriminate].
  unfold emit in E1. inv E1.
  apply bind_inv in Hrun. destruct Hrun as [(vids & w1 & E1 & Hrun)|(e & E1 & _)].
  2:{ unfold wrap, lift in E1.
      destruct (youtube_GetLatestVideos _ _ _); inv E1. apply quiet_pass_refl. }
  assert (w1 = set_trace (trace w ++ [EvList (Account.YouTubeChannelID account)]) w)
    as ->.
  { unfold wrap, lift in E1. destruct (youtube_GetLatestVideos _ _ _); inv E1.
    reflexivity. }
  clear E1.
  apply bind_inv in Hrun. destruct Hrun as [(scanned & w1 & E1 & Hrun)|(e & E1 & _)];
    pose proof (scanVideos_quiet (Account.ID account) _ _ _ _ _ _ E1) as Q1;
    [|exact Q1].
  apply bind_inv in Hrun. destruct Hrun as [(saved & w2 & E2 & Hrun)|(e & E2 & _)];
    pose proof (saveVideos_quiet (Account.ID account) _ _ _ _ E2) as Q2;
    pose proof (quiet_pass_trans _ _ _ _ Q1 Q2) as Q12; [|exact Q12].
  destruct (0 <? length (snd scanned ++ snd saved))%nat.
  - unfold fail in Hrun. inv Hrun. exact Q12.
  - apply bind_inv in Hrun. destruct Hrun as [(nw & w3 & E3 & Hrun)|(e & E3 & _)];
      [|discriminate].
    unfold time_Now in E3. injection E3 as En Ew. subst nw w3.
    apply bind_inv in Hrun. destruct Hrun as [(u0 & w4 & E4 & Hrun)|(e & E4 & _)].
    + apply wrap_inv in E4. destruct E4 as [(a & E4 & _)|(e & _ & D)]; [|discriminate].
      apply UpdateLastChecked_quiet in E4.
      assert (w' = w4) as ->.
      { destruct (AccountMonitor.videoProcessor m); unfold ret in Hrun; inv Hrun; auto. }
      eapply quiet_pass_trans; eauto.
    + apply wrap_inv in E4. destruct E4 as [(a & _ & D)|(e0 & E4 & _)]; [discriminate|].
      apply UpdateLastChecked_quiet in E4. eapply quiet_pass_trans; eauto.
Qed.

Lemma monitorAccounts_lists_each `{SortSlice} m accs : forall w r w',
  AccountMonitor.monitorAccounts m accs w = (r, w') ->
  (exists t, trace w' = (trace w ++ t)%list
             /\ listed_channels t = map Account.YouTubeChannelID accs)
  /\ (forall id, ~ In id (map Account.ID accs) ->
                 account_row id w' = account_row id w)
  /\ exists errs, r = Ok errs /\ (length errs <= length accs)%nat.
Proof.
  induction accs as [|a accs IH]; intros w r w' E; simpl in E.
  - inv E. splits; auto.
    + exists []. rewrite app_nil_r. auto.
    + exists []. auto.
  - apply bind_inv in E. destruct E as [(r1 & w1 & E1 & E)|(e & E1 & _)].
    2:{ apply attempt_inv in E1. destruct E1 as (r0 & _ & D). discriminate. }
    apply attempt_inv in E1. destruct E1 as (r0 & E1 & _).
    apply monitorAccount_lists_once in E1. destruct E1 as [(t1 & T1 & L1) A1].
    simpl in T1.
    apply bind_inv in E. destruct E as [(errs & w2 & E2 & E)|(e & E2 & _)].
    2:{ apply IH in E2. destruct E2 as (_ & _ & errs & D & _). discriminate. }
    apply IH in E2. destruct E2 as ((t2 & T2 & L2) & A2 & errs0 & Eerrs & Hlen).
    injection Eerrs as <-.
    assert (Hw : w' = w2 /\ exists errs', r = Ok errs'
                                           /\ (length errs' <= S (length accs))%nat).
    { destruct r1; unfold ret in E; inv E; split; auto; eexists; split;
        try reflexivity; simpl; lia. }
    destruct Hw as [-> Hr]. splits; auto.
    + exists ([EvList (Account.YouTubeChannelID a)] ++ t1 ++ t2)%list.
      rewrite T2, T1, <- !app_assoc. split; [reflexivity|].
      rewrite !listed_channels_app, L1, L2. reflexivity.
    + intros id Hnot. simpl in Hnot.
      rewrite A2 by tauto. apply A1. intros Eq. apply Hnot. auto.
Qed.

(** X8. A pass over one job asks for the listing of the channel of that
    job first, and asks for no other listing; whatever it stores, the
    rows of the other jobs in table [accounts] are as they were. *)
Theorem monitorAccount_touches_only_its_own_job :
  forall (S : SortSlice) (m : AccountMonitor.t) (account : Account.t) (w : World),
    let w' := snd (AccountMonitor.monitorAccount m account w) in
    (exists t,
        trace w' = (trace w ++ EvList (Account.YouTubeChannelID account) :: t)%list
        /\ listed_channels t = [])
    /\ forall id, id <> Account.ID account -> account_row id w' = account_row id w.
Proof.
  intros S m account w.
  destruct (AccountMonitor.monitorAccount m account w) as [r w'] eqn:E. simpl.
  apply monitorAccount_lists_once in E. destruct E as [(t & T & L) A].
  simpl in T. split.
  - exists t. rewrite T, <- app_assoc. auto.
  - intros id Hne. rewrite (A id Hne). reflexivity.
Qed.

(** X9. [MonitorAllAccounts], its passes run one after the other in the
    order of the list: when [GetAllActive] fails it fails, lists
    nothing and changes no row; otherwise the channels listed are
    those of the active jobs, once each, and only rows of active jobs
    can change.  With no active job it returns nil at once.  The
    channel of an inactive job is not listed, unless an active job
    watches the same channel. *)
Theorem MonitorAllAccounts_polls_each_active_job_once :
  forall (S : SortSlice) (m : AccountMonitor.t) (w : World),
    let r := fst (AccountMonitor.MonitorAllAccounts m w) in
    let w' := snd (AccountMonitor.MonitorAllAccounts m w) in
    let active := order_by Account.CreatedAt (filter Account.IsActive (accounts w)) in
    exists t,
      trace w' = (trace w ++ t)%list
      /\ ((is_ok r = false /\ listed_channels t = [] /\ accounts w' = accounts w
           /\ videos w' = videos w /\ exists fs, faults w = true :: fs)
          \/ (listed_channels t = map Account.YouTubeChannelID active
              /\ (forall id, ~ In id (map Account.ID active) ->
                             account_row id w' = account_row id w)
              /\ (active = [] -> r = Ok tt /\ t = [])))
      /\ (forall a, In a (accounts w) -> Account.IsActive a = false ->
            (forall b, In b (accounts w) -> Account.IsActive b = true ->
                       Account.YouTubeChannelID b <> Account.YouTubeChannelID a) ->
            ~ In (Account.YouTubeChannelID a) (listed_channels t)).
Proof.
  intros S m w.
  destruct (AccountMonitor.MonitorAllAccounts m w) as [r w'] eqn:Hrun. simpl.
  unfold AccountMonitor.MonitorAllAccounts in Hrun.
  assert (Hactive : forall x,
             In x (order_by Account.CreatedAt (filter Account.IsActive (accounts w)))
             <-> In x (accounts w) /\ Account.IsActive x = true).
  { intros x. rewrite (proj2 (order_by_spec _ _)). apply filter_In. }
  assert (Hnever : forall t,
             listed_channels t = []
             \/ listed_channels t
                = map Account.YouTubeChannelID
                    (order_by Account.CreatedAt (filter Account.IsActive (accounts w))) ->
             forall a, In a (accounts w) -> Account.IsActive a = false ->
               (forall b, In b (accounts w) -> Account.IsActive b = true ->
                          Account.YouTubeChannelID b <> Account.YouTubeChannelID a) ->
               ~ In (Account.YouTubeChannelID a) (listed_channels t)).
  { intros t [-> | ->] a Ha Hoff Hother Hin; [destruct Hin|].
    apply in_map_iff in Hin. destruct Hin as (b & Hb & Hbin).
    apply Hactive in Hbin. destruct Hbin as [Hbin Hon].
    exact (Hother b Hbin Hon Hb). }
  apply bind_inv in Hrun. destruct Hrun as [(accs & w1 & E1 & Hrun)|(e & E1 & ->)].
  - apply wrap_inv in E1. destruct E1 as [(a & E1 & Ea)|(e0 & _ & D)]; [|discriminate].
    inv Ea. unfold AccountRepository.GetAllActive in E1.
    run_statement E1; inv E1.
    set (active := order_by Account.CreatedAt (filter Account.IsActive (accounts w)))
      in *.
    destruct active as [|a0 rest] eqn:Eact.
    + unfold ret in Hrun. inv Hrun. exists []. simpl. rewrite app_nil_r.
      splits; auto; try (right; splits; auto).
    + assert (Hne : a0 :: rest <> []) by discriminate.
      rewrite <- Eact in *. clear Eact.
      apply bind_inv in Hrun. destruct Hrun as [(errs & w2 & E2 & Hrun)|(e & E2 & _)].
      2:{ apply monitorAccounts_lists_each in E2.
          destruct E2 as (_ & _ & errs & D & _). discriminate. }
      apply monitorAccounts_lists_each in E2.
      destruct E2 as ((t & T & L) & A & _). simpl in T, A.
      assert (w' = w2) as ->.
      { destruct (0 <? length errs)%nat; unfold fail, ret in Hrun; inv Hrun; auto. }
      exists t. splits; auto.
      right. splits; auto. intros D. contradiction.
  - apply wrap_inv in E1. destruct E1 as [(a & _ & D)|(e0 & E1 & _)]; [discriminate|].
    unfold AccountRepository.GetAllActive in E1.
    run_statement E1; inv E1. exists []. simpl. rewrite app_nil_r.
    splits; auto. left. splits; eauto.
Qed.

(** * The admission channels: progress *)

Module admission_progress.

Import admission admission_facts.

(** What a goroutine holds while it waits, and what it waits for while
    it holds. *)
Lemma valid_positions t :
  valid t ->
  (code t = [] -> held t = [])
  /\ (forall c rest,
        code t = Send c :: rest \/ code t = SendOrDone c :: rest ->
        count DownloadSem (held t) = O /\ count UploadSem (held t) = O
        /\ (c = WorkerPool \/ c = ProcessingLimiter -> held t = []))
  /\ ((1 <= count DownloadSem (held t))%nat ->
      exists rest, code t = Recv DownloadSem :: rest)
  /\ ((1 <= count UploadSem (held t))%nat ->
      exists rest, code t = Recv UploadSem :: rest)
  /\ (length (code (advance t)) = Nat.pred (length (code t))).
Proof.
  intros [(k & path & n & Hn & ->) | ->].
  - positions k path n Hn; cbn; facts; try (eexists; reflexivity).
  - cbn. facts.
Qed.

Lemma capacity_positive cfg c :
  0 < config.WorkerPoolSize cfg -> 0 < config.MaxConcurrentDownloads cfg ->
  0 < config.MaxConcurrentUploads cfg -> 0 < capacity cfg c.
Proof.
  intros Hw Hd Hu. destruct c; simpl; auto.
  unfold AccountMonitor.limiterSize.
  destruct (config.WorkerPoolSize cfg <=? 0); lia.
Qed.

Lemma sum_ge_in (f : Thread -> nat) l t :
  In t l -> (f t <= list_sum (map f l))%nat.
Proof.
  intros H. apply In_nth_error in H. destruct H as [i H].
  eapply sum_ge_nth; eauto.
Qed.

Lemma sum_pos (f : Thread -> nat) l :
  (1 <= list_sum (map f l))%nat -> exists t, In t l /\ (1 <= f t)%nat.
Proof.
  induction l as [|x l IH]; simpl; [lia|]. intros H.
  destruct (f x) eqn:E.
  - destruct IH as (t & Ht & Hf); [lia|]. exists t. auto.
  - exists x. split; [auto|lia].
Qed.

Lemma sum_zero (f : Thread -> nat) l :
  (forall t, In t l -> f t = O) -> list_sum (map f l) = O.
Proof.
  induction l as [|x l IH]; simpl; intros H; [reflexivity|].
  rewrite (H x), IH; auto.
Qed.

(** A ready goroutine moves. *)
Lemma exec_Run_ready cfg s i t :
  nth_error (threads s) i = Some t -> ready cfg s t = true ->
  exists s', exec cfg (Run i) s = Some s'
             /\ threads s' = replace_nth i (advance t) (threads s).
Proof.
  intros Hn Hr. unfold ready in Hr. simpl. rewrite Hn.
  destruct (code t) as [|[c|c|c|c|d| |] rest]; try discriminate;
    try rewrite Hr; eexists; split; reflexivity.
Qed.

(** A goroutine that holds a slot of a channel proves the channel is
    not empty. *)
Lemma holder_chan cfg s t c :
  Inv cfg s -> In t (threads s) -> (1 <= count c (held t))%nat ->
  (1 <= chans s c)%nat.
Proof.
  intros (Hch & _ & _) Hin Hc. rewrite Hch. unfold holders.
  pose proof (sum_ge_in (fun t => count c (held t)) _ _ Hin). simpl in *. lia.
Qed.

(** A goroutine at a receive is ready. *)
Lemma receiver_ready cfg s t c rest :
  Inv cfg s -> In t (threads s) ->
  code t = Recv c :: rest \/ code t = TryRecv c :: rest -> ready cfg s t = true.
Proof.
  intros HI Hin Hcode.
  assert (Hv : valid t).
  { destruct HI as (_ & Hval & _). rewrite Forall_forall in Hval. auto. }
  destruct (valid_facts t Hv) as (_ & _ & Hrecv & _).
  pose proof (Hrecv c rest Hcode) as Hc.
  assert (Hch : (1 <= chans s c)%nat) by (eapply holder_chan; eauto; lia).
  unfold ready. destruct Hcode as [-> | ->]; apply Nat.ltb_lt; lia.
Qed.

(** With positive capacities, some goroutine that has not returned is
    ready. *)
Lemma some_ready cfg s :
  0 < config.WorkerPoolSize cfg -> 0 < config.MaxConcurrentDownloads cfg ->
  0 < config.MaxConcurrentUploads cfg ->
  Inv cfg s ->
  (exists t, In t (threads s) /\ code t <> []) ->
  exists t, In t (threads s) /\ ready cfg s t = true.
Proof.
  intros Hw Hd Hu HI (t0 & Hin0 & Hcode0).
  pose proof (capacity_positive cfg) as Hcap.
  assert (Hvalid : forall t, In t (threads s) -> valid t).
  { destruct HI as (_ & Hval & _). rewrite Forall_forall in Hval. auto. }
  (* a holder of the download or of the upload semaphore is at its receive *)
  assert (Hsem : forall c, c = DownloadSem \/ c = UploadSem ->
                  (1 <= chans s c)%nat ->
                  exists t, In t (threads s) /\ ready cfg s t = true).
  { intros c Hc Hpos. destruct HI as (Hch & Hval & Hle).
    rewrite Hch in Hpos. unfold holders in Hpos. apply sum_pos in Hpos.
    destruct Hpos as (t & Hin & Hheld). exists t. split; [exact Hin|].
    destruct (valid_positions t (Hvalid t Hin)) as (_ & _ & HD & HU & _).
    destruct Hc as [-> | ->].
    - destruct (HD Hheld) as [rest Hrest].
      eapply receiver_ready; eauto. split; eauto.
    - destruct (HU Hheld) as [rest Hrest].
      eapply receiver_ready; eauto. split; eauto. }
  destruct (chans s DownloadSem) as [|nd] eqn:ED;
    [|apply (Hsem DownloadSem); [auto|lia]].
  destruct (chans s UploadSem) as [|nu] eqn:EU;
    [|apply (Hsem UploadSem); [auto|lia]].
  (* both semaphores are free *)
  assert (Hfree : forall t c rest, In t (threads s) ->
                    code t = Send c :: rest \/ code t = SendOrDone c :: rest ->
                    c = DownloadSem \/ c = UploadSem -> ready cfg s t = true).
  { intros t c rest Hin Hcode Hc. unfold ready.
    destruct Hcode as [-> | ->]; apply Z.ltb_lt;
      (destruct Hc as [-> | ->]; [rewrite ED|rewrite EU]);
      try (specialize (Hcap DownloadSem Hw Hd Hu); simpl in *; lia);
      try (specialize (Hcap UploadSem Hw Hd Hu); simpl in *; lia). }
  (* a goroutine that holds a slot is ready *)
  assert (Hholder : forall t, In t (threads s) -> held t <> [] ->
                      ready cfg s t = true).
  { intros t Hin Hheld.
    destruct (valid_positions t (Hvalid t Hin)) as (Hnil & Hsend & _).
    destruct (code t) as [|[c|c|c|c|d| |] rest] eqn:Hcode;
      try (unfold ready; rewrite Hcode; reflexivity).
    - exfalso. apply Hheld. apply Hnil. reflexivity.
    - destruct (Hsend c rest (or_introl eq_refl)) as (_ & _ & Hfirst).
      destruct c; try (exfalso; apply Hheld; apply Hfirst; auto; fail);
        eapply Hfree; eauto.
    - eapply receiver_ready; eauto.
    - eapply receiver_ready; eauto.
    - destruct (Hsend c rest (or_intror eq_refl)) as (_ & _ & Hfirst).
      destruct c; try (exfalso; apply Hheld; apply Hfirst; auto; fail);
        eapply Hfree; eauto. }
  (* a full channel has a holder *)
  assert (Hfull : forall c, capacity cfg c <= Z.of_nat (chans s c) ->
                    exists t, In t (threads s) /\ ready cfg s t = true).
  { intros c Hc. specialize (Hcap c Hw Hd Hu).
    destruct HI as (Hch & Hval & Hle).
    assert (Hpos : (1 <= holders c s)%nat) by (rewrite <- Hch; lia).
    unfold holders in Hpos. apply sum_pos in Hpos.
    destruct Hpos as (t & Hin & Hheld). exists t. split; [exact Hin|].
    apply Hholder; [exact Hin|]. intros E. rewrite E in Hheld. simpl in Hheld. lia. }
  destruct (code t0) as [|[c|c|c|c|d| |] rest] eqn:Hcode; [congruence| | | | | | | ].
  - destruct (Z.of_nat (chans s c) <? capacity cfg c) eqn:E.
    + exists t0. split; [exact Hin0|]. unfold ready. rewrite Hcode. exact E.
    + apply (Hfull c). apply Z.ltb_ge in E. exact E.
  - exists t0. split; [exact Hin0|]. eapply receiver_ready; eauto.
  - exists t0. split; [exact Hin0|]. eapply receiver_ready; eauto.
  - destruct (Z.of_nat (chans s c) <? capacity cfg c) eqn:E.
    + exists t0. split; [exact Hin0|]. unfold ready. rewrite Hcode. exact E.
    + apply (Hfull c). apply Z.ltb_ge in E. exact E.
  - exists t0. split; [exact Hin0|]. unfold ready. rewrite Hcode. reflexivity.
  - exists t0. split; [exact Hin0|]. unfold ready. rewrite Hcode. reflexivity.
  - exists t0. split; [exact Hin0|]. unfold ready. rewrite Hcode. reflexivity.
Qed.

Lemma length_replace_nth (x : Thread) l : forall i,
  length (replace_nth i x l) = length l.
Proof. induction l as [|y l IH]; intros [|i]; simpl; auto. Qed.

Lemma run_app cfg s1 : forall s s',
  run cfg s1 s = Some s' -> forall s2 s'',
  run cfg s2 s' = Some s'' -> run cfg (s1 ++ s2) s = Some s''.
Proof.
  induction s1 as [|x s1 IH]; intros s s' H s2 s'' H2; simpl in *.
  - inv H. exact H2.
  - destruct (exec cfg x s); [|discriminate]. eapply IH; eauto.
Qed.

(** The goroutines can run to completion. *)
Lemma completes cfg :
  0 < config.WorkerPoolSize cfg -> 0 < config.MaxConcurrentDownloads cfg ->
  0 < config.MaxConcurrentUploads cfg ->
  forall n s,
    Inv cfg s ->
    list_sum (map (fun t => length (code t)) (threads s)) = n ->
    exists more s',
      run cfg more s = Some s' /\ Forall is_Run more /\ length more = n
      /\ Forall finished (threads s')
      /\ length (threads s') = length (threads s) /\ Inv cfg s'.
Proof.
  intros Hw Hd Hu. induction n as [|n IH]; intros s HI Hsum.
  - exists [], s. splits; auto.
    apply Forall_forall. intros t Hin.
    pose proof (sum_ge_in (fun t => length (code t)) _ _ Hin) as Hle.
    simpl in Hle. unfold finished. destruct (code t); [reflexivity|simpl in Hle; lia].
  - assert (Hleft : exists t, In t (threads s) /\ code t <> []).
    { assert (Hpos : (1 <= list_sum (map (fun t => length (code t)) (threads s)))%nat)
        by lia.
      apply sum_pos in Hpos. destruct Hpos as (t & Hin & Hlen). exists t.
      split; [exact Hin|]. intros E. rewrite E in Hlen. simpl in Hlen. lia. }
    destruct (some_ready cfg s Hw Hd Hu HI Hleft) as (t & Hin & Hready).
    destruct (In_nth_error _ _ Hin) as [i Hnth].
    destruct (exec_Run_ready cfg s i t Hnth Hready) as (s1 & Hexec & Hthreads).
    assert (HI1 : Inv cfg s1) by (eapply exec_preserves; eauto).
    assert (Hv : valid t).
    { destruct HI as (_ & Hval & _). rewrite Forall_forall in Hval. auto. }
    destruct (valid_positions t Hv) as (_ & _ & _ & _ & Hlen).
    assert (Hcode : code t <> []).
    { unfold ready in Hready. intros E. rewrite E in Hready. discriminate. }
    assert (Hsum1 : list_sum (map (fun t => length (code t)) (threads s1)) = n).
    { rewrite Hthreads.
      pose proof (sum_replace_nth (fun t => length (code t)) (threads s) i t
                    (advance t) Hnth) as Hs.
      simpl in Hs. rewrite Hlen in Hs.
      destruct (code t); [congruence|simpl in Hs; lia]. }
    destruct (IH s1 HI1 Hsum1) as (more & s' & Hrun & Hall & Hmore & Hfin & Hlen' & HI').
    exists (Run i :: more), s'. splits; auto.
    + cbn [run]. rewrite Hexec. exact Hrun.
    + constructor; [exists i; reflexivity|exact Hall].
    + simpl. congruence.
    + rewrite Hlen', Hthreads. apply length_replace_nth.
Qed.

End admission_progress.

(** X10. With positive capacities the admission channels neither
    deadlock nor leak.  In every state the program reaches, with any
    number of batch and immediate goroutines started and whether or not
    the context is cancelled: if a goroutine has not returned, some
    goroutine can perform its next operation; and the goroutines can
    all run to completion without any of them giving up, in as many
    steps as they have operations left, after which the four channels
    are empty. *)
Theorem admission_channels_never_deadlock :
  forall (cfg : config.Config) (sched : list admission.Action) (s : admission.State),
    0 < config.WorkerPoolSize cfg ->
    0 < config.MaxConcurrentDownloads cfg ->
    0 < config.MaxConcurrentUploads cfg ->
    admission.run cfg sched admission.initial = Some s ->
    ((exists t, In t (admission.threads s) /\ ~ finished t) ->
     exists i t, nth_error (admission.threads s) i = Some t
                 /\ ~ finished t
                 /\ admission.exec cfg (admission.Run i) s <> None)
    /\ exists more s',
         admission.run cfg (sched ++ more) admission.initial = Some s'
         /\ Forall is_Run more
         /\ length more
            = list_sum (map (fun t => length (admission.code t)) (admission.threads s))
         /\ length (admission.threads s') = length (admission.threads s)
         /\ Forall finished (admission.threads s')
         /\ forall c, admission.chans s' c = O.
Proof.
  intros cfg sched s Hw Hd Hu Hrun.
  pose proof (admission_facts.reachable_Inv cfg s (ex_intro _ sched Hrun)) as HI.
  split.
  - intros Hleft.
    destruct (admission_progress.some_ready cfg s Hw Hd Hu HI Hleft)
      as (t & Hin & Hready).
    destruct (In_nth_error _ _ Hin) as [i Hnth].
    destruct (admission_progress.exec_Run_ready cfg s i t Hnth Hready)
      as (s1 & Hexec & _).
    exists i, t. splits; auto.
    + unfold finished, ready in *. intros E. rewrite E in Hready. discriminate.
    + rewrite Hexec. discriminate.
  - destruct (admission_progress.completes cfg Hw Hd Hu _ s HI eq_refl)
      as (more & s' & Hmore & Hall & Hlen & Hfin & Hthreads & HI').
    exists more, s'. splits; auto.
    + eapply admission_progress.run_app; eauto.
    + intros c. destruct HI' as (Hch & Hval & _). rewrite Hch.
      unfold admission.holders. apply admission_progress.sum_zero.
      intros t Hin. rewrite Forall_forall in Hfin, Hval.
      destruct (admission_progress.valid_positions t (Hval t Hin)) as (Hnil & _).
      rewrite (Hnil (Hfin t Hin)). reflexivity.
Qed.

Module admission_blocked.

Import admission admission_facts.

Ltac early k path n Hn :=
  destruct k, path;
  do 6 (try destruct n as [ | n]); try (exfalso; cbn in Hn; lia); clear Hn.

Lemma before_download_valid t : before_download t -> valid t.
Proof.
  intros [-> | (k & path & n & Hn & ->)]; [right; reflexivity|].
  left. exists k, path, n. split; [|reflexivity].
  destruct k, path; cbn in Hn; lia.
Qed.

(** One more operation, unless it is the send on the download
    semaphore. *)
Lemma before_download_advance t :
  before_download t ->
  match code t with
  | [] => True
  | Send DownloadSem :: _ => True
  | _ => before_download (advance t)
  end.
Proof.
  intros [-> | (k & path & n & Hn & ->)]; [exact I|].
  early k path n Hn;
    match goal with
    | |- match code (advance_n ?n (spawn ?k ?p)) with _ => _ end =>
        first [ cbn; exact I
              | assert (H : before_download (advance (advance_n n (spawn k p))))
                  by (right; exists k, p, (S n); split; [cbn; lia|reflexivity]);
                cbn in H |- *; exact H ]
    end.
Qed.

(** What such a goroutine holds, and where it is when it has returned. *)
Lemma before_download_facts t :
  before_download t ->
  count DownloadSem (held t) = O /\ count UploadSem (held t) = O
  /\ (code t = [] ->
      t = gave_up
      \/ exists k, t = advance_n (length (goroutine k BeforeDownload))
                         (spawn k BeforeDownload)).
Proof.
  intros [-> | (k & path & n & Hn & ->)].
  - cbn. auto.
  - early k path n Hn; cbn; splits; auto; try discriminate; intros _; right;
      first [ exists Batch; reflexivity | exists Immediate; reflexivity ].
Qed.

Lemma exec_keeps_before_download cfg a s s' :
  config.MaxConcurrentDownloads cfg = 0 ->
  Inv cfg s -> Forall before_download (threads s) ->
  exec cfg a s = Some s' -> Forall before_download (threads s').
Proof.
  intros Hzero (Hch & Hval & Hcap) Hall H. destruct s as [ch l done]. simpl in *.
  destruct a as [k path| |i|i]; simpl in H.
  - inv H. simpl. apply Forall_app. split; [exact Hall|].
    constructor; [|constructor]. right. exists k, path, O. split; [lia|reflexivity].
  - inv H. exact Hall.
  - destruct (nth_error l i) as [t|] eqn:Hi; [|discriminate].
    pose proof (Forall_nth_error before_download l i t Hall Hi) as Ht.
    pose proof (before_download_advance t Ht) as Hadv.
    destruct (code t) as [|instr rest] eqn:Hcode; [discriminate|].
    destruct instr as [c|c|c|c|d| |].
    + destruct (Z.of_nat (ch c) <? capacity cfg c) eqn:Hroom; [|discriminate].
      apply Z.ltb_lt in Hroom. inv H. simpl.
      destruct c; try (apply Forall_replace_nth; assumption).
      simpl in Hroom. lia.
    + destruct (0 <? ch c)%nat; [|discriminate]. inv H. simpl.
      apply Forall_replace_nth; assumption.
    + destruct (0 <? ch c)%nat; [|discriminate]. inv H. simpl.
      apply Forall_replace_nth; assumption.
    + destruct (Z.of_nat (ch c) <? capacity cfg c); [|discriminate]. inv H. simpl.
      apply Forall_replace_nth; assumption.
    + inv H. simpl. apply Forall_replace_nth; assumption.
    + inv H. simpl. apply Forall_replace_nth; assumption.
    + inv H. simpl. apply Forall_replace_nth; assumption.
  - destruct (nth_error l i) as [t|] eqn:Hi; [|discriminate].
    pose proof (Forall_nth_error valid l i t Hval Hi) as Ht.
    pose proof (valid_facts t Ht) as (_ & _ & Hrecv & Hdone).
    destruct (code t) as [|instr rest] eqn:Hcode; [discriminate|].
    destruct instr as [c|c|c|c|d| |]; try discriminate.
    + destruct (ch c =? 0)%nat eqn:Hnone; [|discriminate].
      apply Nat.eqb_eq in Hnone. exfalso.
      pose proof (Hrecv c rest (or_intror eq_refl)) as Hheld.
      pose proof (sum_ge_nth (fun t => count c (held t)) l i t Hi) as Hge.
      specialize (Hch c). unfold holders in Hch. simpl in *. lia.
    + destruct done; [|discriminate]. inv H. simpl.
      apply Forall_replace_nth; [exact Hall|]. left.
      exact (Hdone c rest eq_refl).
Qed.

Lemma run_keeps_before_download cfg sched : forall s s',
  config.MaxConcurrentDownloads cfg = 0 ->
  Inv cfg s -> Forall before_download (threads s) ->
  run cfg sched s = Some s' -> Forall before_download (threads s').
Proof.
  induction sched as [|a sched IH]; intros s s' Hz HI Hall H; simpl in H.
  - inv H. exact Hall.
  - destruct (exec cfg a s) as [s1|] eqn:E; [|discriminate].
    apply (IH s1 s' Hz); [| |exact H].
    + eapply exec_preserves; eauto.
    + eapply exec_keeps_before_download; eauto.
Qed.

End admission_blocked.

(** X11. With [MaxConcurrentDownloads = 0] the download semaphore is an
    unbuffered channel nobody receives from: in every state the
    program reaches no goroutine holds a slot of the download or of the
    upload semaphore, a goroutine that has come to the send on the
    download semaphore can do nothing more (the send is not in a
    select, so cancelling the context does not free it), and the only
    goroutines that have returned are those whose [processVideo]
    returned before the download and those that gave up waiting for
    the limiter. *)
Theorem no_download_slot_blocks_every_download :
  forall (cfg : config.Config) (sched : list admission.Action) (s : admission.State),
    config.MaxConcurrentDownloads cfg = 0 ->
    admission.run cfg sched admission.initial = Some s ->
    forall i t,
      nth_error (admission.threads s) i = Some t ->
      admission.count admission.DownloadSem (admission.held t) = O
      /\ admission.count admission.UploadSem (admission.held t) = O
      /\ (forall rest,
            admission.code t = admission.Send admission.DownloadSem :: rest ->
            forall a, a = admission.Run i \/ a = admission.Skip i ->
                      admission.exec cfg a s = None)
      /\ (finished t ->
          t = gave_up
          \/ exists k,
               t = admission.advance_n
                     (length (admission.goroutine k admission.BeforeDownload))
                     (admission.spawn k admission.BeforeDownload)).
Proof.
  intros cfg sched s Hzero Hrun i t Hnth.
  assert (Hall : Forall before_download (admission.threads s)).
  { eapply admission_blocked.run_keeps_before_download; eauto.
    - apply admission_facts.Inv_initial.
    - constructor. }
  pose proof (admission_facts.Forall_nth_error _ _ _ _ Hall Hnth) as Ht.
  destruct (admission_blocked.before_download_facts t Ht) as (HD & HU & Hfin).
  splits; auto.
  intros rest Hcode a [-> | ->]; simpl; rewrite Hnth, Hcode; [|reflexivity].
  simpl. rewrite Hzero.
  destruct (Z.of_nat (admission.chans s admission.DownloadSem) <? 0) eqn:E;
    [apply Z.ltb_lt in E; lia|reflexivity].
Qed.

(** ** The two theorems at concrete schedules *)

(** Five immediate goroutines, four of them admitted: all five can
    return. *)
Lemma admission_channels_never_deadlock_witness :
  exists more s',
    admission.run Fx7.cfg_every_second (Fx7.schedule_five ++ more) admission.initial
    = Some s'
    /\ length (admission.threads s') = 5%nat
    /\ Forall finished (admission.threads s').
Proof.
  destruct (admission_channels_never_deadlock Fx7.cfg_every_second
              Fx7.schedule_five Fx7.admitted)
    as (_ & more & s' & H1 & _ & _ & H2 & H3 & _).
  - reflexivity.
  - reflexivity.
  - reflexivity.
  - vm_compute. reflexivity.
  - exists more, s'. splits; assumption.
Defined.

(** The batch goroutine that has come to the download semaphore cannot
    move. *)
Lemma no_download_slot_blocks_every_download_witness :
  admission.exec Fx11.cfg (admission.Run 0) Fx11.blocked = None.
Proof.
  destruct (no_download_slot_blocks_every_download Fx11.cfg Fx11.schedule
              Fx11.blocked eq_refl eq_refl 0%nat
              (admission.advance_n 2
                 (admission.spawn admission.Batch admission.DownloadOnly))
              eq_refl)
    as (_ & _ & H & _).
  apply (H _ eq_refl). left. reflexivity.
Defined.

(** * The HTTP layer *)

(** ** Texts *)

Module strings_facts.

Import strings.

Lemma prefix_app p s : String.prefix p (p ++ s) = true.
Proof.
  induction p as [|c p IH]; simpl; [destruct s; reflexivity|].
  destruct (ascii_dec c c); [exact IH|congruence].
Qed.

Lemma substring_all s : String.substring 0 (String.length s) s = s.
Proof. induction s as [|c s IH]; simpl; [reflexivity|]. rewrite IH. reflexivity. Qed.

Lemma substring_app p s :
  String.substring (String.length p) (String.length s) (p ++ s) = s.
Proof.
  induction p as [|c p IH]; simpl; [apply substring_all|exact IH].
Qed.

Lemma length_app p s : String.length (p ++ s) = (String.length p + String.length s)%nat.
Proof. induction p as [|c p IH]; simpl; auto. Qed.

Lemma TrimPrefix_app p s : TrimPrefix (p ++ s) p = s.
Proof.
  unfold TrimPrefix, HasPrefix. rewrite prefix_app, length_app.
  replace (String.length p + String.length s - String.length p)%nat
    with (String.length s) by lia.
  apply substring_app.
Qed.

Lemma Split_nonempty s sep : Split s sep <> [].
Proof.
  induction s as [|c s IH]; simpl; [discriminate|].
  destruct (Ascii.eqb c sep); [discriminate|].
  destruct (Split s sep); discriminate.
Qed.

Lemma Split_free s sep : free_of sep s = true -> Split s sep = [s].
Proof.
  induction s as [|c s IH]; simpl; [reflexivity|].
  intros H. apply andb_prop in H. destruct H as [Hc Hs].
  destruct (Ascii.eqb c sep); [discriminate|]. rewrite (IH Hs). reflexivity.
Qed.

Lemma Split_app s sep rest :
  free_of sep s = true ->
  Split (s ++ String sep rest) sep = s :: Split rest sep.
Proof.
  induction s as [|c s IH]; simpl.
  - intros _. rewrite Ascii.eqb_refl. reflexivity.
  - intros H. apply andb_prop in H. destruct H as [Hc Hs].
    destruct (Ascii.eqb c sep); [discriminate|]. rewrite (IH Hs). reflexivity.
Qed.

(** The pieces hold no separator, and joined by it they give the text
    back. *)
Lemma Split_pieces s sep :
  Forall (fun p => free_of sep p = true) (Split s sep)
  /\ String.concat (String sep EmptyString) (Split s sep) = s.
Proof.
  induction s as [|c s [IH1 IH2]]; simpl.
  - split; [constructor; [reflexivity|constructor]|reflexivity].
  - destruct (Ascii.eqb c sep) eqn:E.
    + apply Ascii.eqb_eq in E. subst c. split.
      * constructor; [reflexivity|exact IH1].
      * destruct (Split s sep) eqn:S; [exfalso; eapply Split_nonempty; eauto|].
        simpl in *. rewrite IH2. reflexivity.
    + destruct (Split s sep) as [|p rest] eqn:S;
        [exfalso; eapply Split_nonempty; eauto|].
      inversion_clear IH1. split.
      * constructor; [simpl; rewrite E; assumption|assumption].
      * rewrite <- IH2. destruct rest; reflexivity.
Qed.

End strings_facts.

(** ** Numbers *)

Module strconv_facts.

Import strconv.

Lemma digits_acc u : forall acc : positive,
  digits (Z.pos acc) (NilEmpty.string_of_uint u)
  = Some (Z.pos (Pos.of_uint_acc u acc)).
Proof.
  induction u; intros acc;
    cbn [NilEmpty.string_of_uint Pos.of_uint_acc digits]; [reflexivity| ..];
    match goal with
    | |- context [digit ?c] =>
        let v := eval vm_compute in (digit c) in change (digit c) with v
    end;
    cbv iota; rewrite <- IHu; f_equal; lia.
Qed.

Lemma digits_uint u :
  digits 0 (NilEmpty.string_of_uint u) = Some (Z.of_N (Pos.of_uint u)).
Proof.
  induction u; cbn [NilEmpty.string_of_uint Pos.of_uint digits]; [reflexivity| ..];
    match goal with
    | |- context [digit ?c] =>
        let v := eval vm_compute in (digit c) in change (digit c) with v
    end;
    cbv iota; [exact IHu| ..]; apply digits_acc.
Qed.

(** The numeral of a positive number is not empty and starts with a
    digit. *)
Lemma numeral_head p :
  exists c rest,
    NilZero.string_of_uint (Pos.to_uint p) = String c rest
    /\ NilEmpty.string_of_uint (Pos.to_uint p) = String c rest
    /\ Ascii.eqb c "-" = false /\ Ascii.eqb c "+" = false.
Proof.
  pose proof (DecimalPos.Unsigned.to_uint_nonnil p) as H.
  destruct (Pos.to_uint p); [congruence| | | | | | | | | | ];
    simpl; eexists; eexists; splits; reflexivity.
Qed.

(** [Atoi] reads what [%d] writes. *)
Lemma Atoi_itoa z :
  - 2 ^ 63 <= z <= 2 ^ 63 - 1 -> Atoi (itoa z) = Some z.
Proof.
  intros Hz.
  assert (R : (z <? - 2 ^ 63) || (2 ^ 63 - 1 <? z) = false).
  { apply orb_false_intro; apply Z.ltb_ge; lia. }
  unfold itoa. destruct z as [|p|p]; cbn [Z.to_int NilZero.string_of_int].
  - reflexivity.
  - destruct (numeral_head p) as (c & rest & E1 & E2 & Hm & Hp).
    assert (D : digits 0 (String c rest) = Some (Z.pos p)).
    { rewrite <- E2, digits_uint, DecimalPos.Unsigned.of_to. reflexivity. }
    rewrite E1. unfold Atoi. rewrite Hm, Hp. cbn [orb]. rewrite D, R.
    reflexivity.
  - destruct (numeral_head p) as (c & rest & E1 & E2 & Hm & Hp).
    assert (D : digits 0 (String c rest) = Some (Z.pos p)).
    { rewrite <- E2, digits_uint, DecimalPos.Unsigned.of_to. reflexivity. }
    rewrite E1. unfold Atoi.
    change (Ascii.eqb "-" "-") with true. cbn [orb]. rewrite D.
    change (- Z.pos p) with (Z.neg p). rewrite R. reflexivity.
Qed.

End strconv_facts.
